(* ===== verification/_CoqProject ===== *)
-Q . S2P
Prelude.v
Ring.v
Queue.v
Bitops.v
Bitmap.v
Kmem.v
Kfifo.v
Task.v
Capability.v
Setid.v
Privileges.v
Exec.v
Groups.v
GroupCalls.v
Shdac.v
OssDac.v
AlsaDac.v
Sort.v
Resource.v
ResourceTree.v
ResourceAlloc.v
ResourceRegion.v
ResourceInsert.v
ResourceCalls.v
RtcLib.v
RtcSh.v
Div64.v
Ctype.v
Vsprintf.v
VsprintfText.v
NumberRead.v
Vsscanf.v
Cmdline.v
BitmapText.v
BitmapPrint.v
BitmapParse.v
BitmapHex.v
BitmapScan.v
ResourceReserve.v
Rbtree.v
RbtreeShape.v
RbtreeInsert.v
RbtreeErase.v
RbtreeCalls.v
Ktime.v
Hrtimer.v
HrtimerQueue.v
HrtimerCalls.v
Timer.v
TimerWheel.v
TimerRun.v
TimerCalls.v
Jiffies.v
WordOps.v
CtypeClasses.v
