(* ===== verification/Prelude.v ===== *)
(** * A verification of the core libraries, timers, credentials and sound path of a Linux kernel

    The repository is Linux 2.6.17 as it was ported to the HP palmtops with an SH3
    processor (src/linux-2.6.17.new, configuration arch/sh/configs/hp6xx_defconfig):
    a 32-bit uniprocessor kernel without security modules.  The development models the
    parts of it that carry logic of their own and that other parts rely on, function by
    function, and proves what they promise.

    ** The parts, their files, and how they interact

    - [Prelude]: the integers of C at their widths, error numbers, loops with fuel,
      arrays whose accesses fail out of bounds, and the lemmas and tactics that all
      components use.  [Ring] and [Queue]: circular buffers against lists, and the
      interface of a byte queue ([kfifo] and the ring of the sound driver implement
      it; sequences of operations are treated once, against the interface).
      [Kmem]: kmalloc and kfree with an oracle that decides which calls fail.
    - [Bitops], [WordOps], [Bitmap]: the generic bit searches and counts of
      include/asm-generic/bitops and lib/find_next_bit.c, lib/hweight.c, and
      lib/bitmap.c with include/linux/bitmap.h.  A bit array is a list of words; the
      abstract view is the bit at a position.
    - [Div64], [Ctype], [CtypeClasses], [Vsprintf], [VsprintfText], [NumberRead], [Vsscanf], [Cmdline]:
      lib/div64.c, lib/ctype.c, lib/vsprintf.c and lib/cmdline.c.  A string is the list of its
      characters; the buffer of vsnprintf is a list of cells at an address, with the
      pointer arithmetic of the code; a reference says which text a format gives.
    - [BitmapText], [BitmapPrint], [BitmapParse], [BitmapHex], [BitmapScan]: the text forms of bitmaps of
      lib/bitmap.c on top of scnprintf and simple_strtoul; [BitmapScan] has the reference for what
      bitmap_parse reads.
    - [Kfifo]: kernel/kfifo.c, on [Ring] and [Kmem].  The abstract state is a list of
      bytes; the counters run modulo 2^32.
    - [Task], [Capability], [Setid], [Exec], [Privileges]: the credentials of a task
      (include/linux/sched.h), security/commoncap.c, kernel/capability.c, kernel/user.c,
      the set*id calls of kernel/sys.c and the credential steps of fs/exec.c, in a state
      and error monad.  The hooks of the system calls are those of commoncap.c.
    - [Groups], [GroupCalls]: struct group_info and the supplementary group calls of
      kernel/sys.c.  The sort and the search are proved against an interface of
      indexed cells ([Cells]).
    - [Shdac], [OssDac], [AlsaDac]: the DAC of the SH3, the timer and the speaker bit, and
      the two drivers on top of them, sound/oss/sh_dac_audio.c and
      sound/sh/snd_sh_dac_audio.c.  The interrupt is a step that may come between any
      two operations; what reaches the speaker is a trace.
    - [Sort]: lib/sort.c on an array of bytes, proved against an interface of elements
      that can be read and exchanged ([Store]).
    - [Resource], [ResourceTree], [ResourceAlloc], [ResourceRegion], [ResourceInsert],
      [ResourceCalls], [ResourceReserve]: kernel/resource.c on a store of linked records; the
      invariant relates the links to lists of children; [ResourceCalls] has all calls as the
      steps of one transition system, and [ResourceReserve] the boot option, which reads
      its ranges with [Cmdline] and makes such calls.
    - [Rbtree], [RbtreeShape], [RbtreeInsert], [RbtreeErase], [RbtreeCalls]: lib/rbtree.c with
      include/linux/rbtree.h on a store of nodes with parent links.  [RbtreeShape] relates the store to
      trees, with a context for the path to the root; the loops that restore the colours walk up
      this context.
    - [Ktime], [Hrtimer], [HrtimerQueue], [HrtimerCalls]: include/linux/ktime.h in its 32-bit form and
      kernel/hrtimer.c, whose queues are red-black trees in the store of [Rbtree].  The functions of timers are an
      argument; it_real_fn of kernel/itimer.c is the one with which the theorem about the expiry is instantiated.
    - [Timer], [TimerWheel], [TimerRun], [TimerCalls]: the timer wheel of kernel/timer.c.  The abstract
      state gives each pending timer the tick at which it is due, in unbounded time; the wheel has the
      low 32 bits.  [run_timer_softirq] is its part for the wheel; the part for the high-resolution timers is
      [hrtimer_run_queues].  [Jiffies]: the conversions between ticks and units of time of
      include/linux/jiffies.h.
    - [RtcLib]: drivers/rtc/rtc-lib.c and mktime of kernel/time.c.  [RtcSh]: the clock of
      the SH3, drivers/rtc/rtc-sh.c, with the calls of drivers/rtc/interface.c.  The
      device is an interface of register reads and writes ([RtcDevice]) with laws
      ([RtcLaws]); time passes with every access, and a board whose seconds end at chosen
      accesses and whose counters have the widths of the SH3 implements it.  BCD2BIN(readb(r)) reads twice.

    A definition has the name of the function that it models; a loop of a function is a
    definition of its own with the suffix [_body] or [_loop].  State is passed
    explicitly.  [None] is what the code must never do: an access outside of an array or
    through a pointer to nothing, or the end of the fuel.

    ** What the theorems show

    - Red-black trees (C1 to C3): any sequence of insertions, erasures and replacements refines an
      ordered list; insertion and erasure restore balance and colours; the walks in both
      directions give the list.
    - High-resolution timers (C4 to C6): the queues stay sorted and the first timer known; the softirq runs
      exactly the expired timers in order, and queues again exactly those whose functions ask for it; the functions
      leave other timers alone and restart in the future of their own clock; a periodic timer is moved past the present, in spite of the
      division that drops bits.  [forward_wraps] is the case in which a counter overflows.
    - The timer wheel (C7 to C9): the calls and the softirq against a queue of due ticks: each timer
      runs at its tick, through all cascades, for all counter values and all calls that the
      functions make; a timer that only its own function touches runs when it is due.  [one_shot_timers]
      is the case of functions that make no calls.  [timers_not_fifo]: timers of one tick do not run in the order in which they were added.
    - Ticks and units of time (C10): the scaled multiplications are exact.  [timeval_one_tick_more] is the
      conversion that is not.
    - Resources (C11 to C15): after any sequence of calls the resources are nested and
      siblings are disjoint; every call returns; allocation, with an alignment that is a power of two, takes the lowest range that
      fits ([allocate_below_min] is the wrap that its hypothesis excludes); insertion puts a resource above
      exactly what it covers; the boot option reserves the ranges that its text names and that are free, up to four.
    - Credentials (C16 to C20): no sequence of calls gives an unprivileged task an id or
      a permitted capability that it did not have; privileges dropped with setuid stay dropped;
      exec, capset and setgroups.  [setuid_family_results] and [group_queries_correct] give the
      results of the other calls, errors included; [keepcaps_clears_effective]
      and [cap_set_pg_skips_leader] are cases in which comment and code disagree.
    - kfifo (C21, C22): refinement of a bounded queue for all counter values; one writer and one
      reader need no lock, for every interleaving of their memory accesses.
      [kfifo_alloc_correct]: allocation failures leak nothing; [kfifo_stream]: streams arrive in order.
    - sort (C23): termination, bounds, and equality with a reference sort.
    - Words and bitmaps (C24 to C26, [word_primitives_correct], [test_and_update_correct],
      [bitmap_remap_correct], [bitmap_regions_correct]): every
      operation computes the set operation that it is named after, on the bits that count, in
      bounds, for every length.
      [find_free_region_overruns] is the boundary case in which the code departs from that.
    - Bitmap texts (C27 to C29): what the two readers accept, the error for everything else (for
      bitmap_parse on every buffer, against a reference that splits the text at its commas),
      and that a bitmap which is printed in a buffer large enough is read back.
    - Text conversions (C30 to C32, [div64_correct], [get_options_correct]): the printf family writes
      the prefix of one reference text that fits, in bounds, and returns the length that the
      interface promises; numbers that start without blanks or a plus sign, and formats, are read back by the scanning functions;
      division of 64-bit numbers; the lists of the command line; [ctype_classes_correct]: what the table
      of characters says.
    - Sound (C33 to C36, [dac_lifecycle], [alsa_probe_remove]): both drivers against a queue of samples,
      their lifecycles, the invariant of the buffer through any sequence of operations and
      interrupts, that closing returns, and the races, overruns and leaks that are there.
    - Dates (C37, C38): every 32-bit time has a valid date and comes back from it.
      [rtc_valid_tm_cases]: what rtc_valid_tm accepts.
    - The clock (C39, C40): a date that is read is the one of a single instant although
      the clock runs meanwhile; a date that is set is read back when no second ends in between; the error paths.

    ** Fuel and bounds

    Loops over an array or a list take fuel computed from the size of the data, one
    turn more than there are elements, and the theorems prove that the loop ends within it.
    The loops in a red-black tree take one turn more than there are nodes, the expiry of a timer queue
    one more than there are timers, and the division of [Ktime] 33 turns, one for each bit that
    the divisor may lose and one more.  The timer softirq takes its fuel as an argument, one turn more than the
    ticks that passed.  The descents into the resource tree take fuel as an argument; the theorems say that
    from some fuel on the result is there and does not change.  The turns of the sound
    drivers that wait for interrupts take as many interrupts as there are samples; the
    retries of the clock end with the first pass in which no second ends.
    The text loops run over the characters of a string and end with it; the division that
    gives the digits of a number takes 65 turns, one more than a 64-bit number has bits.
    Integers are kept at 32 bits wherever the code can wrap; where a theorem asks for
    an input below a bound, the bound is the one at which the code does wrap.

    ** What is not modelled

    The schedule of several processors and the implementation of locks (a lock is a
    critical section, except in C22 and C34, where the steps interleave), and with them the
    migration of timers between processors; sleeping on timers (nanosleep, schedule_timeout), which
    needs the scheduler; memory management, file systems, networking and the other drivers, which
    are seen through the calls that the modelled parts make; assembly code; printing to the log and
    to /proc; the names of resources.  Functions of other parts (request_irq, the
    registration of devices, the functions of timers, callbacks) are arguments.

    A continuation would take the calls that only read credentials, the alarm calls and the
    event queue of the RTC class, and the wall clock of kernel/timer.c. *)
From stdpp Require Import base list gmap option numbers.
From Stdlib Require Import ZArith Lia.

Local Open Scope Z_scope.

(** ** Machine integers

    The kernel is built for the SH3 (32-bit) HP palmtops: [int], [long] and
    pointers are 32 bits wide.  A C integer is a [Z]; the functions below bring
    the result of an operation back to its width. *)

Definition U8_MOD : Z := 2 ^ 8.
Definition U16_MOD : Z := 2 ^ 16.
Definition U32_MOD : Z := 2 ^ 32.
Definition INT_MAX : Z := 2 ^ 31 - 1.
Definition UINT_MAX : Z := 2 ^ 32 - 1.
Definition BITS_PER_LONG : Z := 32.

Definition u8 (x : Z) : Z := x mod U8_MOD.
Definition u16 (x : Z) : Z := x mod U16_MOD.
Definition u32 (x : Z) : Z := x mod U32_MOD.
Definition s32 (x : Z) : Z := (x + 2 ^ 31) mod U32_MOD - 2 ^ 31.

Definition is_u8 (x : Z) : Prop := 0 <= x < U8_MOD.
Definition is_u16 (x : Z) : Prop := 0 <= x < U16_MOD.
Definition is_u32 (x : Z) : Prop := 0 <= x < U32_MOD.
Definition is_s32 (x : Z) : Prop := - 2 ^ 31 <= x <= INT_MAX.

(** Error numbers of include/asm-generic/errno-base.h; a failing function
    returns the negated value. *)
Definition EPERM : Z := 1.
Definition ENOENT : Z := 2.
Definition E2BIG : Z := 7.
Definition EAGAIN : Z := 11.
Definition ENOMEM : Z := 12.
Definition EACCES : Z := 13.
Definition EFAULT : Z := 14.
Definition ESRCH : Z := 3.
Definition EBUSY : Z := 16.
Definition ENODEV : Z := 19.
Definition EINVAL : Z := 22.
Definition ERANGE : Z := 34.

Ltac unfold_widths :=
  unfold is_u8, is_u16, is_u32, is_s32, u8, u16, u32, s32,
    U8_MOD, U16_MOD, U32_MOD, INT_MAX, UINT_MAX in *.

(** Arithmetic on machine integers: unfold the widths, then [lia]. *)
Ltac width_lia := unfold_widths; change (2 ^ 31) with 2147483648 in *;
  change (2 ^ 32) with 4294967296 in *; change (2 ^ 16) with 65536 in *;
  change (2 ^ 8) with 256 in *; try lia.

(** Linear arithmetic with division and remainder by constants. *)
Ltac div_lia := Z.to_euclidean_division_equations; lia.

Lemma u32_small x : is_u32 x -> u32 x = x.
Proof. intros. unfold u32. by apply Z.mod_small. Qed.

Lemma u32_range x : is_u32 (u32 x).
Proof. unfold is_u32, u32. apply Z.mod_pos_bound. done. Qed.

Lemma s32_small x : is_s32 x -> s32 x = x.
Proof. intros H. unfold s32. rewrite Z.mod_small; width_lia. Qed.

Lemma s32_range x : is_s32 (s32 x).
Proof.
  unfold is_s32, s32, INT_MAX.
  pose proof (Z.mod_pos_bound (x + 2 ^ 31) U32_MOD ltac:(done)). width_lia.
Qed.

Lemma u32_idemp x : u32 (u32 x) = u32 x.
Proof. apply u32_small, u32_range. Qed.

Lemma u32_add_l x y : u32 (u32 x + y) = u32 (x + y).
Proof. unfold u32. by rewrite Zplus_mod_idemp_l. Qed.

Lemma u32_add_r x y : u32 (x + u32 y) = u32 (x + y).
Proof. unfold u32. by rewrite Zplus_mod_idemp_r. Qed.

Lemma u32_sub_l x y : u32 (u32 x - y) = u32 (x - y).
Proof. unfold u32. by rewrite Zminus_mod_idemp_l. Qed.

Lemma u32_sub_r x y : u32 (x - u32 y) = u32 (x - y).
Proof. unfold u32. by rewrite Zminus_mod_idemp_r. Qed.

Create HintDb width.
Create Rewrite HintDb width_rw.
#[export] Hint Rewrite u32_idemp u32_add_l u32_add_r u32_sub_l u32_sub_r : width_rw.
#[export] Hint Resolve u32_range s32_range : width.

(** ** Loops

    A C loop is [loop fuel body s]: the body either continues with a new loop
    state ([inl]) or leaves the loop with a result ([inr]).  [None] means that
    the fuel ran out.  [loop_total] is the rule every termination and
    functional theorem about a loop goes through. *)
Fixpoint loop {S R : Type} (fuel : nat) (body : S -> S + R) (s : S) : option R :=
  match fuel with
  | O => None
  | Datatypes.S fuel =>
      match body s with
      | inl s' => loop fuel body s'
      | inr r => Some r
      end
  end.

Lemma loop_total {S R} (body : S -> S + R) (I : S -> Prop) (Q : R -> Prop)
    (m : S -> nat) :
  (forall s, I s ->
    match body s with
    | inl s' => I s' /\ (m s' < m s)%nat
    | inr r => Q r
    end) ->
  forall fuel s, I s -> (m s < fuel)%nat ->
  exists r, loop fuel body s = Some r /\ Q r.
Proof.
  intros Hbody fuel. induction fuel as [|fuel IH]; intros s HI Hm; [lia|].
  cbn. specialize (Hbody s HI). destruct (body s) as [s'|r].
  - destruct Hbody. apply IH; [done|lia].
  - eauto.
Qed.

Lemma loop_S {S R} (body : S -> S + R) fuel s :
  loop (Datatypes.S fuel) body s =
    match body s with inl s' => loop fuel body s' | inr r => Some r end.
Proof. done. Qed.

Arguments loop : simpl never.

(** [for (k = lo; k < lo + n; ++k) body] is [for_each body (seqZ lo n)] and the
    loop that counts down runs over the reversed list; the body may fail. *)
Fixpoint for_each {S : Type} (body : Z -> S -> option S) (ks : list Z) (s : S) : option S :=
  match ks with
  | [] => Some s
  | k :: ks => s' ← body k s; for_each body ks s'
  end.

Lemma for_each_app {S} (body : Z -> S -> option S) ks ks' s :
  for_each body (ks ++ ks') s = s' ← for_each body ks s; for_each body ks' s'.
Proof.
  revert s. induction ks as [|k ks IH]; intros s; [done|]. simpl.
  by destruct (body k s); simpl.
Qed.

Lemma for_up {S} (body : Z -> S -> option S) (I : Z -> S -> Prop) lo n s :
  0 <= n -> I lo s ->
  (forall k s, lo <= k < lo + n -> I k s -> exists s', body k s = Some s' /\ I (k + 1) s') ->
  exists s', for_each body (seqZ lo n) s = Some s' /\ I (lo + n) s'.
Proof.
  intros Hn. revert lo s. pattern n. apply natlike_ind; [| |done].
  - intros lo s HI _. exists s. rewrite Z.add_0_r. done.
  - clear n Hn. intros n Hn IH lo s HI Hb. rewrite seqZ_cons by lia. simpl.
    destruct (Hb lo s ltac:(lia) HI) as (s1 & -> & HI1). simpl.
    rewrite Z.pred_succ, <- Z.add_1_r.
    destruct (IH (lo + 1) s1 HI1) as (s2 & E & HI2).
    { intros k s' Hk. apply Hb. lia. }
    exists s2. rewrite Z.add_1_r in E. rewrite Z.add_1_r, E. split; [done|].
    by replace (lo + Z.succ n) with (lo + 1 + n) by lia.
Qed.

Lemma for_down {S} (body : Z -> S -> option S) (I : Z -> S -> Prop) n s :
  0 <= n -> I n s ->
  (forall k s, 0 <= k < n -> I (k + 1) s -> exists s', body k s = Some s' /\ I k s') ->
  exists s', for_each body (reverse (seqZ 0 n)) s = Some s' /\ I 0 s'.
Proof.
  intros Hn. revert s. pattern n. apply natlike_ind; [| |done].
  - intros s HI _. exists s. done.
  - clear n Hn. intros n Hn IH s HI Hb. rewrite <- Z.add_1_r, seqZ_app by lia.
    replace (seqZ (0 + n) 1) with [n] by (rewrite seqZ_cons by lia; done).
    rewrite reverse_snoc.
    destruct (Hb n s ltac:(lia)) as (s1 & E1 & HI1); [by rewrite Z.add_1_r|].
    cbn [for_each]. rewrite E1. simpl.
    apply IH; [done|]. intros k s' Hk. apply Hb. lia.
Qed.

(** The least index below [n] that satisfies a decidable predicate. *)
Lemma least_index (P : Z -> bool) (n : nat) :
  (exists i, 0 <= i < Z.of_nat n /\ P i = true) ->
  exists p, 0 <= p < Z.of_nat n /\ P p = true /\ forall i, 0 <= i < p -> P i = false.
Proof.
  induction n as [|n IH]; intros (j & Hj & HP); [lia|].
  destruct (existsb (fun k => P (Z.of_nat k)) (seq 0 n)) eqn:E.
  - apply existsb_exists in E as (k & Hk & HPk). apply in_seq in Hk.
    destruct IH as (p & ? & ? & ?); [exists (Z.of_nat k); split; [lia|done]|].
    exists p. split_and!; [lia|lia|done|done].
  - assert (Hall : forall i, 0 <= i < Z.of_nat n -> P i = false).
    { intros i Hi. destruct (P i) eqn:Ei; [|done].
      apply not_true_iff_false in E. destruct E. apply existsb_exists.
      exists (Z.to_nat i). rewrite Z2Nat.id by lia. split; [|done].
      apply in_seq. lia. }
    exists j. split_and!; [lia|lia|done|].
    intros i Hi. apply Hall. lia.
Qed.

(** Taking a value out of a list that does not have it. *)
Lemma filter_absent (x : Z) (l : list Z) : x ∉ l -> filter (fun y => y <> x) l = l.
Proof.
  induction l as [|y l IH]; [done|]. intros [Hy Hl]%not_elem_of_cons.
  rewrite filter_cons_True by congruence. by rewrite IH.
Qed.

(** ** Arrays and memory copies

    A C buffer is a list of cells.  Accesses outside of it are errors ([None]):
    a theorem that an operation returns [Some] says it stays in bounds. *)

(** [n] cells of [src] from offset [off]. *)
Definition mem_read {A} (src : list A) (off n : Z) : option (list A) :=
  if bool_decide (0 <= off /\ 0 <= n /\ off + n <= Z.of_nat (length src))
  then Some (take (Z.to_nat n) (drop (Z.to_nat off) src))
  else None.

(** Overwrite [dst] from offset [off] with [data]. *)
Definition mem_write {A} (dst : list A) (off : Z) (data : list A) : option (list A) :=
  if bool_decide (0 <= off /\ off + Z.of_nat (length data) <= Z.of_nat (length dst))
  then Some (take (Z.to_nat off) dst ++ data ++
             drop (Z.to_nat off + length data) dst)
  else None.

(** memcpy(dst + doff, src + soff, n) between distinct buffers. *)
Definition memcpy {A} (dst : list A) (doff : Z) (src : list A) (soff n : Z)
    : option (list A) :=
  data ← mem_read src soff n; mem_write dst doff data.

(** [a[i]] and [a[i] = v] on an array, with their bounds checks. *)
Definition array_get {A} (a : list A) (i : Z) : option A :=
  if bool_decide (0 <= i) then a !! Z.to_nat i else None.

Definition array_set {A} (a : list A) (i : Z) (v : A) : option (list A) :=
  if bool_decide (0 <= i < Z.of_nat (length a))
  then Some (<[Z.to_nat i := v]> a) else None.

Lemma mem_read_Some {A} (src : list A) off n :
  0 <= off -> 0 <= n -> off + n <= Z.of_nat (length src) ->
  mem_read src off n = Some (take (Z.to_nat n) (drop (Z.to_nat off) src)).
Proof. intros. unfold mem_read. by rewrite bool_decide_true by lia. Qed.

Lemma mem_write_Some {A} (dst : list A) off data :
  0 <= off -> off + Z.of_nat (length data) <= Z.of_nat (length dst) ->
  mem_write dst off data =
    Some (take (Z.to_nat off) dst ++ data ++ drop (Z.to_nat off + length data) dst).
Proof. intros. unfold mem_write. by rewrite bool_decide_true by lia. Qed.

Lemma mem_read_length {A} (src : list A) off n l :
  mem_read src off n = Some l -> length l = Z.to_nat n.
Proof.
  unfold mem_read. case_bool_decide; [|done]. intros [= <-].
  rewrite length_take, length_drop. lia.
Qed.

Lemma mem_write_length {A} (dst : list A) off data l :
  mem_write dst off data = Some l -> length l = length dst.
Proof.
  unfold mem_write. case_bool_decide; [|done]. intros [= <-].
  rewrite !length_app, length_take, length_drop. lia.
Qed.

Lemma mem_write_lookup {A} (dst : list A) off data l (i : nat) :
  mem_write dst off data = Some l ->
  l !! i = if bool_decide (off <= Z.of_nat i < off + Z.of_nat (length data))
           then data !! (i - Z.to_nat off)%nat else dst !! i.
Proof.
  unfold mem_write. case_bool_decide as Hb; [|done]. intros [= <-].
  assert (Hlen : length (take (Z.to_nat off) dst) = Z.to_nat off)
    by (rewrite length_take; lia).
  case_bool_decide as Hi.
  - rewrite lookup_app_r by lia. rewrite Hlen. by rewrite lookup_app_l by lia.
  - destruct (decide (Z.of_nat i < off)).
    + rewrite lookup_app_l by lia. apply lookup_take_lt. lia.
    + rewrite lookup_app_r by lia. rewrite lookup_app_r by lia.
      rewrite lookup_drop. f_equal. lia.
Qed.

Lemma mem_read_lookup {A} (src : list A) off n l (i : nat) :
  mem_read src off n = Some l -> (Z.of_nat i < n) ->
  l !! i = src !! (Z.to_nat off + i)%nat.
Proof.
  unfold mem_read. case_bool_decide; [|done]. intros [= <-] ?.
  rewrite lookup_take_lt by lia. by rewrite lookup_drop.
Qed.

Lemma memcpy_nothing {A} (buf data b : list A) doff soff :
  memcpy buf doff data soff 0 = Some b -> b = buf.
Proof.
  unfold memcpy, mem_read. case_bool_decide; [|done]. simpl. unfold mem_write.
  case_bool_decide; [|done]. intros [= <-]. simpl. rewrite Nat.add_0_r. by rewrite take_drop.
Qed.

Lemma array_get_Some {A} (a : list A) i :
  0 <= i < Z.of_nat (length a) -> is_Some (array_get a i).
Proof.
  intros. unfold array_get. rewrite bool_decide_true by lia.
  apply lookup_lt_is_Some. lia.
Qed.

Lemma array_set_Some {A} (a : list A) i v :
  0 <= i < Z.of_nat (length a) -> array_set a i v = Some (<[Z.to_nat i := v]> a).
Proof. intros. unfold array_set. by rewrite bool_decide_true by lia. Qed.

(** Closes closed arithmetic side conditions by evaluation. *)
Ltac by_eval := first [ reflexivity | by vm_compute | vm_compute; intuition discriminate
  | vm_compute; intuition congruence ].

(** ** Exchanging two cells *)
Lemma list_swap_Permutation {A} (l : list A) (i j : nat) x y :
  l !! i = Some x -> l !! j = Some y -> <[i := y]> (<[j := x]> l) ≡ₚ l.
Proof.
  intros Hi Hj. apply Permutation_inj. rewrite !length_insert. split; [done|].
  exists (fun k => if decide (k = i) then j else if decide (k = j) then i else k). split.
  - intros a b. repeat case_decide; congruence.
  - intros k. pose proof (lookup_lt_Some _ _ _ Hi). pose proof (lookup_lt_Some _ _ _ Hj).
    destruct (decide (k = i)) as [->|Hki].
    + rewrite list_lookup_insert_eq; [done|]. by rewrite length_insert.
    + rewrite list_lookup_insert_ne by done. destruct (decide (k = j)) as [->|Hkj].
      * by rewrite list_lookup_insert_eq.
      * by rewrite list_lookup_insert_ne.
Qed.
