(* ===== verification/Ring.v ===== *)
(** Circular buffers: the abstract view shared by kernel/kfifo.c and the OSS
    DAC driver.  Both store a queue in an array and copy in two pieces, up to
    the end of the array and then from its start; the lemmas here say what the
    two copies do to the queue the array represents. *)
From stdpp Require Import base list numbers option.
From Stdlib Require Import ZArith Lia.
From S2P Require Import Prelude.

Local Open Scope Z_scope.

Section ring.
Context {A : Type} `{!Inhabited A}.
Implicit Types (buf data dst : list A) (pos n : Z).

(** The [n] cells of the array from [pos], indices taken modulo its length. *)
Definition ring_slice buf pos n : list A :=
  (fun i : nat => buf !!! Z.to_nat ((pos + Z.of_nat i) mod Z.of_nat (length buf)))
    <$> seq 0 (Z.to_nat n).

Lemma ring_slice_length buf pos n : length (ring_slice buf pos n) = Z.to_nat n.
Proof. unfold ring_slice. by rewrite length_fmap, length_seq. Qed.

Lemma ring_slice_lookup buf pos n (i : nat) :
  (Z.of_nat i < n) ->
  ring_slice buf pos n !! i =
    Some (buf !!! Z.to_nat ((pos + Z.of_nat i) mod Z.of_nat (length buf))).
Proof.
  intros Hi. unfold ring_slice. rewrite list_lookup_fmap.
  rewrite lookup_seq_lt by lia. done.
Qed.

(** Two slices are equal when they agree cell by cell. *)
Lemma ring_slice_ext buf buf' pos pos' n :
  (forall i, 0 <= i < n ->
     buf !!! Z.to_nat ((pos + i) mod Z.of_nat (length buf)) =
     buf' !!! Z.to_nat ((pos' + i) mod Z.of_nat (length buf'))) ->
  ring_slice buf pos n = ring_slice buf' pos' n.
Proof.
  intros H. apply list_eq_same_length with (n := Z.to_nat n);
    rewrite ?ring_slice_length; try done.
  intros i x y Hi. rewrite !ring_slice_lookup by lia. intros [= <-] [= <-].
  apply H. lia.
Qed.

Lemma ring_slice_shift buf pos pos' n :
  pos mod Z.of_nat (length buf) = pos' mod Z.of_nat (length buf) ->
  ring_slice buf pos n = ring_slice buf pos' n.
Proof.
  intros H. apply ring_slice_ext. intros i Hi. do 2 f_equal.
  rewrite <- Zplus_mod_idemp_l, H, Zplus_mod_idemp_l. done.
Qed.

Lemma ring_slice_app buf pos n1 n2 :
  0 <= n1 -> 0 <= n2 ->
  ring_slice buf pos (n1 + n2) = ring_slice buf pos n1 ++ ring_slice buf (pos + n1) n2.
Proof.
  intros. apply list_eq. intros i.
  destruct (decide (Z.of_nat i < n1)) as [Hi|Hi].
  - rewrite lookup_app_l by (rewrite ring_slice_length; lia).
    by rewrite !ring_slice_lookup by lia.
  - rewrite lookup_app_r by (rewrite ring_slice_length; lia).
    rewrite ring_slice_length.
    destruct (decide (Z.of_nat i < n1 + n2)).
    + rewrite !ring_slice_lookup by lia. do 4 f_equal. lia.
    + rewrite !lookup_ge_None_2; rewrite ?ring_slice_length; [done|lia..].
Qed.

Lemma ring_slice_take buf pos n m :
  0 <= m <= n -> take (Z.to_nat m) (ring_slice buf pos n) = ring_slice buf pos m.
Proof.
  intros. replace n with (m + (n - m)) by lia. rewrite ring_slice_app by lia.
  rewrite take_app_length' by (rewrite ring_slice_length; lia). done.
Qed.

Lemma ring_slice_drop buf pos n m :
  0 <= m <= n -> drop (Z.to_nat m) (ring_slice buf pos n) = ring_slice buf (pos + m) (n - m).
Proof.
  intros. replace n with (m + (n - m)) at 1 by lia. rewrite ring_slice_app by lia.
  rewrite drop_app_length' by (rewrite ring_slice_length; lia). done.
Qed.

(** The remainder of an index that has run at most once past the end. *)
Lemma wrap_mod pos i size :
  0 <= pos < size -> 0 <= i < size ->
  (pos + i) mod size = if bool_decide (i < size - pos) then pos + i else pos + i - size.
Proof.
  intros. case_bool_decide.
  - apply Z.mod_small. lia.
  - symmetry. apply Z.mod_unique with 1; lia.
Qed.

(** Copying [n] cells into the ring in two pieces stores them at [pos] and
    keeps the other cells. *)
Lemma ring_put_two buf data pos n l :
  let size := Z.of_nat (length buf) in
  0 <= pos < size -> 0 <= n <= size -> n <= Z.of_nat (length data) ->
  l = Z.min n (size - pos) ->
  exists b1 b2,
    memcpy buf pos data 0 l = Some b1 /\
    memcpy b1 0 data l (n - l) = Some b2 /\
    length b2 = length buf /\
    ring_slice b2 pos n = take (Z.to_nat n) data /\
    ring_slice b2 (pos + n) (size - n) = ring_slice buf (pos + n) (size - n).
Proof.
  intros size Hp Hn Hd Hl. unfold memcpy.
  destruct (mem_read data 0 l) as [d1|] eqn:E1;
    [|by rewrite mem_read_Some in E1 by lia].
  pose proof (mem_read_length _ _ _ _ E1) as L1. simpl.
  destruct (mem_write buf pos d1) as [b1|] eqn:W1;
    [|by rewrite mem_write_Some in W1 by lia].
  pose proof (mem_write_length _ _ _ _ W1) as LB1.
  destruct (mem_read data l (n - l)) as [d2|] eqn:E2;
    [|by rewrite mem_read_Some in E2 by lia].
  pose proof (mem_read_length _ _ _ _ E2) as L2.
  destruct (mem_write b1 0 d2) as [b2|] eqn:W2;
    [|by rewrite mem_write_Some in W2 by lia].
  pose proof (mem_write_length _ _ _ _ W2) as LB2.
  assert (Hcell : forall i, 0 <= i < size ->
    b2 !! Z.to_nat ((pos + i) mod size) =
      if bool_decide (i < n) then data !! Z.to_nat i
      else buf !! Z.to_nat ((pos + i) mod size)).
  { intros i Hi. rewrite wrap_mod by lia.
    rewrite (mem_write_lookup _ _ _ _ _ W2), (mem_write_lookup _ _ _ _ _ W1).
    repeat case_bool_decide; try lia.
    - rewrite (mem_read_lookup _ _ _ _ _ E2) by lia. f_equal. lia.
    - rewrite (mem_read_lookup _ _ _ _ _ E1) by lia. f_equal. lia.
    - done.
    - done. }
  exists b1, b2. split_and!; [done|done|congruence| |].
  - apply list_eq_same_length with (n := Z.to_nat n);
      [rewrite length_take; lia|by rewrite ring_slice_length|].
    intros i x y Hi. rewrite ring_slice_lookup by lia.
    rewrite lookup_take_lt by lia. intros [= <-] Hy.
    apply list_lookup_total_correct. rewrite LB2, LB1. fold size.
    rewrite Hcell by lia. rewrite bool_decide_true by lia. by rewrite Nat2Z.id.
  - apply ring_slice_ext. intros i Hi. rewrite LB2, LB1. fold size.
    rewrite !list_lookup_total_alt. f_equal.
    rewrite <- Z.add_assoc. rewrite Hcell by lia. by rewrite bool_decide_false by lia.
Qed.

(** Appending: storing [n] cells behind a queue of [len] cells at [out] in two
    pieces extends the queue. *)
Lemma ring_append buf data out len n pos l :
  let size := Z.of_nat (length buf) in
  0 < size -> 0 <= len -> 0 <= n -> len + n <= size -> n <= Z.of_nat (length data) ->
  pos = (out + len) mod size -> l = Z.min n (size - pos) ->
  exists b1 b2,
    memcpy buf pos data 0 l = Some b1 /\
    memcpy b1 0 data l (n - l) = Some b2 /\
    length b2 = length buf /\
    ring_slice b2 out (len + n) = ring_slice buf out len ++ take (Z.to_nat n) data.
Proof.
  intros size Hs Hlen Hn Hfit Hdata Hpos Hl.
  pose proof (Z.mod_pos_bound (out + len) size ltac:(lia)) as Hmod.
  destruct (ring_put_two buf data pos n l) as (b1 & b2 & E1 & E2 & B1 & B2 & B3);
    [lia|lia|lia|done|].
  exists b1, b2. split_and!; [done|done|done|]. fold size in B3.
  rewrite ring_slice_app by lia. f_equal.
  - pose proof (ring_slice_drop b2 (pos + n) (size - n) (size - n - len) ltac:(lia)) as D1.
    pose proof (ring_slice_drop buf (pos + n) (size - n) (size - n - len) ltac:(lia)) as D2.
    rewrite B3, D2 in D1. replace (size - n - (size - n - len)) with len in D1 by lia.
    assert (Epos : forall b : list A, length b = length buf ->
      ring_slice b (pos + n + (size - n - len)) len = ring_slice b out len).
    { intros b Hb. apply ring_slice_shift. rewrite Hb. fold size. rewrite Hpos.
      replace ((out + len) mod size + n + (size - n - len))
        with ((out + len) mod size + (size - len)) by lia.
      rewrite Zplus_mod_idemp_l. replace (out + len + (size - len)) with (out + 1 * size) by lia.
      apply Z_mod_plus_full. }
    rewrite !Epos in D1 by done. done.
  - rewrite <- B2. apply ring_slice_shift. rewrite B1, Hpos. fold size. symmetry. apply Z.mod_mod. lia.
Qed.

(** Copying [n] cells out of the ring in two pieces delivers the slice at
    [pos], and leaves the rest of the destination alone. *)
Lemma ring_get_two buf dst pos n l :
  let size := Z.of_nat (length buf) in
  0 <= pos < size -> 0 <= n <= size -> n <= Z.of_nat (length dst) ->
  l = Z.min n (size - pos) ->
  exists d1,
    memcpy dst 0 buf pos l = Some d1 /\
    memcpy d1 l buf 0 (n - l) =
      Some (ring_slice buf pos n ++ drop (Z.to_nat n) dst).
Proof.
  intros size Hp Hn Hd Hl. unfold memcpy.
  rewrite mem_read_Some by lia. simpl.
  rewrite mem_write_Some by (rewrite ?length_take, ?length_drop; lia).
  eexists. split; [done|]. rewrite mem_read_Some by lia. simpl.
  rewrite length_take, length_drop.
  rewrite mem_write_Some by
    (rewrite ?length_app, ?length_take, ?length_drop; simpl; lia).
  f_equal. rewrite length_take, length_drop. simpl.
  replace (Z.to_nat l `min` (length buf - Z.to_nat pos))%nat with (Z.to_nat l) by lia.
  rewrite take_app_length' by (rewrite length_take, length_drop; lia).
  rewrite drop_app_ge by (rewrite length_take, length_drop; lia).
  rewrite drop_drop, app_assoc. f_equal.
  - symmetry. apply list_eq_same_length with (n := Z.to_nat n);
      [rewrite length_app, !length_take, !length_drop; lia
      |by rewrite ring_slice_length|].
    intros i x y Hi. rewrite ring_slice_lookup by lia. intros [= <-] Hy.
    apply list_lookup_total_correct. rewrite <- Hy. fold size.
    rewrite wrap_mod by lia. case_bool_decide.
    + rewrite lookup_app_l by (rewrite length_take, length_drop; lia).
      rewrite lookup_take_lt by lia. rewrite lookup_drop. f_equal. lia.
    + rewrite lookup_app_r by (rewrite length_take, length_drop; lia).
      rewrite length_take, length_drop.
      rewrite lookup_take_lt by lia. rewrite lookup_drop. f_equal. lia.
  - f_equal. rewrite !length_take, length_drop. lia.
Qed.

End ring.
