(* ===== verification/Queue.v ===== *)
(** What a byte queue promises to its users.  kernel/kfifo.c and the ring of the
    OSS DAC driver implement this interface; the theorem about sequences of
    operations is proved once, against the interface. *)
From stdpp Require Import base list numbers option.
From Stdlib Require Import ZArith Lia.
From S2P Require Import Prelude.

Local Open Scope Z_scope.

(** The operations: [q_put] offers bytes and returns how many were taken,
    [q_get] asks for at most [n] bytes.  [None] is an access out of bounds. *)
Class ByteQueue (Q : Type) := {
  q_put : Q -> list Z -> option (nat * Q);
  q_get : Q -> nat -> option (list Z * Q);
  q_inv : Q -> Prop;
  q_contents : Q -> list Z;
  q_capacity : Q -> nat
}.

Class ByteQueueLaws (Q : Type) `{!ByteQueue Q} : Prop := {
  q_put_law : forall q data, q_inv q ->
    let n := (length data `min` (q_capacity q - length (q_contents q)))%nat in
    exists q', q_put q data = Some (n, q') /\ q_inv q' /\ q_capacity q' = q_capacity q /\
      q_contents q' = q_contents q ++ take n data;
  q_get_law : forall q n, q_inv q ->
    exists q', q_get q n = Some (take n (q_contents q), q') /\ q_inv q' /\
      q_capacity q' = q_capacity q /\ q_contents q' = drop n (q_contents q)
}.

Inductive queue_op := Put (data : list Z) | Get (n : nat).

Section client.
Context {Q : Type} `{!ByteQueue Q}.

(** Runs a sequence of operations and collects the bytes that went in and the
    bytes that came out. *)
Fixpoint queue_run (ops : list queue_op) (q : Q) : option (list Z * list Z * Q) :=
  match ops with
  | [] => Some ([], [], q)
  | Put data :: ops =>
      '(n, q) ← q_put q data;
      '(ins, outs, q) ← queue_run ops q;
      Some (take n data ++ ins, outs, q)
  | Get n :: ops =>
      '(bytes, q) ← q_get q n;
      '(ins, outs, q) ← queue_run ops q;
      Some (ins, bytes ++ outs, q)
  end.

Context `{!ByteQueueLaws Q}.

(** Any sequence of operations runs in bounds and what comes out is what went
    in, in order, nothing lost, repeated or reordered. *)
Lemma queue_run_fifo ops q :
  q_inv q ->
  exists ins outs q', queue_run ops q = Some (ins, outs, q') /\ q_inv q' /\
    q_contents q ++ ins = outs ++ q_contents q' /\ q_capacity q' = q_capacity q.
Proof.
  revert q. induction ops as [|[data|n] ops IH]; intros q Hq; simpl.
  - exists [], [], q. rewrite app_nil_r. done.
  - destruct (q_put_law q data Hq) as (q1 & -> & H1 & C1 & E1). simpl.
    destruct (IH q1 H1) as (ins & outs & q2 & -> & H2 & E2 & C2). simpl.
    do 3 eexists. split_and!; [done|done| |congruence]. by rewrite <- E2, E1, app_assoc.
  - destruct (q_get_law q n Hq) as (q1 & -> & H1 & C1 & E1). simpl.
    destruct (IH q1 H1) as (ins & outs & q2 & -> & H2 & E2 & C2). simpl.
    do 3 eexists. split_and!; [done|done| |congruence].
    by rewrite <- app_assoc, <- E2, E1, app_assoc, take_drop.
Qed.
End client.
