(* ===== verification/Bitops.v ===== *)
(** Bit operations on words and on bit arrays: the search and counting
    primitives of include/asm-generic/bitops/, lib/hweight.c and
    lib/find_next_bit.c, for 32-bit [unsigned long].

    A bit array is a list of words; [btest] is the abstract view of it, the
    bit at a position, and every theorem below is stated through that view. *)
From stdpp Require Import base list numbers option.
From Stdlib Require Import ZArith Lia.
From S2P Require Import Prelude.

Local Open Scope Z_scope.

(** ** Word operations at their width *)

(** [~x], [x << n] and [x >> n] on [unsigned long]. *)
Definition not32 (x : Z) : Z := u32 (Z.lnot x).
Definition shl32 (x n : Z) : Z := u32 (Z.shiftl x n).
Definition shr32 (x n : Z) : Z := Z.shiftr x n.
Definition ULONG_ALL : Z := 2 ^ 32 - 1. (* ~0UL *)

Lemma u32_testbit x i : 0 <= i -> Z.testbit (u32 x) i = (i <? 32) && Z.testbit x i.
Proof.
  intros. unfold u32, U32_MOD. destruct (Z.ltb_spec i 32).
  - by rewrite Z.mod_pow2_bits_low.
  - by rewrite Z.mod_pow2_bits_high by lia.
Qed.

Lemma is_u32_testbit x i : is_u32 x -> 32 <= i -> Z.testbit x i = false.
Proof.
  intros H Hi. rewrite <- (u32_small x H), u32_testbit by lia.
  by destruct (Z.ltb_spec i 32); [lia|].
Qed.

Lemma not32_testbit x i :
  0 <= i -> Z.testbit (not32 x) i = (i <? 32) && negb (Z.testbit x i).
Proof. intros. unfold not32. rewrite u32_testbit by done. by rewrite Z.lnot_spec. Qed.

Lemma shl32_testbit x n i :
  0 <= i -> Z.testbit (shl32 x n) i = (i <? 32) && Z.testbit x (i - n).
Proof. intros. unfold shl32. rewrite u32_testbit by done. by rewrite Z.shiftl_spec. Qed.

Lemma shr32_testbit x n i : 0 <= i -> Z.testbit (shr32 x n) i = Z.testbit x (i + n).
Proof. intros. unfold shr32. by rewrite Z.shiftr_spec. Qed.

Lemma ones_testbit n i : 0 <= n -> 0 <= i -> Z.testbit (Z.ones n) i = (i <? n).
Proof.
  intros. destruct (Z.ltb_spec i n).
  - by rewrite Z.ones_spec_low by lia.
  - by rewrite Z.ones_spec_high by lia.
Qed.

Lemma pow2m1_testbit n i : 0 <= n -> 0 <= i -> Z.testbit (2 ^ n - 1) i = (i <? n).
Proof. intros. rewrite <- ones_testbit by lia. by rewrite Z.ones_equiv, Z.sub_1_r. Qed.

(** A word is in range as soon as its high bits are clear. *)
Lemma is_u32_bits x :
  0 <= x -> (forall i, 32 <= i -> Z.testbit x i = false) -> is_u32 x.
Proof.
  intros Hx H. split; [done|].
  destruct (Z.lt_ge_cases x U32_MOD) as [|Hge]; [done|exfalso].
  pose proof (Z.log2_le_mono _ _ Hge) as Hl. change (Z.log2 U32_MOD) with 32 in Hl.
  specialize (H (Z.log2 x) Hl). rewrite Z.bit_log2 in H; [done|].
  unfold U32_MOD in Hge. lia.
Qed.

Lemma is_u32_land_l x y : is_u32 x -> 0 <= y -> is_u32 (Z.land x y).
Proof.
  intros Hx Hy. apply is_u32_bits; [apply Z.land_nonneg; unfold is_u32 in *; lia|].
  intros. rewrite Z.land_spec, (is_u32_testbit x) by done. done.
Qed.

Lemma is_u32_lor x y : is_u32 x -> is_u32 y -> is_u32 (Z.lor x y).
Proof.
  intros Hx Hy. apply is_u32_bits; [apply Z.lor_nonneg; unfold is_u32 in *; lia|].
  intros. by rewrite Z.lor_spec, !is_u32_testbit.
Qed.

Lemma is_u32_lxor x y : is_u32 x -> is_u32 y -> is_u32 (Z.lxor x y).
Proof.
  intros Hx Hy. apply is_u32_bits; [apply Z.lxor_nonneg; unfold is_u32 in *; lia|].
  intros. by rewrite Z.lxor_spec, !is_u32_testbit.
Qed.

Lemma is_u32_not32 x : is_u32 (not32 x).
Proof. apply u32_range. Qed.

Lemma is_u32_shl32 x n : is_u32 (shl32 x n).
Proof. apply u32_range. Qed.

Lemma is_u32_shr32 x n : is_u32 x -> 0 <= n -> is_u32 (shr32 x n).
Proof.
  intros Hx Hn. unfold shr32. rewrite Z.shiftr_div_pow2 by done.
  unfold is_u32 in *. pose proof (Z.pow_pos_nonneg 2 n ltac:(lia) Hn).
  split; [apply Z.div_pos; lia|]. apply Z.div_lt_upper_bound; [done|]. nia.
Qed.

#[export] Hint Resolve is_u32_land_l is_u32_lor is_u32_lxor is_u32_not32
  is_u32_shl32 is_u32_shr32 : width.

(** A word is zero exactly when none of its 32 bits is set. *)
Lemma word_zero_bits x :
  is_u32 x -> (x = 0 <-> forall i, 0 <= i < 32 -> Z.testbit x i = false).
Proof.
  intros Hx. split; [intros ->; intros; apply Z.bits_0|].
  intros H. apply Z.bits_inj'. intros i Hi. rewrite Z.bits_0.
  destruct (Z.lt_ge_cases i 32); [by apply H|by apply is_u32_testbit].
Qed.

(** ** fls: include/asm-generic/bitops/fls.h *)

(** One halving step: when the bits of [mask] are clear, move the word up by
    [k] and take [k] off the answer. *)
Definition fls_step (mask k : Z) (xr : Z * Z) : Z * Z :=
  let '(x, r) := xr in
  if Z.land x mask =? 0 then (shl32 x k, r - k) else (x, r).

Definition fls (x : Z) : Z :=
  let r := 32 in
  if x =? 0 then 0
  else
    snd (fls_step 0x80000000 1 (fls_step 0xc0000000 2 (fls_step 0xf0000000 4
      (fls_step 0xff000000 8 (fls_step 0xffff0000 16 (x, r)))))).

Definition fls_long (l : Z) : Z := fls l.

(** include/linux/kernel.h: roundup_pow_of_two *)
Definition roundup_pow_of_two (x : Z) : Z := shl32 1 (fls_long (u32 (x - 1))).

(** Masking with [~(2^j - 1)] rounds down to a multiple of [2^j]. *)
Lemma land_high_mask_eq x j :
  is_u32 x -> 0 <= j <= 32 -> Z.land x (2 ^ 32 - 2 ^ j) = x / 2 ^ j * 2 ^ j.
Proof.
  intros Hx Hj.
  replace (2 ^ 32 - 2 ^ j) with (Z.shiftl (Z.ones (32 - j)) j).
  2:{ rewrite Z.ones_equiv, Z.shiftl_mul_pow2, Z.mul_pred_l, <- Z.pow_add_r by lia.
      do 2 f_equal. lia. }
  rewrite <- Z.shiftr_div_pow2, <- Z.shiftl_mul_pow2 by lia.
  apply Z.bits_inj'. intros i Hi.
  rewrite Z.land_spec, !Z.shiftl_spec by done.
  destruct (Z.lt_ge_cases i j).
  - rewrite !(Z.testbit_neg_r _ (i - j)) by lia. by rewrite andb_false_r.
  - rewrite Z.shiftr_spec by lia. rewrite ones_testbit by lia.
    replace (i - j + j) with i by lia.
    destruct (Z.ltb_spec (i - j) (32 - j)); [by rewrite andb_true_r|].
    rewrite andb_false_r. symmetry. apply is_u32_testbit; [done|lia].
Qed.

Lemma land_high_mask x j :
  is_u32 x -> 0 <= j <= 32 ->
  (Z.land x (2 ^ 32 - 2 ^ j) =? 0) = (x <? 2 ^ j).
Proof.
  intros Hx Hj. rewrite land_high_mask_eq by done.
  pose proof (Z.pow_pos_nonneg 2 j ltac:(lia) ltac:(lia)). unfold is_u32 in Hx.
  destruct (Z.ltb_spec x (2 ^ j)).
  - rewrite Z.div_small by lia. done.
  - apply Z.eqb_neq.
    assert (1 <= x / 2 ^ j) by (apply Z.div_le_lower_bound; lia). nia.
Qed.

(** The step keeps the position of the leading bit, counted from [r], and
    brings it into the top half that the mask covers. *)
Lemma fls_step_spec mask k x r lo p :
  mask = 2 ^ 32 - 2 ^ (32 - k) -> 0 < k <= 16 -> is_u32 x -> 0 < x ->
  32 - 2 * k <= lo -> lo <= Z.log2 x -> r = p + 31 - Z.log2 x ->
  let '(x', r') := fls_step mask k (x, r) in
  is_u32 x' /\ 0 < x' /\ 32 - k <= Z.log2 x' /\ r' = p + 31 - Z.log2 x'.
Proof.
  intros -> Hk Hx Hpos Hlo Hlog Hr. unfold fls_step.
  rewrite land_high_mask by (try done; lia).
  destruct (Z.ltb_spec x (2 ^ (32 - k))) as [Hlt|Hge].
  - assert (E : shl32 x k = x * 2 ^ k).
    { unfold shl32. rewrite Z.shiftl_mul_pow2 by lia. apply u32_small.
      pose proof (Z.pow_pos_nonneg 2 k ltac:(lia) ltac:(lia)).
      split; [nia|]. unfold U32_MOD.
      replace (2 ^ 32) with (2 ^ (32 - k) * 2 ^ k) by (rewrite <- Z.pow_add_r by lia; f_equal; lia).
      nia. }
    rewrite E. pose proof (Z.pow_pos_nonneg 2 k ltac:(lia) ltac:(lia)).
    rewrite Z.log2_mul_pow2 by lia. split_and!; [|nia|lia|lia].
    rewrite <- E. apply is_u32_shl32.
  - split_and!; [done|done| |done].
    rewrite <- (Z.log2_pow2 (32 - k)) by lia. by apply Z.log2_le_mono.
Qed.

Lemma fls_spec x : is_u32 x -> fls x = if x =? 0 then 0 else Z.log2 x + 1.
Proof.
  intros Hx. unfold fls. destruct (Z.eqb_spec x 0) as [|Hne]; [done|].
  assert (Hpos : 0 < x) by (unfold is_u32 in Hx; lia).
  pose proof (Z.log2_nonneg x) as Hl0.
  assert (Hl1 : Z.log2 x < 32).
  { apply Z.log2_lt_pow2; [done|]. unfold is_u32, U32_MOD in Hx. lia. }
  pose proof (fls_step_spec 0xffff0000 16 x 32 0 (Z.log2 x + 1) eq_refl
    ltac:(lia) Hx Hpos ltac:(lia) Hl0 ltac:(lia)) as S1.
  destruct (fls_step _ 16 _) as [x1 r1]. destruct S1 as (U1 & P1 & L1 & R1).
  pose proof (fls_step_spec 0xff000000 8 x1 r1 16 _ eq_refl
    ltac:(lia) U1 P1 ltac:(lia) L1 R1) as S2.
  destruct (fls_step _ 8 _) as [x2 r2]. destruct S2 as (U2 & P2 & L2 & R2).
  pose proof (fls_step_spec 0xf0000000 4 x2 r2 24 _ eq_refl
    ltac:(lia) U2 P2 ltac:(lia) L2 R2) as S3.
  destruct (fls_step _ 4 _) as [x3 r3]. destruct S3 as (U3 & P3 & L3 & R3).
  pose proof (fls_step_spec 0xc0000000 2 x3 r3 28 _ eq_refl
    ltac:(lia) U3 P3 ltac:(lia) L3 R3) as S4.
  destruct (fls_step _ 2 _) as [x4 r4]. destruct S4 as (U4 & P4 & L4 & R4).
  pose proof (fls_step_spec 0x80000000 1 x4 r4 30 _ eq_refl
    ltac:(lia) U4 P4 ltac:(lia) L4 R4) as S5.
  destruct (fls_step _ 1 _) as [x5 r5]. destruct S5 as (U5 & P5 & L5 & R5). simpl.
  assert (Z.log2 x5 < 32); [|lia].
  apply Z.log2_lt_pow2; [done|]. unfold is_u32, U32_MOD in U5. lia.
Qed.

(** roundup_pow_of_two gives the least power of two that is not below its
    argument, for arguments up to 2^31. *)
Lemma roundup_pow_of_two_spec x :
  1 <= x <= 2 ^ 31 ->
  exists k, 0 <= k <= 31 /\ roundup_pow_of_two x = 2 ^ k /\
    x <= 2 ^ k /\ (forall j, 0 <= j -> x <= 2 ^ j -> k <= j).
Proof.
  intros Hx. unfold roundup_pow_of_two, fls_long.
  assert (Hu : is_u32 (x - 1)) by (unfold is_u32, U32_MOD; lia).
  rewrite (u32_small (x - 1)) by done. rewrite fls_spec by done.
  unfold shl32. destruct (Z.eqb_spec (x - 1) 0) as [E|E].
  - exists 0. replace x with 1 by lia. split_and!; [lia|lia|done|done|lia].
  - exists (Z.log2 (x - 1) + 1).
    pose proof (Z.log2_spec (x - 1) ltac:(lia)) as [Hlo Hhi].
    pose proof (Z.log2_nonneg (x - 1)).
    assert (Z.log2 (x - 1) < 31) by (apply Z.log2_lt_pow2; lia).
    split_and!; [lia|lia| | |].
    + rewrite Z.shiftl_1_l. apply u32_small. split; [apply Z.pow_nonneg; lia|].
      apply Z.pow_lt_mono_r; lia.
    + rewrite Z.add_1_r. lia.
    + intros j Hj Hle. enough (Z.log2 (x - 1) < j) by lia. apply Z.log2_lt_pow2; lia.
Qed.

(** ** __ffs and ffz: include/asm-generic/bitops/__ffs.h, ffz.h *)

(** One step: when the [k] low bits are clear, drop them and count them. *)
Definition ffs_step (mask k : Z) (wn : Z * Z) : Z * Z :=
  let '(word, num) := wn in
  if Z.land word mask =? 0 then (shr32 word k, num + k) else (word, num).

Definition __ffs (word : Z) : Z :=
  let num := 0 in
  let '(word, num) := ffs_step 0xffff 16 (word, num) in
  let '(word, num) := ffs_step 0xff 8 (word, num) in
  let '(word, num) := ffs_step 0xf 4 (word, num) in
  let '(word, num) := ffs_step 0x3 2 (word, num) in
  if Z.land word 0x1 =? 0 then num + 1 else num.

Definition ffz (x : Z) : Z := __ffs (not32 x).

(** [p] is the position of the lowest set bit of [x]. *)
Definition lowest_set (x p : Z) : Prop :=
  0 <= p /\ Z.testbit x p = true /\ forall i, 0 <= i < p -> Z.testbit x i = false.

Lemma lowest_set_exists x : is_u32 x -> x <> 0 -> exists p, p < 32 /\ lowest_set x p.
Proof.
  intros Hx Hne. destruct (least_index (Z.testbit x) 32) as (p & ? & ? & ?).
  - exists (Z.log2 x). assert (0 < x) by (unfold is_u32 in Hx; lia). split.
    + split; [apply Z.log2_nonneg|]. apply Z.log2_lt_pow2; [done|].
      unfold is_u32, U32_MOD in Hx. change (Z.of_nat 32) with 32. lia.
    + by apply Z.bit_log2.
  - exists p. split; [lia|]. split_and!; [lia|done|done].
Qed.

Lemma land_low_mask_zero x k p :
  0 <= k -> lowest_set x p -> (Z.land x (2 ^ k - 1) =? 0) = (k <=? p).
Proof.
  intros Hk (Hp & Hb & Hl). destruct (Z.leb_spec k p).
  - apply Z.eqb_eq, Z.bits_inj'. intros i Hi. rewrite Z.bits_0, Z.land_spec.
    rewrite pow2m1_testbit by done. destruct (Z.ltb_spec i k); [|apply andb_false_r].
    by rewrite Hl by lia.
  - apply Z.eqb_neq. intros E. assert (Z.testbit (Z.land x (2 ^ k - 1)) p = true).
    { rewrite Z.land_spec, Hb, pow2m1_testbit by done. by destruct (Z.ltb_spec p k); [|lia]. }
    rewrite E, Z.bits_0 in *. done.
Qed.

Lemma lowest_set_shift x k p :
  0 <= k <= p -> lowest_set x p -> lowest_set (shr32 x k) (p - k).
Proof.
  intros Hk (Hp & Hb & Hl). split_and!; [lia| |].
  - rewrite shr32_testbit by lia. by replace (p - k + k) with p by lia.
  - intros i Hi. rewrite shr32_testbit by lia. apply Hl. lia.
Qed.

Lemma ffs_step_spec mask k w n p :
  mask = 2 ^ k - 1 -> 0 <= k -> lowest_set w p -> p < 2 * k ->
  let '(w', n') := ffs_step mask k (w, n) in
  exists p', lowest_set w' p' /\ p' < k /\ n' + p' = n + p.
Proof.
  intros -> Hk Hl Hp. unfold ffs_step. rewrite (land_low_mask_zero _ _ p) by done.
  destruct (Z.leb_spec k p).
  - exists (p - k). split_and!; [by apply lowest_set_shift|lia|lia].
  - exists p. split_and!; [done|lia|lia].
Qed.

Lemma __ffs_spec w : is_u32 w -> w <> 0 -> lowest_set w (__ffs w) /\ __ffs w < 32.
Proof.
  intros Hw Hne. destruct (lowest_set_exists w Hw Hne) as (p & Hp & Hl).
  enough (E : __ffs w = p) by by rewrite E.
  unfold __ffs.
  pose proof (ffs_step_spec 0xffff 16 w 0 p eq_refl ltac:(lia) Hl ltac:(lia)) as S1.
  destruct (ffs_step _ 16 _) as [w1 n1]. destruct S1 as (p1 & L1 & B1 & E1).
  pose proof (ffs_step_spec 0xff 8 w1 n1 p1 eq_refl ltac:(lia) L1 ltac:(lia)) as S2.
  destruct (ffs_step _ 8 _) as [w2 n2]. destruct S2 as (p2 & L2 & B2 & E2).
  pose proof (ffs_step_spec 0xf 4 w2 n2 p2 eq_refl ltac:(lia) L2 ltac:(lia)) as S3.
  destruct (ffs_step _ 4 _) as [w3 n3]. destruct S3 as (p3 & L3 & B3 & E3).
  pose proof (ffs_step_spec 0x3 2 w3 n3 p3 eq_refl ltac:(lia) L3 ltac:(lia)) as S4.
  destruct (ffs_step _ 2 _) as [w4 n4]. destruct S4 as (p4 & L4 & B4 & E4).
  change 0x1 with (2 ^ 1 - 1). rewrite (land_low_mask_zero _ _ p4) by done.
  destruct (Z.leb_spec 1 p4); destruct L4; lia.
Qed.

(** ** Bit arrays *)

(** All words of a bit array are 32-bit values. *)
Definition words_ok (ws : list Z) : Prop := Forall is_u32 ws.

(** The bit at position [i] of the array: the abstract view of it. *)
Definition btest (ws : list Z) (i : Z) : bool :=
  Z.testbit (ws !!! Z.to_nat (i / 32)) (i mod 32).

Definition nbits (ws : list Z) : Z := 32 * Z.of_nat (length ws).

(** include/asm-generic/bitops/non-atomic.h *)
Definition BITOP_MASK (nr : Z) : Z := shl32 1 (nr mod BITS_PER_LONG).
Definition BITOP_WORD (nr : Z) : Z := nr / BITS_PER_LONG.

Definition __set_bit (nr : Z) (addr : list Z) : option (list Z) :=
  let mask := BITOP_MASK nr in
  p ← array_get addr (BITOP_WORD nr);
  array_set addr (BITOP_WORD nr) (Z.lor p mask).

Definition __clear_bit (nr : Z) (addr : list Z) : option (list Z) :=
  let mask := BITOP_MASK nr in
  p ← array_get addr (BITOP_WORD nr);
  array_set addr (BITOP_WORD nr) (Z.land p (not32 mask)).

Definition __change_bit (nr : Z) (addr : list Z) : option (list Z) :=
  let mask := BITOP_MASK nr in
  p ← array_get addr (BITOP_WORD nr);
  array_set addr (BITOP_WORD nr) (Z.lxor p mask).

Definition test_bit (nr : Z) (addr : list Z) : option Z :=
  p ← array_get addr (BITOP_WORD nr);
  Some (Z.land 1 (shr32 p (Z.land nr (BITS_PER_LONG - 1)))).

(** ** lib/find_next_bit.c *)
Section find_next_bit.
Variable addr : list Z.

Definition fnb_found_middle (result tmp : Z) : Z := u32 (result + __ffs tmp).

Definition fnb_found_first (size result tmp : Z) : Z :=
  let tmp := Z.land tmp (shr32 ULONG_ALL (BITS_PER_LONG - size)) in
  if tmp =? 0 then u32 (result + size) else fnb_found_middle result tmp.

(** The [while] loop and what follows it, from word [p]. *)
Definition fnb_scan_body (s : Z * Z * Z) : (Z * Z * Z) + option Z :=
  let '(p, size, result) := s in
  if negb (Z.land size (not32 (BITS_PER_LONG - 1)) =? 0) then
    match array_get addr p with
    | None => inr None
    | Some tmp =>
        if negb (tmp =? 0) then inr (Some (fnb_found_middle result tmp))
        else inl (p + 1, u32 (size - BITS_PER_LONG), u32 (result + BITS_PER_LONG))
    end
  else if size =? 0 then inr (Some result)
  else inr (tmp ← array_get addr p; Some (fnb_found_first size result tmp)).

Definition fnb_scan (p size result : Z) : option Z :=
  mjoin (loop (S (Z.to_nat size)) fnb_scan_body (p, size, result)).

Definition find_next_bit (size offset : Z) : option Z :=
  let p := BITOP_WORD offset in
  let result := Z.land offset (not32 (BITS_PER_LONG - 1)) in
  if size <=? offset then Some size
  else
    let size := u32 (size - result) in
    let offset := offset mod BITS_PER_LONG in
    if negb (offset =? 0) then
      tmp ← array_get addr p;
      let p := p + 1 in
      let tmp := Z.land tmp (shl32 ULONG_ALL offset) in
      if size <? BITS_PER_LONG then Some (fnb_found_first size result tmp)
      else if negb (tmp =? 0) then Some (fnb_found_middle result tmp)
      else fnb_scan p (u32 (size - BITS_PER_LONG)) (u32 (result + BITS_PER_LONG))
    else fnb_scan p size result.

Definition find_first_bit (size : Z) : option Z := find_next_bit size 0.

(** find_next_zero_bit *)
Definition fnz_found_middle (result tmp : Z) : Z := u32 (result + ffz tmp).

Definition fnz_found_first (size result tmp : Z) : Z :=
  let tmp := Z.lor tmp (shl32 ULONG_ALL size) in
  if tmp =? ULONG_ALL then u32 (result + size) else fnz_found_middle result tmp.

Definition fnz_scan_body (s : Z * Z * Z) : (Z * Z * Z) + option Z :=
  let '(p, size, result) := s in
  if negb (Z.land size (not32 (BITS_PER_LONG - 1)) =? 0) then
    match array_get addr p with
    | None => inr None
    | Some tmp =>
        if negb (not32 tmp =? 0) then inr (Some (fnz_found_middle result tmp))
        else inl (p + 1, u32 (size - BITS_PER_LONG), u32 (result + BITS_PER_LONG))
    end
  else if size =? 0 then inr (Some result)
  else inr (tmp ← array_get addr p; Some (fnz_found_first size result tmp)).

Definition fnz_scan (p size result : Z) : option Z :=
  mjoin (loop (S (Z.to_nat size)) fnz_scan_body (p, size, result)).

Definition find_next_zero_bit (size offset : Z) : option Z :=
  let p := BITOP_WORD offset in
  let result := Z.land offset (not32 (BITS_PER_LONG - 1)) in
  if size <=? offset then Some size
  else
    let size := u32 (size - result) in
    let offset := offset mod BITS_PER_LONG in
    if negb (offset =? 0) then
      tmp ← array_get addr p;
      let p := p + 1 in
      let tmp := Z.lor tmp (shr32 ULONG_ALL (BITS_PER_LONG - offset)) in
      if size <? BITS_PER_LONG then Some (fnz_found_first size result tmp)
      else if negb (not32 tmp =? 0) then Some (fnz_found_middle result tmp)
      else fnz_scan p (u32 (size - BITS_PER_LONG)) (u32 (result + BITS_PER_LONG))
    else fnz_scan p size result.

Definition find_first_zero_bit (size : Z) : option Z := find_next_zero_bit size 0.

End find_next_bit.

(** *** What a search returns *)

(** [r] is the first position in [offset, size) at which [f] holds, or [size]. *)
Definition first_from (f : Z -> bool) (size offset r : Z) : Prop :=
  (offset < size -> offset <= r <= size) /\ (size <= offset -> r = size) /\
  (r < size -> f r = true) /\ (forall i, offset <= i < r -> f i = false).

Lemma first_from_unique f size offset r r' :
  first_from f size offset r -> first_from f size offset r' -> r = r'.
Proof.
  intros (A & B & C & D) (A' & B' & C' & D').
  destruct (Z.lt_ge_cases offset size) as [Hlt|]; [|by rewrite B, B'].
  specialize (A Hlt). specialize (A' Hlt).
  destruct (Z.lt_total r r') as [Hr|[Hr|Hr]]; [|done|].
  - rewrite D' in C by lia. by discriminate C; lia.
  - rewrite D in C' by lia. by discriminate C'; lia.
Qed.

Lemma btest_word ws k w j :
  ws !! Z.to_nat k = Some w -> 0 <= k -> 0 <= j < 32 ->
  btest ws (32 * k + j) = Z.testbit w j.
Proof.
  intros Hw Hk Hj. unfold btest.
  replace ((32 * k + j) / 32) with k
    by (apply Z.div_unique with j; lia).
  replace ((32 * k + j) mod 32) with j
    by (apply Z.mod_unique with k; lia).
  by rewrite (list_lookup_total_correct _ _ _ Hw).
Qed.

Lemma words_ok_lookup ws k w : words_ok ws -> ws !! k = Some w -> is_u32 w.
Proof. intros H. by apply Forall_lookup_1. Qed.

(** The word at [k] of an array, with its range. *)
Lemma array_get_word ws k :
  words_ok ws -> 0 <= k < Z.of_nat (length ws) ->
  exists w, array_get ws k = Some w /\ ws !! Z.to_nat k = Some w /\ is_u32 w.
Proof.
  intros Hok Hk. destruct (array_get_Some ws k Hk) as [w Hw]. exists w.
  split; [done|]. unfold array_get in Hw. rewrite bool_decide_true in Hw by lia.
  eauto using words_ok_lookup.
Qed.

Lemma words_ok_insert ws k w : words_ok ws -> is_u32 w -> words_ok (<[k:=w]> ws).
Proof. intros. by apply Forall_insert. Qed.

Lemma btest_insert ws k w i :
  0 <= k < Z.of_nat (length ws) -> 0 <= i ->
  btest (<[Z.to_nat k := w]> ws) i =
    if bool_decide (i / 32 = k) then Z.testbit w (i mod 32) else btest ws i.
Proof.
  intros Hk Hi. unfold btest. pose proof (Z.div_pos i 32 Hi ltac:(lia)).
  case_bool_decide as E.
  - subst k. rewrite list_lookup_total_insert_eq by lia. done.
  - rewrite list_lookup_total_insert_ne by lia. done.
Qed.

(** *** Correctness of the searches *)

(** In the lemmas below the bits of [tmp] are the values of [f] from position
    [result] on. *)
Lemma fnb_found_middle_spec (f : Z -> bool) result tmp :
  is_u32 tmp -> (forall j, 0 <= j < 32 -> Z.testbit tmp j = f (result + j)) ->
  tmp <> 0 -> 0 <= result -> result + 32 <= UINT_MAX ->
  exists r, fnb_found_middle result tmp = r /\ result <= r < result + 32 /\
    f r = true /\ (forall i, result <= i < r -> f i = false).
Proof.
  intros Hu Hf Hne H0 Hb. destruct (__ffs_spec tmp Hu Hne) as [(H1 & H2 & H3) H4].
  exists (result + __ffs tmp). unfold fnb_found_middle.
  rewrite u32_small by width_lia. split_and!; [done|lia|lia| |].
  - rewrite <- Hf by lia. done.
  - intros i Hi. replace i with (result + (i - result)) by lia.
    rewrite <- Hf by lia. apply H3. lia.
Qed.

Lemma low_mask_testbit size j :
  0 < size < 32 -> 0 <= j ->
  Z.testbit (shr32 ULONG_ALL (BITS_PER_LONG - size)) j = (j <? size).
Proof.
  intros. unfold ULONG_ALL, BITS_PER_LONG. rewrite shr32_testbit by done.
  rewrite pow2m1_testbit by lia.
  destruct (Z.ltb_spec j size), (Z.ltb_spec (j + (32 - size)) 32); lia || done.
Qed.

Lemma fnb_found_first_spec (f : Z -> bool) size result tmp :
  is_u32 tmp -> (forall j, 0 <= j < 32 -> Z.testbit tmp j = f (result + j)) ->
  0 < size < 32 -> 0 <= result -> result + 32 <= UINT_MAX ->
  exists r, fnb_found_first size result tmp = r /\ result <= r <= result + size /\
    (r < result + size -> f r = true) /\ (forall i, result <= i < r -> f i = false).
Proof.
  intros Hu Hf Hs H0 Hb. unfold fnb_found_first.
  set (tmp' := Z.land tmp _).
  assert (Hu' : is_u32 tmp').
  { apply is_u32_land_l; [done|]. apply is_u32_shr32; [done|]. unfold BITS_PER_LONG. lia. }
  assert (Hf' : forall j, 0 <= j < 32 ->
    Z.testbit tmp' j = f (result + j) && (j <? size)).
  { intros j Hj. unfold tmp'. rewrite Z.land_spec, Hf by done.
    by rewrite low_mask_testbit by lia. }
  destruct (Z.eqb_spec tmp' 0) as [E|E].
  - exists (result + size). rewrite u32_small by width_lia.
    split_and!; [done|lia|lia|lia|]. intros i Hi.
    pose proof (proj1 (word_zero_bits tmp' Hu') E (i - result) ltac:(lia)) as Hz.
    rewrite Hf' in Hz by lia. replace (result + (i - result)) with i in Hz by lia.
    destruct (Z.ltb_spec (i - result) size); [|lia]. by rewrite andb_true_r in Hz.
  - destruct (fnb_found_middle_spec
      (fun i => f i && (i - result <? size)) result tmp') as (r & Hr & Hrange & Hfr & Hno);
      [done| |done|done|done|].
    { intros j Hj. rewrite Hf' by done. do 2 f_equal. lia. }
    apply andb_true_iff in Hfr as [Hfr Hlt%Z.ltb_lt].
    exists r. split_and!; [done|lia|lia|done|].
    intros i Hi. specialize (Hno i Hi). apply andb_false_iff in Hno as [|Hge%Z.ltb_ge]; [done|lia].
Qed.

Lemma scan_mask_test size :
  is_u32 size ->
  (Z.land size (not32 (BITS_PER_LONG - 1)) =? 0) = (size <? 32).
Proof. intros. by apply (land_high_mask size 5). Qed.

Section fnb.
Context (ws : list Z) (Hok : words_ok ws) (size0 offset0 : Z).
Context (Hsize : 0 <= size0 <= nbits ws) (Hbound : nbits ws + 32 <= UINT_MAX).
Context (Hoff : 0 <= offset0).

Let f (i : Z) : bool := (offset0 <=? i) && btest ws i.

(** What a search that has reached position [result] still has to deliver. *)
Let good (result : Z) (o : option Z) : Prop :=
  exists r, o = Some r /\ result <= r <= size0 /\ (r < size0 -> f r = true) /\
    (forall i, result <= i < r -> f i = false).

Lemma fnb_scan_spec p size result :
  0 <= p -> offset0 <= result -> result = 32 * p -> size + result = size0 -> 0 <= size ->
  good result (fnb_scan ws p size result).
Proof.
  intros Hp Ho Hr Hs Hs0. unfold fnb_scan.
  destruct (loop_total (fnb_scan_body ws)
    (fun '(p', size', result') => result <= result' /\ 0 <= p' /\ result' = 32 * p' /\
       size' + result' = size0 /\ 0 <= size' /\
       (forall i, result <= i < result' -> f i = false))
    (good result)
    (fun '(_, size', _) => Z.to_nat size')) with (fuel := S (Z.to_nat size)) (s := (p, size, result))
    as (r & -> & Hgood); [| |lia|done]; cycle 1.
  { split_and!; [lia|done|done|done|done|lia]. }
  intros [[p' size'] result'] (Hle & Hp' & Hr' & Hs' & Hs0' & Hno). unfold fnb_scan_body.
  rewrite scan_mask_test by (unfold nbits in *; width_lia).
  destruct (Z.ltb_spec size' 32) as [Hlt|Hge]; cbn [negb].
  - destruct (Z.eqb_spec size' 0) as [E|E].
    { exists result'. split_and!; [done|lia|lia|lia|done]. }
    destruct (array_get_word ws p' Hok) as (w & -> & Hw & Hu); [unfold nbits in *; lia|].
    simpl. destruct (fnb_found_first_spec f size' result' w) as (r & Hrr & A & B & C);
      [done| |lia|lia|unfold nbits in *; lia|].
    { intros j Hj. unfold f. rewrite Hr', (btest_word _ _ w) by done.
      by destruct (Z.leb_spec offset0 (32 * p' + j)); [|lia]. }
    exists r. split_and!; [by rewrite Hrr|lia|lia|intros; apply B; lia|].
    intros i Hi. destruct (Z.lt_ge_cases i result'); [apply Hno; lia|apply C; lia].
  - destruct (array_get_word ws p' Hok) as (w & -> & Hw & Hu); [unfold nbits in *; lia|].
    assert (Hf : forall j, 0 <= j < 32 -> Z.testbit w j = f (result' + j)).
    { intros j Hj. unfold f. rewrite Hr', (btest_word _ _ w) by done.
      by destruct (Z.leb_spec offset0 (32 * p' + j)); [|lia]. }
    destruct (Z.eqb_spec w 0) as [E|E]; cbn [negb].
    + rewrite !u32_small by (unfold nbits, BITS_PER_LONG in *; width_lia).
      unfold BITS_PER_LONG. split; [|lia]. split_and!; try lia.
      intros i Hi. destruct (Z.lt_ge_cases i result'); [apply Hno; lia|].
      replace i with (result' + (i - result')) by lia. rewrite <- Hf by lia.
      rewrite E. apply Z.bits_0.
    + destruct (fnb_found_middle_spec f result' w) as (r & Hrr & A & B & C);
        [done|done|done|lia|unfold nbits in *; lia|].
      exists r. split_and!; [by rewrite Hrr|lia|lia|done|].
      intros i Hi. destruct (Z.lt_ge_cases i result'); [apply Hno; lia|apply C; lia].
Qed.

End fnb.

Lemma land_align offset :
  is_u32 offset -> Z.land offset (not32 (BITS_PER_LONG - 1)) = 32 * (offset / 32).
Proof. intros. rewrite Z.mul_comm. by apply (land_high_mask_eq offset 5). Qed.

Lemma high_ones_testbit n j :
  0 <= n -> 0 <= j < 32 -> Z.testbit (shl32 ULONG_ALL n) j = (n <=? j).
Proof.
  intros. rewrite shl32_testbit by lia. unfold ULONG_ALL.
  destruct (Z.ltb_spec j 32); [|lia]. simpl.
  destruct (Z.leb_spec n j).
  - rewrite pow2m1_testbit by lia. destruct (Z.ltb_spec (j - n) 32); [done|lia].
  - apply Z.testbit_neg_r. lia.
Qed.

(** find_next_bit returns the first set bit at or after [offset], or [size]. *)
Lemma find_next_bit_first ws size offset :
  words_ok ws -> 0 <= size <= nbits ws -> nbits ws + 32 <= UINT_MAX -> is_u32 offset ->
  exists r, find_next_bit ws size offset = Some r /\
    first_from (btest ws) size offset r.
Proof.
  intros Hok Hsize Hb Hoff. unfold find_next_bit.
  destruct (Z.leb_spec size offset) as [Hle|Hlt].
  { exists size. split; [done|]. split_and!; [lia|done|lia|lia]. }
  rewrite land_align by done. unfold BITOP_WORD, BITS_PER_LONG.
  assert (Ho : 0 <= offset) by (unfold is_u32 in Hoff; lia).
  pose proof (Z.div_mod offset 32 ltac:(lia)) as Hdm.
  pose proof (Z.mod_pos_bound offset 32 ltac:(lia)) as Hmb.
  pose proof (Z.div_pos offset 32 Ho ltac:(lia)) as Hdp.
  rewrite (u32_small (size - _)) by (unfold nbits in *; width_lia).
  set (q := offset / 32) in *.
  assert (Hfin : forall o, (exists r, o = Some r /\ offset <= r <= size /\
      (r < size -> (offset <=? r) && btest ws r = true) /\
      (forall i, offset <= i < r -> (offset <=? i) && btest ws i = false)) ->
    exists r, o = Some r /\ first_from (btest ws) size offset r).
  { intros o (r & -> & H1 & H2 & H3). exists r. split; [done|]. split_and!; [done|lia| |].
    - intros Hr. specialize (H2 Hr). by apply andb_true_iff in H2 as [_ ?].
    - intros i Hi. specialize (H3 i Hi). by destruct (Z.leb_spec offset i); [|lia]. }
  apply Hfin. destruct (Z.eqb_spec (offset mod 32) 0) as [E|E]; cbn [negb].
  { destruct (fnb_scan_spec ws Hok size offset Hsize Hb Ho q (size - 32 * q) (32 * q))
      as (r & H1 & H2 & H3 & H4); try lia.
    exists r. split_and!; [done|lia|lia|done|]. intros i Hi. apply H4. lia. }
  destruct (array_get_word ws q Hok) as (w & -> & Hw & Hu); [unfold nbits in *; lia|]. simpl.
  set (tmp := Z.land w _).
  assert (Hut : is_u32 tmp) by (apply is_u32_land_l; [done|apply is_u32_shl32]).
  set (f := fun i => (offset <=? i) && btest ws i).
  assert (Hf : forall j, 0 <= j < 32 -> Z.testbit tmp j = f (32 * q + j)).
  { intros j Hj. unfold tmp, f. rewrite Z.land_spec, high_ones_testbit by lia.
    rewrite (btest_word _ _ w) by done. rewrite andb_comm.
    destruct (Z.leb_spec (offset mod 32) j), (Z.leb_spec offset (32 * q + j)); lia || done. }
  destruct (Z.ltb_spec (size - 32 * q) 32) as [Hs|Hs].
  { destruct (fnb_found_first_spec f (size - 32 * q) (32 * q) tmp)
      as (r & H1 & H2 & H3 & H4); [done|done|lia|lia|unfold nbits in *; lia|].
    exists r. rewrite H1. destruct (Z.lt_ge_cases r offset).
    - assert (Hr : f r = true) by (apply H3; lia). unfold f in Hr.
      by destruct (Z.leb_spec offset r); [lia|].
    - split_and!; [done|lia|lia| |]; [intros; apply H3; lia|intros; apply H4; lia]. }
  destruct (Z.eqb_spec tmp 0) as [Et|Et]; cbn [negb].
  - rewrite !u32_small by (unfold nbits in *; width_lia).
    destruct (fnb_scan_spec ws Hok size offset Hsize Hb Ho (q + 1) (size - 32 * q - 32) (32 * q + 32))
      as (r & H1 & H2 & H3 & H4); try lia.
    exists r. split_and!; [done|lia|lia|done|]. intros i Hi.
    destruct (Z.lt_ge_cases i (32 * q + 32)); [|apply H4; lia].
    replace i with (32 * q + (i - 32 * q)) by lia.
    change (f (32 * q + (i - 32 * q)) = false). rewrite <- Hf by lia. rewrite Et. apply Z.bits_0.
  - destruct (fnb_found_middle_spec f (32 * q) tmp) as (r & H1 & H2 & H3 & H4);
      [done|done|done|lia|unfold nbits in *; lia|].
    exists r. rewrite H1. unfold f in H3. apply andb_true_iff in H3 as [H3%Z.leb_le H5].
    split_and!; [done|lia|lia| |].
    + intros. rewrite H5. by destruct (Z.leb_spec offset r); [|lia].
    + intros. apply H4. lia.
Qed.

(** *** The search for a zero bit is the search for a set bit in the
    complemented array. *)
Lemma btest_complement ws i :
  0 <= i < nbits ws -> btest (not32 <$> ws) i = negb (btest ws i).
Proof.
  intros Hi. unfold btest, nbits in *.
  pose proof (Z.mod_pos_bound i 32 ltac:(lia)).
  assert (Z.to_nat (i / 32) < length ws)%nat.
  { apply Nat2Z.inj_lt. rewrite Z2Nat.id by (apply Z.div_pos; lia).
    apply Z.div_lt_upper_bound; lia. }
  rewrite !list_lookup_total_alt, list_lookup_fmap.
  destruct (lookup_lt_is_Some_2 ws (Z.to_nat (i / 32))) as [w ->]; [done|]. simpl.
  rewrite not32_testbit by lia.
  by destruct (Z.ltb_spec (i mod 32) 32); [|lia].
Qed.

Lemma not32_involutive x : is_u32 x -> not32 (not32 x) = x.
Proof.
  intros Hx. apply Z.bits_inj'. intros i Hi. rewrite !not32_testbit by done.
  destruct (Z.ltb_spec i 32); simpl; [apply negb_involutive|].
  symmetry. by apply is_u32_testbit.
Qed.

Lemma not32_lor x y : not32 (Z.lor x y) = Z.land (not32 x) (not32 y).
Proof.
  apply Z.bits_inj'. intros i Hi. rewrite Z.land_spec, !not32_testbit by done.
  rewrite Z.lor_spec. destruct (i <? 32); [|done]. simpl. apply negb_orb.
Qed.

Lemma not32_low_ones n : 0 < n < 32 -> not32 (shr32 ULONG_ALL (BITS_PER_LONG - n)) = shl32 ULONG_ALL n.
Proof.
  intros. apply Z.bits_inj'. intros i Hi. rewrite not32_testbit by done.
  rewrite low_mask_testbit by lia. destruct (Z.ltb_spec i 32); simpl.
  - rewrite high_ones_testbit by lia. rewrite Z.leb_antisym. done.
  - rewrite shl32_testbit by done. by destruct (Z.ltb_spec i 32); [lia|].
Qed.

Lemma not32_zero x : is_u32 x -> (not32 x =? 0) = (x =? ULONG_ALL).
Proof.
  intros Hx. destruct (Z.eqb_spec x ULONG_ALL) as [->|Hne]; [done|].
  apply Z.eqb_neq. intros E. apply Hne. rewrite <- (not32_involutive x Hx), E. done.
Qed.

Lemma fnz_found_first_compl size result tmp :
  is_u32 tmp -> 0 < size < 32 ->
  fnz_found_first size result tmp = fnb_found_first size result (not32 tmp).
Proof.
  intros Hu Hs. unfold fnz_found_first, fnb_found_first, fnz_found_middle, fnb_found_middle, ffz.
  rewrite <- not32_zero by (apply is_u32_lor; [done|apply is_u32_shl32]).
  rewrite not32_lor. rewrite <- not32_low_ones by done.
  by rewrite not32_involutive by (apply is_u32_shr32; [done|unfold BITS_PER_LONG; lia]).
Qed.

Lemma array_get_fmap {A B} (g : A -> B) (l : list A) i :
  array_get (g <$> l) i = g <$> array_get l i.
Proof. unfold array_get. case_bool_decide; [apply list_lookup_fmap|done]. Qed.

Lemma fnz_scan_compl ws p size result :
  words_ok ws -> is_u32 size ->
  fnz_scan ws p size result = fnb_scan (not32 <$> ws) p size result.
Proof.
  intros Hok. unfold fnz_scan, fnb_scan. generalize (S (Z.to_nat size)) as n.
  intros n. revert p size result. induction n as [|n IH]; intros p size result Hs; [done|].
  rewrite !loop_S. unfold fnz_scan_body at 1, fnb_scan_body at 1. rewrite scan_mask_test by done.
  rewrite array_get_fmap.
  destruct (Z.ltb_spec size 32); cbn [negb].
  - destruct (Z.eqb_spec size 0); [done|].
    destruct (array_get ws p) as [w|] eqn:E; [|done]. simpl.
    assert (is_u32 w).
    { unfold array_get in E. case_bool_decide; [|done]. by eapply words_ok_lookup. }
    rewrite fnz_found_first_compl; [done|done|]. unfold is_u32 in *. lia.
  - destruct (array_get ws p) as [w|]; [|done]. simpl.
    destruct (not32 w =? 0); cbn [negb]; [|done].
    apply IH. apply u32_range.
Qed.

Lemma find_next_zero_bit_compl ws size offset :
  words_ok ws -> is_u32 offset -> is_u32 size ->
  find_next_zero_bit ws size offset = find_next_bit (not32 <$> ws) size offset.
Proof.
  intros Hok Hoff Hsize. unfold find_next_zero_bit, find_next_bit.
  destruct (Z.leb_spec size offset); [done|].
  pose proof (Z.mod_pos_bound offset 32 ltac:(lia)).
  pose proof (Z.div_mod offset 32 ltac:(lia)).
  rewrite land_align by done.
  destruct (Z.eqb_spec (offset mod BITS_PER_LONG) 0) as [E|E]; cbn [negb].
  { apply fnz_scan_compl; [done|apply u32_range]. }
  rewrite array_get_fmap.
  destruct (array_get ws (BITOP_WORD offset)) as [w|] eqn:Ew; [|done]. simpl.
  assert (Hw : is_u32 w).
  { unfold array_get in Ew. case_bool_decide; [|done]. by eapply words_ok_lookup. }
  unfold BITS_PER_LONG in E.
  assert (Hr : 0 < offset mod BITS_PER_LONG < 32) by (unfold BITS_PER_LONG; lia).
  rewrite <- (not32_low_ones (offset mod BITS_PER_LONG)) by done. rewrite <- not32_lor.
  set (tmp := Z.lor w _).
  assert (Hlor : is_u32 tmp).
  { apply is_u32_lor; [done|]. apply is_u32_shr32; [done|]. unfold BITS_PER_LONG. lia. }
  destruct (Z.ltb_spec (u32 (size - 32 * (offset / 32))) BITS_PER_LONG) as [Hs|Hs].
  - f_equal. apply fnz_found_first_compl; [done|]. unfold BITS_PER_LONG in Hs.
    rewrite u32_small in * by (unfold is_u32 in *; lia). lia.
  - destruct (not32 tmp =? 0); cbn [negb]; [|done].
    apply fnz_scan_compl; [done|apply u32_range].
Qed.

Lemma find_next_zero_bit_first ws size offset :
  words_ok ws -> 0 <= size <= nbits ws -> nbits ws + 32 <= UINT_MAX -> is_u32 offset ->
  exists r, find_next_zero_bit ws size offset = Some r /\
    first_from (fun i => negb (btest ws i)) size offset r.
Proof.
  intros Hok Hsize Hb Hoff.
  rewrite find_next_zero_bit_compl by (done || unfold nbits in *; width_lia).
  assert (Hn : nbits (not32 <$> ws) = nbits ws) by (unfold nbits; by rewrite length_fmap).
  destruct (find_next_bit_first (not32 <$> ws) size offset) as (r & Hr & A & B & C & D).
  - unfold words_ok. apply Forall_fmap, Forall_true. intros. apply is_u32_not32.
  - by rewrite Hn.
  - by rewrite Hn.
  - done.
  - exists r. split; [done|]. unfold is_u32 in Hoff. split_and!; [done|done| |].
    + intros Hlt. rewrite <- btest_complement; [by apply C|].
      destruct (Z.lt_ge_cases offset size); lia.
    + intros i Hi. rewrite <- btest_complement; [by apply D|].
      destruct (Z.lt_ge_cases offset size); lia.
Qed.

(** *** Single-bit updates *)

Lemma one_shl_testbit n j : 0 <= n < 32 -> 0 <= j -> Z.testbit (shl32 1 n) j = (j =? n).
Proof.
  intros. rewrite shl32_testbit by done.
  destruct (Z.eqb_spec j n) as [->|].
  - rewrite Z.sub_diag. by destruct (Z.ltb_spec n 32); [|lia].
  - destruct (Z.ltb_spec j 32); [|done]. simpl.
    destruct (Z.lt_ge_cases j n); [apply Z.testbit_neg_r; lia|].
    apply (Z.bits_above_log2 1); [lia|]. change (Z.log2 1) with 0. lia.
Qed.

Lemma word_index ws nr :
  0 <= nr < nbits ws -> 0 <= BITOP_WORD nr < Z.of_nat (length ws).
Proof.
  intros. unfold BITOP_WORD, BITS_PER_LONG, nbits in *.
  split; [apply Z.div_pos; lia|apply Z.div_lt_upper_bound; lia].
Qed.

Lemma BITOP_MASK_testbit nr j : 0 <= j -> Z.testbit (BITOP_MASK nr) j = (j =? nr mod 32).
Proof.
  intros. apply one_shl_testbit; [|done]. apply Z.mod_pos_bound. done.
Qed.

(** Position [i] is position [nr] when word and bit agree. *)
Lemma same_position i nr :
  i / 32 = nr / 32 -> (i mod 32 =? nr mod 32) = (i =? nr).
Proof.
  intros E. pose proof (Z.div_mod i 32 ltac:(lia)). pose proof (Z.div_mod nr 32 ltac:(lia)).
  destruct (Z.eqb_spec (i mod 32) (nr mod 32)), (Z.eqb_spec i nr); try done; [lia|congruence].
Qed.

(** A read-modify-write of the word of [nr] that combines it bitwise. *)
Lemma update_word_spec ws nr (g : Z -> Z) (h : bool -> bool -> bool) :
  words_ok ws -> 0 <= nr < nbits ws ->
  (forall w, is_u32 w -> is_u32 (g w)) ->
  (forall w j, is_u32 w -> 0 <= j < 32 ->
     Z.testbit (g w) j = h (Z.testbit w j) (j =? nr mod 32)) ->
  (forall b, h b false = b) ->
  exists ws', (p ← array_get ws (BITOP_WORD nr); array_set ws (BITOP_WORD nr) (g p)) = Some ws' /\
    words_ok ws' /\ length ws' = length ws /\
    (forall i, 0 <= i -> btest ws' i = if i =? nr then h (btest ws i) true else btest ws i).
Proof.
  intros Hok Hnr Hgu Hg Hh. pose proof (word_index _ _ Hnr) as Hi.
  destruct (array_get_word ws (BITOP_WORD nr) Hok Hi) as (w & -> & Hw & Hu). simpl.
  rewrite array_set_Some by done. eexists. split; [done|]. split_and!.
  - by apply words_ok_insert, Hgu.
  - apply length_insert.
  - intros i Hi0. rewrite btest_insert by done. pose proof (Z.mod_pos_bound i 32 ltac:(lia)).
    case_bool_decide as E; unfold BITOP_WORD, BITS_PER_LONG in *.
    + rewrite Hg by done. rewrite same_position by done.
      assert (Eb : Z.testbit w (i mod 32) = btest ws i).
      { unfold btest. rewrite E. by rewrite (list_lookup_total_correct _ _ _ Hw). }
      rewrite Eb. by destruct (i =? nr); [|rewrite Hh].
    + destruct (Z.eqb_spec i nr) as [->|]; [done|done].
Qed.

Lemma __set_bit_spec ws nr :
  words_ok ws -> 0 <= nr < nbits ws ->
  exists ws', __set_bit nr ws = Some ws' /\ words_ok ws' /\ length ws' = length ws /\
    (forall i, 0 <= i -> btest ws' i = (i =? nr) || btest ws i).
Proof.
  intros Hok Hnr. destruct (update_word_spec ws nr (fun p => Z.lor p (BITOP_MASK nr)) orb)
    as (ws' & H1 & H2 & H3 & H4); [done|done| | |apply orb_false_r|].
  - intros. apply is_u32_lor; [done|apply is_u32_shl32].
  - intros. by rewrite Z.lor_spec, BITOP_MASK_testbit by lia.
  - exists ws'. split_and!; [done|done|done|]. intros i Hi. rewrite H4 by done.
    by destruct (i =? nr); [rewrite orb_true_r|].
Qed.

Lemma __clear_bit_spec ws nr :
  words_ok ws -> 0 <= nr < nbits ws ->
  exists ws', __clear_bit nr ws = Some ws' /\ words_ok ws' /\ length ws' = length ws /\
    (forall i, 0 <= i -> btest ws' i = negb (i =? nr) && btest ws i).
Proof.
  intros Hok Hnr.
  destruct (update_word_spec ws nr (fun p => Z.land p (not32 (BITOP_MASK nr)))
    (fun b m => b && negb m)) as (ws' & H1 & H2 & H3 & H4); [done|done| | |apply andb_true_r|].
  - intros. apply is_u32_land_l; [done|apply is_u32_not32].
  - intros. rewrite Z.land_spec, not32_testbit, BITOP_MASK_testbit by lia.
    by destruct (Z.ltb_spec j 32); [|lia].
  - exists ws'. split_and!; [done|done|done|]. intros i Hi. rewrite H4 by done.
    by destruct (i =? nr); [rewrite andb_false_r|].
Qed.

Lemma __change_bit_spec ws nr :
  words_ok ws -> 0 <= nr < nbits ws ->
  exists ws', __change_bit nr ws = Some ws' /\ words_ok ws' /\ length ws' = length ws /\
    (forall i, 0 <= i -> btest ws' i = xorb (i =? nr) (btest ws i)).
Proof.
  intros Hok Hnr. destruct (update_word_spec ws nr (fun p => Z.lxor p (BITOP_MASK nr)) xorb)
    as (ws' & H1 & H2 & H3 & H4); [done|done| | |apply xorb_false_r|].
  - intros. apply is_u32_lxor; [done|apply is_u32_shl32].
  - intros. by rewrite Z.lxor_spec, BITOP_MASK_testbit by lia.
  - exists ws'. split_and!; [done|done|done|]. intros i Hi. rewrite H4 by done.
    destruct (i =? nr); [apply xorb_comm|by rewrite xorb_false_l].
Qed.

Lemma test_bit_spec ws nr :
  words_ok ws -> 0 <= nr < nbits ws -> test_bit nr ws = Some (Z.b2z (btest ws nr)).
Proof.
  intros Hok Hnr. unfold test_bit.
  destruct (array_get_word ws (BITOP_WORD nr) Hok (word_index _ _ Hnr)) as (w & -> & Hw & Hu).
  simpl. f_equal. change (BITS_PER_LONG - 1) with (Z.ones 5).
  rewrite Z.land_ones by lia. change (2 ^ 5) with 32.
  unfold btest, BITOP_WORD, BITS_PER_LONG in *.
  rewrite (list_lookup_total_correct _ _ _ Hw). pose proof (Z.mod_pos_bound nr 32 ltac:(lia)).
  rewrite Z.land_comm. change 1 with (Z.ones 1) at 1. rewrite Z.land_ones by lia.
  unfold shr32. rewrite <- Z.bit0_mod, Z.shiftr_spec by lia. done.
Qed.

(** ** lib/hweight.c *)

Definition hweight32 (w : Z) : Z :=
  let res := u32 (w - Z.land (shr32 w 1) 0x55555555) in
  let res := u32 (Z.land res 0x33333333 + Z.land (shr32 res 2) 0x33333333) in
  let res := Z.land (u32 (res + shr32 res 4)) 0x0F0F0F0F in
  let res := u32 (res + shr32 res 8) in
  Z.land (u32 (res + shr32 res 16)) 0x000000FF.

(** Reference: the number of positions below [n] at which [f] holds. *)
Fixpoint count_bits (f : Z -> bool) (n : nat) : Z :=
  match n with
  | O => 0
  | S n => count_bits f n + Z.b2z (f (Z.of_nat n))
  end.

Lemma count_bits_ext f g n :
  (forall i, 0 <= i < Z.of_nat n -> f i = g i) -> count_bits f n = count_bits g n.
Proof.
  induction n as [|n IH]; intros H; [done|]. simpl.
  rewrite IH by (intros; apply H; lia). by rewrite H by lia.
Qed.

Lemma count_bits_app f a n :
  count_bits f (a + n) = count_bits f a + count_bits (fun i => f (Z.of_nat a + i)) n.
Proof.
  induction n as [|n IH]; [rewrite Nat.add_0_r; simpl; lia|].
  rewrite Nat.add_succ_r. simpl. rewrite IH. rewrite Nat2Z.inj_add. lia.
Qed.

Lemma count_bits_bound f n : 0 <= count_bits f n <= Z.of_nat n.
Proof.
  induction n as [|n IH]; [done|]. cbn [count_bits].
  destruct (f (Z.of_nat n)); simpl Z.b2z; lia.
Qed.

Lemma count_bits_zero f n :
  (forall i, 0 <= i < Z.of_nat n -> f i = false) -> count_bits f n = 0.
Proof.
  intros H. rewrite (count_bits_ext _ (fun _ => false)) by done.
  induction n as [|n IH]; [done|]. simpl. rewrite IH; [done|]. intros. apply H. lia.
Qed.

(** A word is handled byte by byte: [cat b q] is the byte [b] below [q]. *)
Definition cat (b q : Z) : Z := b + 256 * q.

Lemma cat_testbit b q i :
  0 <= b < 256 -> 0 <= i ->
  Z.testbit (cat b q) i = if i <? 8 then Z.testbit b i else Z.testbit q (i - 8).
Proof.
  intros Hb Hi. unfold cat. destruct (Z.ltb_spec i 8).
  - rewrite <- (Z.mod_pow2_bits_low _ 8) by lia.
    change (2 ^ 8) with 256. rewrite Z.mul_comm, Z_mod_plus_full.
    rewrite Z.mod_small by lia. done.
  - replace i with (i - 8 + 8) at 1 by lia. rewrite <- Z.div_pow2_bits by lia.
    change (2 ^ 8) with 256. rewrite Z.mul_comm, Z.div_add by lia.
    rewrite Z.div_small by lia. done.
Qed.

Lemma land_le_r x m : 0 <= m -> Z.land x m <= m.
Proof.
  intros Hm. enough (0 <= m - Z.land x m) by lia.
  rewrite Z.sub_nocarry_ldiff; [apply Z.ldiff_nonneg; by left|].
  apply Z.bits_inj'. intros i _. rewrite Z.ldiff_spec, Z.land_spec, Z.bits_0.
  by destruct (Z.testbit x i), (Z.testbit m i).
Qed.

Lemma cat_land_shift b q m M s :
  0 <= b < 256 -> 0 <= s < 8 -> 0 <= m < 2 ^ (8 - s) -> 
  Z.land (shr32 (cat b q) s) (cat m M) =
    cat (Z.land (shr32 b s) m) (Z.land (shr32 q s) M).
Proof.
  intros Hb Hs Hm.
  assert (Hm8 : 2 ^ (8 - s) <= 256) by (change 256 with (2 ^ 8); apply Z.pow_le_mono_r; lia).
  assert (Hl : 0 <= Z.land (shr32 b s) m < 256).
  { split; [apply Z.land_nonneg; lia|].
    apply Z.le_lt_trans with m; [apply land_le_r|]; lia. }
  apply Z.bits_inj'. intros i Hi.
  rewrite Z.land_spec, shr32_testbit, !cat_testbit by lia.
  rewrite !Z.land_spec.
  destruct (Z.ltb_spec i 8); rewrite ?shr32_testbit by lia.
  - destruct (Z.ltb_spec (i + s) 8); [done|].
    assert (Z.testbit m i = false) as ->; [|by rewrite !andb_false_r].
    destruct (Z.eq_dec m 0) as [->|]; [apply Z.bits_0|].
    apply Z.bits_above_log2; [lia|]. apply Z.lt_le_trans with (8 - s); [|lia].
    apply Z.log2_lt_pow2; lia.
  - destruct (Z.ltb_spec (i + s) 8); [lia|]. do 2 f_equal. lia.
Qed.

Lemma cat_land b q m M :
  0 <= b < 256 -> 0 <= m < 256 -> Z.land (cat b q) (cat m M) = cat (Z.land b m) (Z.land q M).
Proof.
  intros. pose proof (cat_land_shift b q m M 0 ltac:(done) ltac:(done) ltac:(done)) as E.
  unfold shr32 in E. by rewrite !Z.shiftr_0_r in E.
Qed.

Lemma cat_sub b q b' q' : cat b q - cat b' q' = cat (b - b') (q - q').
Proof. unfold cat. lia. Qed.
Lemma cat_add b q b' q' : cat b q + cat b' q' = cat (b + b') (q + q').
Proof. unfold cat. lia. Qed.

(** The third step on one byte and the bytes above it. *)
Lemma hweight_nibbles d D M :
  0 <= d <= 0x44 -> 0 <= D -> D mod 16 <= 4 ->
  Z.land (cat d D + shr32 (cat d D) 4) (cat 15 M) =
    cat ((d + d / 16) mod 16) (Z.land (D + shr32 D 4) M).
Proof.
  intros Hd HD Hn. unfold shr32. rewrite !Z.shiftr_div_pow2 by lia. change (2 ^ 4) with 16.
  assert (E : cat d D + cat d D / 16 = cat (d + d / 16 + 16 * (D mod 16)) (D + D / 16))
    by (unfold cat; div_lia).
  assert (0 <= D mod 16) by (apply Z.mod_pos_bound; lia).
  assert (0 <= d / 16 <= 4) by div_lia.
  rewrite E, cat_land by lia. f_equal.
  change 15 with (Z.ones 4). rewrite Z.land_ones by lia. change (2 ^ 4) with 16.
  rewrite (Z.mul_comm 16). apply Z_mod_plus_full.
Qed.

(** The first three steps on a single byte. *)
Definition hw_byte1 (b : Z) : Z := b - Z.land (shr32 b 1) 0x55.
Definition hw_byte2 (c : Z) : Z := Z.land c 0x33 + Z.land (shr32 c 2) 0x33.

Definition hw_byte_ok (b : Z) : bool :=
  let c := hw_byte1 b in
  let d := hw_byte2 c in
  (0 <=? c) && (c <? 256) && (0 <=? d) && (d <=? 0x44) && (d mod 16 <=? 4) &&
  ((d + d / 16) mod 16 =? count_bits (Z.testbit b) 8).

Lemma hw_byte_ok_all : forallb (fun k => hw_byte_ok (Z.of_nat k)) (seq 0 256) = true.
Proof. vm_compute. reflexivity. Qed.

Lemma hw_byte b :
  0 <= b < 256 ->
  0 <= hw_byte1 b < 256 /\ 0 <= hw_byte2 (hw_byte1 b) <= 0x44 /\
  hw_byte2 (hw_byte1 b) mod 16 <= 4 /\
  (hw_byte2 (hw_byte1 b) + hw_byte2 (hw_byte1 b) / 16) mod 16 = count_bits (Z.testbit b) 8.
Proof.
  intros Hb. pose proof (proj1 (forallb_forall _ _) hw_byte_ok_all (Z.to_nat b)) as H.
  cbv beta in H. rewrite Z2Nat.id in H by lia. specialize (H ltac:(apply in_seq; lia)).
  unfold hw_byte_ok in H. rewrite !andb_true_iff in H.
  destruct H as [[[[[H1%Z.leb_le H2%Z.ltb_lt] H3%Z.leb_le] H4%Z.leb_le] H5%Z.leb_le] H6%Z.eqb_eq].
  auto.
Qed.

Lemma count_bits_cat b q n :
  0 <= b < 256 ->
  count_bits (Z.testbit (cat b q)) (8 + n) = count_bits (Z.testbit b) 8 + count_bits (Z.testbit q) n.
Proof.
  intros Hb. rewrite count_bits_app. f_equal; apply count_bits_ext; intros i Hi;
    rewrite cat_testbit by lia.
  - by destruct (Z.ltb_spec i 8); [|lia].
  - destruct (Z.ltb_spec (Z.of_nat 8 + i) 8); [lia|]. f_equal. lia.
Qed.

(** The parallel counting steps of hweight32 count the set bits of the word. *)
Lemma hweight32_spec w : is_u32 w -> hweight32 w = count_bits (Z.testbit w) 32.
Proof.
  intros Hw.
  assert (exists b0 b1 b2 b3, 0 <= b0 < 256 /\ 0 <= b1 < 256 /\ 0 <= b2 < 256 /\
    0 <= b3 < 256 /\ w = cat b0 (cat b1 (cat b2 (cat b3 0))))
    as (b0 & b1 & b2 & b3 & B0 & B1 & B2 & B3 & ->).
  { exists (w mod 256), (w / 256 mod 256), (w / 65536 mod 256), (w / 16777216).
    unfold cat. unfold is_u32, U32_MOD in Hw. div_lia. }
  change 32%nat with (8 + (8 + (8 + (8 + 0))))%nat. rewrite !count_bits_cat by done.
  destruct (hw_byte b0 B0) as (C0 & D0 & N0 & <-), (hw_byte b1 B1) as (C1 & D1 & N1 & <-),
    (hw_byte b2 B2) as (C2 & D2 & N2 & <-), (hw_byte b3 B3) as (C3 & D3 & N3 & <-).
  unfold hweight32.
  change 0x55555555 with (cat 0x55 (cat 0x55 (cat 0x55 (cat 0x55 0)))).
  change 0x33333333 with (cat 0x33 (cat 0x33 (cat 0x33 (cat 0x33 0)))).
  change 0x0F0F0F0F with (cat 15 (cat 15 (cat 15 (cat 15 0)))).
  rewrite !cat_land_shift by lia. rewrite Z.land_0_r, !cat_sub. fold (hw_byte1 b0)
    (hw_byte1 b1) (hw_byte1 b2) (hw_byte1 b3).
  set (c0 := hw_byte1 b0) in *. set (c1 := hw_byte1 b1) in *.
  set (c2 := hw_byte1 b2) in *. set (c3 := hw_byte1 b3) in *.
  rewrite Z.sub_0_r. rewrite (u32_small (cat c0 _)) by (unfold cat; width_lia).
  rewrite !cat_land_shift, !cat_land by lia. rewrite !Z.land_0_r, !cat_add.
  fold (hw_byte2 c0) (hw_byte2 c1) (hw_byte2 c2) (hw_byte2 c3).
  set (d0 := hw_byte2 c0) in *. set (d1 := hw_byte2 c1) in *.
  set (d2 := hw_byte2 c2) in *. set (d3 := hw_byte2 c3) in *.
  rewrite Z.add_0_r. rewrite (u32_small (cat d0 _)) by (unfold cat; width_lia).
  rewrite (u32_small (cat d0 _ + _)) by (unfold shr32; rewrite Z.shiftr_div_pow2 by lia;
    change (2 ^ 4) with 16; unfold cat; width_lia; div_lia).
  rewrite !hweight_nibbles by (unfold cat; div_lia). rewrite Z.land_0_r.
  set (e0 := (d0 + d0 / 16) mod 16). set (e1 := (d1 + d1 / 16) mod 16).
  set (e2 := (d2 + d2 / 16) mod 16). set (e3 := (d3 + d3 / 16) mod 16).
  assert (0 <= e0 <= 8 /\ 0 <= e1 <= 8 /\ 0 <= e2 <= 8 /\ 0 <= e3 <= 8) by (unfold e0, e1, e2, e3; div_lia).
  clearbody e0 e1 e2 e3. unfold shr32. rewrite !Z.shiftr_div_pow2 by lia.
  change (2 ^ 8) with 256. change (2 ^ 16) with 65536. unfold cat.
  change 0x000000FF with (Z.ones 8). rewrite Z.land_ones by lia. change (2 ^ 8) with 256.
  unfold u32, U32_MOD. change (2 ^ 32) with 4294967296. simpl count_bits. div_lia.
Qed.

Ltac words_by_eval := repeat apply Forall_cons_2; [by_eval..|apply Forall_nil_2].

(** ** Properties *)

(** The word primitives meet their comments: fls gives the position of the
    most significant set bit counted from 1 (0 for 0), __ffs and ffz the position
    of the least significant set and clear bit, hweight32 the number of set bits. *)
Theorem word_primitives_correct w :
  is_u32 w ->
  fls w = (if w =? 0 then 0 else Z.log2 w + 1) /\
  (w <> 0 -> lowest_set w (__ffs w) /\ __ffs w < 32) /\
  (w <> ULONG_ALL -> 0 <= ffz w < 32 /\ Z.testbit w (ffz w) = false /\
     forall i, 0 <= i < ffz w -> Z.testbit w i = true) /\
  hweight32 w = count_bits (Z.testbit w) 32.
Proof.
  intros Hw. split_and!; [by apply fls_spec|by intros; apply __ffs_spec| |by apply hweight32_spec].
  intros Hne. unfold ffz. destruct (__ffs_spec (not32 w)) as [(H0 & H1 & H2) H3].
  - apply is_u32_not32.
  - intros E. apply Z.eqb_eq in E. rewrite not32_zero in E by done. by apply Z.eqb_eq in E.
  - rewrite not32_testbit in H1 by done. apply andb_true_iff in H1 as [_ H1].
    apply negb_true_iff in H1. split_and!; [done|done|done|].
    intros i Hi. specialize (H2 i Hi). rewrite not32_testbit in H2 by lia.
    destruct (Z.ltb_spec i 32); [|lia]. by apply negb_false_iff in H2.
Qed.

Lemma word_primitives_witness :
  fls 0x50 = 7 /\ __ffs 0x50 = 4 /\ ffz 0x50 = 0 /\ hweight32 0x50 = 2 /\
  lowest_set 0x50 (__ffs 0x50).
Proof.
  split_and!; [by_eval..|].
  apply (word_primitives_correct 0x50); [by_eval|by_eval].
Defined.

(** C24: find_next_bit and find_next_zero_bit stay inside the array and return the
    first set (clear) bit at or after [offset], and [size] when there is none. *)
Theorem find_next_correct ws size offset :
  words_ok ws -> 0 <= size <= nbits ws -> nbits ws + 32 <= UINT_MAX -> is_u32 offset ->
  (exists r, find_next_bit ws size offset = Some r /\
     first_from (btest ws) size offset r) /\
  (exists r, find_next_zero_bit ws size offset = Some r /\
     first_from (fun i => negb (btest ws i)) size offset r).
Proof.
  intros. split; [by apply find_next_bit_first|by apply find_next_zero_bit_first].
Qed.

Lemma find_next_witness :
  find_next_bit [0x10; 0x4] 40 5 = Some 34 /\
  exists r, find_next_bit [0x10; 0x4] 40 5 = Some r /\ first_from (btest [0x10; 0x4]) 40 5 r.
Proof.
  split; [by_eval|].
  apply (find_next_correct [0x10; 0x4] 40 5); [words_by_eval|by_eval..].
Defined.
