(* ===== verification/Bitmap.v ===== *)
(** lib/bitmap.c and include/linux/bitmap.h: bitmaps of [bits] bits stored in
    arrays of 32-bit words.  Unused bits of the last word are "don't care".

    The operations are modelled word by word as the code runs them; every
    result is stated on the bits below [bits] through [btest]. *)
From stdpp Require Import base list numbers option.
From Stdlib Require Import ZArith Lia.
From S2P Require Import Prelude Bitops.

Local Open Scope Z_scope.

(** include/linux/types.h, include/linux/bitmap.h *)
Definition BITS_TO_LONGS (bits : Z) : Z := (bits + BITS_PER_LONG - 1) / BITS_PER_LONG.

Definition BITMAP_LAST_WORD_MASK (nbits : Z) : Z :=
  if negb (nbits mod BITS_PER_LONG =? 0)
  then shl32 1 (nbits mod BITS_PER_LONG) - 1 else ULONG_ALL.

(** ** Tests *)

(** [for (k = lo; k < lo + n; ++k) if (hit(k)) return 1; return 0] *)
Fixpoint scan_words (hit : Z -> option bool) (k : Z) (n : nat) : option bool :=
  match n with
  | O => Some false
  | S n => h ← hit k; if h : bool then Some true else scan_words hit (k + 1) n
  end.

(** The shape shared by the tests: scan the whole words with [hit], then test
    the partial last word under its mask. *)
Definition any_word (hit : Z -> option bool) (last : Z -> option Z) (bits : Z) : option bool :=
  let lim := bits / BITS_PER_LONG in
  h ← scan_words hit 0 (Z.to_nat lim);
  if h : bool then Some true
  else if negb (bits mod BITS_PER_LONG =? 0) then
    w ← last lim;
    Some (negb (Z.land w (BITMAP_LAST_WORD_MASK bits) =? 0))
  else Some false.

Definition nonzero (word : Z -> option Z) (k : Z) : option bool :=
  w ← word k; Some (negb (w =? 0)).

Definition __bitmap_empty (bitmap : list Z) (bits : Z) : option Z :=
  let word k := array_get bitmap k in
  h ← any_word (nonzero word) word bits; Some (if h : bool then 0 else 1).

Definition __bitmap_full (bitmap : list Z) (bits : Z) : option Z :=
  let word k := w ← array_get bitmap k; Some (not32 w) in
  h ← any_word (nonzero word) word bits; Some (if h : bool then 0 else 1).

Definition __bitmap_equal (bitmap1 bitmap2 : list Z) (bits : Z) : option Z :=
  let differ k :=
    w1 ← array_get bitmap1 k; w2 ← array_get bitmap2 k; Some (negb (w1 =? w2)) in
  let word k :=
    w1 ← array_get bitmap1 k; w2 ← array_get bitmap2 k; Some (Z.lxor w1 w2) in
  h ← any_word differ word bits; Some (if h : bool then 0 else 1).

Definition __bitmap_intersects (bitmap1 bitmap2 : list Z) (bits : Z) : option Z :=
  let word k :=
    w1 ← array_get bitmap1 k; w2 ← array_get bitmap2 k; Some (Z.land w1 w2) in
  h ← any_word (nonzero word) word bits; Some (if h : bool then 1 else 0).

Definition __bitmap_subset (bitmap1 bitmap2 : list Z) (bits : Z) : option Z :=
  let word k :=
    w1 ← array_get bitmap1 k; w2 ← array_get bitmap2 k; Some (Z.land w1 (not32 w2)) in
  h ← any_word (nonzero word) word bits; Some (if h : bool then 0 else 1).

Definition hweight_long (w : Z) : Z := hweight32 w.

Definition __bitmap_weight (bitmap : list Z) (bits : Z) : option Z :=
  let lim := bits / BITS_PER_LONG in
  w ← for_each (fun k w => x ← array_get bitmap k; Some (s32 (w + hweight_long x)))
        (seqZ 0 lim) 0;
  if negb (bits mod BITS_PER_LONG =? 0) then
    x ← array_get bitmap lim;
    Some (s32 (w + hweight_long (Z.land x (BITMAP_LAST_WORD_MASK bits))))
  else Some w.

(** ** Word-wise operations

    [dst] may be the same array as a source: word [k] of the sources is read
    before word [k] of [dst] is written and not afterwards. *)

(** [for (k = 0; k < nr; k++) dst[k] = word(k)] *)
Definition store_words (word : Z -> option Z) (dst : list Z) (nr : Z) : option (list Z) :=
  for_each (fun k dst => w ← word k; array_set dst k w) (seqZ 0 nr) dst.

Definition __bitmap_complement (dst src : list Z) (bits : Z) : option (list Z) :=
  let lim := bits / BITS_PER_LONG in
  dst ← store_words (fun k => w ← array_get src k; Some (not32 w)) dst lim;
  if negb (bits mod BITS_PER_LONG =? 0) then
    w ← array_get src lim;
    array_set dst lim (Z.land (not32 w) (BITMAP_LAST_WORD_MASK bits))
  else Some dst.

Definition __bitmap_and (dst bitmap1 bitmap2 : list Z) (bits : Z) : option (list Z) :=
  store_words (fun k => w1 ← array_get bitmap1 k; w2 ← array_get bitmap2 k;
    Some (Z.land w1 w2)) dst (BITS_TO_LONGS bits).

Definition __bitmap_or (dst bitmap1 bitmap2 : list Z) (bits : Z) : option (list Z) :=
  store_words (fun k => w1 ← array_get bitmap1 k; w2 ← array_get bitmap2 k;
    Some (Z.lor w1 w2)) dst (BITS_TO_LONGS bits).

Definition __bitmap_xor (dst bitmap1 bitmap2 : list Z) (bits : Z) : option (list Z) :=
  store_words (fun k => w1 ← array_get bitmap1 k; w2 ← array_get bitmap2 k;
    Some (Z.lxor w1 w2)) dst (BITS_TO_LONGS bits).

Definition __bitmap_andnot (dst bitmap1 bitmap2 : list Z) (bits : Z) : option (list Z) :=
  store_words (fun k => w1 ← array_get bitmap1 k; w2 ← array_get bitmap2 k;
    Some (Z.land w1 (not32 w2))) dst (BITS_TO_LONGS bits).

(** ** Shifts

    [src = None] is the call with [dst == src], as bitmap_parse makes it. *)
Definition src_word (src : option (list Z)) (dst : list Z) (k : Z) : option Z :=
  match src with Some s => array_get s k | None => array_get dst k end.

(** memset(&dst[from], 0, n * sizeof(unsigned long)) *)
Definition clear_words (dst : list Z) (from n : Z) : option (list Z) :=
  if bool_decide (0 <= n) then mem_write dst from (replicate (Z.to_nat n) 0) else None.

(** One iteration of the loop: the word stored at [dst[k]]. *)
Definition shift_right_word (src : option (list Z)) (shift bits k : Z) (dst : list Z)
    : option Z :=
  let lim := BITS_TO_LONGS bits in
  let left := bits mod BITS_PER_LONG in
  let off := shift / BITS_PER_LONG in
  let rem := shift mod BITS_PER_LONG in
  let mask := u32 (shl32 1 left - 1) in
  upper ← (if (rem =? 0) || (lim <=? off + k + 1) then Some 0
           else
             upper ← src_word src dst (off + k + 1);
             Some (if (off + k + 1 =? lim - 1) && negb (left =? 0)
                   then Z.land upper mask else upper));
  lower ← src_word src dst (off + k);
  let lower := if negb (left =? 0) && (off + k =? lim - 1)
               then Z.land lower mask else lower in
  let w := Z.lor (shl32 upper (BITS_PER_LONG - rem)) (shr32 lower rem) in
  Some (if negb (left =? 0) && (k =? lim - 1) then Z.land w mask else w).

Definition __bitmap_shift_right (dst : list Z) (src : option (list Z)) (shift bits : Z)
    : option (list Z) :=
  let lim := BITS_TO_LONGS bits in
  let off := shift / BITS_PER_LONG in
  dst ← for_each (fun k dst => w ← shift_right_word src shift bits k dst; array_set dst k w)
          (seqZ 0 (lim - off)) dst;
  if negb (off =? 0) then clear_words dst (lim - off) off else Some dst.

(** One iteration of the loop: the word stored at [dst[k + off]]. *)
Definition shift_left_word (src : option (list Z)) (shift bits k : Z) (dst : list Z)
    : option Z :=
  let lim := BITS_TO_LONGS bits in
  let left := bits mod BITS_PER_LONG in
  let off := shift / BITS_PER_LONG in
  let rem := shift mod BITS_PER_LONG in
  lower ← (if negb (rem =? 0) && (0 <? k) then src_word src dst (k - 1) else Some 0);
  upper ← src_word src dst k;
  let upper := if negb (left =? 0) && (k =? lim - 1)
               then Z.land upper (u32 (shl32 1 left - 1)) else upper in
  let w := Z.lor (shr32 lower (BITS_PER_LONG - rem)) (shl32 upper rem) in
  Some (if negb (left =? 0) && (k + off =? lim - 1)
        then Z.land w (u32 (shl32 1 left - 1)) else w).

Definition __bitmap_shift_left (dst : list Z) (src : option (list Z)) (shift bits : Z)
    : option (list Z) :=
  let lim := BITS_TO_LONGS bits in
  let off := shift / BITS_PER_LONG in
  dst ← for_each (fun k dst => w ← shift_left_word src shift bits k dst; array_set dst (k + off) w)
          (reverse (seqZ 0 (lim - off))) dst;
  if negb (off =? 0) then clear_words dst 0 off else Some dst.

(** ** Word views

    [word_view word f k]: the [k]-th word is defined and its bits are the
    values of [f] at the positions of that word. *)
Definition word_view (word : Z -> option Z) (f : Z -> bool) (k : Z) : Prop :=
  exists w, word k = Some w /\ is_u32 w /\
    forall j, 0 <= j < 32 -> Z.testbit w j = f (32 * k + j).

Lemma array_view ws k :
  words_ok ws -> 0 <= k < Z.of_nat (length ws) -> word_view (array_get ws) (btest ws) k.
Proof.
  intros Hok Hk. destruct (array_get_word ws k Hok Hk) as (w & Hw & Hl & Hu).
  exists w. split_and!; [done|done|]. intros j Hj. by rewrite (btest_word _ _ w) by (done || lia).
Qed.

(** A bitwise operation on two words combines their views. *)
Lemma view_map2 (op : Z -> Z -> Z) (h : bool -> bool -> bool) word1 word2 f1 f2 k :
  (forall w1 w2, is_u32 w1 -> is_u32 w2 -> is_u32 (op w1 w2)) ->
  (forall w1 w2 j, 0 <= j < 32 ->
     Z.testbit (op w1 w2) j = h (Z.testbit w1 j) (Z.testbit w2 j)) ->
  word_view word1 f1 k -> word_view word2 f2 k ->
  word_view (fun k => w1 ← word1 k; w2 ← word2 k; Some (op w1 w2))
    (fun i => h (f1 i) (f2 i)) k.
Proof.
  intros Hu Hb (w1 & E1 & U1 & B1) (w2 & E2 & U2 & B2). exists (op w1 w2).
  rewrite E1, E2. split_and!; [done|auto|]. intros j Hj. by rewrite Hb, B1, B2 by done.
Qed.

Lemma view_not32 word f k :
  word_view word f k -> word_view (fun k => w ← word k; Some (not32 w)) (fun i => negb (f i)) k.
Proof.
  intros (w & E & U & B). exists (not32 w). rewrite E. split_and!; [done|apply is_u32_not32|].
  intros j Hj. rewrite not32_testbit by lia. rewrite B by done.
  by destruct (Z.ltb_spec j 32); [|lia].
Qed.

Lemma andnot_testbit w1 w2 j :
  0 <= j < 32 -> Z.testbit (Z.land w1 (not32 w2)) j = Z.testbit w1 j && negb (Z.testbit w2 j).
Proof.
  intros. rewrite Z.land_spec, not32_testbit by lia.
  by destruct (Z.ltb_spec j 32); [|lia].
Qed.

Lemma left_mask_testbit left j :
  0 <= left < 32 -> 0 <= j -> Z.testbit (u32 (shl32 1 left - 1)) j = (j <? left).
Proof.
  intros. unfold shl32. rewrite Z.shiftl_1_l.
  pose proof (Z.pow_pos_nonneg 2 left ltac:(lia) ltac:(lia)).
  assert (2 ^ left < U32_MOD) by (apply Z.pow_lt_mono_r; lia).
  rewrite (u32_small (2 ^ left)) by (unfold is_u32; lia).
  rewrite u32_small by (unfold is_u32; lia). apply pow2m1_testbit; lia.
Qed.

Lemma LAST_WORD_MASK_testbit bits j :
  bits mod 32 <> 0 -> 0 <= j ->
  Z.testbit (BITMAP_LAST_WORD_MASK bits) j = (j <? bits mod 32).
Proof.
  intros Hne Hj. pose proof (Z.mod_pos_bound bits 32 ltac:(lia)).
  unfold BITMAP_LAST_WORD_MASK, BITS_PER_LONG.
  destruct (Z.eqb_spec (bits mod 32) 0); [done|]. cbn [negb].
  rewrite <- (left_mask_testbit (bits mod 32) j) by lia. f_equal. symmetry. apply u32_small.
  unfold shl32. rewrite Z.shiftl_1_l.
  pose proof (Z.pow_pos_nonneg 2 (bits mod 32) ltac:(lia) ltac:(lia)).
  assert (2 ^ (bits mod 32) < U32_MOD) by (apply Z.pow_lt_mono_r; lia).
  rewrite u32_small by (unfold is_u32; lia). unfold is_u32. lia.
Qed.

Lemma LAST_WORD_MASK_u32 bits : is_u32 (BITMAP_LAST_WORD_MASK bits).
Proof.
  unfold BITMAP_LAST_WORD_MASK. case_match; [|done].
  unfold shl32. pose proof (Z.mod_pos_bound bits BITS_PER_LONG ltac:(done)).
  rewrite Z.shiftl_1_l.
  pose proof (Z.pow_pos_nonneg 2 (bits mod BITS_PER_LONG) ltac:(lia) ltac:(lia)).
  assert (2 ^ (bits mod BITS_PER_LONG) < U32_MOD)
    by (apply Z.pow_lt_mono_r; unfold BITS_PER_LONG in *; lia).
  rewrite u32_small by (unfold is_u32; lia). unfold is_u32. lia.
Qed.

#[export] Hint Resolve LAST_WORD_MASK_u32 : width.

(** ** The tests *)

Lemma nonzero_view word f k :
  word_view word f k ->
  exists h, nonzero word k = Some h /\
    (h = true <-> exists j, 0 <= j < 32 /\ f (32 * k + j) = true).
Proof.
  intros (w & E & U & B). unfold nonzero. rewrite E. simpl. eexists. split; [done|].
  pose proof (word_zero_bits w U) as Hz. rewrite negb_true_iff, Z.eqb_neq. split.
  - intros Hne. destruct (lowest_set_exists w U Hne) as (p & Hp & H0 & H1 & _).
    exists p. split; [lia|]. by rewrite <- B by lia.
  - intros (j & Hj & Hf) ->. rewrite <- B in Hf by done. by rewrite Z.bits_0 in Hf.
Qed.

Lemma scan_words_spec hit (f : Z -> bool) n lo :
  (forall k, lo <= k < lo + Z.of_nat n -> exists h, hit k = Some h /\
     (h = true <-> exists j, 0 <= j < 32 /\ f (32 * k + j) = true)) ->
  exists h, scan_words hit lo n = Some h /\
    (h = true <-> exists i, 32 * lo <= i < 32 * (lo + Z.of_nat n) /\ f i = true).
Proof.
  revert lo. induction n as [|n IH]; intros lo Hhit.
  { exists false. split; [done|]. split; [done|]. intros (i & Hi & _). lia. }
  destruct (Hhit lo ltac:(lia)) as (h & E & Hh). simpl. rewrite E. simpl.
  destruct h.
  - exists true. split; [done|]. split; [|done]. intros _.
    destruct (proj1 Hh eq_refl) as (j & Hj & Hf). exists (32 * lo + j). split; [lia|done].
  - destruct (IH (lo + 1)) as (h & E' & Hh').
    { intros k Hk. apply Hhit. lia. }
    exists h. split; [done|]. rewrite Hh'. split.
    + intros (i & Hi & Hf). exists i. split; [lia|done].
    + intros (i & Hi & Hf). exists i. split; [|done].
      destruct (Z.lt_ge_cases i (32 * (lo + 1))); [exfalso|lia].
      enough (false = true) by done. apply Hh. exists (i - 32 * lo). split; [lia|].
      by replace (32 * lo + (i - 32 * lo)) with i by lia.
Qed.

Lemma any_word_spec hit last (f : Z -> bool) bits :
  0 <= bits ->
  (forall k, 0 <= k < bits / 32 -> exists h, hit k = Some h /\
     (h = true <-> exists j, 0 <= j < 32 /\ f (32 * k + j) = true)) ->
  (bits mod 32 <> 0 -> word_view last f (bits / 32)) ->
  exists h, any_word hit last bits = Some h /\
    (h = true <-> exists i, 0 <= i < bits /\ f i = true).
Proof.
  intros Hb Hhit Hlast. unfold any_word, BITS_PER_LONG.
  pose proof (Z.div_pos bits 32 Hb ltac:(lia)).
  pose proof (Z.div_mod bits 32 ltac:(lia)). pose proof (Z.mod_pos_bound bits 32 ltac:(lia)).
  destruct (scan_words_spec hit f (Z.to_nat (bits / 32)) 0) as (h & E & Hh).
  { intros k Hk. apply Hhit. lia. }
  rewrite E. simpl. destruct h.
  { exists true. split; [done|]. split; [|done]. intros _.
    destruct (proj1 Hh eq_refl) as (i & Hi & Hf). exists i. split; [lia|done]. }
  assert (Hno : forall i, 0 <= i < 32 * (bits / 32) -> f i = false).
  { intros i Hi. destruct (f i) eqn:Ef; [|done]. enough (false = true) by done.
    apply Hh. exists i. split; [lia|done]. }
  destruct (Z.eqb_spec (bits mod 32) 0) as [E0|E0]; cbn [negb].
  { exists false. split; [done|]. split; [done|]. intros (i & Hi & Hf).
    rewrite Hno in Hf by lia. done. }
  destruct (Hlast E0) as (w & -> & U & B). simpl. eexists. split; [done|].
  assert (Hu : is_u32 (Z.land w (BITMAP_LAST_WORD_MASK bits))).
  { apply is_u32_land_l; [done|]. apply LAST_WORD_MASK_u32. }
  rewrite negb_true_iff, Z.eqb_neq. split.
  - intros Hne. destruct (lowest_set_exists _ Hu Hne) as (p & Hp & H0' & H1' & _).
    rewrite Z.land_spec, LAST_WORD_MASK_testbit in H1' by done.
    apply andb_true_iff in H1' as [H1' H2'%Z.ltb_lt]. rewrite B in H1' by lia.
    eexists. split; [|exact H1']. lia.
  - intros (i & Hi & Hf) E1. destruct (Z.lt_ge_cases i (32 * (bits / 32))).
    { rewrite Hno in Hf by lia. done. }
    pose proof (proj1 (word_zero_bits _ Hu) E1 (i - 32 * (bits / 32)) ltac:(lia)) as Hz.
    rewrite Z.land_spec, LAST_WORD_MASK_testbit, B in Hz by lia.
    replace (32 * (bits / 32) + (i - 32 * (bits / 32))) with i in Hz by lia.
    rewrite Hf in Hz. by destruct (Z.ltb_spec (i - 32 * (bits / 32)) (bits mod 32)); [|lia].
Qed.

(** The same with the word scan given by the words themselves. *)
Lemma any_word_view word (f : Z -> bool) bits :
  0 <= bits -> (forall k, 0 <= k < BITS_TO_LONGS bits -> word_view word f k) ->
  exists h, any_word (nonzero word) word bits = Some h /\
    (h = true <-> exists i, 0 <= i < bits /\ f i = true).
Proof.
  intros Hb Hv. unfold BITS_TO_LONGS, BITS_PER_LONG in Hv.
  apply any_word_spec; [done| |].
  - intros k Hk. apply nonzero_view, Hv. div_lia.
  - intros Hne. apply Hv. div_lia.
Qed.

Lemma longs_of_bits ws bits :
  0 <= bits <= nbits ws -> 0 <= BITS_TO_LONGS bits <= Z.of_nat (length ws).
Proof. unfold nbits, BITS_TO_LONGS, BITS_PER_LONG. intros. div_lia. Qed.

(** The C truth value of a test: defined, 1 when [P] holds and 0 when not. *)
Definition decides (o : option Z) (P : Prop) : Prop :=
  (o = Some 1 /\ P) \/ (o = Some 0 /\ ~ P).

(** Either some position below [bits] satisfies [f] or none does. *)
Lemma none_or_some (f : Z -> bool) bits (h : bool) :
  (h = true <-> exists i, 0 <= i < bits /\ f i = true) ->
  if h then exists i, 0 <= i < bits /\ f i = true
  else forall i, 0 <= i < bits -> f i = false.
Proof.
  intros Hh. destruct h; [by apply Hh|]. intros i Hi. destruct (f i) eqn:E; [|done].
  enough (false = true) by done. apply Hh. eauto.
Qed.

Lemma any_word_decides_none hit last (f : Z -> bool) bits P :
  (exists h, any_word hit last bits = Some h /\
     (h = true <-> exists i, 0 <= i < bits /\ f i = true)) ->
  (P <-> forall i, 0 <= i < bits -> f i = false) ->
  decides (h ← any_word hit last bits; Some (if h : bool then 0 else 1)) P.
Proof.
  intros (h & -> & Hh%none_or_some) HP. simpl. destruct h.
  - right. split; [done|]. rewrite HP. destruct Hh as (i & Hi & Hf).
    intros H. by rewrite H in Hf.
  - left. by rewrite HP.
Qed.

Lemma empty_decides b bits :
  words_ok b -> 0 <= bits <= nbits b ->
  decides (__bitmap_empty b bits) (forall i, 0 <= i < bits -> btest b i = false).
Proof.
  intros Hok Hb. apply any_word_decides_none with (btest b); [|done].
  apply any_word_view; [lia|]. intros k Hk. apply array_view; [done|].
  pose proof (longs_of_bits b bits Hb). lia.
Qed.

Lemma full_decides b bits :
  words_ok b -> 0 <= bits <= nbits b ->
  decides (__bitmap_full b bits) (forall i, 0 <= i < bits -> btest b i = true).
Proof.
  intros Hok Hb. apply any_word_decides_none with (fun i => negb (btest b i)).
  - apply any_word_view; [lia|]. intros k Hk. apply view_not32, array_view; [done|].
    pose proof (longs_of_bits b bits Hb). lia.
  - split; intros H i Hi; specialize (H i Hi); by destruct (btest b i).
Qed.

Lemma subset_decides b1 b2 bits :
  words_ok b1 -> words_ok b2 -> 0 <= bits <= nbits b1 -> bits <= nbits b2 ->
  decides (__bitmap_subset b1 b2 bits)
    (forall i, 0 <= i < bits -> btest b1 i = true -> btest b2 i = true).
Proof.
  intros Hok1 Hok2 Hb1 Hb2.
  apply any_word_decides_none with (fun i => btest b1 i && negb (btest b2 i)).
  - apply any_word_view; [lia|]. intros k Hk.
    pose proof (longs_of_bits b1 bits Hb1). pose proof (longs_of_bits b2 bits ltac:(lia)).
    apply (view_map2 (fun w1 w2 => Z.land w1 (not32 w2)) (fun a b => a && negb b)).
    + intros. apply is_u32_land_l; [done|]. apply is_u32_not32.
    + intros. by apply andnot_testbit.
    + apply array_view; [done|lia].
    + apply array_view; [done|lia].
  - split; intros H i Hi; specialize (H i Hi); destruct (btest b1 i), (btest b2 i); auto.
    by specialize (H eq_refl).
Qed.

Lemma equal_decides b1 b2 bits :
  words_ok b1 -> words_ok b2 -> 0 <= bits <= nbits b1 -> bits <= nbits b2 ->
  decides (__bitmap_equal b1 b2 bits)
    (forall i, 0 <= i < bits -> btest b1 i = btest b2 i).
Proof.
  intros Hok1 Hok2 Hb1 Hb2.
  apply any_word_decides_none with (fun i => xorb (btest b1 i) (btest b2 i)).
  - assert (Hv : forall k, 0 <= k < BITS_TO_LONGS bits ->
      word_view (array_get b1) (btest b1) k /\ word_view (array_get b2) (btest b2) k).
    { intros k Hk. pose proof (longs_of_bits b1 bits Hb1).
      pose proof (longs_of_bits b2 bits ltac:(lia)).
      split; apply array_view; try done; lia. }
    assert (Hx : forall k, 0 <= k < BITS_TO_LONGS bits -> word_view (fun k =>
      w1 ← array_get b1 k; w2 ← array_get b2 k; Some (Z.lxor w1 w2))
      (fun i => xorb (btest b1 i) (btest b2 i)) k).
    { intros k Hk. destruct (Hv k Hk). apply (view_map2 Z.lxor xorb);
        [intros; by apply is_u32_lxor|intros; apply Z.lxor_spec|done|done]. }
    apply any_word_spec; [lia| |].
    + intros k Hk.
      assert (Hk' : 0 <= k < BITS_TO_LONGS bits)
        by (unfold BITS_TO_LONGS, BITS_PER_LONG; div_lia).
      destruct (nonzero_view _ _ _ (Hx k Hk')) as (h & E & Hh).
      exists h. split; [|done]. revert E. unfold nonzero.
      destruct (array_get b1 k) as [w1|]; [|done]. destruct (array_get b2 k) as [w2|]; [|done].
      simpl. intros <-. do 2 f_equal.
      destruct (Z.eqb_spec w1 w2) as [->|Hne]; [by rewrite Z.lxor_nilpotent|].
      symmetry. apply Z.eqb_neq. by rewrite Z.lxor_eq_0_iff.
    + intros Hne. apply Hx. unfold BITS_TO_LONGS, BITS_PER_LONG. div_lia.
  - split; intros H i Hi; specialize (H i Hi); by destruct (btest b1 i), (btest b2 i).
Qed.

Lemma intersects_decides b1 b2 bits :
  words_ok b1 -> words_ok b2 -> 0 <= bits <= nbits b1 -> bits <= nbits b2 ->
  decides (__bitmap_intersects b1 b2 bits)
    (exists i, 0 <= i < bits /\ btest b1 i = true /\ btest b2 i = true).
Proof.
  intros Hok1 Hok2 Hb1 Hb2. unfold __bitmap_intersects.
  destruct (any_word_view (fun k => w1 ← array_get b1 k; w2 ← array_get b2 k; Some (Z.land w1 w2))
    (fun i => btest b1 i && btest b2 i) bits) as (h & E & Hh%none_or_some); [lia| |].
  - intros k Hk. pose proof (longs_of_bits b1 bits Hb1).
    pose proof (longs_of_bits b2 bits ltac:(lia)).
    apply (view_map2 Z.land andb); [|intros; apply Z.land_spec|apply array_view; [done|lia]..].
    intros ?? ? Hu. apply is_u32_land_l; [done|]. unfold is_u32 in Hu. lia.
  - rewrite E. simpl. destruct h.
    + left. split; [done|]. destruct Hh as (i & Hi & [? ?]%andb_true_iff). eauto.
    + right. split; [done|]. intros (i & Hi & E1 & E2). specialize (Hh i Hi).
      by rewrite E1, E2 in Hh.
Qed.

(** ** The word-wise operations *)

Lemma store_words_spec word (f : Z -> bool) dst nr :
  words_ok dst -> 0 <= nr <= Z.of_nat (length dst) ->
  (forall k, 0 <= k < nr -> word_view word f k) ->
  exists dst', store_words word dst nr = Some dst' /\ words_ok dst' /\
    length dst' = length dst /\
    (forall i, 0 <= i -> btest dst' i = if i <? 32 * nr then f i else btest dst i).
Proof.
  intros Hok Hnr Hv. unfold store_words.
  destruct (for_up (fun k dst => w ← word k; array_set dst k w)
    (fun k d => words_ok d /\ length d = length dst /\
       forall i, 0 <= i -> btest d i = if i <? 32 * k then f i else btest dst i) 0 nr dst)
    as (d & E & H1 & H2 & H3); [lia| | |].
  - split_and!; [done|done|]. intros i Hi. by destruct (Z.ltb_spec i (32 * 0)); [lia|].
  - intros k d Hk (Hd & Hl & Hb). destruct (Hv k ltac:(lia)) as (w & -> & U & B). simpl.
    rewrite array_set_Some by lia. eexists. split; [done|]. split_and!.
    + by apply words_ok_insert.
    + by rewrite length_insert.
    + intros i Hi. rewrite btest_insert by lia. rewrite Hb by done.
      case_bool_decide as Ek.
      * rewrite B by (apply Z.mod_pos_bound; lia). rewrite <- Ek.
        rewrite <- Z.div_mod by lia.
        destruct (Z.ltb_spec i (32 * (i / 32 + 1))); [done|]. div_lia.
      * destruct (Z.ltb_spec i (32 * k)), (Z.ltb_spec i (32 * (k + 1))); try done; div_lia.
  - exists d. split_and!; [done|done|done|]. intros i Hi. by rewrite H3 by done.
Qed.

(** Storing words that are given by a bitwise combination of two bitmaps. *)
Lemma store_map2_spec (op : Z -> Z -> Z) (h : bool -> bool -> bool) dst b1 b2 bits :
  (forall w1 w2, is_u32 w1 -> is_u32 w2 -> is_u32 (op w1 w2)) ->
  (forall w1 w2 j, 0 <= j < 32 ->
     Z.testbit (op w1 w2) j = h (Z.testbit w1 j) (Z.testbit w2 j)) ->
  words_ok dst -> words_ok b1 -> words_ok b2 ->
  0 <= bits <= nbits dst -> bits <= nbits b1 -> bits <= nbits b2 ->
  exists dst', store_words (fun k => w1 ← array_get b1 k; w2 ← array_get b2 k; Some (op w1 w2))
      dst (BITS_TO_LONGS bits) = Some dst' /\ words_ok dst' /\ length dst' = length dst /\
    (forall i, 0 <= i < bits -> btest dst' i = h (btest b1 i) (btest b2 i)).
Proof.
  intros Hu Hb Hd H1 H2 Hbits Hb1 Hb2.
  pose proof (longs_of_bits dst bits Hbits).
  pose proof (longs_of_bits b1 bits ltac:(lia)). pose proof (longs_of_bits b2 bits ltac:(lia)).
  destruct (store_words_spec (fun k => w1 ← array_get b1 k; w2 ← array_get b2 k; Some (op w1 w2))
    (fun i => h (btest b1 i) (btest b2 i)) dst (BITS_TO_LONGS bits))
    as (d & E & D1 & D2 & D3); [done|done| |].
  - intros k Hk. apply (view_map2 op h); [done|done|apply array_view; [done|lia]..].
  - exists d. split_and!; [done|done|done|]. intros i Hi. rewrite D3 by lia.
    destruct (Z.ltb_spec i (32 * BITS_TO_LONGS bits)) as [|Hge]; [done|].
    unfold BITS_TO_LONGS, BITS_PER_LONG in Hge. div_lia.
Qed.

Lemma complement_spec dst src bits :
  words_ok dst -> words_ok src -> 0 <= bits <= nbits dst -> bits <= nbits src ->
  exists dst', __bitmap_complement dst src bits = Some dst' /\ words_ok dst' /\
    length dst' = length dst /\
    (forall i, 0 <= i < bits -> btest dst' i = negb (btest src i)) /\
    (forall i, bits <= i < 32 * BITS_TO_LONGS bits -> btest dst' i = false).
Proof.
  intros Hd Hs Hbits Hb. unfold __bitmap_complement, BITS_TO_LONGS, BITS_PER_LONG.
  assert (Hlen : 0 <= bits / 32 <= Z.of_nat (length dst) /\
    (bits mod 32 <> 0 -> bits / 32 < Z.of_nat (length dst)) /\
    bits / 32 <= Z.of_nat (length src) /\
    (bits mod 32 <> 0 -> bits / 32 < Z.of_nat (length src))).
  { unfold nbits in *. div_lia. }
  destruct Hlen as (L1 & L2 & L3 & L4).
  destruct (store_words_spec (fun k => w ← array_get src k; Some (not32 w))
    (fun i => negb (btest src i)) dst (bits / 32)) as (d & -> & D1 & D2 & D3); [done|done| |].
  { intros k Hk. apply view_not32, array_view; [done|lia]. }
  simpl. pose proof (Z.mod_pos_bound bits 32 ltac:(lia)). pose proof (Z.div_mod bits 32 ltac:(lia)).
  destruct (Z.eqb_spec (bits mod 32) 0) as [E|E]; cbn [negb].
  - exists d. split_and!; [done|done|done| |].
    + intros i Hi. rewrite D3 by lia. by destruct (Z.ltb_spec i (32 * (bits / 32))); [|lia].
    + intros i Hi. exfalso. clear D3. div_lia.
  - destruct (array_view src (bits / 32) Hs) as (w & -> & U & B); [lia|]. simpl.
    rewrite array_set_Some by lia. eexists. split; [done|]. split_and!.
    + apply words_ok_insert; [done|]. apply is_u32_land_l; [apply is_u32_not32|].
      apply LAST_WORD_MASK_u32.
    + by rewrite length_insert.
    + intros i Hi. rewrite btest_insert by lia. rewrite D3 by lia.
      pose proof (Z.mod_pos_bound i 32 ltac:(lia)). pose proof (Z.div_mod i 32 ltac:(lia)).
      case_bool_decide as Ek.
      * rewrite Z.land_spec, not32_testbit, LAST_WORD_MASK_testbit by lia.
        rewrite B by lia. rewrite <- Ek, <- Z.div_mod by lia.
        destruct (Z.ltb_spec (i mod 32) 32), (Z.ltb_spec (i mod 32) (bits mod 32)); try lia.
        by rewrite andb_true_r.
      * destruct (Z.ltb_spec i (32 * (bits / 32))); [done|]. div_lia.
    + intros i Hi. rewrite btest_insert by lia.
      pose proof (Z.mod_pos_bound i 32 ltac:(lia)). pose proof (Z.div_mod i 32 ltac:(lia)).
      case_bool_decide as Ek; [|clear D3 B; div_lia].
      rewrite Z.land_spec, LAST_WORD_MASK_testbit by lia.
      destruct (Z.ltb_spec (i mod 32) (bits mod 32)); [lia|apply andb_false_r].
Qed.

(** ** Weight *)

Lemma count_word ws k w n :
  ws !! Z.to_nat k = Some w -> 0 <= k -> (n <= 32)%nat ->
  count_bits (fun i => btest ws (32 * k + i)) n = count_bits (Z.testbit w) n.
Proof.
  intros Hw Hk Hn. apply count_bits_ext. intros i Hi. by apply btest_word; [|lia|lia].
Qed.

Lemma weight_spec ws bits :
  words_ok ws -> 0 <= bits <= nbits ws -> bits <= INT_MAX ->
  __bitmap_weight ws bits = Some (count_bits (btest ws) (Z.to_nat bits)).
Proof.
  intros Hok Hb Hmax. unfold __bitmap_weight, BITS_PER_LONG, hweight_long.
  pose proof (Z.div_mod bits 32 ltac:(lia)). pose proof (Z.mod_pos_bound bits 32 ltac:(lia)).
  pose proof (Z.div_pos bits 32 ltac:(lia) ltac:(lia)).
  destruct (for_up (fun k w => x ← array_get ws k; Some (s32 (w + hweight32 x)))
    (fun k w => w = count_bits (btest ws) (Z.to_nat (32 * k))) 0 (bits / 32) 0)
    as (w & -> & Hw); [lia|done| |].
  - intros k w Hk ->.
    destruct (array_get_word ws k Hok) as (x & -> & Hx & Hu); [unfold nbits in *; lia|]. simpl.
    eexists. split; [done|]. rewrite hweight32_spec by done.
    replace (Z.to_nat (32 * (k + 1))) with (Z.to_nat (32 * k) + 32)%nat by lia.
    rewrite count_bits_app, Z2Nat.id by lia. rewrite (count_word _ _ x) by (done || lia).
    apply s32_small.
    pose proof (count_bits_bound (btest ws) (Z.to_nat (32 * k))).
    pose proof (count_bits_bound (Z.testbit x) 32). width_lia.
  - subst w. simpl. rewrite Z.add_0_l.
    destruct (Z.eqb_spec (bits mod 32) 0) as [E|E]; cbn [negb].
    { do 3 f_equal. lia. }
    destruct (array_get_word ws (bits / 32) Hok) as (x & -> & Hx & Hu); [unfold nbits in *; lia|].
    simpl. f_equal.
    assert (Hm : is_u32 (Z.land x (BITMAP_LAST_WORD_MASK bits))).
    { apply is_u32_land_l; [done|apply LAST_WORD_MASK_u32]. }
    rewrite hweight32_spec by done.
    replace (Z.to_nat bits) with (Z.to_nat (32 * (bits / 32)) + Z.to_nat (bits mod 32))%nat by lia.
    rewrite count_bits_app, Z2Nat.id by lia. rewrite (count_word _ _ x) by (done || lia).
    replace (count_bits (Z.testbit (Z.land x (BITMAP_LAST_WORD_MASK bits))) 32)
      with (count_bits (Z.testbit x) (Z.to_nat (bits mod 32))).
    + apply s32_small.
      pose proof (count_bits_bound (btest ws) (Z.to_nat (32 * (bits / 32)))).
      pose proof (count_bits_bound (Z.testbit x) (Z.to_nat (bits mod 32))). width_lia.
    + replace 32%nat with (Z.to_nat (bits mod 32) + (32 - Z.to_nat (bits mod 32)))%nat by lia.
      rewrite (count_bits_app (Z.testbit (Z.land x _))).
      match goal with |- _ = _ + ?c => replace c with 0 end.
      * rewrite Z.add_0_r. apply count_bits_ext. intros i Hi.
        rewrite Z.land_spec, LAST_WORD_MASK_testbit by lia.
        destruct (Z.ltb_spec i (bits mod 32)); [by rewrite andb_true_r|lia].
      * symmetry. apply count_bits_zero. intros i Hi.
        rewrite Z.land_spec, LAST_WORD_MASK_testbit by lia.
        destruct (Z.ltb_spec (Z.of_nat (Z.to_nat (bits mod 32)) + i) (bits mod 32)); [lia|].
        apply andb_false_r.
Qed.

(** ** Shifts *)

(** The bitmap that is read: [src], or [dst] itself. *)
Definition source (src : option (list Z)) (dst : list Z) : list Z :=
  match src with Some s => s | None => dst end.

(** A word of the source read while [dst] has been partly overwritten is the
    word of the original source, when that word of [dst] is untouched. *)
Lemma src_word_view src dst d k :
  words_ok (source src dst) -> 0 <= k < Z.of_nat (length (source src dst)) ->
  (src = None -> d !! Z.to_nat k = dst !! Z.to_nat k) ->
  word_view (src_word src d) (btest (source src dst)) k.
Proof.
  intros Hok Hk Hsame. destruct (array_view _ k Hok Hk) as (w & E & U & B).
  exists w. split_and!; [|done|done]. destruct src as [s|]; [done|].
  simpl in *. unfold array_get in *. by rewrite Hsame.
Qed.

(** Masking a word with the bits below [left] cuts its view off at [bits]. *)
Lemma masked_word_view w f k lim bits (c : bool) :
  is_u32 w -> (forall j, 0 <= j < 32 -> Z.testbit w j = f (32 * k + j)) ->
  lim = BITS_TO_LONGS bits -> 0 <= k < lim -> 0 <= bits ->
  c = (negb (bits mod 32 =? 0) && (k =? lim - 1)) ->
  let w' := if c then Z.land w (u32 (shl32 1 (bits mod 32) - 1)) else w in
  is_u32 w' /\
  (forall j, 0 <= j < 32 -> Z.testbit w' j = (32 * k + j <? bits) && f (32 * k + j)).
Proof.
  intros U B -> Hk Hb -> w'. unfold w'.
  pose proof (Z.mod_pos_bound bits 32 ltac:(lia)). pose proof (Z.div_mod bits 32 ltac:(lia)).
  assert (Hlim : BITS_TO_LONGS bits = bits / 32 + (if bits mod 32 =? 0 then 0 else 1)).
  { unfold BITS_TO_LONGS, BITS_PER_LONG. destruct (Z.eqb_spec (bits mod 32) 0); div_lia. }
  rewrite Hlim in *.
  destruct (Z.eqb_spec (bits mod 32) 0) as [E|E]; cbn [negb andb].
  - split; [done|]. intros j Hj. rewrite B by done.
    by destruct (Z.ltb_spec (32 * k + j) bits); [|lia].
  - destruct (Z.eqb_spec k (bits / 32 + 1 - 1)) as [Ek|Ek].
    + split; [apply is_u32_land_l; [done|apply u32_range]|].
      intros j Hj. rewrite Z.land_spec, left_mask_testbit, B by lia. rewrite andb_comm.
      f_equal. destruct (Z.ltb_spec j (bits mod 32)), (Z.ltb_spec (32 * k + j) bits); lia || done.
    + split; [done|]. intros j Hj. rewrite B by done.
      by destruct (Z.ltb_spec (32 * k + j) bits); [|lia].
Qed.

Lemma clear_words_spec dst from n :
  words_ok dst -> 0 <= from -> 0 <= n -> from + n <= Z.of_nat (length dst) ->
  exists d, clear_words dst from n = Some d /\ words_ok d /\ length d = length dst /\
    (forall i, 0 <= i ->
       btest d i = if (32 * from <=? i) && (i <? 32 * (from + n)) then false else btest dst i).
Proof.
  intros Hok Hf Hn Hl. unfold clear_words. rewrite bool_decide_true by done.
  destruct (mem_write dst from (replicate (Z.to_nat n) 0)) as [d|] eqn:E.
  2:{ rewrite mem_write_Some in E by (rewrite ?length_replicate; lia). done. }
  exists d. split; [done|]. pose proof (mem_write_length _ _ _ _ E) as Hlen.
  assert (Hlk : forall i, d !! i = if bool_decide (from <= Z.of_nat i < from + n)
    then Some 0 else dst !! i).
  { intros i. rewrite (mem_write_lookup _ _ _ _ i E), length_replicate.
    rewrite Z2Nat.id by lia. case_bool_decide; [|done]. apply lookup_replicate_2. lia. }
  split_and!; [|done|].
  - apply Forall_lookup_2. intros i x. rewrite Hlk. case_bool_decide.
    + by intros [= <-].
    + apply words_ok_lookup, Hok.
  - intros i Hi. unfold btest. rewrite !list_lookup_total_alt, Hlk.
    rewrite Z2Nat.id by (apply Z.div_pos; lia).
    pose proof (Z.div_mod i 32 ltac:(lia)). pose proof (Z.mod_pos_bound i 32 ltac:(lia)).
    case_bool_decide.
    + destruct (Z.leb_spec (32 * from) i), (Z.ltb_spec i (32 * (from + n))); try lia.
      apply Z.bits_0.
    + destruct (Z.leb_spec (32 * from) i), (Z.ltb_spec i (32 * (from + n))); done || lia.
Qed.

(** A word assembled from two neighbouring words shifted right by [rem]. *)
Lemma join_right_testbit upper lower rem j :
  0 <= rem < 32 -> 0 <= j < 32 -> is_u32 lower -> (rem = 0 -> upper = 0) ->
  Z.testbit (Z.lor (shl32 upper (32 - rem)) (shr32 lower rem)) j =
    if j + rem <? 32 then Z.testbit lower (j + rem) else Z.testbit upper (j + rem - 32).
Proof.
  intros Hr Hj Hl Hu. rewrite Z.lor_spec, shl32_testbit, shr32_testbit by lia.
  destruct (Z.ltb_spec j 32); [|lia]. simpl.
  destruct (Z.ltb_spec (j + rem) 32).
  - replace (Z.testbit upper (j - (32 - rem))) with false; [done|].
    symmetry. destruct (Z.eq_dec rem 0) as [E|E]; [rewrite Hu by done; apply Z.bits_0|].
    apply Z.testbit_neg_r. lia.
  - rewrite (is_u32_testbit lower) by (done || lia). rewrite orb_false_r. f_equal. lia.
Qed.

(** The same for a shift to the left. *)
Lemma join_left_testbit upper lower rem j :
  0 <= rem < 32 -> 0 <= j < 32 -> is_u32 lower ->
  Z.testbit (Z.lor (shr32 lower (32 - rem)) (shl32 upper rem)) j =
    if j <? rem then Z.testbit lower (j + 32 - rem) else Z.testbit upper (j - rem).
Proof.
  intros Hr Hj Hl. rewrite Z.lor_spec, shl32_testbit, shr32_testbit by lia.
  destruct (Z.ltb_spec j 32); [|lia]. simpl.
  destruct (Z.ltb_spec j rem).
  - rewrite (Z.testbit_neg_r upper) by lia. rewrite orb_false_r. f_equal. lia.
  - rewrite (is_u32_testbit lower) by (done || lia). done.
Qed.

Lemma insert_low_word d k w (f : Z -> bool) n :
  0 <= k < Z.of_nat (length d) -> n = k ->
  (forall j, 0 <= j < 32 -> Z.testbit w j = f (32 * k + j)) ->
  (forall i, 0 <= i < 32 * n -> btest d i = f i) ->
  forall i, 0 <= i < 32 * (n + 1) -> btest (<[Z.to_nat k := w]> d) i = f i.
Proof.
  intros Hk -> Hw Hd i Hi. rewrite btest_insert by lia.
  pose proof (Z.mod_pos_bound i 32 ltac:(lia)). pose proof (Z.div_mod i 32 ltac:(lia)).
  case_bool_decide as E.
  - rewrite Hw by lia. f_equal. lia.
  - apply Hd. div_lia.
Qed.

Section shift.
Context (dst : list Z) (src : option (list Z)) (shift bits : Z).
Context (Hdst : words_ok dst) (Hsrc : words_ok (source src dst)).
Context (Hbits : 0 <= bits <= nbits dst) (Hbits' : bits <= nbits (source src dst)).
Context (Hshift : 0 <= shift) (Hoff : shift / 32 <= BITS_TO_LONGS bits).

Let s := source src dst.
Let lim := BITS_TO_LONGS bits.

Lemma shift_lims : 0 <= lim <= Z.of_nat (length dst) /\ lim <= Z.of_nat (length s) /\
  bits <= 32 * lim /\ 0 <= shift / 32 /\ 0 <= shift mod 32 < 32 /\
  shift = 32 * (shift / 32) + shift mod 32.
Proof using Hbits Hbits' Hshift.
  unfold lim, s, nbits, BITS_TO_LONGS, BITS_PER_LONG in *. div_lia.
Qed.

(** The bits a right shift leaves: position [i] gets position [i + shift]. *)
Let FR (i : Z) : bool := (i + shift <? bits) && btest s (i + shift).

Lemma shift_right_upper d k :
  0 <= k < lim - shift / 32 ->
  (forall n, k <= n -> d !! Z.to_nat n = dst !! Z.to_nat n) ->
  exists up,
    (if (shift mod 32 =? 0) || (lim <=? shift / 32 + k + 1) then Some 0
     else upper ← src_word src d (shift / 32 + k + 1);
          Some (if (shift / 32 + k + 1 =? lim - 1) && negb (bits mod 32 =? 0)
                then Z.land upper (u32 (shl32 1 (bits mod 32) - 1)) else upper)) = Some up /\
    (shift mod 32 = 0 -> up = 0) /\
    (shift mod 32 <> 0 -> forall j, 0 <= j < 32 -> Z.testbit up j =
       (32 * (shift / 32 + k + 1) + j <? bits) && btest s (32 * (shift / 32 + k + 1) + j)).
Proof using All.
  destruct shift_lims as (L1 & L2 & L3 & L4 & L5 & L6). intros Hk Hsame.
  destruct (Z.eqb_spec (shift mod 32) 0) as [E|E]; [by exists 0|].
  destruct (Z.leb_spec lim (shift / 32 + k + 1)) as [Hge|Hlt]; cbn [orb].
  - exists 0. split_and!; [done|done|]. intros _ j Hj. rewrite Z.bits_0.
    by destruct (Z.ltb_spec (32 * (shift / 32 + k + 1) + j) bits); [lia|].
  - destruct (src_word_view src dst d (shift / 32 + k + 1) Hsrc) as (u & -> & Uu & Bu);
      [fold s; lia|intros _; apply Hsame; lia|]. simpl.
    destruct (masked_word_view u (btest s) (shift / 32 + k + 1) lim bits
      ((shift / 32 + k + 1 =? lim - 1) && negb (bits mod 32 =? 0)))
      as [_ Bm]; [done|done|done|lia|lia|apply andb_comm|].
    eexists. split_and!; [done|done|]. intros _. exact Bm.
Qed.

Lemma shift_right_word_view d k :
  0 <= k < lim - shift / 32 ->
  (forall n, k <= n -> d !! Z.to_nat n = dst !! Z.to_nat n) ->
  exists w, shift_right_word src shift bits k d = Some w /\ is_u32 w /\
    forall j, 0 <= j < 32 -> Z.testbit w j = FR (32 * k + j).
Proof using All.
  destruct shift_lims as (L1 & L2 & L3 & L4 & L5 & L6). intros Hk Hsame.
  unfold shift_right_word. fold lim. change BITS_PER_LONG with 32.
  destruct (shift_right_upper d k Hk Hsame) as (up & -> & Hu0 & Hu1).
  destruct (src_word_view src dst d (shift / 32 + k) Hsrc) as (lo & -> & Ul & Bl);
    [fold s; lia|intros _; apply Hsame; lia|]. simpl.
  destruct (masked_word_view lo (btest s) (shift / 32 + k) lim bits
    (negb (bits mod 32 =? 0) && (shift / 32 + k =? lim - 1))) as [Um Bm];
    [done|done|done|lia|lia|done|].
  set (lower := if negb (bits mod 32 =? 0) && (shift / 32 + k =? lim - 1) then _ else lo) in *.
  destruct (masked_word_view (Z.lor (shl32 up (32 - shift mod 32)) (shr32 lower (shift mod 32)))
    FR k lim bits (negb (bits mod 32 =? 0) && (k =? lim - 1))) as [Uf Bf];
    [|intros j Hj|done|lia|lia|done|].
  - apply is_u32_lor; [apply is_u32_shl32|apply is_u32_shr32; [done|lia]].
  - rewrite (join_right_testbit up lower) by done. unfold FR.
    destruct (Z.ltb_spec (j + shift mod 32) 32).
    + rewrite Bm by lia. do 2 f_equal; lia.
    + rewrite Hu1 by lia. do 2 f_equal; lia.
  - eexists. split_and!; [done|done|]. intros j Hj. rewrite Bf by done. unfold FR.
    destruct (Z.ltb_spec (32 * k + j) bits), (Z.ltb_spec (32 * k + j + shift) bits); done || lia.
Qed.

Lemma shift_right_spec :
  exists d, __bitmap_shift_right dst src shift bits = Some d /\ words_ok d /\
    length d = length dst /\
    (forall i, 0 <= i < 32 * lim ->
       btest d i = (i + shift <? bits) && btest s (i + shift)).
Proof using All.
  destruct shift_lims as (L1 & L2 & L3 & L4 & L5 & L6).
  unfold __bitmap_shift_right. fold lim. change BITS_PER_LONG with 32.
  set (off := shift / 32) in *.
  match goal with |- context [for_each ?body (seqZ 0 (lim - off)) dst] =>
    destruct (for_up body (fun k d => words_ok d /\ length d = length dst /\
      (forall n, k <= n -> d !! Z.to_nat n = dst !! Z.to_nat n) /\
      (forall i, 0 <= i < 32 * k -> btest d i = FR i)) 0 (lim - off) dst)
      as (d & -> & D1 & D2 & D3 & D4) end; [lia|split_and!; [done|done|done|lia]| |].
  - intros k d Hk (D1 & D2 & D3 & D4).
    destruct (shift_right_word_view d k ltac:(lia) D3) as (w & -> & Uw & Bw). simpl.
    rewrite array_set_Some by lia. eexists. split; [done|]. split_and!.
    + by apply words_ok_insert.
    + by rewrite length_insert.
    + intros n Hn. rewrite list_lookup_insert_ne by lia. apply D3. lia.
    + by apply insert_low_word; [lia| | |].
  - simpl. rewrite Z.add_0_l in *. destruct (Z.eqb_spec off 0) as [E|E]; cbn [negb].
    + exists d. split_and!; [done|done|done|]. intros i Hi. apply D4. lia.
    + destruct (clear_words_spec d (lim - off) off D1) as (d' & -> & C1 & C2 & C3); [lia|lia|lia|].
      exists d'. split_and!; [done|done|congruence|]. intros i Hi. rewrite C3 by lia.
      destruct (Z.leb_spec (32 * (lim - off)) i), (Z.ltb_spec i (32 * (lim - off + off)));
        try lia; cbn [andb]; [|apply D4; lia].
      by destruct (Z.ltb_spec (i + shift) bits); [lia|].
Qed.

(** The bits a left shift leaves: position [i] gets position [i - shift]. *)
Let FL (i : Z) : bool := (shift <=? i) && (i <? bits) && btest s (i - shift).

Lemma shift_left_lower d k :
  0 <= k < lim - shift / 32 ->
  (forall n, 0 <= n < k + 1 + shift / 32 -> d !! Z.to_nat n = dst !! Z.to_nat n) ->
  exists lo,
    (if negb (shift mod 32 =? 0) && (0 <? k) then src_word src d (k - 1) else Some 0) = Some lo /\
    is_u32 lo /\
    (0 < k -> shift mod 32 <> 0 -> forall j, 0 <= j < 32 ->
       Z.testbit lo j = btest s (32 * (k - 1) + j)) /\ (k = 0 -> lo = 0).
Proof using All.
  destruct shift_lims as (L1 & L2 & L3 & L4 & L5 & L6). intros Hk Hsame.
  destruct (Z.eqb_spec (shift mod 32) 0); [by exists 0|].
  destruct (Z.ltb_spec 0 k); cbn [negb andb].
  - destruct (src_word_view src dst d (k - 1) Hsrc) as (lo & -> & Ul & Bl);
      [fold s; lia|intros _; apply Hsame; lia|]. exists lo. split_and!; [done|done|done|lia].
  - exists 0. split_and!; [done|done|lia|done].
Qed.

Lemma shift_left_word_view d k :
  0 <= k < lim - shift / 32 ->
  (forall n, 0 <= n < k + 1 + shift / 32 -> d !! Z.to_nat n = dst !! Z.to_nat n) ->
  exists w, shift_left_word src shift bits k d = Some w /\ is_u32 w /\
    forall j, 0 <= j < 32 -> Z.testbit w j = FL (32 * (k + shift / 32) + j).
Proof using All.
  destruct shift_lims as (L1 & L2 & L3 & L4 & L5 & L6). intros Hk Hsame.
  unfold shift_left_word. fold lim. change BITS_PER_LONG with 32.
  destruct (shift_left_lower d k Hk Hsame) as (lo & -> & Ul & Bl & Bl0).
  destruct (src_word_view src dst d k Hsrc) as (up & -> & Uu & Bu);
    [fold s; lia|intros _; apply Hsame; lia|]. simpl.
  destruct (masked_word_view up (btest s) k lim bits
    (negb (bits mod 32 =? 0) && (k =? lim - 1))) as [Um Bm]; [done|done|done|lia|lia|done|].
  set (upper := if negb (bits mod 32 =? 0) && (k =? lim - 1) then _ else up) in *.
  set (G := fun i => (shift <=? i) && (i - shift <? bits) && btest s (i - shift)).
  destruct (masked_word_view (Z.lor (shr32 lo (32 - shift mod 32)) (shl32 upper (shift mod 32)))
    G (k + shift / 32) lim bits (negb (bits mod 32 =? 0) && (k + shift / 32 =? lim - 1)))
    as [Uf Bf]; [|intros j Hj|done|lia|lia|done|].
  - apply is_u32_lor; [apply is_u32_shr32; [done|lia]|apply is_u32_shl32].
  - rewrite (join_left_testbit upper lo) by done. unfold G.
    destruct (Z.ltb_spec j (shift mod 32)).
    + destruct (Z.lt_ge_cases 0 k).
      * rewrite Bl by lia. destruct (Z.leb_spec shift (32 * (k + shift / 32) + j)); [|lia].
        destruct (Z.ltb_spec (32 * (k + shift / 32) + j - shift) bits) as [|Hge];
          [cbn [andb]; f_equal; lia|].
        exfalso. unfold lim, BITS_TO_LONGS, BITS_PER_LONG in Hk. div_lia.
      * rewrite Bl0 by lia. rewrite Z.bits_0.
        by destruct (Z.leb_spec shift (32 * (k + shift / 32) + j)); [lia|].
    + rewrite Bm by lia. destruct (Z.leb_spec shift (32 * (k + shift / 32) + j)); [|lia].
      cbn [andb]. do 2 f_equal; lia.
  - eexists. split_and!; [done|done|]. intros j Hj. rewrite Bf by done. unfold FL, G.
    destruct (Z.leb_spec shift (32 * (k + shift / 32) + j)),
      (Z.ltb_spec (32 * (k + shift / 32) + j) bits),
      (Z.ltb_spec (32 * (k + shift / 32) + j - shift) bits); done || lia.
Qed.

Lemma shift_left_spec :
  exists d, __bitmap_shift_left dst src shift bits = Some d /\ words_ok d /\
    length d = length dst /\
    (forall i, 0 <= i < 32 * lim ->
       btest d i = (shift <=? i) && (i <? bits) && btest s (i - shift)).
Proof using All.
  destruct shift_lims as (L1 & L2 & L3 & L4 & L5 & L6).
  unfold __bitmap_shift_left. fold lim. change BITS_PER_LONG with 32.
  set (off := shift / 32) in *.
  match goal with |- context [for_each ?body (reverse (seqZ 0 (lim - off))) dst] =>
    destruct (for_down body (fun k d => words_ok d /\ length d = length dst /\
      (forall n, 0 <= n < k + off -> d !! Z.to_nat n = dst !! Z.to_nat n) /\
      (forall i, 32 * (k + off) <= i < 32 * lim -> btest d i = FL i)) (lim - off) dst)
      as (d & -> & D1 & D2 & D3 & D4) end; [lia|split_and!; [done|done|done|lia]| |].
  - intros k d Hk (D1 & D2 & D3 & D4).
    destruct (shift_left_word_view d k ltac:(lia) D3) as (w & -> & Uw & Bw). simpl.
    rewrite array_set_Some by lia. eexists. split; [done|]. split_and!.
    + by apply words_ok_insert.
    + by rewrite length_insert.
    + intros n Hn. rewrite list_lookup_insert_ne by lia. apply D3. lia.
    + intros i Hi. rewrite btest_insert by lia.
      pose proof (Z.mod_pos_bound i 32 ltac:(lia)). pose proof (Z.div_mod i 32 ltac:(lia)).
      case_bool_decide as E; [|apply D4; div_lia].
      rewrite Bw by lia. f_equal. fold off. lia.
  - simpl. rewrite Z.add_0_l in *. destruct (Z.eqb_spec off 0) as [E|E]; cbn [negb].
    + exists d. split_and!; [done|done|done|]. intros i Hi. apply D4. lia.
    + destruct (clear_words_spec d 0 off D1) as (d' & -> & C1 & C2 & C3); [lia|lia|lia|].
      exists d'. split_and!; [done|done|congruence|]. intros i Hi. rewrite C3 by lia.
      destruct (Z.leb_spec (32 * 0) i), (Z.ltb_spec i (32 * (0 + off))); try lia; cbn [andb];
        [|apply D4; lia].
      by destruct (Z.leb_spec shift i); [lia|].
Qed.

End shift.

(** ** Inline operations of include/linux/bitmap.h *)

Definition bitmap_zero (dst : list Z) (nbits : Z) : option (list Z) :=
  if nbits <=? BITS_PER_LONG then array_set dst 0 0
  else clear_words dst 0 (BITS_TO_LONGS nbits).

Definition bitmap_fill (dst : list Z) (nbits : Z) : option (list Z) :=
  let nlongs := BITS_TO_LONGS nbits in
  dst ← (if 1 <? nlongs
         then mem_write dst 0 (replicate (Z.to_nat (nlongs - 1)) ULONG_ALL) else Some dst);
  array_set dst (nlongs - 1) (BITMAP_LAST_WORD_MASK nbits).

Definition bitmap_weight (src : list Z) (nbits : Z) : option Z := __bitmap_weight src nbits.

Definition bitmap_shift_right (dst : list Z) (src : list Z) (n nbits : Z) : option (list Z) :=
  if nbits <=? BITS_PER_LONG then w ← array_get src 0; array_set dst 0 (shr32 w n)
  else __bitmap_shift_right dst (Some src) n nbits.

Definition bitmap_shift_left (dst : list Z) (src : list Z) (n nbits : Z) : option (list Z) :=
  if nbits <=? BITS_PER_LONG then
    w ← array_get src 0; array_set dst 0 (Z.land (shl32 w n) (BITMAP_LAST_WORD_MASK nbits))
  else __bitmap_shift_left dst (Some src) n nbits.

Lemma bitmap_zero_spec dst bits :
  words_ok dst -> 0 < bits <= nbits dst ->
  exists d, bitmap_zero dst bits = Some d /\ words_ok d /\ length d = length dst /\
    (forall i, 0 <= i < bits -> btest d i = false).
Proof.
  intros Hok Hb. unfold bitmap_zero, BITS_PER_LONG. destruct (Z.leb_spec bits 32).
  - rewrite array_set_Some by (unfold nbits in *; lia). eexists. split; [done|]. split_and!.
    + by apply words_ok_insert.
    + by rewrite length_insert.
    + intros i Hi. rewrite (btest_insert dst 0) by (unfold nbits in *; lia).
      case_bool_decide as E; [apply Z.bits_0|]. destruct E. apply Z.div_small. lia.
  - destruct (clear_words_spec dst 0 (BITS_TO_LONGS bits)) as (d & -> & D1 & D2 & D3);
      [done|done|pose proof (longs_of_bits dst bits ltac:(lia)); lia..|].
    exists d. split_and!; [done|done|done|]. intros i Hi. rewrite D3 by lia.
    destruct (Z.leb_spec (32 * 0) i), (Z.ltb_spec i (32 * (0 + BITS_TO_LONGS bits))) as [|Hge];
      try lia; [done|].
    unfold BITS_TO_LONGS, BITS_PER_LONG in Hge. div_lia.
Qed.

(** ** Ordinals and remapping *)

Definition bitmap_pos_to_ord (buf : list Z) (pos bits : Z) : option Z :=
  if (pos <? 0) || (bits <=? pos) then Some (-1)
  else
    t ← test_bit pos buf;
    if t =? 0 then Some (-1)
    else
      i ← find_first_bit buf bits;
      '(i, ord) ← mjoin (loop (S (Z.to_nat bits)) (fun '(i, ord) =>
        if i <? pos then
          match find_next_bit buf bits (i + 1) with
          | Some i => inl (i, ord + 1)
          | None => inr None
          end
        else inr (Some (i, ord))) (i, 0));
      (* BUG_ON(i != pos) *)
      if negb (i =? pos) then None else Some ord.

Definition bitmap_ord_to_pos (buf : list Z) (ord bits : Z) : option Z :=
  let pos := 0 in
  if (0 <=? ord) && (ord <? bits) then
    i ← find_first_bit buf bits;
    '(i, ord) ← mjoin (loop (S (Z.to_nat bits)) (fun '(i, ord) =>
      if (i <? bits) && (0 <? ord) then
        let ord := ord - 1 in
        match find_next_bit buf bits (i + 1) with
        | Some i => inl (i, ord)
        | None => inr None
        end
      else inr (Some (i, ord))) (i, ord));
    Some (if (i <? bits) && (ord =? 0) then i else pos)
  else Some pos.

(** The bit that [oldbit] is mapped to, given [w], the weight of [new]. *)
Definition remap_bit (old new : list Z) (bits w oldbit : Z) : option Z :=
  n ← bitmap_pos_to_ord old oldbit bits;
  if (n <? 0) || (w =? 0) then Some oldbit
  else bitmap_ord_to_pos new (Z.rem n w) bits.

(** [dst] and [src] are different arrays; the call with [dst == src] returns at
    once and is [bitmap_remap_inplace]. *)
Definition bitmap_remap (dst src old new : list Z) (bits : Z) : option (list Z) :=
  dst ← bitmap_zero dst bits;
  w ← bitmap_weight new bits;
  oldbit ← find_first_bit src bits;
  mjoin (loop (S (Z.to_nat bits)) (fun '(oldbit, dst) =>
    if oldbit <? bits then
      match (b ← remap_bit old new bits w oldbit;
             dst ← __set_bit b dst;
             oldbit ← find_next_bit src bits (oldbit + 1);
             Some (oldbit, dst)) with
      | Some s => inl s
      | None => inr None
      end
    else inr (Some dst)) (oldbit, dst)).

Definition bitmap_remap_inplace (dst old new : list Z) (bits : Z) : option (list Z) := Some dst.

Definition bitmap_bitremap (oldbit : Z) (old new : list Z) (bits : Z) : option Z :=
  w ← bitmap_weight new bits;
  remap_bit old new bits w oldbit.

(** [rank ws i]: how many bits are set below position [i]. *)
Definition rank (ws : list Z) (i : Z) : Z := count_bits (btest ws) (Z.to_nat i).

Lemma rank_succ ws i : 0 <= i -> rank ws (i + 1) = rank ws i + Z.b2z (btest ws i).
Proof.
  intros. unfold rank. replace (Z.to_nat (i + 1)) with (S (Z.to_nat i)) by lia.
  simpl. by rewrite Z2Nat.id.
Qed.

(** Ranks do not change across a stretch without set bits. *)
Lemma rank_gap ws i j :
  0 <= i <= j -> (forall n, i <= n < j -> btest ws n = false) -> rank ws j = rank ws i.
Proof.
  intros Hij H. unfold rank.
  replace (Z.to_nat j) with (Z.to_nat i + Z.to_nat (j - i))%nat by lia.
  rewrite count_bits_app.
  rewrite (count_bits_zero (fun n => btest ws (Z.of_nat (Z.to_nat i) + n))); [lia|].
  intros n Hn. apply H. lia.
Qed.

Lemma rank_mono ws i j : 0 <= i <= j -> rank ws i <= rank ws j.
Proof.
  intros Hij. unfold rank. replace (Z.to_nat j) with (Z.to_nat i + Z.to_nat (j - i))%nat by lia.
  rewrite count_bits_app.
  pose proof (count_bits_bound (fun n => btest ws (Z.of_nat (Z.to_nat i) + n)) (Z.to_nat (j - i))).
  lia.
Qed.

Lemma rank_inj ws i j :
  0 <= i -> 0 <= j -> btest ws i = true -> btest ws j = true -> rank ws i = rank ws j -> i = j.
Proof.
  intros Hi Hj Bi Bj E.
  destruct (Z.lt_total i j) as [H|[H|H]]; [|done|].
  - pose proof (rank_mono ws (i + 1) j ltac:(lia)). rewrite rank_succ, Bi in * by lia. simpl in *. lia.
  - pose proof (rank_mono ws (j + 1) i ltac:(lia)). rewrite rank_succ, Bj in * by lia. simpl in *. lia.
Qed.

Section ordinals.
Context (buf : list Z) (Hok : words_ok buf) (bits : Z).
Context (Hbits : 0 <= bits <= nbits buf) (Hmax : nbits buf + 32 <= UINT_MAX).

Lemma next_bit i :
  0 <= i <= bits ->
  exists r, find_next_bit buf bits i = Some r /\ i <= r <= bits /\
    (r < bits -> btest buf r = true) /\ rank buf r = rank buf i /\
    (forall n, i <= n < r -> btest buf n = false).
Proof using All.
  intros Hi. destruct (find_next_bit_first buf bits i Hok Hbits Hmax) as (r & E & A & B & C & D).
  { unfold is_u32, nbits, UINT_MAX, U32_MOD in *. lia. }
  exists r. split; [done|]. destruct (Z.lt_ge_cases i bits) as [Hlt|Hge].
  - specialize (A Hlt). split_and!; [lia|lia|done| |done]. apply rank_gap; [lia|done].
  - specialize (B Hge). assert (i = r) as -> by lia. split_and!; [lia|lia|done|done|lia].
Qed.

(** bitmap_pos_to_ord gives the rank of a set bit and -1 for anything else. *)
Lemma pos_to_ord_spec pos :
  bitmap_pos_to_ord buf pos bits =
    Some (if (0 <=? pos) && (pos <? bits) && btest buf pos then rank buf pos else -1).
Proof using All.
  unfold bitmap_pos_to_ord.
  destruct (Z.ltb_spec pos 0), (Z.leb_spec 0 pos); try lia; [done|]. destruct (Z.leb_spec bits pos), (Z.ltb_spec pos bits);
    try lia; [done|]. cbn [orb andb negb].
  rewrite test_bit_spec by (done || lia). simpl.
  destruct (btest buf pos) eqn:Eb; [|done]. simpl.
  destruct (next_bit 0) as (i0 & E0 & A0 & B0 & R0 & G0); [lia|].
  unfold find_first_bit. rewrite E0. simpl.
  match goal with |- context [loop ?n ?body ?st] =>
    destruct (loop_total body
      (fun '(i, ord) => 0 <= i <= pos /\ ord = rank buf i /\ (i < bits -> btest buf i = true))
      (fun r => r = Some (pos, rank buf pos))
      (fun '(i, _) => Z.to_nat (bits - i))) with (fuel := n) (s := st) as (r & -> & ->) end.
  - intros [i ord] (Hi & -> & Hb). destruct (Z.ltb_spec i pos) as [Hlt|Hge].
    + destruct (next_bit (i + 1)) as (r & -> & A & B & R & G); [lia|]. split; [|lia].
      split_and!; [lia| |rewrite R, rank_succ, Hb by lia; done|done].
      destruct (Z.lt_ge_cases pos r); [|lia]. rewrite G in Eb by lia. done.
    + by replace i with pos by lia.
  - split_and!; [lia| |by rewrite R0|done].
    destruct (Z.lt_ge_cases pos i0); [|lia]. rewrite G0 in Eb by lia. done.
  - lia.
  - simpl. by rewrite Z.eqb_refl.
Qed.

(** bitmap_ord_to_pos finds the set bit of a given rank. *)
Lemma ord_to_pos_spec ord :
  0 <= ord < rank buf bits ->
  exists p, bitmap_ord_to_pos buf ord bits = Some p /\ 0 <= p < bits /\
    btest buf p = true /\ rank buf p = ord.
Proof using All.
  intros Hord. unfold bitmap_ord_to_pos.
  pose proof (count_bits_bound (btest buf) (Z.to_nat bits)). fold (rank buf bits) in *.
  destruct (Z.leb_spec 0 ord), (Z.ltb_spec ord bits); try lia. cbn [andb].
  destruct (next_bit 0) as (i0 & E0 & A0 & B0 & R0 & G0); [lia|].
  unfold find_first_bit. rewrite E0. simpl.
  match goal with |- context [loop ?n ?body ?st] =>
    destruct (loop_total body
      (fun '(i, o) => 0 <= i <= bits /\ 0 <= o /\ rank buf i + o = ord /\
         (i < bits -> btest buf i = true))
      (fun r => exists i, r = Some (i, 0) /\ 0 <= i < bits /\ btest buf i = true /\ rank buf i = ord)
      (fun '(i, _) => Z.to_nat (bits - i))) with (fuel := n) (s := st) as (r & -> & i & -> & Hi & Hb & Hr) end.
  - intros [i o] (Hi & Ho & Hr & Hb).
    destruct (Z.ltb_spec i bits) as [Hlt|Hge]; cbn [andb].
    + destruct (Z.ltb_spec 0 o).
      * destruct (next_bit (i + 1)) as (r & -> & A & B & R & G); [lia|]. split; [|lia].
        split_and!; [lia|lia|lia| |done]. rewrite R, rank_succ, Hb by lia. simpl. lia.
      * assert (o = 0) as -> by lia. exists i. split_and!; [done|lia|lia|auto|lia].
    + assert (i = bits) as -> by lia. lia.
  - split_and!; [lia|lia|lia| |done]. rewrite R0. done.
  - lia.
  - simpl. destruct (Z.ltb_spec i bits); [|lia]. exists i. split_and!; done || lia.
Qed.

End ordinals.

(** The map from positions to positions that [old] and [new] define: the bit of
    rank [n] in [old] goes to the bit of rank [n mod w] in [new]. *)
Definition maps_to (old new : list Z) (bits o b : Z) : Prop :=
  if btest old o && negb (rank new bits =? 0)
  then 0 <= b < bits /\ btest new b = true /\ rank new b = rank old o mod rank new bits
  else b = o.

Lemma maps_to_functional old new bits o b b' :
  maps_to old new bits o b -> maps_to old new bits o b' -> b = b'.
Proof.
  unfold maps_to. destruct (_ && _); [|congruence].
  intros (? & ? & ?) (? & ? & ?). apply (rank_inj new); lia || congruence.
Qed.

Section remap.
Context (old new : list Z) (bits : Z) (Hold : words_ok old) (Hnew : words_ok new).
Context (Hb : 0 < bits) (Hbo : bits <= nbits old) (Hbn : bits <= nbits new).
Context (Hmo : nbits old + 32 <= UINT_MAX) (Hmn : nbits new + 32 <= UINT_MAX).

Lemma remap_bit_spec o :
  0 <= o < bits ->
  exists b, remap_bit old new bits (rank new bits) o = Some b /\ 0 <= b < bits /\
    maps_to old new bits o b.
Proof using All.
  intros Ho. unfold remap_bit, maps_to. rewrite pos_to_ord_spec by (done || lia). simpl.
  destruct (Z.leb_spec 0 o), (Z.ltb_spec o bits); try lia. cbn [andb].
  pose proof (count_bits_bound (btest new) (Z.to_nat bits)). fold (rank new bits) in *.
  pose proof (count_bits_bound (btest old) (Z.to_nat o)). fold (rank old o) in *.
  destruct (btest old o) eqn:Eo; cbn [andb]; [|by exists o].
  destruct (Z.ltb_spec (rank old o) 0); [lia|]. cbn [orb].
  destruct (Z.eqb_spec (rank new bits) 0) as [E|E]; cbn [negb]; [by exists o|].
  rewrite Z.rem_mod_nonneg by lia.
  destruct (ord_to_pos_spec new Hnew bits) with (ord := rank old o mod rank new bits)
    as (p & Ep & A & B & C); [lia|done|apply Z.mod_pos_bound; lia|].
  exists p. split_and!; [done|lia|lia|lia|lia|done|done].
Qed.

Lemma remap_spec dst src :
  words_ok dst -> words_ok src -> bits <= nbits dst -> bits <= nbits src ->
  nbits src + 32 <= UINT_MAX -> bits <= INT_MAX ->
  exists d, bitmap_remap dst src old new bits = Some d /\ words_ok d /\
    length d = length dst /\
    (forall b, 0 <= b < bits -> (btest d b = true <->
       exists o, 0 <= o < bits /\ btest src o = true /\ maps_to old new bits o b)).
Proof using All.
  intros Hd Hs Hbd Hbs Hms Hint. unfold bitmap_remap, bitmap_weight.
  destruct (bitmap_zero_spec dst bits Hd) as (d0 & -> & Z1 & Z2 & Z3); [lia|].
  rewrite weight_spec by (done || lia). fold (rank new bits). simpl.
  destruct (next_bit src Hs bits ltac:(lia) Hms 0) as (i0 & E0 & A0 & B0 & _ & G0); [lia|].
  unfold find_first_bit. rewrite E0. simpl.
  set (done_to := fun n d => forall b, 0 <= b < bits -> (btest d b = true <->
    exists o, 0 <= o < n /\ btest src o = true /\ maps_to old new bits o b)).
  match goal with |- context [loop ?n ?body ?st] =>
    destruct (loop_total body
      (fun '(o, d) => words_ok d /\ length d = length dst /\ 0 <= o <= bits /\
         (o < bits -> btest src o = true) /\ done_to o d)
      (fun r => exists d, r = Some d /\ words_ok d /\ length d = length dst /\ done_to bits d)
      (fun '(o, _) => Z.to_nat (bits - o))) with (fuel := n) (s := st)
      as (r & -> & d & -> & D) end.
  - intros [o d] (D1 & D2 & Ho & Hset & Hdone).
    destruct (Z.ltb_spec o bits) as [Hlt|Hge].
    2:{ assert (o = bits) as -> by lia. eauto. }
    destruct (remap_bit_spec o ltac:(lia)) as (b & -> & Hb' & Hm). simpl.
    destruct (__set_bit_spec d b D1) as (d' & -> & S1 & S2 & S3); [unfold nbits in *; lia|]. simpl.
    destruct (next_bit src Hs bits ltac:(lia) Hms (o + 1)) as (o' & -> & A & B & _ & G); [lia|]. simpl.
    split; [|lia]. split_and!; [done|congruence|lia|lia|done|].
    intros c Hc. rewrite S3 by lia. rewrite orb_true_iff, Z.eqb_eq. split.
    + intros [->|Hc']; [exists o; split_and!; [lia|lia|auto|done]|].
      apply Hdone in Hc' as (x & Hx & ? & ?); [|done]. exists x. split_and!; [lia|lia|done|done].
    + intros (x & Hx & Bx & Mx). destruct (Z.lt_total x o) as [Hxo|[->|Hxo]].
      * right. apply Hdone; [done|]. exists x. split_and!; [lia|lia|done|done].
      * left. eapply maps_to_functional; eauto.
      * rewrite G in Bx by lia. done.
  - split_and!; [done|congruence|lia|lia|done|]. intros b Hb'. rewrite Z3 by done.
    split; [done|]. intros (o & Ho & Bo & _). rewrite G0 in Bo by lia. done.
  - lia.
  - exists d. simpl. destruct D as (? & ? & ?). done.
Qed.

End remap.

(** ** Regions: power-of-two sized, naturally aligned runs of bits *)

Inductive reg_op := REG_OP_ISFREE | REG_OP_ALLOC | REG_OP_RELEASE.

Definition __reg_op (bitmap : list Z) (pos order : Z) (op : reg_op) : option (Z * list Z) :=
  let nbits_reg := s32 (Z.shiftl 1 order) in
  let index := pos / BITS_PER_LONG in
  let offset := pos - index * BITS_PER_LONG in
  let nlongs_reg := BITS_TO_LONGS nbits_reg in
  let nbitsinlong := Z.min nbits_reg BITS_PER_LONG in
  let mask := shl32 1 (nbitsinlong - 1) in
  let mask := u32 (mask + (mask - 1)) in
  let mask := shl32 mask offset in
  match op with
  | REG_OP_ISFREE =>
      h ← scan_words (fun i => w ← array_get bitmap i; Some (negb (Z.land w mask =? 0)))
            index (Z.to_nat nlongs_reg);
      Some (if h : bool then 0 else 1, bitmap)
  | REG_OP_ALLOC =>
      b ← for_each (fun i b => w ← array_get b i; array_set b i (Z.lor w mask))
            (seqZ index nlongs_reg) bitmap;
      Some (0, b)
  | REG_OP_RELEASE =>
      b ← for_each (fun i b => w ← array_get b i; array_set b i (Z.land w (not32 mask)))
            (seqZ index nlongs_reg) bitmap;
      Some (0, b)
  end.

Arguments __reg_op : simpl never.

Definition bitmap_find_free_region (bitmap : list Z) (bits order : Z) : option (Z * list Z) :=
  pos ← mjoin (loop (S (Z.to_nat bits)) (fun pos =>
    if pos <? bits then
      match __reg_op bitmap pos order REG_OP_ISFREE with
      | None => inr None
      | Some (free, _) =>
          if negb (free =? 0) then inr (Some pos)
          else inl (s32 (pos + s32 (Z.shiftl 1 order)))
      end
    else inr (Some pos)) 0);
  if pos =? bits then Some (- ENOMEM, bitmap)
  else
    '(_, bitmap) ← __reg_op bitmap pos order REG_OP_ALLOC;
    Some (pos, bitmap).

Definition bitmap_release_region (bitmap : list Z) (pos order : Z) : option (list Z) :=
  '(_, bitmap) ← __reg_op bitmap pos order REG_OP_RELEASE; Some bitmap.

Definition bitmap_allocate_region (bitmap : list Z) (pos order : Z) : option (Z * list Z) :=
  '(free, _) ← __reg_op bitmap pos order REG_OP_ISFREE;
  if free =? 0 then Some (- EBUSY, bitmap)
  else
    '(_, bitmap) ← __reg_op bitmap pos order REG_OP_ALLOC;
    Some (0, bitmap).

Section region.
Context (ws : list Z) (Hok : words_ok ws) (pos order : Z).
Context (Horder : 0 <= order <= 30) (Hpos : 0 <= pos).
Context (Halign : pos mod 2 ^ order = 0) (Hfit : pos + 2 ^ order <= nbits ws).

Let n := 2 ^ order.
Let index := pos / 32.
Let nl := BITS_TO_LONGS n.
Definition in_region (p : Z) : bool := (pos <=? p) && (p <? pos + 2 ^ order).

Lemma region_size : s32 (Z.shiftl 1 order) = n /\ 0 < n <= 2 ^ 30.
Proof using Horder.
  clear index. unfold n. rewrite Z.shiftl_1_l.
  assert (0 < 2 ^ order <= 2 ^ 30).
  { split; [apply Z.pow_pos_nonneg; lia|apply Z.pow_le_mono_r; lia]. }
  split; [|done]. apply s32_small. unfold is_s32, INT_MAX. lia.
Qed.

(** Either the region lies inside one word, or it is made of whole words. *)
Lemma region_shape :
  (n <= 32 /\ nl = 1 /\ 0 <= pos mod 32 /\ pos mod 32 + n <= 32) \/
  (32 <= n /\ n = 32 * nl /\ pos mod 32 = 0).
Proof using All.
  unfold nl, n, BITS_TO_LONGS, BITS_PER_LONG in *.
  destruct (Z.lt_ge_cases order 5) as [Hlt|Hge].
  - left. assert (order = 0 \/ order = 1 \/ order = 2 \/ order = 3 \/ order = 4)
      as [->|[->|[->|[->| ->]]]] by lia; simpl (2 ^ _) in *; div_lia.
  - right. assert (E : 2 ^ order = 32 * 2 ^ (order - 5)).
    { change 32 with (2 ^ 5). rewrite <- Z.pow_add_r by lia. f_equal. lia. }
    pose proof (Z.pow_pos_nonneg 2 (order - 5) ltac:(lia) ltac:(lia)).
    rewrite E in *. split_and!; [lia| |].
    + f_equal. replace (32 * 2 ^ (order - 5) + 32 - 1) with (31 + 2 ^ (order - 5) * 32) by lia.
      rewrite Z.div_add by lia. change (31 / 32) with 0. lia.
    + apply Z.mod_divide; [lia|]. apply Z.mod_divide in Halign; [|lia].
      etrans; [|exact Halign]. apply Z.divide_factor_l.
Qed.

Lemma region_mask :
  let nbitsinlong := Z.min n 32 in
  let mask := shl32 1 (nbitsinlong - 1) in
  let mask := u32 (mask + (mask - 1)) in
  mask = 2 ^ nbitsinlong - 1.
Proof using All.
  destruct region_size as [_ Hn]. cbv zeta. unfold shl32. rewrite Z.shiftl_1_l.
  set (m := Z.min n 32). assert (0 < m <= 32) by lia.
  assert (E : 2 ^ m = 2 * 2 ^ (m - 1)).
  { rewrite <- Z.pow_succ_r by lia. f_equal. lia. }
  assert (0 < 2 ^ (m - 1) <= 2 ^ 31).
  { split; [apply Z.pow_pos_nonneg; lia|apply Z.pow_le_mono_r; lia]. }
  rewrite (u32_small (2 ^ (m - 1))) by width_lia.
  rewrite u32_small by width_lia. lia.
Qed.

(** The mask the code computes selects the region's bits in each of its words. *)
Lemma region_word_mask i j :
  index <= i < index + nl -> 0 <= j < 32 ->
  Z.testbit (shl32 (2 ^ Z.min n 32 - 1) (pos - pos / 32 * 32)) j = in_region (32 * i + j).
Proof using All.
  intros Hi Hj. destruct region_size as [_ Hn].
  pose proof (Z.div_mod pos 32 ltac:(lia)) as Hd.
  replace (pos - pos / 32 * 32) with (pos mod 32) by lia.
  rewrite shl32_testbit by lia. destruct (Z.ltb_spec j 32); [|lia]. cbn [andb].
  unfold in_region. fold n index in Hd |- *.
  destruct region_shape as [(A & B & C & D)|(A & B & C)].
  - rewrite B in Hi. assert (i = index) as -> by lia.
    destruct (Z.lt_ge_cases j (pos mod 32)).
    + rewrite Z.testbit_neg_r by lia. destruct (Z.leb_spec pos (32 * index + j)); [lia|done].
    + rewrite pow2m1_testbit by lia.
      destruct (Z.leb_spec pos (32 * index + j)); [|lia]. cbn [andb].
      destruct (Z.ltb_spec (j - pos mod 32) (n `min` 32)), (Z.ltb_spec (32 * index + j) (pos + n)); lia || done.
  - rewrite C, pow2m1_testbit by lia.
    destruct (Z.ltb_spec (j - 0) (n `min` 32)); [|lia].
    destruct (Z.leb_spec pos (32 * i + j)), (Z.ltb_spec (32 * i + j) (pos + n)); lia || done.
Qed.

Lemma region_words : 0 <= index /\ 0 < nl /\ index + nl <= Z.of_nat (length ws) /\
  (forall p, 0 <= p -> in_region p = true -> index <= p / 32 < index + nl).
Proof using All.
  destruct region_size as [_ Hn]. pose proof (Z.div_mod pos 32 ltac:(lia)) as H1.
  pose proof (Z.div_pos pos 32 Hpos ltac:(lia)) as H2. pose proof Hfit as H3. unfold nbits in H3.
  split; [done|]. unfold in_region. fold n index in H1, H2, H3 |- *.
  destruct region_shape as [(A & B & C & D)|(A & B & C)]; (split; [lia|split; [lia|]]);
    intros p Hp [K1%Z.leb_le K2%Z.ltb_lt]%andb_true_iff; div_lia.
Qed.

Lemma reg_isfree_spec :
  exists r, __reg_op ws pos order REG_OP_ISFREE = Some (r, ws) /\
    decides (Some r) (forall p, pos <= p < pos + 2 ^ order -> btest ws p = false).
Proof using All.
  destruct region_size as [Es Hn]. destruct region_words as (W1 & W2 & W3 & W4).
  pose proof region_mask as Hmask. cbv zeta in Hmask.
  unfold __reg_op. rewrite Es. change BITS_PER_LONG with 32. fold nl. rewrite Hmask.
  set (mask := shl32 _ _).
  destruct (scan_words_spec (fun i => w ← array_get ws i; Some (negb (Z.land w mask =? 0)))
    (fun p => btest ws p && in_region p) (Z.to_nat nl) index) as (h & E & Hh).
  { intros k Hk.
    destruct (nonzero_view (fun i => w ← array_get ws i; Some (Z.land w mask))
      (fun p => btest ws p && in_region p) k) as (h & Eh & Hh).
    - destruct (array_view ws k Hok) as (w & Ew & U & B); [lia|].
      exists (Z.land w mask). rewrite Ew. split_and!; [done| |].
      + apply is_u32_land_l; [done|]. apply is_u32_shl32.
      + intros j Hj. by rewrite Z.land_spec, B, (region_word_mask k) by lia.
    - exists h. split; [|done]. revert Eh. unfold nonzero. by destruct (array_get ws k). }
  fold index. rewrite E. simpl. eexists. split; [done|]. unfold in_region in Hh. destruct h.
  - right. split; [done|]. destruct (proj1 Hh eq_refl) as (p & _ & Hp).
    rewrite !andb_true_iff, Z.leb_le, Z.ltb_lt in Hp. destruct Hp as (Hp & Hp1 & Hp2).
    intros Hfree. rewrite Hfree in Hp by lia. done.
  - left. split; [done|]. intros p Hp. destruct (btest ws p) eqn:Eb; [|done].
    enough (false = true) by done. apply Hh. exists p.
    assert (Hr : in_region p = true) by (unfold in_region; rewrite andb_true_iff, Z.leb_le, Z.ltb_lt; lia).
    specialize (W4 p ltac:(lia) Hr). split; [div_lia|]. rewrite Eb. exact Hr.
Qed.

(** A read-modify-write of every word of the region. *)
Lemma region_update (g : Z -> Z -> Z) (h : bool -> bool -> bool) mask :
  mask = shl32 (2 ^ Z.min n 32 - 1) (pos - pos / 32 * 32) ->
  (forall w, is_u32 w -> is_u32 (g w mask)) ->
  (forall w j, 0 <= j < 32 -> Z.testbit (g w mask) j = h (Z.testbit w j) (Z.testbit mask j)) ->
  (forall b, h b false = b) ->
  exists b, for_each (fun i b => w ← array_get b i; array_set b i (g w mask)) (seqZ index nl) ws = Some b /\
    words_ok b /\ length b = length ws /\
    (forall p, 0 <= p -> btest b p = h (btest ws p) (in_region p)).
Proof using All.
  intros Hm Hu Hg Hh. destruct region_words as (W1 & W2 & W3 & W4).
  destruct (for_up (fun i b => w ← array_get b i; array_set b i (g w mask))
    (fun k b => words_ok b /\ length b = length ws /\
       forall p, 0 <= p -> btest b p = if p / 32 <? k then h (btest ws p) (in_region p) else btest ws p)
    index nl ws) as (b & E & B1 & B2 & B3); [lia| | |].
  - split_and!; [done|done|]. intros p Hp. destruct (Z.ltb_spec (p / 32) index); [|done].
    destruct (in_region p) eqn:Er; [|by rewrite Hh]. specialize (W4 p Hp Er). lia.
  - intros k b Hk (B1 & B2 & B3).
    destruct (array_view b k B1) as (w & -> & U & B); [lia|]. simpl.
    rewrite array_set_Some by lia. eexists. split; [done|]. split_and!.
    + by apply words_ok_insert; auto.
    + by rewrite length_insert.
    + intros p Hp. rewrite btest_insert by lia. rewrite B3 by done.
      pose proof (Z.mod_pos_bound p 32 ltac:(lia)). pose proof (Z.div_mod p 32 ltac:(lia)).
      case_bool_decide as E.
      * rewrite Hg by done. rewrite B by done. rewrite Hm, (region_word_mask k) by lia.
        rewrite <- E, <- Z.div_mod by lia. rewrite B3 by done.
        destruct (Z.ltb_spec (p / 32) k), (Z.ltb_spec (p / 32) (p / 32 + 1)); lia || done.
      * destruct (Z.ltb_spec (p / 32) k), (Z.ltb_spec (p / 32) (k + 1)); lia || done.
  - exists b. split_and!; [done|done|done|]. intros p Hp. rewrite B3 by done.
    destruct (Z.ltb_spec (p / 32) (index + nl)); [done|].
    destruct (in_region p) eqn:Er; [|by rewrite Hh]. specialize (W4 p Hp Er). lia.
Qed.

Lemma reg_alloc_spec :
  exists b, __reg_op ws pos order REG_OP_ALLOC = Some (0, b) /\ words_ok b /\
    length b = length ws /\ (forall p, 0 <= p -> btest b p = btest ws p || in_region p).
Proof using All.
  destruct region_size as [Es Hn]. pose proof region_mask as Hmask. cbv zeta in Hmask.
  unfold __reg_op. rewrite Es. change BITS_PER_LONG with 32. fold nl. rewrite Hmask.
  destruct (region_update Z.lor orb _ eq_refl) as (b & E & B).
  - intros. apply is_u32_lor; [done|]. apply is_u32_shl32.
  - intros. apply Z.lor_spec.
  - apply orb_false_r.
  - unfold index in E. rewrite E. simpl. eauto.
Qed.

Lemma reg_release_spec :
  exists b, __reg_op ws pos order REG_OP_RELEASE = Some (0, b) /\ words_ok b /\
    length b = length ws /\ (forall p, 0 <= p -> btest b p = btest ws p && negb (in_region p)).
Proof using All.
  destruct region_size as [Es Hn]. pose proof region_mask as Hmask. cbv zeta in Hmask.
  unfold __reg_op. rewrite Es. change BITS_PER_LONG with 32. fold nl. rewrite Hmask.
  destruct (region_update (fun w m => Z.land w (not32 m)) (fun b r => b && negb r) _ eq_refl)
    as (b & E & B).
  - intros. apply is_u32_land_l; [done|]. apply is_u32_not32.
  - intros. by apply andnot_testbit.
  - apply andb_true_r.
  - unfold index in E. rewrite E. simpl. eauto.
Qed.

End region.

(** All bits of the region at [pos] are clear. *)
Definition region_free (ws : list Z) (order pos : Z) : Prop :=
  forall p, pos <= p < pos + 2 ^ order -> btest ws p = false.

(** Candidate positions of a region in a bitmap of [bits] bits. *)
Definition region_at (bits order pos : Z) : Prop :=
  0 <= pos /\ pos mod 2 ^ order = 0 /\ pos + 2 ^ order <= bits.

Lemma next_aligned pos bits k :
  0 < k -> 0 <= pos < bits -> pos mod k = 0 -> bits mod k = 0 -> pos + k <= bits.
Proof.
  intros Hk Hp H1 H2. apply Z.mod_divide in H1 as [a ->]; [|lia].
  apply Z.mod_divide in H2 as [b ->]; [|lia].
  assert (a < b) by (apply Z.mul_lt_mono_pos_r with k; lia).
  replace (a * k + k) with ((a + 1) * k) by ring. apply Z.mul_le_mono_nonneg_r; lia.
Qed.

Lemma find_free_region_spec ws bits order :
  words_ok ws -> 0 <= order <= 30 -> 0 <= bits <= nbits ws -> bits <= INT_MAX ->
  bits mod 2 ^ order = 0 ->
  exists r b, bitmap_find_free_region ws bits order = Some (r, b) /\ words_ok b /\
    length b = length ws /\
    ((r = - ENOMEM /\ b = ws /\ forall q, region_at bits order q -> ~ region_free ws order q) \/
     (region_at bits order r /\ region_free ws order r /\
      (forall q, region_at bits order q -> q < r -> ~ region_free ws order q) /\
      (forall p, 0 <= p -> btest b p = btest ws p || in_region r order p))).
Proof.
  intros Hok Ho Hb Hmax Hmod. destruct (region_size order Ho) as [Es Hn].
  unfold bitmap_find_free_region. rewrite Es.
  match goal with |- context [loop ?n ?body ?st] =>
    destruct (loop_total body
      (fun pos => 0 <= pos <= bits /\ pos mod 2 ^ order = 0 /\
         forall q, region_at bits order q -> q < pos -> ~ region_free ws order q)
      (fun r => exists pos, r = Some pos /\ 0 <= pos <= bits /\ pos mod 2 ^ order = 0 /\
         (forall q, region_at bits order q -> q < pos -> ~ region_free ws order q) /\
         (pos < bits -> region_free ws order pos))
      (fun pos => Z.to_nat (bits - pos))) with (fuel := n) (s := st)
      as (r & -> & pos & -> & P1 & P2 & P3 & P4) end.
  - intros pos (P1 & P2 & P3). destruct (Z.ltb_spec pos bits) as [Hlt|Hge].
    2:{ exists pos. split_and!; [done|lia|lia|done|done|lia]. }
    pose proof (next_aligned pos bits (2 ^ order) ltac:(lia) ltac:(lia) P2 Hmod).
    destruct (reg_isfree_spec ws Hok pos order Ho ltac:(lia) P2 ltac:(lia)) as (f & -> & [[[= ->] Hf]|[[= ->] Hf]]);
      cbn [Z.eqb negb].
    + exists pos. split_and!; [done|lia|lia|done|done|done].
    + rewrite s32_small by (unfold is_s32; lia). split; [|lia]. split_and!; [lia|lia| |].
      * rewrite <- Zplus_mod_idemp_l, P2, Z.add_0_l. apply Z_mod_same_full.
      * intros q Hq Hlt'. destruct (Z.lt_ge_cases q pos); [by apply P3|].
        destruct Hq as (Q1 & Q2 & Q3). replace q with pos; [done|].
        destruct (Z.eq_dec pos q); [done|].
        pose proof (next_aligned pos q (2 ^ order) ltac:(lia) ltac:(lia) P2 Q2). lia.
  - split_and!; [lia|lia|apply Z.mod_0_l; lia|]. intros q (Q1 & _) Hq. lia.
  - lia.
  - simpl. destruct (Z.eqb_spec pos bits) as [->|Hne].
    + exists (- ENOMEM), ws. split_and!; [done|done|done|]. left. split_and!; [done|done|].
      intros q Hq. apply P3; [done|]. destruct Hq as (? & ? & ?). lia.
    + pose proof (next_aligned pos bits (2 ^ order) ltac:(lia) ltac:(lia) P2 Hmod).
      destruct (reg_alloc_spec ws Hok pos order Ho ltac:(lia) P2 ltac:(lia)) as (b & -> & B1 & B2 & B3).
      simpl. exists pos, b. split_and!; [done|done|done|]. right.
      split_and!; [split_and!; lia|apply P4; lia|done|done].
Qed.

(** ** Properties *)

(** What a two-operand operation leaves in its destination. *)
Definition sets_bits (o : option (list Z)) (dst : list Z) (bits : Z) (f : Z -> bool) : Prop :=
  exists d, o = Some d /\ words_ok d /\ length d = length dst /\
    forall i, 0 <= i < bits -> btest d i = f i.

(** C25: The set operations and tests.  and, or, xor, andnot and complement are the set operations
    on the bits, and a complement leaves the unused bits of the last word clear; the
    tests depend only on the first [bits] bits and decide emptiness, fullness,
    equality, intersection and inclusion; the weight is the number of set bits.
    Every array access is in bounds. *)
Theorem bitmap_set_algebra dst b1 b2 bits :
  words_ok dst -> words_ok b1 -> words_ok b2 ->
  0 <= bits <= nbits dst -> bits <= nbits b1 -> bits <= nbits b2 -> bits <= INT_MAX ->
  (sets_bits (__bitmap_and dst b1 b2 bits) dst bits (fun i => btest b1 i && btest b2 i) /\
   sets_bits (__bitmap_or dst b1 b2 bits) dst bits (fun i => btest b1 i || btest b2 i) /\
   sets_bits (__bitmap_xor dst b1 b2 bits) dst bits (fun i => xorb (btest b1 i) (btest b2 i)) /\
   sets_bits (__bitmap_andnot dst b1 b2 bits) dst bits (fun i => btest b1 i && negb (btest b2 i)) /\
   sets_bits (__bitmap_complement dst b1 bits) dst (32 * BITS_TO_LONGS bits)
     (fun i => (i <? bits) && negb (btest b1 i))) /\
  decides (__bitmap_empty b1 bits) (forall i, 0 <= i < bits -> btest b1 i = false) /\
  decides (__bitmap_full b1 bits) (forall i, 0 <= i < bits -> btest b1 i = true) /\
  decides (__bitmap_equal b1 b2 bits) (forall i, 0 <= i < bits -> btest b1 i = btest b2 i) /\
  decides (__bitmap_intersects b1 b2 bits)
    (exists i, 0 <= i < bits /\ btest b1 i = true /\ btest b2 i = true) /\
  decides (__bitmap_subset b1 b2 bits)
    (forall i, 0 <= i < bits -> btest b1 i = true -> btest b2 i = true) /\
  __bitmap_weight b1 bits = Some (count_bits (btest b1) (Z.to_nat bits)).
Proof.
  intros Hd H1 H2 Hb Hb1 Hb2 Hmax. assert (Hb0 : 0 <= bits <= nbits b1) by lia.
  split; [|split; [by apply empty_decides|split; [by apply full_decides|split; [by apply equal_decides|
    split; [by apply intersects_decides|split; [by apply subset_decides|by apply weight_spec]]]]]].
  split_and!.
  - apply (store_map2_spec Z.land andb); try done; [|intros; apply Z.land_spec].
    intros ?? ? Hu. apply is_u32_land_l; [done|]. unfold is_u32 in Hu. lia.
  - apply (store_map2_spec Z.lor orb); try done; [|intros; apply Z.lor_spec].
    intros. by apply is_u32_lor.
  - apply (store_map2_spec Z.lxor xorb); try done; [|intros; apply Z.lxor_spec].
    intros. by apply is_u32_lxor.
  - apply (store_map2_spec (fun w1 w2 => Z.land w1 (not32 w2)) (fun a b => a && negb b)); try done.
    + intros. apply is_u32_land_l; [done|]. apply is_u32_not32.
    + intros. by apply andnot_testbit.
  - destruct (complement_spec dst b1 bits Hd H1 Hb Hb1) as (d & E & D1 & D2 & D3 & D4).
    exists d. split_and!; [done|done|done|]. intros i Hi. destruct (Z.ltb_spec i bits).
    + apply D3. lia.
    + apply D4. lia.
Qed.

Lemma bitmap_set_algebra_witness :
  __bitmap_xor [0; 0] [0xF0; 0x1] [0xFF; 0x3] 36 = Some [0x0F; 0x2] /\
  sets_bits (__bitmap_and [0; 0] [0xF0; 0x1] [0xFF; 0x3] 36) [0; 0] 36
    (fun i => btest [0xF0; 0x1] i && btest [0xFF; 0x3] i) /\
  decides (__bitmap_subset [0xF0; 0x1] [0xFF; 0x3] 36)
    (forall i, 0 <= i < 36 -> btest [0xF0; 0x1] i = true -> btest [0xFF; 0x3] i = true).
Proof.
  split; [by_eval|].
  destruct (bitmap_set_algebra [0; 0] [0xF0; 0x1] [0xFF; 0x3] 36) as ((Hand & _) & _ & _ & _ & _ & Hsub & _);
    [words_by_eval|words_by_eval|words_by_eval|by_eval..|]. split; [exact Hand|exact Hsub].
Defined.

(** C26: the shifts move bit [i] to [i - shift] and [i + shift], feed in zeros,
    ignore the unused source bits, clear the unused destination bits and stay in
    bounds, also when destination and source are the same array.  That is what
    lib/bitmap.c promises for every operation; the one-word path of bitmap_shift_right
    does not keep it: bit 4 of a source of 4 bits is shifted into the bitmap, where the
    general routine masks it. *)
Theorem bitmap_shifts_correct dst src shift bits :
  words_ok dst -> words_ok (source src dst) ->
  0 <= bits <= nbits dst -> bits <= nbits (source src dst) ->
  0 <= shift -> shift / 32 <= BITS_TO_LONGS bits ->
  sets_bits (__bitmap_shift_right dst src shift bits) dst (32 * BITS_TO_LONGS bits)
    (fun i => (i + shift <? bits) && btest (source src dst) (i + shift)) /\
  sets_bits (__bitmap_shift_left dst src shift bits) dst (32 * BITS_TO_LONGS bits)
    (fun i => (shift <=? i) && (i <? bits) && btest (source src dst) (i - shift)) /\
  (bitmap_shift_right [0] [0x10] 1 4 = Some [0x8] /\ __bitmap_shift_right [0] (Some [0x10]) 1 4 = Some [0x0]).
Proof.
  intros. split; [by apply shift_right_spec|]. split; [by apply shift_left_spec|]. split; by_eval.
Qed.

Lemma bitmap_shifts_witness :
  __bitmap_shift_left [0x81; 0x5] None 33 60 = Some [0; 0x102] /\
  sets_bits (__bitmap_shift_left [0x81; 0x5] None 33 60) [0x81; 0x5] 64
    (fun i => (33 <=? i) && (i <? 60) && btest [0x81; 0x5] (i - 33)).
Proof.
  split; [by_eval|].
  apply (bitmap_shifts_correct [0x81; 0x5] None 33 60); [words_by_eval|words_by_eval|by_eval..].
Defined.

(** Bitmap_remap sets exactly the images of the bits of [src] under the map
    that [old] and [new] define, and bitmap_bitremap computes that map. *)
Theorem bitmap_remap_correct dst src old new bits :
  words_ok dst -> words_ok src -> words_ok old -> words_ok new -> 0 < bits <= INT_MAX ->
  bits <= nbits dst -> bits <= nbits src -> bits <= nbits old -> bits <= nbits new ->
  nbits src + 32 <= UINT_MAX -> nbits old + 32 <= UINT_MAX -> nbits new + 32 <= UINT_MAX ->
  (exists d, bitmap_remap dst src old new bits = Some d /\ words_ok d /\ length d = length dst /\
    forall b, 0 <= b < bits -> (btest d b = true <->
      exists o, 0 <= o < bits /\ btest src o = true /\ bitmap_bitremap o old new bits = Some b)) /\
  (forall o, 0 <= o < bits -> exists b, bitmap_bitremap o old new bits = Some b /\
     0 <= b < bits /\ maps_to old new bits o b).
Proof.
  intros Hd Hs Ho Hn Hb Hbd Hbs Hbo Hbn Ms Mo Mn.
  assert (Hbit : forall o, 0 <= o < bits -> exists b, bitmap_bitremap o old new bits = Some b /\
     0 <= b < bits /\ maps_to old new bits o b).
  { intros o Hr. unfold bitmap_bitremap, bitmap_weight. rewrite weight_spec by (done || lia).
    fold (rank new bits). simpl. apply remap_bit_spec; done || lia. }
  split; [|done].
  destruct (remap_spec old new bits Ho Hn ltac:(lia) Hbo Hbn Mo Mn dst src)
    as (d & E & D1 & D2 & D3); try done; [lia|].
  exists d. split_and!; [done|done|done|]. intros b Hbb. rewrite D3 by done.
  split; intros (o & Hr & Bo & H); exists o; split_and!; try done; try lia.
  - destruct (Hbit o Hr) as (b' & E' & _ & M). by rewrite (maps_to_functional _ _ _ _ _ _ H M).
  - destruct (Hbit o Hr) as (b' & E' & _ & M). rewrite E' in H. by injection H as <-.
Qed.

Lemma bitmap_remap_witness :
  bitmap_remap [0xFFFF] [0xA2] [0xF0] [0xF000] 16 = Some [0xA002] /\
  (forall o, 0 <= o < 16 -> exists b, bitmap_bitremap o [0xF0] [0xF000] 16 = Some b /\
     0 <= b < 16 /\ maps_to [0xF0] [0xF000] 16 o b).
Proof.
  split; [by_eval|].
  apply (bitmap_remap_correct [0xFFFF] [0xA2] [0xF0] [0xF000] 16);
    [words_by_eval|words_by_eval|words_by_eval|words_by_eval|by_eval..].
Defined.

(** On a bitmap whose size is a multiple of the region size,
    bitmap_find_free_region allocates the lowest free aligned region, or returns
    -ENOMEM and changes nothing when there is none; releasing the region that was
    allocated restores every bit; bitmap_allocate_region refuses exactly the
    regions that are not free. *)
Theorem bitmap_regions_correct ws bits order :
  words_ok ws -> 0 <= order <= 30 -> 0 <= bits <= nbits ws -> bits <= INT_MAX ->
  bits mod 2 ^ order = 0 ->
  exists r b, bitmap_find_free_region ws bits order = Some (r, b) /\
    ((r = - ENOMEM /\ b = ws /\ forall q, region_at bits order q -> ~ region_free ws order q) \/
     (region_at bits order r /\ region_free ws order r /\
      (forall q, region_at bits order q -> q < r -> ~ region_free ws order q) /\
      (forall p, 0 <= p -> btest b p = btest ws p || in_region r order p) /\
      bitmap_allocate_region b r order = Some (- EBUSY, b) /\
      exists b', bitmap_release_region b r order = Some b' /\
        forall p, 0 <= p -> btest b' p = btest ws p)).
Proof.
  intros Hok Ho Hb Hmax Hmod.
  destruct (find_free_region_spec ws bits order) as (r & b & E & B1 & B2 & [H|(R & F & N & S)]);
    try done; exists r, b; (split; [done|]); [by left|right].
  pose proof R as (R1 & R2 & R3). assert (Hn : nbits b = nbits ws) by (unfold nbits; by rewrite B2).
  destruct (reg_isfree_spec b B1 r order Ho R1 R2) as (f & Ef & Hf); [lia|].
  destruct (reg_release_spec b B1 r order Ho R1 R2) as (b' & Eb & B3 & B4 & B5); [lia|].
  assert (Hpow : 0 < 2 ^ order) by (apply Z.pow_pos_nonneg; lia).
  split; [done|]. split; [done|]. split; [done|]. split; [done|]. split.
  - unfold bitmap_allocate_region. rewrite Ef. simpl.
    destruct Hf as [[[= ->] Hfree]|[[= ->] _]]; [|done].
    specialize (Hfree r ltac:(lia)). rewrite S in Hfree by done.
    unfold in_region in Hfree. destruct (Z.leb_spec r r), (Z.ltb_spec r (r + 2 ^ order)); lia.
  - exists b'. unfold bitmap_release_region. rewrite Eb. split; [done|].
    intros p Hp. rewrite B5, S by done. unfold in_region.
    destruct (Z.leb_spec r p), (Z.ltb_spec p (r + 2 ^ order)); cbn [andb negb];
      rewrite ?orb_false_r, ?andb_true_r, ?andb_false_r; try done.
    rewrite F by lia. done.
Qed.

Lemma bitmap_regions_witness :
  bitmap_find_free_region [0x0F01] 32 2 = Some (4, [0x0FF1]) /\
  exists r b, bitmap_find_free_region [0x0F01] 32 2 = Some (r, b).
Proof.
  split; [by_eval|].
  destruct (bitmap_regions_correct [0x0F01] 32 2) as (r & b & E & _);
    [words_by_eval|by_eval..|exists r, b; exact E].
Defined.

(** When the size is not a multiple of the region size and no region that starts
    in the map is free, the search steps over the end, the test [pos == bits] misses it
    and bitmap_find_free_region never reports -ENOMEM: it "allocates" the first aligned
    region behind the map and sets the bits of the array there. *)
Theorem find_free_region_overruns ws bits order e :
  words_ok ws -> 0 <= order <= 30 -> 0 < bits -> e + 2 ^ 30 <= INT_MAX ->
  bits < e < bits + 2 ^ order -> e mod 2 ^ order = 0 -> e + 2 ^ order <= nbits ws ->
  (forall q, 0 <= q < bits -> q mod 2 ^ order = 0 -> ~ region_free ws order q) ->
  exists b, bitmap_find_free_region ws bits order = Some (e, b) /\
    forall p, 0 <= p -> btest b p = btest ws p || in_region e order p.
Proof.
  intros Hok Ho Hb Hmax He Hmod Hroom Hfull. destruct (region_size order Ho) as [Es Hn].
  unfold bitmap_find_free_region. rewrite Es.
  match goal with |- context [loop ?n ?body ?st] =>
    destruct (loop_total body (fun pos => 0 <= pos <= e /\ pos mod 2 ^ order = 0)
      (fun r => r = Some e) (fun pos => Z.to_nat (bits - pos))) with (fuel := n) (s := st)
      as (r & -> & ->) end.
  - intros pos (P1 & P2). destruct (Z.ltb_spec pos bits) as [Hlt|Hge].
    2:{ destruct (Z.eq_dec pos e) as [->|]; [done|].
        pose proof (next_aligned pos e (2 ^ order) ltac:(lia) ltac:(lia) P2 Hmod). lia. }
    pose proof (next_aligned pos e (2 ^ order) ltac:(lia) ltac:(lia) P2 Hmod).
    destruct (reg_isfree_spec ws Hok pos order Ho ltac:(lia) P2 ltac:(lia)) as (f & -> & [[[= ->] Hf]|[[= ->] Hf]]);
      cbn [Z.eqb negb]; [by destruct (Hfull pos ltac:(lia) P2)|].
    rewrite s32_small by (unfold is_s32; lia). split; [|lia]. split; [lia|].
    rewrite <- Zplus_mod_idemp_l, P2, Z.add_0_l. apply Z_mod_same_full.
  - split; [lia|]. apply Z.mod_0_l. lia.
  - lia.
  - simpl. destruct (Z.eqb_spec e bits) as [|_]; [lia|].
    destruct (reg_alloc_spec ws Hok e order Ho ltac:(lia) Hmod Hroom) as (b & -> & _ & _ & B).
    simpl. by exists b.
Qed.

(** A full map of 40 bits and regions of 16. *)
Lemma find_free_region_overruns_witness :
  exists b, bitmap_find_free_region [UINT_MAX; 0xFF] 40 4 = Some (48, b) /\ btest b 48 = true.
Proof.
  destruct (find_free_region_overruns [UINT_MAX; 0xFF] 40 4 48) as (b & E & B);
    [words_by_eval|by_eval..| |].
  - intros q Hq Hm Hf. assert (q = 0 \/ q = 16 \/ q = 32) as [->|[->| ->]] by div_lia.
    + specialize (Hf 0 ltac:(lia)). by vm_compute in Hf.
    + specialize (Hf 16 ltac:(lia)). by vm_compute in Hf.
    + specialize (Hf 32 ltac:(lia)). by vm_compute in Hf.
  - exists b. split; [exact E|]. rewrite B by lia. by_eval.
Defined.
