(* ===== verification/Kmem.v ===== *)
(** The kernel allocator as the modelled components see it: kmalloc may fail at
    any call, kfree releases a live block.  The allocator itself (mm/slab.c) is
    outside of the model; its outcomes come from an oracle, so that a theorem
    quantified over the oracle covers every pattern of failures. *)
From stdpp Require Import base gmap.
From Stdlib Require Import ZArith Lia.
From S2P Require Import Prelude.

Local Open Scope Z_scope.

Record kmem := {
  oom : list bool;    (* whether each coming allocation fails; the last answer repeats *)
  live : gset Z;      (* addresses of the live blocks *)
  fresh : Z           (* no block at or above this address was handed out yet *)
}.

Definition kmem_ok (h : kmem) : Prop := 0 < fresh h /\ forall p, p ∈ live h -> 0 < p < fresh h.

(** kmalloc: [None] is the NULL return. *)
Definition kmalloc (h : kmem) : option Z * kmem :=
  let fails := match oom h with [] => false | b :: _ => b end in
  let rest := match oom h with [] => [] | [b] => [b] | _ :: bs => bs end in
  if fails : bool then (None, {| oom := rest; live := live h; fresh := fresh h |})
  else (Some (fresh h),
        {| oom := rest; live := {[ fresh h ]} ∪ live h; fresh := fresh h + 1 |}).

(** kfree: [None] is the free of a block that is not live. *)
Definition kfree (p : Z) (h : kmem) : option kmem :=
  if decide (p ∈ live h)
  then Some {| oom := oom h; live := (live h ∖ {[ p ]}); fresh := fresh h |} else None.

Lemma kmalloc_spec h :
  kmem_ok h ->
  let '(r, h') := kmalloc h in
  kmem_ok h' /\
  match r with
  | None => live h' = live h
  | Some p => 0 < p /\ (p ∉ live h) /\ live h' = {[ p ]} ∪ live h
  end.
Proof.
  intros [Hf Hl]. unfold kmalloc. destruct (match oom h with [] => false | b :: _ => b end); simpl.
  - done.
  - split; [split; simpl; [lia|]|split_and!; [lia| |done]].
    + intros p [->%elem_of_singleton|Hp%Hl]%elem_of_union; simpl; lia.
    + intros Hp%Hl. lia.
Qed.

Lemma kfree_spec h p :
  kmem_ok h -> p ∈ live h ->
  exists h', kfree p h = Some h' /\ kmem_ok h' /\ live h' = (live h ∖ {[ p ]}).
Proof.
  intros [Hf Hl] Hp. unfold kfree. rewrite decide_True by done. eexists. split; [done|].
  split; [|done]. split; [done|]. simpl. intros q [Hq _]%elem_of_difference. by apply Hl.
Qed.
