(* ===== verification/Kfifo.v ===== *)
(** kernel/kfifo.c and the inline functions of include/linux/kfifo.h: a byte
    queue in a power-of-two sized buffer whose [in] and [out] counters run freely
    and wrap at 2^32.

    The abstract specification is a list of bytes ([contents]); the theorems say
    that put and get are append and split on it for every counter value, and
    that one writer and one reader may run without a lock. *)
From stdpp Require Import base list gmap numbers option.
From Stdlib Require Import ZArith Lia.
From S2P Require Import Prelude Ring Queue Bitops Kmem.

Local Open Scope Z_scope.

(** struct kfifo; [buffer_ptr] and [self] are the addresses of the two blocks. *)
Record kfifo := {
  self : Z;
  buffer_ptr : Z;
  buffer : list Z;
  size : Z;
  in_ : Z;
  out : Z
}.

Definition set_in (f : kfifo) (b : list Z) (i : Z) : kfifo :=
  {| self := self f; buffer_ptr := buffer_ptr f; buffer := b; size := size f;
     in_ := i; out := out f |}.

Definition set_out (f : kfifo) (o : Z) : kfifo :=
  {| self := self f; buffer_ptr := buffer_ptr f; buffer := buffer f; size := size f;
     in_ := in_ f; out := o |}.

(** The result of an allocating function: a pointer or ERR_PTR(-errno). *)
Inductive err_ptr := ERR_PTR (errno : Z) | FIFO (f : kfifo).

(** [None] is BUG_ON. *)
Definition kfifo_init (bp : Z) (bytes : list Z) (sz : Z) (h : kmem)
    : option (err_ptr * kmem) :=
  if negb (Z.land sz (u32 (sz - 1)) =? 0) then None
  else
    match kmalloc h with
    | (None, h) => Some (ERR_PTR (- ENOMEM), h)
    | (Some p, h) =>
        Some (FIFO {| self := p; buffer_ptr := bp; buffer := bytes; size := sz;
                      in_ := 0; out := 0 |}, h)
    end.

(** [junk n] is the uninitialised content of a fresh block of [n] bytes. *)
Definition kfifo_alloc (junk : Z -> list Z) (sz : Z) (h : kmem)
    : option (err_ptr * kmem) :=
  let rounded :=
    if negb (Z.land sz (u32 (sz - 1)) =? 0) then
      if 0x80000000 <? sz then None else Some (roundup_pow_of_two sz)
    else Some sz in
  sz ← rounded;
  match kmalloc h with
  | (None, h) => Some (ERR_PTR (- ENOMEM), h)
  | (Some bp, h) =>
      '(ret, h) ← kfifo_init bp (junk sz) sz h;
      match ret with
      | ERR_PTR _ => h ← kfree bp h; Some (ret, h)
      | FIFO _ => Some (ret, h)
      end
  end.

Definition kfifo_free (f : kfifo) (h : kmem) : option kmem :=
  h ← kfree (buffer_ptr f) h; kfree (self f) h.

(** Copies at most [len] bytes of [data] into the FIFO. *)
Definition __kfifo_put (f : kfifo) (data : list Z) (len : Z) : option (Z * kfifo) :=
  let len := Z.min len (u32 (u32 (size f - in_ f) + out f)) in
  let pos := Z.land (in_ f) (u32 (size f - 1)) in
  let l := Z.min len (u32 (size f - pos)) in
  b ← memcpy (buffer f) pos data 0 l;
  b ← memcpy b 0 data l (len - l);
  Some (len, set_in f b (u32 (in_ f + len))).

(** Copies at most [len] bytes of the FIFO to [dst]; returns the count, the new
    destination and the FIFO. *)
Definition __kfifo_get (f : kfifo) (dst : list Z) (len : Z) : option (Z * list Z * kfifo) :=
  let len := Z.min len (u32 (in_ f - out f)) in
  let pos := Z.land (out f) (u32 (size f - 1)) in
  let l := Z.min len (u32 (size f - pos)) in
  d ← memcpy dst 0 (buffer f) pos l;
  d ← memcpy d l (buffer f) 0 (len - l);
  Some (len, d, set_out f (u32 (out f + len))).

Definition __kfifo_reset (f : kfifo) : kfifo :=
  set_out (set_in f (buffer f) 0) 0.

Definition __kfifo_len (f : kfifo) : Z := u32 (in_ f - out f).

(** The locked versions run the whole body with the FIFO's spinlock held. *)
Definition kfifo_put (f : kfifo) (data : list Z) (len : Z) : option (Z * kfifo) :=
  __kfifo_put f data len.

Definition kfifo_get (f : kfifo) (dst : list Z) (len : Z) : option (Z * list Z * kfifo) :=
  '(ret, d, f) ← __kfifo_get f dst len;
  let f := if in_ f =? out f then set_out (set_in f (buffer f) 0) 0 else f in
  Some (ret, d, f).

(** ** Invariant and abstraction *)

Definition kfifo_inv (f : kfifo) : Prop :=
  (exists k, 0 <= k <= 31 /\ size f = 2 ^ k) /\
  Z.of_nat (length (buffer f)) = size f /\
  is_u32 (in_ f) /\ is_u32 (out f) /\ u32 (in_ f - out f) <= size f.

(** The queue that the FIFO holds, oldest byte first. *)
Definition contents (f : kfifo) : list Z :=
  ring_slice (buffer f) (out f) (u32 (in_ f - out f)).

Lemma contents_length f : Z.of_nat (length (contents f)) = __kfifo_len f.
Proof.
  unfold contents, __kfifo_len. rewrite ring_slice_length.
  pose proof (u32_range (in_ f - out f)). unfold is_u32 in *. lia.
Qed.

Lemma pow2_divides k : 0 <= k <= 32 -> (2 ^ k | U32_MOD).
Proof.
  intros. exists (2 ^ (32 - k)). unfold U32_MOD. rewrite <- Z.pow_add_r by lia. f_equal. lia.
Qed.

Lemma u32_mod_pow2 x k : 0 <= k <= 32 -> u32 x mod 2 ^ k = x mod 2 ^ k.
Proof.
  intros. unfold u32. by apply Z.mod_mod_divide, pow2_divides.
Qed.

(** Masking a counter with [size - 1] is the remainder by [size]. *)
Lemma mask_mod f x :
  kfifo_inv f -> Z.land x (u32 (size f - 1)) = x mod size f.
Proof.
  intros ((k & Hk & ->) & _). pose proof (Z.pow_pos_nonneg 2 k ltac:(lia) ltac:(lia)).
  assert (2 ^ k <= 2 ^ 31) by (apply Z.pow_le_mono_r; lia).
  rewrite u32_small by width_lia.
  replace (2 ^ k - 1) with (Z.ones k) by (rewrite Z.ones_equiv; lia). apply Z.land_ones. lia.
Qed.

Lemma size_bounds f : kfifo_inv f -> 0 < size f <= 2 ^ 31.
Proof.
  intros ((k & Hk & ->) & _). split; [apply Z.pow_pos_nonneg; lia|apply Z.pow_le_mono_r; lia].
Qed.

(** Two counters that agree modulo 2^32 select the same cells. *)
Lemma slice_wrap f (b : list Z) x n :
  kfifo_inv f -> length b = length (buffer f) ->
  ring_slice b (u32 x) n = ring_slice b x n.
Proof.
  intros ((k & Hk & E) & Hl & _) Hb. apply ring_slice_shift. rewrite Hb, Hl, E.
  apply u32_mod_pow2. lia.
Qed.

Lemma len_bounds f : kfifo_inv f -> 0 <= __kfifo_len f <= size f.
Proof.
  intros (_ & _ & _ & _ & H). unfold __kfifo_len. pose proof (u32_range (in_ f - out f)) as [? _].
  lia.
Qed.

(** [in] is [out] advanced by the number of bytes held. *)
Lemma in_from_out f : kfifo_inv f -> in_ f = u32 (out f + __kfifo_len f).
Proof.
  intros (_ & _ & Hi & _). unfold __kfifo_len. rewrite u32_add_r.
  replace (out f + (in_ f - out f)) with (in_ f) by lia. by rewrite u32_small.
Qed.

(** The free space the code computes. *)
Lemma room_eq f :
  kfifo_inv f -> u32 (u32 (size f - in_ f) + out f) = size f - __kfifo_len f.
Proof.
  intros Hinv. pose proof (len_bounds f Hinv). pose proof (size_bounds f Hinv).
  rewrite u32_add_l. replace (size f - in_ f + out f) with (size f - (in_ f - out f)) by lia.
  rewrite <- u32_sub_r. fold (__kfifo_len f). apply u32_small. width_lia.
Qed.

Lemma first_piece_eq f x :
  kfifo_inv f -> u32 (size f - x mod size f) = size f - x mod size f.
Proof.
  intros Hinv. pose proof (size_bounds f Hinv).
  pose proof (Z.mod_pos_bound x (size f) ltac:(lia)). apply u32_small. width_lia.
Qed.

(** Advancing [in] by at most the free space keeps the invariant. *)
Lemma inv_advance_in f b n :
  kfifo_inv f -> length b = length (buffer f) -> 0 <= n <= size f - __kfifo_len f ->
  kfifo_inv (set_in f b (u32 (in_ f + n))) /\
  __kfifo_len (set_in f b (u32 (in_ f + n))) = __kfifo_len f + n.
Proof.
  intros Hinv Hb Hn. pose proof (len_bounds f Hinv). pose proof (size_bounds f Hinv).
  assert (E : __kfifo_len (set_in f b (u32 (in_ f + n))) = __kfifo_len f + n).
  { unfold __kfifo_len at 1, set_in; cbn [in_ out]. rewrite u32_sub_l.
    replace (in_ f + n - out f) with (in_ f - out f + n) by lia. rewrite <- u32_add_l.
    fold (__kfifo_len f). apply u32_small. width_lia. }
  split; [|done]. destruct Hinv as (Hk & Hl & Hi & Ho & Hr).
  split_and!; cbn [set_in size buffer in_ out]; [done|by rewrite Hb|apply u32_range..|done|].
  unfold __kfifo_len in E at 1. cbn [set_in in_ out] in E. lia.
Qed.

Lemma inv_advance_out f n :
  kfifo_inv f -> 0 <= n <= __kfifo_len f ->
  kfifo_inv (set_out f (u32 (out f + n))) /\
  __kfifo_len (set_out f (u32 (out f + n))) = __kfifo_len f - n.
Proof.
  intros Hinv Hn. pose proof (len_bounds f Hinv). pose proof (size_bounds f Hinv).
  assert (E : __kfifo_len (set_out f (u32 (out f + n))) = __kfifo_len f - n).
  { unfold __kfifo_len at 1, set_out; cbn [in_ out]. rewrite u32_sub_r.
    replace (in_ f - (out f + n)) with (in_ f - out f - n) by lia. rewrite <- u32_sub_l.
    fold (__kfifo_len f). apply u32_small. width_lia. }
  split; [|done]. destruct Hinv as (Hk & Hl & Hi & Ho & Hr).
  split_and!; cbn [set_out size buffer in_ out]; [done|done|done|apply u32_range|].
  unfold __kfifo_len in E at 1. cbn [set_out in_ out] in E. lia.
Qed.

(** ** Sequential behaviour *)

(** [in] names the cell behind the queue. *)
Lemma in_mod f : kfifo_inv f -> in_ f mod size f = (out f + __kfifo_len f) mod size f.
Proof.
  intros Hinv. rewrite (in_from_out f Hinv) at 1. destruct Hinv as ((k & Hk & ->) & _).
  by rewrite u32_mod_pow2 by lia.
Qed.

Lemma put_spec f data len :
  kfifo_inv f -> 0 <= len -> len <= Z.of_nat (length data) ->
  let n := Z.min len (size f - __kfifo_len f) in
  exists f', __kfifo_put f data len = Some (n, f') /\ kfifo_inv f' /\
    size f' = size f /\ contents f' = contents f ++ take (Z.to_nat n) data.
Proof.
  intros Hinv Hlen Hdata n. pose proof (len_bounds f Hinv) as Hlb. pose proof (size_bounds f Hinv).
  unfold __kfifo_put. rewrite room_eq, mask_mod, first_piece_eq by done. fold n.
  pose proof Hinv as (Hk & Hl & _).
  destruct (ring_append (buffer f) data (out f) (__kfifo_len f) n (in_ f mod size f)
    (Z.min n (size f - in_ f mod size f))) as (b1 & b2 & -> & E2 & B1 & B2);
    rewrite ?Hl; try lia; [by apply in_mod|].
  simpl. rewrite E2. simpl.
  destruct (inv_advance_in f b2 n Hinv B1 ltac:(lia)) as [Hinv' Hlen'].
  eexists. split; [done|]. split_and!; [done|done|].
  unfold contents. fold (__kfifo_len (set_in f b2 (u32 (in_ f + n)))) (__kfifo_len f).
  by rewrite Hlen'.
Qed.

Lemma get_spec f dst len :
  kfifo_inv f -> 0 <= len -> len <= Z.of_nat (length dst) ->
  let n := Z.min len (__kfifo_len f) in
  exists f', __kfifo_get f dst len =
      Some (n, take (Z.to_nat n) (contents f) ++ drop (Z.to_nat n) dst, f') /\
    kfifo_inv f' /\ size f' = size f /\ contents f' = drop (Z.to_nat n) (contents f).
Proof.
  intros Hinv Hlen Hdst n. pose proof (len_bounds f Hinv). pose proof (size_bounds f Hinv).
  unfold __kfifo_get. rewrite mask_mod, first_piece_eq by done.
  fold (__kfifo_len f). fold n. pose proof Hinv as (Hk & Hl & _).
  destruct (ring_get_two (buffer f) dst (out f mod size f) n (Z.min n (size f - out f mod size f)))
    as (d1 & -> & E2); [rewrite Hl; apply Z.mod_pos_bound; lia|lia|lia|by rewrite Hl|].
  simpl. rewrite E2. simpl.
  destruct (inv_advance_out f n Hinv ltac:(lia)) as [Hinv' Hlen'].
  eexists. split; [|split_and!; [done|done|]].
  - do 4 f_equal. unfold contents. fold (__kfifo_len f).
    rewrite ring_slice_take by lia. apply ring_slice_shift. rewrite Hl. apply Z.mod_mod. lia.
  - unfold contents. fold (__kfifo_len (set_out f (u32 (out f + n)))). rewrite Hlen'.
    cbn [set_out buffer out]. fold (__kfifo_len f).
    rewrite ring_slice_drop by lia. by apply (slice_wrap f).
Qed.

(** ** One writer and one reader without a lock

    "With only one concurrent reader and one concurrent writer, you don't need
    extra locking to use these functions."  Each function runs as four atomic
    steps, interleaved arbitrarily: compute the length (which reads the other
    side's counter), the two copies, and the update of its own counter. *)

Inductive writer :=
| WIdle
| WCopy1 (data : list Z) (n l : Z)
| WCopy2 (data : list Z) (n l : Z)
| WPublish (data : list Z) (n : Z).

Inductive reader :=
| RIdle
| RCopy1 (dst : list Z) (n l : Z)
| RCopy2 (dst : list Z) (n l : Z)
| RPublish (dst : list Z) (n : Z).

(** [written] and [taken] record the bytes put and got so far. *)
Record sys := { fifo : kfifo; wr : writer; rd : reader; written : list Z; taken : list Z }.

Definition with_wr (s : sys) (f : kfifo) (w : writer) (ws : list Z) : sys :=
  {| fifo := f; wr := w; rd := rd s; written := ws; taken := taken s |}.
Definition with_rd (s : sys) (f : kfifo) (r : reader) (ts : list Z) : sys :=
  {| fifo := f; wr := wr s; rd := r; written := written s; taken := ts |}.

Inductive step (s : sys) : sys -> Prop :=
| put_begin data len :
    wr s = WIdle -> 0 <= len <= Z.of_nat (length data) ->
    let f := fifo s in
    let n := Z.min len (u32 (u32 (size f - in_ f) + out f)) in
    let l := Z.min n (u32 (size f - Z.land (in_ f) (u32 (size f - 1)))) in
    step s (with_wr s f (WCopy1 data n l) (written s))
| put_copy1 data n l b :
    wr s = WCopy1 data n l ->
    let f := fifo s in
    memcpy (buffer f) (Z.land (in_ f) (u32 (size f - 1))) data 0 l = Some b ->
    step s (with_wr s (set_in f b (in_ f)) (WCopy2 data n l) (written s))
| put_copy2 data n l b :
    wr s = WCopy2 data n l ->
    let f := fifo s in
    memcpy (buffer f) 0 data l (n - l) = Some b ->
    step s (with_wr s (set_in f b (in_ f)) (WPublish data n) (written s))
| put_publish data n :
    wr s = WPublish data n ->
    let f := fifo s in
    step s (with_wr s (set_in f (buffer f) (u32 (in_ f + n))) WIdle
              (written s ++ take (Z.to_nat n) data))
| get_begin dst len :
    rd s = RIdle -> 0 <= len <= Z.of_nat (length dst) ->
    let f := fifo s in
    let n := Z.min len (u32 (in_ f - out f)) in
    let l := Z.min n (u32 (size f - Z.land (out f) (u32 (size f - 1)))) in
    step s (with_rd s f (RCopy1 dst n l) (taken s))
| get_copy1 dst n l d :
    rd s = RCopy1 dst n l ->
    let f := fifo s in
    memcpy dst 0 (buffer f) (Z.land (out f) (u32 (size f - 1))) l = Some d ->
    step s (with_rd s f (RCopy2 d n l) (taken s))
| get_copy2 dst n l d :
    rd s = RCopy2 dst n l ->
    let f := fifo s in
    memcpy dst l (buffer f) 0 (n - l) = Some d ->
    step s (with_rd s f (RPublish d n) (taken s))
| get_publish dst n :
    rd s = RPublish dst n ->
    let f := fifo s in
    step s (with_rd s (set_out f (u32 (out f + n))) RIdle
              (taken s ++ take (Z.to_nat n) dst)).

(** A side that is between two of its steps can always take the next one: no
    copy leaves a buffer. *)
Definition writer_can_step (s : sys) : Prop :=
  match wr s with
  | WIdle => True
  | WCopy1 data _ l =>
      is_Some (memcpy (buffer (fifo s)) (Z.land (in_ (fifo s)) (u32 (size (fifo s) - 1))) data 0 l)
  | WCopy2 data n l => is_Some (memcpy (buffer (fifo s)) 0 data l (n - l))
  | WPublish _ _ => True
  end.

Definition reader_can_step (s : sys) : Prop :=
  match rd s with
  | RIdle => True
  | RCopy1 dst _ l =>
      is_Some (memcpy dst 0 (buffer (fifo s)) (Z.land (out (fifo s)) (u32 (size (fifo s) - 1))) l)
  | RCopy2 dst n l => is_Some (memcpy dst l (buffer (fifo s)) 0 (n - l))
  | RPublish _ _ => True
  end.

(** The two sides' part of the invariant. *)
Definition writer_inv (f : kfifo) (w : writer) : Prop :=
  let fits data n := 0 <= n <= size f - __kfifo_len f /\ n <= Z.of_nat (length data) in
  let first n l := l = Z.min n (size f - in_ f mod size f) in
  match w with
  | WIdle => True
  | WCopy1 data n l => fits data n /\ first n l
  | WCopy2 data n l => fits data n /\ first n l /\
      ring_slice (buffer f) (in_ f) l = take (Z.to_nat l) data
  | WPublish data n => fits data n /\ ring_slice (buffer f) (in_ f) n = take (Z.to_nat n) data
  end.

Definition reader_inv (f : kfifo) (r : reader) : Prop :=
  let fits dst n := 0 <= n <= __kfifo_len f /\ n <= Z.of_nat (length dst) in
  let first n l := l = Z.min n (size f - out f mod size f) in
  match r with
  | RIdle => True
  | RCopy1 dst n l => fits dst n /\ first n l
  | RCopy2 dst n l => fits dst n /\ first n l /\
      take (Z.to_nat l) dst = ring_slice (buffer f) (out f) l
  | RPublish dst n => fits dst n /\ take (Z.to_nat n) dst = ring_slice (buffer f) (out f) n
  end.

Definition sys_inv (s : sys) : Prop :=
  kfifo_inv (fifo s) /\ writer_inv (fifo s) (wr s) /\ reader_inv (fifo s) (rd s) /\
  written s = taken s ++ contents (fifo s).

(** One copy into the ring: the cells at [pos] get the data and slices that
    avoid them are unchanged. *)
Lemma write_piece (buf data b : list Z) p pos off m :
  memcpy buf p data off m = Some b ->
  p = pos mod Z.of_nat (length buf) -> 0 <= m -> p + m <= Z.of_nat (length buf) ->
  (0 < length buf)%nat ->
  length b = length buf /\
  ring_slice b pos m = take (Z.to_nat m) (drop (Z.to_nat off) data) /\
  (forall x k, (forall i, 0 <= i < k -> m <= (x + i - pos) mod Z.of_nat (length buf)) ->
     ring_slice b x k = ring_slice buf x k).
Proof.
  intros E Hp Hm Hfit Hpos. unfold memcpy in E.
  destruct (mem_read data off m) as [src|] eqn:Er; [|done]. simpl in E.
  pose proof (mem_read_length _ _ _ _ Er) as Ls. pose proof (mem_write_length _ _ _ _ E) as Lb.
  assert (Hs : src = take (Z.to_nat m) (drop (Z.to_nat off) data)).
  { unfold mem_read in Er. case_bool_decide; [by injection Er as <-|done]. }
  pose proof (Z.mod_pos_bound pos (Z.of_nat (length buf)) ltac:(lia)).
  split_and!; [done| |].
  - rewrite <- Hs. apply list_eq_same_length with (n := Z.to_nat m);
      [done|by rewrite ring_slice_length|].
    intros i x y Hi. rewrite ring_slice_lookup by lia. intros [= <-] Hy.
    apply list_lookup_total_correct. rewrite Lb, (mem_write_lookup _ _ _ _ _ E), Ls.
    rewrite <- Zplus_mod_idemp_l, <- Hp, Z.mod_small by lia.
    rewrite bool_decide_true by lia. rewrite <- Hy. f_equal. lia.
  - intros x k Hx. apply ring_slice_ext. intros i Hi. rewrite Lb. specialize (Hx i Hi).
    rewrite !list_lookup_total_alt. f_equal. rewrite (mem_write_lookup _ _ _ _ _ E), Ls.
    pose proof (Z.mod_pos_bound (x + i) (Z.of_nat (length buf)) ltac:(lia)).
    rewrite bool_decide_false; [done|]. intros Hin.
    rewrite <- Zminus_mod_idemp_l, <- Zminus_mod_idemp_r, <- Hp in Hx.
    rewrite Z.mod_small in Hx by lia. lia.
Qed.

(** What a write by the producer may do to the rest of the system: the bytes
    between [out] and [in] stay. *)
Definition keeps_queue (f f' : kfifo) : Prop :=
  size f' = size f /\ out f' = out f /\ __kfifo_len f <= __kfifo_len f' /\
  forall k, k <= __kfifo_len f -> ring_slice (buffer f') (out f) k = ring_slice (buffer f) (out f) k.

Lemma reader_frame f f' r : keeps_queue f f' -> reader_inv f r -> reader_inv f' r.
Proof.
  intros (Es & Eo & Hlen & Hk). destruct r; simpl; rewrite ?Es, ?Eo; [done| | |].
  - intros [? ?]. split; [lia|done].
  - intros (? & ? & ?). split_and!; [lia..|done|]. rewrite Hk by lia. done.
  - intros (? & ?). split; [lia|]. rewrite Hk by lia. done.
Qed.

Lemma writer_frame f o w :
  __kfifo_len (set_out f o) <= __kfifo_len f -> writer_inv f w -> writer_inv (set_out f o) w.
Proof. intros Hle. destruct w; simpl; [done|intuition lia..]. Qed.

(** The distance, going round the ring, from [in + d] to the byte [i] places
    behind [out]. *)
Lemma ring_distance f i d :
  kfifo_inv f -> 0 <= size f - __kfifo_len f + i - d < size f ->
  (out f + i - (in_ f + d)) mod size f = size f - __kfifo_len f + i - d.
Proof.
  intros Hinv Hr. pose proof (size_bounds f Hinv).
  replace (out f + i - (in_ f + d)) with (out f + i - d - in_ f) by lia.
  rewrite <- Zminus_mod_idemp_r, in_mod, Zminus_mod_idemp_r by done.
  symmetry. apply Z.mod_unique with (-1); lia.
Qed.

Lemma writer_copy1 f data n l b :
  kfifo_inv f -> writer_inv f (WCopy1 data n l) ->
  memcpy (buffer f) (Z.land (in_ f) (u32 (size f - 1))) data 0 l = Some b ->
  length b = length (buffer f) /\ keeps_queue f (set_in f b (in_ f)) /\
  writer_inv (set_in f b (in_ f)) (WCopy2 data n l).
Proof.
  intros Hinv [[Hn Hd] Hl] E. pose proof (size_bounds f Hinv). pose proof (len_bounds f Hinv).
  pose proof Hinv as (_ & Hsz & _). pose proof (Z.mod_pos_bound (in_ f) (size f) ltac:(lia)).
  rewrite mask_mod in E by done.
  destruct (write_piece _ _ _ _ (in_ f) _ _ E) as (Lb & Hw & Hk); rewrite ?Hsz; try (done || lia).
  split_and!; [done| |].
  - unfold keeps_queue; simpl. split_and!; try done. intros k Hk'. apply Hk. intros i Hi.
    rewrite Hsz. pose proof (ring_distance f i 0 Hinv ltac:(lia)) as Ed.
    rewrite Z.add_0_r in Ed. lia.
  - simpl. change (__kfifo_len (set_in f b (in_ f))) with (__kfifo_len f).
    split_and!; [lia..|done|done].
Qed.

Lemma writer_copy2 f data n l b :
  kfifo_inv f -> writer_inv f (WCopy2 data n l) ->
  memcpy (buffer f) 0 data l (n - l) = Some b ->
  length b = length (buffer f) /\ keeps_queue f (set_in f b (in_ f)) /\
  writer_inv (set_in f b (in_ f)) (WPublish data n).
Proof.
  intros Hinv ([Hn Hd] & Hl & Hdone) E. pose proof (size_bounds f Hinv).
  pose proof (len_bounds f Hinv). pose proof Hinv as (_ & Hsz & _).
  pose proof (Z.mod_pos_bound (in_ f) (size f) ltac:(lia)).
  destruct (decide (n = l)) as [->|Hne].
  { rewrite Z.sub_diag in E. apply memcpy_nothing in E as ->. done. }
  assert (Hp : 0 = (in_ f + l) mod size f).
  { apply Z.mod_unique with (in_ f / size f + 1); [lia|].
    pose proof (Z.div_mod (in_ f) (size f) ltac:(lia)). nia. }
  destruct (write_piece _ _ _ _ (in_ f + l) _ _ E) as (Lb & Hw & Hk); rewrite ?Hsz; try (done || lia).
  split_and!; [done| |].
  - unfold keeps_queue; simpl. split_and!; try done. intros k Hk'. apply Hk. intros i Hi.
    rewrite Hsz, (ring_distance f i l Hinv) by lia. lia.
  - simpl. split; [change (__kfifo_len (set_in f b (in_ f))) with (__kfifo_len f); lia|].
    replace n with (l + (n - l)) by lia. rewrite ring_slice_app, Hw by lia. rewrite Hk.
    + rewrite Hdone. rewrite take_take_drop. f_equal. lia.
    + intros i Hi. rewrite Hsz. replace (in_ f + i - (in_ f + l)) with (i - l) by lia.
      rewrite <- (Z.mod_unique (i - l) (size f) (-1) (size f + i - l)); lia.
Qed.

(** The lengths and splits computed from the counters are the ones of the
    invariant. *)
Lemma put_begin_inv f data len :
  kfifo_inv f -> 0 <= len <= Z.of_nat (length data) ->
  let n := Z.min len (u32 (u32 (size f - in_ f) + out f)) in
  let l := Z.min n (u32 (size f - Z.land (in_ f) (u32 (size f - 1)))) in
  writer_inv f (WCopy1 data n l).
Proof.
  intros Hinv Hlen n l. unfold l, n. rewrite mask_mod, first_piece_eq, room_eq by done.
  pose proof (len_bounds f Hinv). simpl. split; [lia|done].
Qed.

Lemma get_begin_inv f dst len :
  kfifo_inv f -> 0 <= len <= Z.of_nat (length dst) ->
  let n := Z.min len (u32 (in_ f - out f)) in
  let l := Z.min n (u32 (size f - Z.land (out f) (u32 (size f - 1)))) in
  reader_inv f (RCopy1 dst n l).
Proof.
  intros Hinv Hlen n l. unfold l, n. rewrite mask_mod, first_piece_eq by done.
  pose proof (len_bounds f Hinv). simpl. fold (__kfifo_len f). split; [lia|done].
Qed.

(** One copy out of the ring. *)
Lemma read_piece (buf dst d : list Z) p pos off m :
  memcpy dst off buf p m = Some d ->
  p = pos mod Z.of_nat (length buf) -> 0 <= m -> (0 < length buf)%nat ->
  p + m <= Z.of_nat (length buf) ->
  length d = length dst /\
  take (Z.to_nat (off + m)) d = (take (Z.to_nat off) dst ++ ring_slice buf pos m).
Proof.
  intros E Hp Hm Hpos Hfit. unfold memcpy in E.
  destruct (mem_read buf p m) as [src|] eqn:Er; [|done]. simpl in E.
  pose proof (mem_read_length _ _ _ _ Er) as Ls. split; [by eapply mem_write_length|].
  unfold mem_write in E. case_bool_decide as Hb; [|done]. injection E as <-.
  rewrite app_assoc, take_app_length' by (rewrite length_app, length_take; lia). f_equal.
  apply list_eq_same_length with (n := Z.to_nat m); [by rewrite ring_slice_length|done|].
  intros i x y Hi Hx. rewrite ring_slice_lookup by lia. intros [= <-].
  symmetry. apply list_lookup_total_correct. rewrite <- Hx.
  pose proof (Z.mod_pos_bound pos (Z.of_nat (length buf)) ltac:(lia)).
  rewrite (mem_read_lookup _ _ _ _ _ Er) by lia. f_equal.
  rewrite <- Zplus_mod_idemp_l, <- Hp, Z.mod_small; lia.
Qed.

Lemma reader_copy1 f dst n l d :
  kfifo_inv f -> reader_inv f (RCopy1 dst n l) ->
  memcpy dst 0 (buffer f) (Z.land (out f) (u32 (size f - 1))) l = Some d ->
  reader_inv f (RCopy2 d n l).
Proof.
  intros Hinv ([Hn Hd] & Hl) E. rewrite mask_mod in E by done.
  pose proof (size_bounds f Hinv). pose proof Hinv as (_ & Hsz & _).
  pose proof (Z.mod_pos_bound (out f) (size f) ltac:(lia)).
  destruct (read_piece _ _ _ _ (out f) _ _ E) as [Ld Ht]; rewrite ?Hsz; try (done || lia).
  simpl. rewrite Ld. done.
Qed.

Lemma reader_copy2 f dst n l d :
  kfifo_inv f -> reader_inv f (RCopy2 dst n l) ->
  memcpy dst l (buffer f) 0 (n - l) = Some d ->
  reader_inv f (RPublish d n).
Proof.
  intros Hinv ([Hn Hd] & Hl & Hdone) E.
  pose proof (size_bounds f Hinv). pose proof Hinv as (_ & Hsz & _).
  pose proof (len_bounds f Hinv). pose proof (Z.mod_pos_bound (out f) (size f) ltac:(lia)).
  destruct (decide (n = l)) as [->|Hne].
  { rewrite Z.sub_diag in E. apply memcpy_nothing in E as ->. done. }
  assert (Hp : 0 = (out f + l) mod size f).
  { apply Z.mod_unique with (out f / size f + 1); [lia|].
    pose proof (Z.div_mod (out f) (size f) ltac:(lia)). nia. }
  destruct (read_piece _ _ _ _ (out f + l) _ _ E) as [Ld Ht]; rewrite ?Hsz; try (done || lia).
  simpl. rewrite Ld. split; [done|]. replace (l + (n - l)) with n in Ht by lia.
  rewrite Ht, Hdone, <- ring_slice_app by lia. f_equal. lia.
Qed.

Lemma writer_publish f data n :
  kfifo_inv f -> writer_inv f (WPublish data n) ->
  let f' := set_in f (buffer f) (u32 (in_ f + n)) in
  kfifo_inv f' /\ keeps_queue f f' /\ contents f' = contents f ++ take (Z.to_nat n) data.
Proof.
  intros Hinv [[Hn Hd] Hdone] f'.
  destruct (inv_advance_in f (buffer f) n Hinv eq_refl ltac:(lia)) as [Hinv' Hlen'].
  fold f' in Hinv', Hlen'. pose proof (len_bounds f Hinv). split_and!; [done| |].
  - unfold keeps_queue. split_and!; [done|done|lia|done].
  - unfold contents. fold (__kfifo_len f') (__kfifo_len f). rewrite Hlen', ring_slice_app by lia.
    f_equal. rewrite <- Hdone. apply ring_slice_shift. cbn [f' set_in buffer out].
    pose proof Hinv as (_ & -> & _). by rewrite in_mod.
Qed.

Lemma reader_publish f dst n :
  kfifo_inv f -> reader_inv f (RPublish dst n) ->
  let f' := set_out f (u32 (out f + n)) in
  kfifo_inv f' /\ __kfifo_len f' <= __kfifo_len f /\
  contents f = take (Z.to_nat n) dst ++ contents f'.
Proof.
  intros Hinv [[Hn Hd] Hdone] f'.
  destruct (inv_advance_out f n Hinv ltac:(lia)) as [Hinv' Hlen'].
  fold f' in Hinv', Hlen'. split_and!; [done|lia|].
  unfold contents. fold (__kfifo_len f') (__kfifo_len f).
  replace (__kfifo_len f) with (n + __kfifo_len f') by lia.
  rewrite ring_slice_app by (pose proof (len_bounds f' Hinv'); lia). rewrite Hdone. f_equal.
  symmetry. by apply (slice_wrap f).
Qed.

Lemma step_inv s s' : step s s' -> sys_inv s -> sys_inv s'.
Proof.
  assert (Hb : forall f b, kfifo_inv f -> length b = length (buffer f) ->
    kfifo_inv (set_in f b (in_ f))).
  { intros f b Hi L. destruct Hi as (? & ? & ? & ? & ?). split_and!; try done. cbn. by rewrite L. }
  assert (Hq : forall f b, keeps_queue f (set_in f b (in_ f)) ->
    contents (set_in f b (in_ f)) = contents f).
  { intros f b (_ & _ & _ & Hk). apply Hk. done. }
  intros Hs (Hinv & Hw & Hr & Hc).
  destruct Hs as [data len E Hlen f n l|data n l b E f Hcp|data n l b E f Hcp|data n E f
    |dst len E Hlen f n l|dst n l d E f Hcp|dst n l d E f Hcp|dst n E f]; rewrite E in *;
    unfold sys_inv; cbn [fifo wr rd written taken with_wr with_rd].
  - split_and!; try done. by apply put_begin_inv.
  - destruct (writer_copy1 _ _ _ _ _ Hinv Hw Hcp) as (L & Hk & Hw').
    split_and!; [by apply Hb|done|by eapply reader_frame|by rewrite Hq].
  - destruct (writer_copy2 _ _ _ _ _ Hinv Hw Hcp) as (L & Hk & Hw').
    split_and!; [by apply Hb|done|by eapply reader_frame|by rewrite Hq].
  - destruct (writer_publish _ _ _ Hinv Hw) as (Hi & Hk & Hc').
    split_and!; [done|done|by eapply reader_frame|]. unfold f in *. rewrite Hc', Hc. by rewrite app_assoc.
  - split_and!; try done. by apply get_begin_inv.
  - split_and!; try done. by eapply reader_copy1.
  - split_and!; try done. by eapply reader_copy2.
  - destruct (reader_publish _ _ _ Hinv Hr) as (Hi & Hle & Hc').
    split_and!; [done|by apply writer_frame|done|]. unfold f in *. rewrite Hc, Hc'. by rewrite app_assoc.
Qed.

Lemma sys_can_step s : sys_inv s -> writer_can_step s /\ reader_can_step s.
Proof.
  intros (Hinv & Hw & Hr & _). pose proof (size_bounds _ Hinv). pose proof Hinv as (_ & Hsz & _).
  pose proof (len_bounds _ Hinv).
  pose proof (Z.mod_pos_bound (in_ (fifo s)) (size (fifo s)) ltac:(lia)).
  pose proof (Z.mod_pos_bound (out (fifo s)) (size (fifo s)) ltac:(lia)).
  unfold writer_can_step, reader_can_step. rewrite !mask_mod by done. unfold memcpy.
  split; [destruct (wr s)|destruct (rd s)]; simpl in Hw, Hr; try done;
    rewrite mem_read_Some by lia; simpl;
    rewrite mem_write_Some by (rewrite ?length_take, ?length_drop; lia); done.
Qed.

(** ** The locked interface *)

Lemma kfifo_get_spec f dst len :
  kfifo_inv f -> 0 <= len <= Z.of_nat (length dst) ->
  let n := Z.min len (__kfifo_len f) in
  exists f', kfifo_get f dst len =
      Some (n, take (Z.to_nat n) (contents f) ++ drop (Z.to_nat n) dst, f') /\
    kfifo_inv f' /\ size f' = size f /\ contents f' = drop (Z.to_nat n) (contents f).
Proof.
  intros Hinv Hlen n. destruct (get_spec f dst len Hinv) as (f' & E & Hi & Hs & Hc); [lia..|].
  fold n in E. unfold kfifo_get. rewrite E. simpl. eexists. split; [done|].
  destruct (Z.eqb_spec (in_ f') (out f')) as [Eq|Hne]; [|done].
  assert (contents f' = []).
  { apply nil_length_inv. pose proof (contents_length f') as Hl. unfold __kfifo_len in Hl.
    rewrite Eq, Z.sub_diag in Hl. change (u32 0) with 0 in Hl. lia. }
  split_and!; [|done|unfold n; by rewrite <- Hc].
  destruct Hi as (Hk & Hl & _). split_and!; try done. simpl. destruct Hk as (k & ? & ->).
  apply Z.pow_nonneg. lia.
Qed.

#[export] Instance kfifo_queue : ByteQueue kfifo := {
  q_put f data :=
    '(n, f) ← kfifo_put f data (Z.of_nat (length data)); Some (Z.to_nat n, f);
  q_get f n :=
    '(r, dst, f) ← kfifo_get f (replicate n 0) (Z.of_nat n);
    Some (take (Z.to_nat r) dst, f);
  q_inv := kfifo_inv;
  q_contents := contents;
  q_capacity f := Z.to_nat (size f)
}.

#[export] Instance kfifo_queue_laws : ByteQueueLaws kfifo.
Proof.
  split; intros f.
  - intros data Hinv n. simpl in *. pose proof (contents_length f) as Hc.
    pose proof (len_bounds f Hinv).
    destruct (put_spec f data (Z.of_nat (length data)) Hinv) as (f' & E & Hi & Hs & Hc'); [lia..|].
    unfold kfifo_put. rewrite E. simpl. exists f'.
    replace (Z.to_nat (Z.of_nat (length data) `min` (size f - __kfifo_len f))) with n in *
      by (unfold n; lia).
    split_and!; [done|done|by rewrite Hs|done].
  - intros n Hinv. simpl in *. pose proof (contents_length f) as Hc.
    pose proof (len_bounds f Hinv).
    destruct (kfifo_get_spec f (replicate n 0) (Z.of_nat n) Hinv) as (f' & E & Hi & Hs & Hc');
      [rewrite length_replicate; lia|].
    rewrite E. simpl. exists f'. rewrite Hs, Hc'. split_and!; [|done..|].
    + rewrite take_app_length' by (rewrite length_take; lia). do 2 f_equal.
      destruct (decide (Z.of_nat n <= __kfifo_len f)); [f_equal; lia|].
      rewrite !take_ge; [done|lia..].
    + destruct (decide (Z.of_nat n <= __kfifo_len f)); [f_equal; lia|].
      rewrite !drop_ge; [done|lia..].
Qed.

(** ** Allocation *)

Lemma pow2_mask_test k : 0 <= k <= 31 -> Z.land (2 ^ k) (u32 (2 ^ k - 1)) = 0.
Proof.
  intros Hk. assert (0 < 2 ^ k) by (apply Z.pow_pos_nonneg; lia).
  assert (2 ^ k <= 2 ^ 31) by (apply Z.pow_le_mono_r; lia).
  rewrite u32_small by width_lia.
  replace (2 ^ k - 1) with (Z.ones k) by (rewrite Z.ones_equiv; lia).
  rewrite Z.land_ones by lia. apply Z.mod_same. lia.
Qed.

(** The test [size & (size - 1)] recognises the powers of two. *)
Lemma mask_test_pow2 x :
  0 < x < 2 ^ 32 -> Z.land x (u32 (x - 1)) = 0 -> exists k, 0 <= k <= 31 /\ x = 2 ^ k.
Proof.
  intros Hx E. rewrite u32_small in E by width_lia.
  pose proof (Z.log2_spec x ltac:(lia)) as [Hlo Hhi]. pose proof (Z.log2_nonneg x).
  assert (Z.log2 x < 32) by (apply Z.log2_lt_pow2; lia).
  exists (Z.log2 x). split; [lia|].
  destruct (decide (x = 2 ^ Z.log2 x)) as [|Hne]; [done|exfalso].
  assert (Z.log2 (x - 1) = Z.log2 x) as Elog by (apply Z.log2_unique; lia).
  assert (Hb : Z.testbit (Z.land x (x - 1)) (Z.log2 x) = true).
  { rewrite Z.land_spec, Z.bit_log2 by lia. rewrite <- Elog at 1. rewrite Z.bit_log2; [done|].
    assert (0 < 2 ^ Z.log2 x) by (apply Z.pow_pos_nonneg; lia). lia. }
  by rewrite E, Z.testbit_0_l in Hb.
Qed.

Lemma kfifo_alloc_size sz :
  0 < sz <= 2 ^ 31 ->
  exists k, 0 <= k <= 31 /\ sz <= 2 ^ k < 2 * sz /\
    (if negb (Z.land sz (u32 (sz - 1)) =? 0)
     then if 0x80000000 <? sz then None else Some (roundup_pow_of_two sz)
     else Some sz) = Some (2 ^ k).
Proof.
  intros Hsz. destruct (Z.eqb_spec (Z.land sz (u32 (sz - 1))) 0) as [E|E]; simpl.
  - destruct (mask_test_pow2 sz ltac:(lia) E) as (k & Hk & ->). exists k.
    split_and!; [lia..|done].
  - destruct (Z.ltb_spec 0x80000000 sz); [lia|].
    destruct (roundup_pow_of_two_spec sz ltac:(lia)) as (k & Hk & -> & Hle & Hleast).
    exists k. split_and!; [lia..| |done].
    destruct (decide (k = 0)) as [->|]; [lia|].
    destruct (decide (2 ^ k < 2 * sz)) as [|Hge]; [done|exfalso].
    assert (k <= k - 1); [|lia]. apply Hleast; [lia|].
    assert (2 ^ k = 2 * 2 ^ (k - 1)) by (rewrite <- Z.pow_succ_r by lia; f_equal; lia). lia.
Qed.

Lemma kfifo_init_spec bp bytes k h :
  0 <= k <= 31 -> Z.of_nat (length bytes) = 2 ^ k -> kmem_ok h ->
  exists r h', kfifo_init bp bytes (2 ^ k) h = Some (r, h') /\ kmem_ok h' /\
    match r with
    | ERR_PTR e => e = - ENOMEM /\ live h' = live h
    | FIFO f => kfifo_inv f /\ contents f = [] /\ size f = 2 ^ k /\ buffer_ptr f = bp /\
        (self f ∉ live h) /\ live h' = {[ self f ]} ∪ live h
    end.
Proof.
  intros Hk Hl Hh. unfold kfifo_init. rewrite pow2_mask_test by done. simpl.
  pose proof (kmalloc_spec h Hh) as Hm. destruct (kmalloc h) as [[p|] h'].
  - destruct Hm as (Hh' & Hp & Hp' & El). do 2 eexists. split; [done|]. split; [done|].
    split_and!; try done. repeat split; simpl; try done; try lia; [by exists k|].
    change (u32 (0 - 0)) with 0. apply Z.pow_nonneg. lia.
  - destruct Hm as [Hh' El]. do 2 eexists. split; [done|]. split; [done|]. done.
Qed.

(** C21: kfifo_put and kfifo_get are the operations of a bounded queue for every
    value of the free-running counters, wrap-around included: put appends as many
    bytes as there is room for, get removes the oldest bytes and leaves the rest
    of the destination alone, both return the count, stay in bounds and keep the
    invariant; __kfifo_reset empties the queue. *)
Theorem kfifo_refines_queue f data dst plen glen :
  kfifo_inv f -> 0 <= plen <= Z.of_nat (length data) -> 0 <= glen <= Z.of_nat (length dst) ->
  __kfifo_len f = Z.of_nat (length (contents f)) /\
  (let n := Z.min plen (size f - __kfifo_len f) in
   exists f', kfifo_put f data plen = Some (n, f') /\ kfifo_inv f' /\ size f' = size f /\
     contents f' = contents f ++ take (Z.to_nat n) data) /\
  (let n := Z.min glen (__kfifo_len f) in
   exists f', kfifo_get f dst glen =
       Some (n, take (Z.to_nat n) (contents f) ++ drop (Z.to_nat n) dst, f') /\
     kfifo_inv f' /\ size f' = size f /\ contents f' = drop (Z.to_nat n) (contents f)) /\
  (kfifo_inv (__kfifo_reset f) /\ contents (__kfifo_reset f) = []).
Proof.
  intros Hinv Hp Hg. split_and!.
  - symmetry. apply contents_length.
  - apply put_spec; [done|lia..].
  - by apply kfifo_get_spec.
  - pose proof (size_bounds f Hinv). destruct Hinv as (Hk & Hl & _). split_and!; try done.
    change (0 <= size f). lia.
  - done.
Qed.

(** A queue of 4 bytes whose counters are about to wrap. *)
Definition sample_fifo : kfifo :=
  {| self := 1; buffer_ptr := 2; buffer := [1; 2; 3; 4]; size := 4;
     in_ := UINT_MAX; out := UINT_MAX - 2 |}.

Lemma sample_fifo_inv : kfifo_inv sample_fifo.
Proof. split; [by exists 2|]. vm_compute. intuition discriminate. Qed.

Lemma kfifo_refines_queue_witness :
  contents sample_fifo = [2; 3] /\
  exists f', kfifo_put sample_fifo [7; 8; 9] 3 = Some (2, f') /\ contents f' = [2; 3; 7; 8].
Proof.
  split; [by vm_compute|].
  destruct (kfifo_refines_queue sample_fifo [7; 8; 9] [0; 0] 3 2 sample_fifo_inv
    ltac:(simpl; lia) ltac:(simpl; lia)) as (_ & (f' & E & _ & _ & C) & _).
  exists f'. split; [exact E|]. rewrite C. by vm_compute.
Defined.

(** Any sequence of locked puts and gets delivers the bytes in the order they
    went in: nothing is lost, repeated or reordered, and no access leaves the
    buffers. *)
Theorem kfifo_stream ops f :
  kfifo_inv f ->
  exists ins outs f', queue_run ops f = Some (ins, outs, f') /\ kfifo_inv f' /\
    contents f ++ ins = outs ++ contents f' /\ size f' = size f.
Proof.
  intros Hinv. pose proof (queue_run_fifo ops f) as Hrun.
  destruct (Hrun Hinv) as (ins & outs & f' & E & Hi & Hc & Hs).
  simpl in Hs. pose proof (size_bounds f Hinv). pose proof (size_bounds f' Hi).
  do 3 eexists. split_and!; [done|done|done|lia].
Qed.

Lemma kfifo_stream_witness :
  exists ins outs f', queue_run [Put [7; 8; 9]; Get 3; Put [10; 11]; Get 1] sample_fifo
      = Some (ins, outs, f') /\
    ins = [7; 8; 10; 11] /\ outs = [2; 3; 7; 8] /\ contents f' = [10; 11].
Proof.
  destruct (kfifo_stream [Put [7; 8; 9]; Get 3; Put [10; 11]; Get 1] sample_fifo sample_fifo_inv)
    as (ins & outs & f' & E & _).
  exists ins, outs, f'. split; [exact E|]. vm_compute in E. injection E as <- <- <-.
  by vm_compute.
Defined.

(** Kfifo_alloc rounds the size up to the next power of two and returns an
    empty FIFO whose two blocks kfifo_free releases; when an allocation fails, at
    either point, it returns -ENOMEM with nothing leaked; a size above 2^31 hits
    the BUG_ON. *)
Theorem kfifo_alloc_correct junk sz h :
  0 < sz < 2 ^ 32 -> kmem_ok h -> (forall n, length (junk n) = Z.to_nat n) ->
  if 2 ^ 31 <? sz then kfifo_alloc junk sz h = None
  else exists r h', kfifo_alloc junk sz h = Some (r, h') /\ kmem_ok h' /\
    match r with
    | ERR_PTR e => e = - ENOMEM /\ live h' = live h
    | FIFO f => kfifo_inv f /\ contents f = [] /\ sz <= size f < 2 * sz /\
        exists h'', kfifo_free f h' = Some h'' /\ live h'' = live h
    end.
Proof.
  intros Hsz Hh Hj. unfold kfifo_alloc. destruct (Z.ltb_spec (2 ^ 31) sz) as [Hbig|Hle].
  { destruct (Z.eqb_spec (Z.land sz (u32 (sz - 1))) 0) as [E|E]; simpl.
    - destruct (mask_test_pow2 sz ltac:(lia) E) as (k & Hk & ->).
      assert (2 ^ k <= 2 ^ 31) by (apply Z.pow_le_mono_r; lia). lia.
    - by destruct (Z.ltb_spec 0x80000000 sz); [|lia]. }
  destruct (kfifo_alloc_size sz ltac:(lia)) as (k & Hk & Hr & ->). simpl.
  pose proof (kmalloc_spec h Hh) as Hm. destruct (kmalloc h) as [[bp|] h1].
  2:{ destruct Hm as [Hh1 El]. do 2 eexists. done. }
  destruct Hm as (Hh1 & Hbp & Hbp' & El).
  destruct (kfifo_init_spec bp (junk (2 ^ k)) k h1) as (r & h2 & -> & Hh2 & Hr2);
    [done|rewrite Hj; lia|done|]. simpl. destruct r as [e|f].
  - destruct Hr2 as [-> E2].
    destruct (kfree_spec h2 bp Hh2) as (h3 & -> & Hh3 & E3); [set_solver|].
    simpl. do 2 eexists. split_and!; [done|apply Hh3..|done|]. rewrite E3, E2, El. set_solver.
  - destruct Hr2 as (Hi & Hc & Hs & Hb & Hn & E2).
    do 2 eexists. split; [done|]. split; [done|]. split_and!; [done..|lia|lia|].
    unfold kfifo_free. destruct (kfree_spec h2 bp Hh2) as (h3 & E3 & Hh3 & L3); [set_solver|].
    rewrite Hb, E3. simpl.
    destruct (kfree_spec h3 (self f) Hh3) as (h4 & E4 & Hh4 & L4); [set_solver|].
    exists h4. split; [done|]. rewrite L4, L3, E2, El. set_solver.
Qed.

Lemma kfifo_alloc_witness :
  exists f h', kfifo_alloc (fun n => replicate (Z.to_nat n) 0) 5
      {| oom := []; live := ∅; fresh := 1 |} = Some (FIFO f, h') /\ size f = 8.
Proof.
  destruct (kfifo_alloc_correct (fun n => replicate (Z.to_nat n) 0) 5
    {| oom := []; live := ∅; fresh := 1 |} ltac:(lia)) as (r & h' & E & _ & Hr).
  - split; [done|]. set_solver.
  - intros. apply length_replicate.
  - vm_compute in E. injection E as <- <-. do 2 eexists. split; [by vm_compute|done].
Defined.

(** C22: with one writer and one reader no lock is needed.  However the steps of
    __kfifo_put and __kfifo_get interleave, starting from idle sides, no copy
    leaves a buffer and the bytes the reader took, followed by the bytes in the
    FIFO, are exactly the bytes the writer published. *)
Theorem kfifo_lock_free s0 s :
  kfifo_inv (fifo s0) -> wr s0 = WIdle -> rd s0 = RIdle ->
  written s0 = taken s0 ++ contents (fifo s0) -> rtc step s0 s ->
  kfifo_inv (fifo s) /\ written s = taken s ++ contents (fifo s) /\
  writer_can_step s /\ reader_can_step s.
Proof.
  intros Hinv Ew Er Hc Hsteps.
  assert (Hs : sys_inv s).
  { assert (H0 : sys_inv s0) by (split_and!; [done|rewrite Ew|rewrite Er|]; done).
    clear Hinv Ew Er Hc. induction Hsteps; eauto using step_inv. }
  split_and!; [apply Hs|apply Hs|by apply sys_can_step..].
Qed.

(** The writer computes its length, then the reader runs to completion, then the
    writer copies and publishes. *)
Lemma kfifo_lock_free_witness :
  exists s, rtc step {| fifo := sample_fifo; wr := WIdle; rd := RIdle;
                        written := [2; 3]; taken := [] |} s /\
    taken s = [2; 3] /\ written s = [2; 3; 7; 8] /\ contents (fifo s) = [7; 8] /\
    written s = taken s ++ contents (fifo s).
Proof.
  pose proof (kfifo_lock_free {| fifo := sample_fifo; wr := WIdle; rd := RIdle;
    written := [2; 3]; taken := [] |}) as Hsafe.
  pose (f1 := set_out sample_fifo (u32 (out sample_fifo + 2))).
  pose (s := {| fifo := set_in (set_in (set_in f1 [1; 2; 3; 7] (in_ f1)) [8; 2; 3; 7] (in_ f1))
                  [8; 2; 3; 7] (u32 (in_ f1 + 2));
                wr := WIdle; rd := RIdle; written := [2; 3; 7; 8]; taken := [2; 3] |}).
  assert (Hrun : rtc step {| fifo := sample_fifo; wr := WIdle; rd := RIdle;
    written := [2; 3]; taken := [] |} s).
  { eapply rtc_l; [apply (put_begin _ [7; 8; 9] 3); [done|simpl; lia]|].
    eapply rtc_l; [apply (get_begin _ [0; 0; 0] 3); [done|simpl; lia]|].
    eapply rtc_l; [eapply get_copy1; [reflexivity|vm_compute; reflexivity]|].
    eapply rtc_l; [eapply get_copy2; [reflexivity|vm_compute; reflexivity]|].
    eapply rtc_l; [eapply get_publish; reflexivity|].
    eapply rtc_l; [eapply put_copy1; [reflexivity|vm_compute; reflexivity]|].
    eapply rtc_l; [eapply put_copy2; [reflexivity|vm_compute; reflexivity]|].
    eapply rtc_l; [eapply put_publish; reflexivity|]. apply rtc_refl. }
  exists s. split; [done|]. split_and!; [by vm_compute..|].
  apply (Hsafe s); [apply sample_fifo_inv|done|done|by vm_compute|done].
Defined.
