(* ===== verification/Task.v ===== *)
(** The process credentials (include/linux/sched.h, struct task_struct), the
    kernel state that the credential system calls read and write, and the monad
    they are written in.

    The configuration is the one of arch/sh/configs/hp6xx_defconfig: no
    CONFIG_SECURITY (the hooks are the capability functions of
    security/commoncap.c or return 0), no CONFIG_KEYS, no CONFIG_CONNECTOR. *)
From stdpp Require Import base gmap numbers option.
From Stdlib Require Import ZArith Lia.
From S2P Require Import Prelude.

Local Open Scope Z_scope.

(** The four ids of one kind: [uid,euid,suid,fsuid] or [gid,egid,sgid,fsgid].
    uid_t and gid_t are 32-bit unsigned; (uid_t)-1 is [NOID]. *)
Record id_set := { real : Z; effective : Z; saved : Z; fs : Z }.

Definition NOID : Z := UINT_MAX.

(** struct task_struct, the fields that decide privileges.  [mm->dumpable] is
    kept in the task; [superpriv] is the flag PF_SUPERPRIV. *)
Record task := {
  pid : Z;
  uids : id_set;
  gids : id_set;
  cap_effective : Z;
  cap_inheritable : Z;
  cap_permitted : Z;
  keep_capabilities : Z;
  user : Z;                (* uid of the user_struct that [user] points to *)
  dumpable : Z;
  superpriv : bool
}.

(** struct user_struct: the reference count and the number of processes. *)
Record user_struct := { __count : Z; processes : Z }.

(** The kernel state.  [others] are the tasks besides current, by pid; [groups]
    lists the thread groups, the process group and the pids, leader first; [uidhash] is the table of
    user_structs by uid; [alloc_fails] decides the coming allocations. *)
Record kern := {
  current : task;
  others : gmap Z task;
  groups : list (Z * list Z);
  uidhash : gmap Z user_struct;
  alloc_fails : list bool;
  rlim_nproc : Z;          (* current->signal->rlim[RLIMIT_NPROC].rlim_cur *)
  suid_dumpable : Z;
  securebits : Z;
  cap_bset : Z
}.

Definition set_current (s : kern) (t : task) : kern :=
  {| current := t; others := others s; groups := groups s; uidhash := uidhash s;
     alloc_fails := alloc_fails s; rlim_nproc := rlim_nproc s;
     suid_dumpable := suid_dumpable s; securebits := securebits s; cap_bset := cap_bset s |}.

Definition set_uidhash (s : kern) (h : gmap Z user_struct) : kern :=
  {| current := current s; others := others s; groups := groups s; uidhash := h;
     alloc_fails := alloc_fails s; rlim_nproc := rlim_nproc s;
     suid_dumpable := suid_dumpable s; securebits := securebits s; cap_bset := cap_bset s |}.

Definition set_others (s : kern) (o : gmap Z task) : kern :=
  {| current := current s; others := o; groups := groups s; uidhash := uidhash s;
     alloc_fails := alloc_fails s; rlim_nproc := rlim_nproc s;
     suid_dumpable := suid_dumpable s; securebits := securebits s; cap_bset := cap_bset s |}.

(** Whether the next allocation fails, and the state after it. *)
Definition alloc_step (s : kern) : bool * kern :=
  match alloc_fails s with
  | [] => (false, s)
  | b :: bs => (b,
      {| current := current s; others := others s; groups := groups s; uidhash := uidhash s;
         alloc_fails := bs; rlim_nproc := rlim_nproc s;
         suid_dumpable := suid_dumpable s; securebits := securebits s;
         cap_bset := cap_bset s |})
  end.

Definition set_uids (t : task) (u : id_set) : task :=
  {| pid := pid t; uids := u; gids := gids t; cap_effective := cap_effective t;
     cap_inheritable := cap_inheritable t; cap_permitted := cap_permitted t;
     keep_capabilities := keep_capabilities t; user := user t; dumpable := dumpable t;
     superpriv := superpriv t |}.

Definition set_gids (t : task) (g : id_set) : task :=
  {| pid := pid t; uids := uids t; gids := g; cap_effective := cap_effective t;
     cap_inheritable := cap_inheritable t; cap_permitted := cap_permitted t;
     keep_capabilities := keep_capabilities t; user := user t; dumpable := dumpable t;
     superpriv := superpriv t |}.

Definition set_caps (t : task) (eff inh perm : Z) : task :=
  {| pid := pid t; uids := uids t; gids := gids t; cap_effective := eff;
     cap_inheritable := inh; cap_permitted := perm;
     keep_capabilities := keep_capabilities t; user := user t; dumpable := dumpable t;
     superpriv := superpriv t |}.

Definition set_keep (t : task) (k : Z) : task :=
  {| pid := pid t; uids := uids t; gids := gids t; cap_effective := cap_effective t;
     cap_inheritable := cap_inheritable t; cap_permitted := cap_permitted t;
     keep_capabilities := k; user := user t; dumpable := dumpable t;
     superpriv := superpriv t |}.

Definition set_user_ptr (t : task) (u : Z) : task :=
  {| pid := pid t; uids := uids t; gids := gids t; cap_effective := cap_effective t;
     cap_inheritable := cap_inheritable t; cap_permitted := cap_permitted t;
     keep_capabilities := keep_capabilities t; user := u; dumpable := dumpable t;
     superpriv := superpriv t |}.

Definition set_dumpable_to (t : task) (d : Z) : task :=
  {| pid := pid t; uids := uids t; gids := gids t; cap_effective := cap_effective t;
     cap_inheritable := cap_inheritable t; cap_permitted := cap_permitted t;
     keep_capabilities := keep_capabilities t; user := user t; dumpable := d;
     superpriv := superpriv t |}.

Definition set_superpriv (t : task) : task :=
  {| pid := pid t; uids := uids t; gids := gids t; cap_effective := cap_effective t;
     cap_inheritable := cap_inheritable t; cap_permitted := cap_permitted t;
     keep_capabilities := keep_capabilities t; user := user t; dumpable := dumpable t;
     superpriv := true |}.

Definition with_real (i : id_set) (x : Z) : id_set :=
  {| real := x; effective := effective i; saved := saved i; fs := fs i |}.
Definition with_effective (i : id_set) (x : Z) : id_set :=
  {| real := real i; effective := x; saved := saved i; fs := fs i |}.
Definition with_saved (i : id_set) (x : Z) : id_set :=
  {| real := real i; effective := effective i; saved := x; fs := fs i |}.
Definition with_fs (i : id_set) (x : Z) : id_set :=
  {| real := real i; effective := effective i; saved := saved i; fs := x |}.

(** ** The monad

    A system call runs on the kernel state; [inl r] is an early [return r]. *)
Definition M (A : Type) : Type := kern -> (Z + A) * kern.

Global Instance M_ret : MRet M := fun A x s => (inr x, s).
Global Instance M_bind : MBind M := fun A B k m s =>
  match m s with
  | (inl r, s') => (inl r, s')
  | (inr x, s') => k x s'
  end.

Definition return_ {A} (r : Z) : M A := fun s => (inl r, s).
Definition get : M kern := fun s => (inr s, s).
Definition cur : M task := fun s => (inr (current s), s).
Definition upd (f : task -> task) : M unit := fun s => (inr tt, set_current s (f (current s))).

(** [b || m] and [b && m] with C's short-circuit evaluation. *)
Definition or_else (b : bool) (m : M bool) : M bool := if b then mret true else m.
Definition and_then (b : bool) (m : M bool) : M bool := if b then m else mret false.

(** [if (c) stmt;] *)
Definition when (b : bool) (m : M unit) : M unit := if b then m else mret tt.

(** The value a system call returns, and the state it leaves. *)
Definition run (m : M Z) (s : kern) : Z * kern :=
  match m s with
  | (inl r, s') => (r, s')
  | (inr r, s') => (r, s')
  end.

(** [current->mm->dumpable = suid_dumpable;] *)
Definition clear_dumpable : M unit :=
  s ← get; upd (fun t => set_dumpable_to t (suid_dumpable s)).

Ltac unfold_monad :=
  unfold mbind, mret, M_bind, M_ret, return_, get, cur, upd, or_else, and_then, when,
    clear_dumpable in *.

(** Pre- and postcondition of a computation that may return early: from a state
    in [P], an early return is in [E] and a normal end in [Q]. *)
Definition triple {A} (P : kern -> Prop) (m : M A) (Q : A -> kern -> Prop)
    (E : Z -> kern -> Prop) : Prop :=
  forall s, P s -> match m s with (inl r, s') => E r s' | (inr x, s') => Q x s' end.

Lemma triple_bind {A B} P (m : M A) (k : A -> M B) R Q E :
  triple P m R E -> (forall x, triple (R x) (k x) Q E) -> triple P (m ≫= k) Q E.
Proof.
  intros Hm Hk s Hs. specialize (Hm s Hs). unfold mbind, M_bind.
  destruct (m s) as [[r|x] s']; [done|]. by apply Hk.
Qed.

Lemma triple_run P (m : M Z) E s :
  triple P m E E -> P s -> let '(r, s') := run m s in E r s'.
Proof. intros Hm Hs. specialize (Hm s Hs). unfold run. by destruct (m s) as [[r|x] s']. Qed.
