(* ===== verification/Capability.v ===== *)
(** POSIX capabilities: the set operations of include/linux/capability.h, the
    security functions of security/commoncap.c, the system call of
    kernel/capability.c and the credential part of exec in fs/exec.c. *)
From stdpp Require Import base gmap numbers option.
From Stdlib Require Import ZArith Lia.
From S2P Require Import Prelude Bitops Task.

Local Open Scope Z_scope.

(** ** include/linux/capability.h; kernel_cap_t is a 32-bit mask *)

Definition CAP_SETGID : Z := 6.
Definition CAP_SETUID : Z := 7.
Definition CAP_SETPCAP : Z := 8.
Definition CAP_SYS_PTRACE : Z := 19.
Definition CAP_SYS_ADMIN : Z := 21.
Definition CAP_SYS_TIME : Z := 25.
Definition CAP_FS_MASK : Z := 0x1f.
Definition _LINUX_CAPABILITY_VERSION : Z := 0x19980330.

Definition CAP_TO_MASK (x : Z) : Z := shl32 1 x.
Definition CAP_FULL_SET : Z := not32 0.
Definition CAP_INIT_EFF_SET : Z := Z.land (not32 0) (not32 (CAP_TO_MASK CAP_SETPCAP)).
Definition CAP_INIT_INH_SET : Z := 0.

Definition cap_raised (c flag : Z) : bool := negb (Z.land c (CAP_TO_MASK flag) =? 0).
Definition cap_combine (a b : Z) : Z := Z.lor a b.
Definition cap_intersect (a b : Z) : Z := Z.land a b.
Definition cap_issubset (a set : Z) : bool := Z.land a (not32 set) =? 0.

(** include/linux/securebits.h; SECUREBITS_DEFAULT is 0 *)
Definition SECURE_NOROOT : Z := 0.
Definition SECURE_NO_SETUID_FIXUP : Z := 2.
Definition SECUREBITS_DEFAULT : Z := 0.
Definition issecure (X : Z) (bits : Z) : bool :=
  if negb (Z.land (shl32 1 (X + 1)) SECUREBITS_DEFAULT =? 0)
  then negb (Z.land (shl32 1 X) SECUREBITS_DEFAULT =? 0)
  else negb (Z.land (shl32 1 X) bits =? 0).

(** ** security/commoncap.c *)

Definition cap_capable (tsk : task) (cap : Z) : Z :=
  if cap_raised (cap_effective tsk) cap then 0 else - EPERM.

(** kernel/capability.c: capable, which records the use of a privilege. *)
Definition __capable (t : task) (cap : Z) : bool * task :=
  if cap_capable t cap =? 0 then (true, set_superpriv t) else (false, t).

Definition capable (cap : Z) : M bool := fun s =>
  let '(ok, t) := __capable (current s) cap in (inr ok, set_current s t).

Definition cap_settime : M Z :=
  ok ← capable CAP_SYS_TIME; mret (if ok : bool then 0 else - EPERM).

Definition cap_syslog (type : Z) : M Z :=
  if (type =? 3) || (type =? 10) then mret 0
  else ok ← capable CAP_SYS_ADMIN; mret (if ok : bool then 0 else - EPERM).

Definition cap_ptrace (parent child : task) : Z * task :=
  if cap_issubset (cap_permitted child) (cap_permitted parent) then (0, parent)
  else let '(ok, parent) := __capable parent CAP_SYS_PTRACE in
       (if ok then 0 else - EPERM, parent).

Definition cap_capset_check (target : task) (eff inh perm : Z) : M Z :=
  c ← cur;
  if negb (cap_issubset inh (cap_combine (cap_inheritable target) (cap_permitted c)))
  then mret (- EPERM)
  else if negb (cap_issubset perm (cap_combine (cap_permitted target) (cap_permitted c)))
  then mret (- EPERM)
  else if negb (cap_issubset eff perm) then mret (- EPERM)
  else mret 0.

Definition cap_capset_set (target : task) (eff inh perm : Z) : task :=
  set_caps target eff inh perm.

(** struct linux_binprm: the credentials of the program being executed. *)
Record linux_binprm := {
  e_uid : Z; e_gid : Z;
  b_effective : Z; b_inheritable : Z; b_permitted : Z
}.

Definition cap_bprm_set_security (e_uid e_gid : Z) : M linux_binprm :=
  s ← get;
  let full := not32 0 in
  if issecure SECURE_NOROOT (securebits s)
  then mret {| e_uid := e_uid; e_gid := e_gid; b_effective := 0; b_inheritable := 0;
               b_permitted := 0 |}
  else
    let root := (e_uid =? 0) || (real (uids (current s)) =? 0) in
    mret {| e_uid := e_uid; e_gid := e_gid;
            b_effective := if e_uid =? 0 then full else 0;
            b_inheritable := if root then full else 0;
            b_permitted := if root then full else 0 |}.

Definition LSM_UNSAFE_SHARE : Z := 1.
Definition LSM_UNSAFE_PTRACE : Z := 2.
Definition LSM_UNSAFE_PTRACE_CAP : Z := 4.

Definition cap_bprm_apply_creds (bprm : linux_binprm) (unsafe : Z) : M unit :=
  s ← get;
  let c := current s in
  let new_permitted := cap_intersect (b_permitted bprm) (cap_bset s) in
  let working := cap_intersect (b_inheritable bprm) (cap_inheritable c) in
  let new_permitted := cap_combine new_permitted working in
  '(eu, eg, new_permitted) ←
    (if negb (e_uid bprm =? real (uids c)) || negb (e_gid bprm =? real (gids c)) ||
        negb (cap_issubset new_permitted (cap_permitted c))
     then
       clear_dumpable;;
       if negb (Z.land unsafe (not32 LSM_UNSAFE_PTRACE_CAP) =? 0) then
         can_setuid ← capable CAP_SETUID;
         can_setpcap ← capable CAP_SETPCAP;
         mret (if can_setuid : bool then e_uid bprm else real (uids c),
               if can_setuid : bool then e_gid bprm else real (gids c),
               if can_setpcap : bool then new_permitted
               else cap_intersect new_permitted (cap_permitted c))
       else mret (e_uid bprm, e_gid bprm, new_permitted)
     else mret (e_uid bprm, e_gid bprm, new_permitted));
  upd (fun t => set_uids t {| real := real (uids t); effective := eu; saved := eu; fs := eu |});;
  upd (fun t => set_gids t {| real := real (gids t); effective := eg; saved := eg; fs := eg |});;
  when (negb (pid c =? 1))
    (upd (fun t => set_caps t (cap_intersect new_permitted (b_effective bprm))
                     (cap_inheritable t) new_permitted));;
  upd (fun t => set_keep t 0).

Definition cap_bprm_secureexec : M bool :=
  c ← cur;
  mret (negb (effective (uids c) =? real (uids c)) || negb (effective (gids c) =? real (gids c))).

Definition cap_emulate_setxuid (old_ruid old_euid old_suid : Z) : M unit :=
  c ← cur;
  when (((old_ruid =? 0) || (old_euid =? 0) || (old_suid =? 0)) &&
        (negb (real (uids c) =? 0) && negb (effective (uids c) =? 0) &&
         negb (saved (uids c) =? 0)) && (keep_capabilities c =? 0))
    (upd (fun t => set_caps t 0 (cap_inheritable t) 0));;
  when ((old_euid =? 0) && negb (effective (uids c) =? 0))
    (upd (fun t => set_caps t 0 (cap_inheritable t) (cap_permitted t)));;
  when (negb (old_euid =? 0) && (effective (uids c) =? 0))
    (upd (fun t => set_caps t (cap_permitted t) (cap_inheritable t) (cap_permitted t))).

Definition LSM_SETID_ID : Z := 1.
Definition LSM_SETID_RE : Z := 2.
Definition LSM_SETID_RES : Z := 4.
Definition LSM_SETID_FS : Z := 8.

Definition cap_task_post_setuid (old_ruid old_euid old_suid flags : Z) : M Z :=
  s ← get;
  let fixup := negb (issecure SECURE_NO_SETUID_FIXUP (securebits s)) in
  if (flags =? LSM_SETID_RE) || (flags =? LSM_SETID_ID) || (flags =? LSM_SETID_RES) then
    when fixup (cap_emulate_setxuid old_ruid old_euid old_suid);; mret 0
  else if flags =? LSM_SETID_FS then
    let old_fsuid := old_ruid in
    when fixup (
      c ← cur;
      when ((old_fsuid =? 0) && negb (fs (uids c) =? 0))
        (upd (fun t => set_caps t (Z.land (cap_effective t) (not32 CAP_FS_MASK))
                         (cap_inheritable t) (cap_permitted t)));;
      when (negb (old_fsuid =? 0) && (fs (uids c) =? 0))
        (upd (fun t => set_caps t
           (Z.lor (cap_effective t) (Z.land (cap_permitted t) CAP_FS_MASK))
           (cap_inheritable t) (cap_permitted t))));;
    mret 0
  else mret (- EINVAL).

Definition cap_task_reparent_to_init (p : task) : task :=
  set_keep (set_caps p CAP_INIT_EFF_SET CAP_INIT_INH_SET CAP_FULL_SET) 0.

(** ** kernel/capability.c *)

Definition find_task (s : kern) (p : Z) : option task :=
  if p =? pid (current s) then Some (current s) else others s !! p.

Definition put_task (p : Z) (t : task) : M unit := fun s =>
  (inr tt, if p =? pid (current s) then set_current s t
           else set_others s (<[p := t]> (others s))).

(** security_capset_check and, when it allows the change, security_capset_set on
    one task. *)
Definition capset_target (p eff inh perm : Z) : M Z :=
  s ← get;
  match find_task s p with
  | None => mret (- ESRCH)
  | Some target =>
      r ← cap_capset_check target eff inh perm;
      when (r =? 0) (put_task p (cap_capset_set target eff inh perm));;
      mret r
  end.

(** One target of cap_set_pg or cap_set_all; returns whether it was changed. *)
Definition capset_one (p eff inh perm : Z) : M bool :=
  r ← capset_target p eff inh perm; mret (r =? 0).

(** Visits the targets in order; the result says whether any was changed. *)
Fixpoint capset_each (ps : list Z) (eff inh perm : Z) : M bool :=
  match ps with
  | [] => mret false
  | p :: ps =>
      done ← capset_one p eff inh perm;
      rest ← capset_each ps eff inh perm;
      mret (done || rest)
  end.

(** [target = g; while_each_thread(g, target) { ... }] advances before the first
    test: the leader [g] is not visited. *)
Definition cap_set_pg (pgrp eff inh perm : Z) : M Z :=
  s ← get;
  let targets := concat (map (fun g => tail g.2) (filter (fun g => g.1 = pgrp) (groups s))) in
  changed ← capset_each targets eff inh perm;
  mret (if bool_decide (targets = []) || changed then 0 else - EPERM).

(** [do_each_thread { ... } while_each_thread]: every thread of every group,
    other than current and init. *)
Definition cap_set_all (eff inh perm : Z) : M Z :=
  s ← get;
  let targets := filter (fun p => p <> pid (current s) /\ p <> 1)
                   (concat (map snd (groups s))) in
  changed ← capset_each targets eff inh perm;
  mret (if bool_decide (targets = []) || changed then 0 else - EPERM).

(** The caller's memory: what each access to the header and the data reads,
    [None] when it faults. *)
Record cap_user := {
  h_version : option Z;
  h_version_writable : bool;
  h_pid : option Z;
  d_sets : option (Z * Z * Z)      (* effective, inheritable, permitted *)
}.

Definition sys_capset (u : cap_user) : M Z :=
  match h_version u with
  | None => return_ (- EFAULT)
  | Some version =>
    if negb (version =? _LINUX_CAPABILITY_VERSION)
    then return_ (if h_version_writable u then - EINVAL else - EFAULT)
    else match h_pid u with
    | None => return_ (- EFAULT)
    | Some p =>
      c ← cur;
      denied ← and_then (negb (p =? 0) && negb (p =? pid c))
                 (ok ← capable CAP_SETPCAP; mret (negb ok));
      if denied : bool then return_ (- EPERM)
      else match d_sets u with
      | None => return_ (- EFAULT)
      | Some (eff, inh, perm) =>
        if p <? 0 then
          if p =? -1 then cap_set_all eff inh perm
          else cap_set_pg (s32 (- p)) eff inh perm
        else
          capset_target (if (0 <? p) && negb (p =? pid c) then p else pid c) eff inh perm
      end
    end
  end.

(** ** fs/exec.c: the credentials of a program *)

(** What prepare_binprm reads of the file, with the result of kernel_read for its first
    bytes (their number, or an error), and what unsafe_exec reads of the caller. *)
Record exec_file := {
  i_mode : Z; i_uid : Z; i_gid : Z; mnt_nosuid : bool; has_f_op : bool; kernel_read : Z
}.

Record exec_share := { ptraced : bool; ptrace_cap : bool; shared : bool }.

Definition S_ISUID : Z := 0x800.
Definition S_ISGID : Z := 0x400.
Definition S_IXGRP : Z := 0x8.

(** The credentials that it leaves in bprm, and its result. *)
Definition prepare_binprm (f : exec_file) : M (linux_binprm * Z) :=
  if Z.land (i_mode f) 0x49 =? 0 then return_ (- EACCES)
  else if negb (has_f_op f) then return_ (- EACCES)
  else
    c ← cur;
    let suid := negb (mnt_nosuid f) && negb (Z.land (i_mode f) S_ISUID =? 0) in
    let sgid := negb (mnt_nosuid f) &&
      (Z.land (i_mode f) (Z.lor S_ISGID S_IXGRP) =? Z.lor S_ISGID S_IXGRP) in
    bprm ← cap_bprm_set_security (if suid then i_uid f else effective (uids c))
                                 (if sgid then i_gid f else effective (gids c));
    mret (bprm, kernel_read f).

Definition unsafe_exec (p : exec_share) : Z :=
  let unsafe := if ptraced p then if ptrace_cap p then LSM_UNSAFE_PTRACE_CAP
                                  else LSM_UNSAFE_PTRACE
                else 0 in
  if shared p then Z.lor unsafe LSM_UNSAFE_SHARE else unsafe.

Definition compute_creds (bprm : linux_binprm) (p : exec_share) : M unit :=
  cap_bprm_apply_creds bprm (unsafe_exec p).

(** The credential steps of do_execve. *)
Definition exec_creds (f : exec_file) (p : exec_share) : M Z :=
  '(bprm, retval) ← prepare_binprm f;
  if retval <? 0 then return_ retval else compute_creds bprm p;; mret 0.

(** ** Capability sets as sets of bits *)

Definition cap_le (a b : Z) : Prop := forall i, 0 <= i -> Z.testbit a i = true -> Z.testbit b i = true.

Lemma cap_le_refl a : cap_le a a.
Proof. by intros i. Qed.

Lemma cap_le_trans a b c : cap_le a b -> cap_le b c -> cap_le a c.
Proof. unfold cap_le. eauto. Qed.

Lemma cap_le_0 a : cap_le 0 a.
Proof. intros i _. by rewrite Z.testbit_0_l. Qed.

Lemma cap_le_land_l a b : cap_le (Z.land a b) a.
Proof. intros i Hi. rewrite Z.land_spec. by intros [? ?]%andb_prop. Qed.

Lemma cap_le_land_r a b : cap_le (Z.land a b) b.
Proof. intros i Hi. rewrite Z.land_spec. by intros [? ?]%andb_prop. Qed.

Lemma cap_le_lor a b c : cap_le a c -> cap_le b c -> cap_le (Z.lor a b) c.
Proof. intros Ha Hb i Hi. rewrite Z.lor_spec. intros [?|?]%orb_prop; auto. Qed.

Lemma cap_le_lor_l a b : cap_le a (Z.lor a b).
Proof. intros i Hi E. by rewrite Z.lor_spec, E. Qed.

Lemma cap_le_empty a : is_u32 a -> cap_le a 0 -> a = 0.
Proof.
  intros Ha H. apply Z.bits_inj'. intros i Hi. rewrite Z.testbit_0_l.
  destruct (Z.testbit a i) eqn:E; [|done]. specialize (H i Hi E). by rewrite Z.testbit_0_l in H.
Qed.

Create HintDb caps.
#[export] Hint Resolve cap_le_refl cap_le_0 cap_le_land_l cap_le_land_r cap_le_lor cap_le_lor_l : caps.
#[export] Hint Resolve is_u32_land_l is_u32_lor is_u32_not32 : caps.

Lemma cap_issubset_spec a b : is_u32 a -> is_u32 b -> cap_issubset a b = true <-> cap_le a b.
Proof.
  intros Ha Hb. unfold cap_issubset. rewrite Z.eqb_eq. split.
  - intros E i Hi Ea. destruct (Z.testbit b i) eqn:Eb; [done|].
    assert (H : Z.testbit (Z.land a (not32 b)) i = true).
    { rewrite Z.land_spec, Ea, not32_testbit, Eb by done.
      destruct (Z.ltb_spec i 32) as [|Hge]; [done|]. by rewrite is_u32_testbit in Ea. }
    by rewrite E, Z.testbit_0_l in H.
  - intros H. apply Z.bits_inj'. intros i Hi. rewrite Z.land_spec, not32_testbit, Z.testbit_0_l by done.
    destruct (Z.testbit a i) eqn:Ea; [|done]. rewrite (H i Hi Ea). by rewrite andb_false_r.
Qed.

Lemma cap_raised_spec c flag : 0 <= flag < 32 -> cap_raised c flag = Z.testbit c flag.
Proof.
  intros Hf. unfold cap_raised, CAP_TO_MASK. destruct (Z.testbit c flag) eqn:E.
  - destruct (Z.eqb_spec (Z.land c (shl32 1 flag)) 0) as [E0|]; [exfalso|done].
    assert (H : Z.testbit (Z.land c (shl32 1 flag)) flag = true).
    { rewrite Z.land_spec, E, one_shl_testbit by lia. by rewrite Z.eqb_refl. }
    by rewrite E0, Z.testbit_0_l in H.
  - replace (Z.land c (shl32 1 flag)) with 0; [done|]. symmetry. apply Z.bits_inj'. intros i Hi.
    rewrite Z.land_spec, one_shl_testbit, Z.testbit_0_l by lia.
    destruct (Z.eqb_spec i flag) as [->|]; [by rewrite E|apply andb_false_r].
Qed.

(** The sets of a task are 32-bit masks and the effective set is inside the
    permitted one. *)
Definition caps_ok (t : task) : Prop :=
  is_u32 (cap_effective t) /\ is_u32 (cap_inheritable t) /\ is_u32 (cap_permitted t) /\
  cap_le (cap_effective t) (cap_permitted t).

Lemma capable_denied cap s :
  0 <= cap < 32 -> caps_ok (current s) -> Z.testbit (cap_permitted (current s)) cap = false ->
  capable cap s = (inr false, s).
Proof.
  intros Hc (_ & _ & _ & Hle) Hp. unfold capable, __capable, cap_capable.
  rewrite cap_raised_spec by done. destruct (Z.testbit (cap_effective (current s)) cap) eqn:E.
  - apply Hle in E; [congruence|lia].
  - by destruct s.
Qed.

Lemma capable_spec cap s :
  0 <= cap < 32 ->
  capable cap s =
    if Z.testbit (cap_effective (current s)) cap
    then (inr true, set_current s (set_superpriv (current s))) else (inr false, s).
Proof.
  intros Hc. unfold capable, __capable, cap_capable. rewrite cap_raised_spec by done.
  destruct (Z.testbit (cap_effective (current s)) cap); [done|]. by destruct s.
Qed.

(** ** sys_capset *)

(** A request about the caller itself. *)
Definition self_request (eff inh perm : Z) : cap_user :=
  {| h_version := Some _LINUX_CAPABILITY_VERSION; h_version_writable := true; h_pid := Some 0;
     d_sets := Some (eff, inh, perm) |}.

(** The rules of the comment of sys_capset. *)
Definition capset_allowed (c target : task) (eff inh perm : Z) : Prop :=
  cap_le inh (Z.lor (cap_inheritable target) (cap_permitted c)) /\
  cap_le perm (Z.lor (cap_permitted target) (cap_permitted c)) /\ cap_le eff perm.

Lemma cap_capset_check_spec target eff inh perm s :
  is_u32 eff -> is_u32 inh -> is_u32 perm -> caps_ok target -> caps_ok (current s) ->
  (cap_capset_check target eff inh perm s = (inr 0, s) /\
   capset_allowed (current s) target eff inh perm) \/
  (cap_capset_check target eff inh perm s = (inr (- EPERM), s) /\
   ~ capset_allowed (current s) target eff inh perm).
Proof.
  intros He Hi Hp (Te & Ti & Tp & Tl) (Ce & Ci & Cp & Cl).
  unfold cap_capset_check, capset_allowed, cap_combine. unfold_monad. simpl.
  pose proof (cap_issubset_spec inh (Z.lor (cap_inheritable target) (cap_permitted (current s))) Hi
    ltac:(auto with caps)) as H1.
  pose proof (cap_issubset_spec perm (Z.lor (cap_permitted target) (cap_permitted (current s))) Hp
    ltac:(auto with caps)) as H2.
  pose proof (cap_issubset_spec eff perm He Hp) as H3.
  destruct (cap_issubset inh _); simpl; [|right; split; [done|]; intros (A & _); apply H1 in A; done].
  destruct (cap_issubset perm _); simpl;
    [|right; split; [done|]; intros (_ & A & _); apply H2 in A; done].
  destruct (cap_issubset eff _); simpl; [|right; split; [done|]; intros (_ & _ & A); apply H3 in A; done].
  left. split; [done|]. split_and!; [by apply H1|by apply H2|by apply H3].
Qed.

Lemma capset_self_spec eff inh perm s :
  is_u32 eff -> is_u32 inh -> is_u32 perm -> caps_ok (current s) ->
  (run (sys_capset (self_request eff inh perm)) s =
     (0, set_current s (set_caps (current s) eff inh perm)) /\
   capset_allowed (current s) (current s) eff inh perm) \/
  (run (sys_capset (self_request eff inh perm)) s = (- EPERM, s) /\
   ~ capset_allowed (current s) (current s) eff inh perm).
Proof.
  intros He Hi Hp Hc.
  assert (E : run (sys_capset (self_request eff inh perm)) s =
    run (capset_target (pid (current s)) eff inh perm) s) by done.
  rewrite E. unfold run, capset_target, find_task. unfold_monad. rewrite Z.eqb_refl.
  destruct (cap_capset_check_spec (current s) eff inh perm s He Hi Hp Hc Hc) as [[-> A]|[-> A]]; simpl.
  - left. split; [|done].
    unfold put_task. by rewrite Z.eqb_refl.
  - right. by split.
Qed.
