(* ===== verification/Setid.v ===== *)
(** Changing user and group ids: kernel/user.c (the per-user accounting) and the
    set*id system calls of kernel/sys.c.

    The theorems: an unprivileged task only permutes the ids it already has,
    whatever sequence of calls it makes; a privileged task that drops its
    privileges cannot get them back; the per-user process counts follow. *)
From stdpp Require Import base gmap numbers option.
From Stdlib Require Import ZArith Lia.
From S2P Require Import Prelude Bitops Task Capability.

Local Open Scope Z_scope.

(** ** kernel/user.c.  A user_struct is named by its uid; root_user is the one
    of uid 0. *)

(** Looks the user up and takes a reference. *)
Definition uid_hash_find (uid : Z) : M bool := fun s =>
  match uidhash s !! uid with
  | Some u => (inr true, set_uidhash s
      (<[uid := {| __count := __count u + 1; processes := processes u |}]> (uidhash s)))
  | None => (inr false, s)
  end.

Definition uid_hash_insert (uid : Z) (new : user_struct) : M unit := fun s =>
  (inr tt, set_uidhash s (<[uid := new]> (uidhash s))).

Definition free_uid (up : Z) : M unit := fun s =>
  match uidhash s !! up with
  | None => (inr tt, s)
  | Some u =>
      if __count u - 1 =? 0 then (inr tt, set_uidhash s (delete up (uidhash s)))
      else (inr tt, set_uidhash s
        (<[up := {| __count := __count u - 1; processes := processes u |}]> (uidhash s)))
  end.

(** kmem_cache_alloc: whether it succeeds. *)
Definition kmem_cache_alloc : M bool := fun s =>
  let '(fails, s) := alloc_step s in (inr (negb fails), s).

(** [false] is the NULL result. *)
Definition alloc_uid (uid : Z) : M bool :=
  up ← uid_hash_find uid;
  if up : bool then mret true
  else
    ok ← kmem_cache_alloc;
    if negb ok then mret false
    else
      up ← uid_hash_find uid;
      if up : bool then mret true
      else uid_hash_insert uid {| __count := 1; processes := 0 |};; mret true.

Definition add_processes (u d : Z) : M unit := fun s =>
  match uidhash s !! u with
  | None => (inr tt, s)
  | Some us => (inr tt, set_uidhash s
      (<[u := {| __count := __count us; processes := processes us + d |}]> (uidhash s)))
  end.

Definition switch_uid (new_user : Z) : M unit :=
  c ← cur;
  let old_user := user c in
  add_processes new_user 1;;
  add_processes old_user (-1);;
  upd (fun t => set_user_ptr t new_user);;
  free_uid old_user.

(** ** kernel/sys.c *)

(** The hooks of include/linux/security.h without CONFIG_SECURITY. *)
Definition security_task_setuid (id0 id1 id2 flags : Z) : Z := 0.
Definition security_task_setgid (id0 id1 id2 flags : Z) : Z := 0.
Definition security_task_post_setuid := cap_task_post_setuid.

Definition set_user (new_ruid : Z) (dumpclear : bool) : M Z :=
  ok ← alloc_uid new_ruid;
  if negb ok then mret (- EAGAIN)
  else
    s ← get;
    let procs := match uidhash s !! new_ruid with Some u => processes u | None => 0 end in
    if (rlim_nproc s <=? u32 procs) && negb (new_ruid =? 0) then
      free_uid new_ruid;; mret (- EAGAIN)
    else
      switch_uid new_ruid;;
      when dumpclear clear_dumpable;;
      upd (fun t => set_uids t (with_real (uids t) new_ruid));;
      mret 0.

(** [if (retval) return retval;] *)
Definition check (retval : Z) : M unit :=
  if retval =? 0 then mret tt else return_ retval.

Definition sys_setregid (rgid egid : Z) : M Z :=
  check (security_task_setgid rgid egid NOID LSM_SETID_RE);;
  c ← cur;
  let old_rgid := real (gids c) in
  let old_egid := effective (gids c) in
  new_rgid ← (
    if negb (rgid =? NOID) then
      ok ← or_else ((old_rgid =? rgid) || (effective (gids c) =? rgid)) (capable CAP_SETGID);
      if ok : bool then mret rgid else return_ (- EPERM)
    else mret old_rgid);
  new_egid ← (
    if negb (egid =? NOID) then
      ok ← or_else ((old_rgid =? egid) || (effective (gids c) =? egid) ||
                    (saved (gids c) =? egid)) (capable CAP_SETGID);
      if ok : bool then mret egid else return_ (- EPERM)
    else mret old_egid);
  when (negb (new_egid =? old_egid)) clear_dumpable;;
  when (negb (rgid =? NOID) || (negb (egid =? NOID) && negb (egid =? old_rgid)))
    (upd (fun t => set_gids t (with_saved (gids t) new_egid)));;
  upd (fun t => set_gids t (with_fs (gids t) new_egid));;
  upd (fun t => set_gids t (with_effective (gids t) new_egid));;
  upd (fun t => set_gids t (with_real (gids t) new_rgid));;
  mret 0.

Definition sys_setgid (gid : Z) : M Z :=
  check (security_task_setgid gid NOID NOID LSM_SETID_ID);;
  c ← cur;
  let old_egid := effective (gids c) in
  ok ← capable CAP_SETGID;
  (if ok : bool then
     when (negb (old_egid =? gid)) clear_dumpable;;
     upd (fun t => set_gids t {| real := gid; effective := gid; saved := gid; fs := gid |})
   else if (gid =? real (gids c)) || (gid =? saved (gids c)) then
     when (negb (old_egid =? gid)) clear_dumpable;;
     upd (fun t => set_gids t (with_effective (with_fs (gids t) gid) gid))
   else return_ (- EPERM));;
  mret 0.

Definition sys_setreuid (ruid euid : Z) : M Z :=
  check (security_task_setuid ruid euid NOID LSM_SETID_RE);;
  c ← cur;
  let old_ruid := real (uids c) in
  let old_euid := effective (uids c) in
  let old_suid := saved (uids c) in
  new_ruid ← (
    if negb (ruid =? NOID) then
      denied ← and_then (negb (old_ruid =? ruid) && negb (effective (uids c) =? ruid))
                 (ok ← capable CAP_SETUID; mret (negb ok));
      if denied : bool then return_ (- EPERM) else mret ruid
    else mret old_ruid);
  new_euid ← (
    if negb (euid =? NOID) then
      denied ← and_then (negb (old_ruid =? euid) && negb (effective (uids c) =? euid) &&
                         negb (saved (uids c) =? euid))
                 (ok ← capable CAP_SETUID; mret (negb ok));
      if denied : bool then return_ (- EPERM) else mret euid
    else mret old_euid);
  failed ← and_then (negb (new_ruid =? old_ruid))
    (r ← set_user new_ruid (negb (new_euid =? old_euid)); mret (r <? 0));
  if failed : bool then return_ (- EAGAIN) else
  when (negb (new_euid =? old_euid)) clear_dumpable;;
  upd (fun t => set_uids t (with_fs (with_effective (uids t) new_euid) new_euid));;
  when (negb (ruid =? NOID) || (negb (euid =? NOID) && negb (euid =? old_ruid)))
    (upd (fun t => set_uids t (with_saved (uids t) (effective (uids t)))));;
  upd (fun t => set_uids t (with_fs (uids t) (effective (uids t))));;
  security_task_post_setuid old_ruid old_euid old_suid LSM_SETID_RE.

Definition sys_setuid (uid : Z) : M Z :=
  check (security_task_setuid uid NOID NOID LSM_SETID_ID);;
  c ← cur;
  let old_euid := effective (uids c) in
  let old_ruid := real (uids c) in
  let old_suid := saved (uids c) in
  ok ← capable CAP_SETUID;
  new_suid ← (
    if ok : bool then
      failed ← and_then (negb (uid =? old_ruid))
        (r ← set_user uid (negb (old_euid =? uid)); mret (r <? 0));
      if failed : bool then return_ (- EAGAIN) else mret uid
    else if negb (uid =? real (uids c)) && negb (uid =? old_suid) then return_ (- EPERM)
    else mret old_suid);
  when (negb (old_euid =? uid)) clear_dumpable;;
  upd (fun t => set_uids t (with_fs (with_effective (uids t) uid) uid));;
  upd (fun t => set_uids t (with_saved (uids t) new_suid));;
  security_task_post_setuid old_ruid old_euid old_suid LSM_SETID_ID.

(** One of the three tests [(x != -1) && (x != id) && (x != eid) && (x != sid)]. *)
Definition not_own (x : Z) (i : id_set) : bool :=
  negb (x =? NOID) && negb (x =? real i) && negb (x =? effective i) && negb (x =? saved i).

Definition sys_setresuid (ruid euid suid : Z) : M Z :=
  check (security_task_setuid ruid euid suid LSM_SETID_RES);;
  c ← cur;
  let old_ruid := real (uids c) in
  let old_euid := effective (uids c) in
  let old_suid := saved (uids c) in
  ok ← capable CAP_SETUID;
  (if negb ok then
     if not_own ruid (uids c) then return_ (- EPERM)
     else if not_own euid (uids c) then return_ (- EPERM)
     else if not_own suid (uids c) then return_ (- EPERM)
     else mret tt
   else mret tt);;
  (if negb (ruid =? NOID) then
     failed ← and_then (negb (ruid =? old_ruid))
       (r ← set_user ruid (negb (euid =? old_euid)); mret (r <? 0));
     if failed : bool then return_ (- EAGAIN) else mret tt
   else mret tt);;
  when (negb (euid =? NOID)) (
    when (negb (euid =? old_euid)) clear_dumpable;;
    upd (fun t => set_uids t (with_effective (uids t) euid)));;
  upd (fun t => set_uids t (with_fs (uids t) (effective (uids t))));;
  when (negb (suid =? NOID)) (upd (fun t => set_uids t (with_saved (uids t) suid)));;
  security_task_post_setuid old_ruid old_euid old_suid LSM_SETID_RES.

Definition sys_setresgid (rgid egid sgid : Z) : M Z :=
  check (security_task_setgid rgid egid sgid LSM_SETID_RES);;
  c ← cur;
  ok ← capable CAP_SETGID;
  (if negb ok then
     if not_own rgid (gids c) then return_ (- EPERM)
     else if not_own egid (gids c) then return_ (- EPERM)
     else if not_own sgid (gids c) then return_ (- EPERM)
     else mret tt
   else mret tt);;
  when (negb (egid =? NOID)) (
    when (negb (egid =? effective (gids c))) clear_dumpable;;
    upd (fun t => set_gids t (with_effective (gids t) egid)));;
  upd (fun t => set_gids t (with_fs (gids t) (effective (gids t))));;
  when (negb (rgid =? NOID)) (upd (fun t => set_gids t (with_real (gids t) rgid)));;
  when (negb (sgid =? NOID)) (upd (fun t => set_gids t (with_saved (gids t) sgid)));;
  mret 0.

Definition sys_setfsuid (uid : Z) : M Z :=
  c ← cur;
  let old_fsuid := fs (uids c) in
  if negb (security_task_setuid uid NOID NOID LSM_SETID_FS =? 0) then mret old_fsuid
  else
    ok ← or_else ((uid =? real (uids c)) || (uid =? effective (uids c)) ||
                  (uid =? saved (uids c)) || (uid =? fs (uids c))) (capable CAP_SETUID);
    when ok (
      when (negb (uid =? old_fsuid)) clear_dumpable;;
      upd (fun t => set_uids t (with_fs (uids t) uid)));;
    security_task_post_setuid old_fsuid NOID NOID LSM_SETID_FS;;
    mret old_fsuid.

Definition sys_setfsgid (gid : Z) : M Z :=
  c ← cur;
  let old_fsgid := fs (gids c) in
  if negb (security_task_setgid gid NOID NOID LSM_SETID_FS =? 0) then mret old_fsgid
  else
    ok ← or_else ((gid =? real (gids c)) || (gid =? effective (gids c)) ||
                  (gid =? saved (gids c)) || (gid =? fs (gids c))) (capable CAP_SETGID);
    when ok (
      when (negb (gid =? old_fsgid)) clear_dumpable;;
      upd (fun t => set_gids t (with_fs (gids t) gid)));;
    mret old_fsgid.

(** The capability case of sys_prctl. *)
Definition prctl_set_keepcaps (arg2 : Z) : M Z :=
  if negb (arg2 =? 0) && negb (arg2 =? 1) then mret (- EINVAL)
  else upd (fun t => set_keep t arg2);; mret 0.

(** ** Per-user accounting

    [held u] counts the references to the user_struct of [u] and [procs u] its
    processes, both without current's own share. *)

Definition share (u x : Z) : Z := if x =? u then 1 else 0.

Definition table (cnt prc : Z -> Z) (h : gmap Z user_struct) : Prop := forall u,
  match h !! u with
  | Some us => __count us = cnt u /\ processes us = prc u /\ 0 < cnt u
  | None => cnt u = 0 /\ prc u = 0
  end.

Definition acct (held procs : Z -> Z) (s : kern) : Prop :=
  (forall u, 0 <= procs u <= held u) /\
  user (current s) = real (uids (current s)) /\
  table (fun u => held u + share (user (current s)) u)
        (fun u => procs u + share (user (current s)) u) (uidhash s).

(** Everything but current, the user table and the allocator. *)
Definition same_globals (s s' : kern) : Prop :=
  others s' = others s /\ groups s' = groups s /\ rlim_nproc s' = rlim_nproc s /\
  suid_dumpable s' = suid_dumpable s /\ securebits s' = securebits s /\ cap_bset s' = cap_bset s.

Lemma table_insert cnt prc cnt' prc' h u c p :
  table cnt prc h -> (forall x, x <> u -> cnt' x = cnt x /\ prc' x = prc x) ->
  c = cnt' u -> p = prc' u -> 0 < c ->
  table cnt' prc' (<[u := {| __count := c; processes := p |}]> h).
Proof.
  intros Ht Hx -> -> Hu x. destruct (decide (x = u)) as [->|Hne].
  - by rewrite lookup_insert_eq.
  - rewrite lookup_insert_ne by done. destruct (Hx x Hne) as [-> ->]. apply Ht.
Qed.

Lemma table_delete cnt prc cnt' prc' h u :
  table cnt prc h -> (forall x, x <> u -> cnt' x = cnt x /\ prc' x = prc x) ->
  cnt' u = 0 -> prc' u = 0 -> table cnt' prc' (delete u h).
Proof.
  intros Ht Hx Hu Hp x. destruct (decide (x = u)) as [->|Hne].
  - by rewrite lookup_delete_eq.
  - rewrite lookup_delete_ne by done. destruct (Hx x Hne) as [-> ->]. apply Ht.
Qed.

(** A function changed at one point. *)
Definition plus_at (f : Z -> Z) (u d x : Z) : Z := f x + d * share u x.

Lemma plus_at_eq f u d : plus_at f u d u = f u + d.
Proof. unfold plus_at, share. rewrite Z.eqb_refl. lia. Qed.

Lemma plus_at_ne f u d x : x <> u -> plus_at f u d x = f x.
Proof. intros. unfold plus_at, share. destruct (Z.eqb_spec x u); [done|lia]. Qed.

Lemma table_ext cnt prc cnt' prc' h :
  table cnt prc h -> (forall x, cnt' x = cnt x /\ prc' x = prc x) -> table cnt' prc' h.
Proof. intros Ht Hx u. destruct (Hx u) as [-> ->]. apply Ht. Qed.

Lemma alloc_uid_spec cnt prc u s :
  table cnt prc (uidhash s) ->
  exists s', current s' = current s /\ same_globals s s' /\
    (alloc_uid u s = (inr true, s') /\ table (plus_at cnt u 1) prc (uidhash s') \/
     alloc_uid u s = (inr false, s') /\ uidhash s' = uidhash s).
Proof.
  intros Ht. pose proof (Ht u) as Hu. unfold alloc_uid, uid_hash_find, kmem_cache_alloc,
    uid_hash_insert, alloc_step. unfold_monad.
  destruct (uidhash s !! u) as [us|] eqn:E.
  - destruct Hu as (Ec & Ep & Hpos). eexists. split; [|split; [|left; split; [reflexivity|]]]; [done|done|].
    simpl. apply table_insert with (cnt := cnt) (prc := prc); rewrite ?plus_at_eq; try (done || lia).
    intros x Hx. by rewrite plus_at_ne.
  - destruct Hu as [Hc Hp]. destruct (alloc_fails s) as [|[] bs] eqn:Ea; simpl; rewrite ?E; simpl.
    2:{ eexists. split; [|split; [|right; split; [reflexivity|]]]; done. }
    all: eexists; (split; [|split; [|left; split; [reflexivity|]]]); [done|done|]; simpl;
      apply table_insert with (cnt := cnt) (prc := prc); rewrite ?plus_at_eq; try (done || lia);
      intros x Hx; by rewrite plus_at_ne.
Qed.

Lemma free_uid_spec cnt prc u s :
  table cnt prc (uidhash s) -> 0 < cnt u -> (cnt u = 1 -> prc u = 0) ->
  exists s', free_uid u s = (inr tt, s') /\ current s' = current s /\ same_globals s s' /\
    table (plus_at cnt u (-1)) prc (uidhash s').
Proof.
  intros Ht Hpos Hz. pose proof (Ht u) as Hu. unfold free_uid.
  destruct (uidhash s !! u) as [us|]; [|lia]. destruct Hu as (Ec & Ep & _).
  destruct (Z.eqb_spec (__count us - 1) 0); eexists; (split; [done|split; [done|split; [done|]]]); simpl.
  - apply table_delete with (cnt := cnt) (prc := prc); rewrite ?plus_at_eq; try (done || lia).
    intros x Hx. by rewrite plus_at_ne.
  - apply table_insert with (cnt := cnt) (prc := prc); rewrite ?plus_at_eq; try (done || lia).
    intros x Hx. by rewrite plus_at_ne.
Qed.

Lemma add_processes_spec cnt prc u d s :
  table cnt prc (uidhash s) -> 0 < cnt u ->
  exists s', add_processes u d s = (inr tt, s') /\ current s' = current s /\ same_globals s s' /\
    table cnt (plus_at prc u d) (uidhash s').
Proof.
  intros Ht Hpos. pose proof (Ht u) as Hu. unfold add_processes.
  destruct (uidhash s !! u) as [us|]; [|lia]. destruct Hu as (Ec & Ep & _).
  eexists. split; [done|split; [done|split; [done|]]]. simpl.
  apply table_insert with (cnt := cnt) (prc := prc); rewrite ?plus_at_eq; try (done || lia).
  intros x Hx. by rewrite plus_at_ne.
Qed.

Lemma same_globals_trans s1 s2 s3 : same_globals s1 s2 -> same_globals s2 s3 -> same_globals s1 s3.
Proof. unfold same_globals. intuition congruence. Qed.

(** switch_uid moves current's process and its reference to the new user. *)
Lemma switch_uid_spec held procs new s :
  (forall u, 0 <= procs u <= held u) ->
  let old := user (current s) in
  table (plus_at (fun u => held u + share old u) new 1) (fun u => procs u + share old u)
    (uidhash s) ->
  exists s', switch_uid new s = (inr tt, s') /\ same_globals s s' /\
    current s' = set_user_ptr (current s) new /\
    table (fun u => held u + share new u) (fun u => procs u + share new u) (uidhash s').
Proof.
  intros Hh old Ht. unfold switch_uid. unfold_monad. fold old.
  assert (Hsh : forall a b, 0 <= share a b) by (intros a b; unfold share; destruct (b =? a); lia).
  assert (Hn := Hsh old new). pose proof (Hh new). pose proof (Hh old).
  assert (Hoo : share old old = 1) by (unfold share; by rewrite Z.eqb_refl).
  destruct (add_processes_spec _ _ new 1 s Ht) as (s1 & E1 & C1 & G1 & T1);
    [rewrite plus_at_eq; lia|]. rewrite E1.
  destruct (add_processes_spec _ _ old (-1) s1 T1) as (s2 & E2 & C2 & G2 & T2).
  { unfold plus_at. pose proof (Hsh new old). lia. }
  rewrite E2.
  destruct (free_uid_spec _ _ old (set_current s2 (set_user_ptr (current s2) new)) T2)
    as (s3 & E3 & C3 & G3 & T3).
  { unfold plus_at. pose proof (Hsh new old). lia. }
  { unfold plus_at. rewrite Hoo. pose proof (Hsh new old). lia. }
  rewrite E3. exists s3. split; [done|split; [|split]].
  - eapply same_globals_trans; [exact G1|]. eapply same_globals_trans; [exact G2|exact G3].
  - rewrite C3. simpl. by rewrite C2, C1.
  - eapply table_ext; [exact T3|]. intros x. unfold plus_at.
    split; lia.
Qed.

(** The outcome of set_user: -EAGAIN and no change to current or to the
    accounting, or the new real uid with the accounting moved to it. *)
Definition set_user_result (s : kern) (new : Z) (dumpclear : bool) : task :=
  let t := set_user_ptr (current s) new in
  let t := if dumpclear then set_dumpable_to t (suid_dumpable s) else t in
  set_uids t (with_real (uids t) new).

Lemma set_user_spec held procs new d s :
  acct held procs s ->
  exists r s', set_user new d s = (inr r, s') /\ same_globals s s' /\ acct held procs s' /\
    (r = 0 /\ current s' = set_user_result s new d \/ r = - EAGAIN /\ current s' = current s).
Proof.
  intros (Hh & Hu & Ht). unfold set_user. unfold_monad.
  destruct (alloc_uid_spec _ _ new s Ht) as (s1 & C1 & G1 & [[-> T1]|[-> T1]]); simpl.
  2:{ do 2 eexists. split; [done|]. split; [done|]. split; [|by right].
      unfold acct. rewrite C1, T1. done. }
  set (procs1 := match uidhash s1 !! new with Some u => processes u | None => 0 end).
  destruct ((rlim_nproc s1 <=? u32 procs1) && negb (new =? 0)).
  - destruct (free_uid_spec _ _ new s1 T1) as (s2 & -> & C2 & G2 & T2).
    { rewrite plus_at_eq. pose proof (Hh new). unfold share. destruct (new =? _); lia. }
    { rewrite plus_at_eq. pose proof (Hh new). unfold share. destruct (new =? _); lia. }
    do 2 eexists. split; [done|]. split; [by eapply same_globals_trans|].
    split; [|right; by rewrite C2, C1]. unfold acct. rewrite C2, C1. split_and!; [done..|].
    eapply table_ext; [exact T2|]. intros x. unfold plus_at. split; lia.
  - rewrite <- C1 in T1. destruct (switch_uid_spec held procs new s1 Hh T1) as (s2 & -> & G2 & C2 & T2).
    pose proof (same_globals_trans _ _ _ G1 G2) as G.
    assert (Ed : suid_dumpable s2 = suid_dumpable s) by apply G.
    destruct d; do 2 eexists; (split; [reflexivity|]); (split; [done|]);
      (split; [unfold acct; simpl; rewrite C2; done|]); left; (split; [done|]);
      unfold set_user_result; simpl; rewrite C2, C1, ?Ed; done.
Qed.

(** ** One call *)

(** The ids of [i'] all come from [i]. *)
Definition own (i : id_set) (x : Z) : Prop := x = real i \/ x = effective i \/ x = saved i.

Definition ids_from (i i' : id_set) : Prop :=
  own i (real i') /\ own i (effective i') /\ own i (saved i') /\ (own i (fs i') \/ fs i' = fs i).

(** What a call may do to current: the capability sets stay ordered, the
    permitted set does not grow, and without CAP_SETUID (CAP_SETGID) the ids come
    from the old ones. *)
Definition task_step (t t' : task) : Prop :=
  caps_ok t' /\ cap_le (cap_permitted t') (cap_permitted t) /\ pid t' = pid t /\
  (Z.testbit (cap_effective t) CAP_SETUID = false -> ids_from (uids t) (uids t')) /\
  (Z.testbit (cap_effective t) CAP_SETGID = false -> ids_from (gids t) (gids t')).

Definition call_step (held procs : Z -> Z) (s s' : kern) : Prop :=
  acct held procs s' /\ same_globals s s' /\ task_step (current s) (current s').

(** Case analysis on every comparison of the goal. *)
Ltac split_tests :=
  simpl; repeat (match goal with
    | |- context [Z.eqb ?a ?b] => destruct (Z.eqb_spec a b)
    | |- context [Z.ltb ?a ?b] => destruct (Z.ltb_spec a b)
    | |- context [issecure ?a ?b] => destruct (issecure a b)
    end; simpl).

(** cap_task_post_setuid only touches the effective and permitted sets, never
    beyond the permitted set. *)
Lemma post_setuid_spec a b c f s :
  caps_ok (current s) ->
  exists r e p, cap_task_post_setuid a b c f s =
      (inr r, set_current s (set_caps (current s) e (cap_inheritable (current s)) p)) /\
    is_u32 e /\ is_u32 p /\ cap_le e p /\ cap_le p (cap_permitted (current s)) /\
    (f = LSM_SETID_RE \/ f = LSM_SETID_ID \/ f = LSM_SETID_RES \/ f = LSM_SETID_FS -> r = 0).
Proof.
  intros (He & Hi & Hp & Hle).
  assert (Hid : set_current s (set_caps (current s) (cap_effective (current s))
    (cap_inheritable (current s)) (cap_permitted (current s))) = s)
    by (by destruct s as [[] ? ? ? ? ? ? ? ?]).
  assert (Hmask : 0 <= CAP_FS_MASK) by done.
  assert (is_u32 (Z.land (cap_effective (current s)) (not32 CAP_FS_MASK))).
  { apply is_u32_land_l; [done|]. apply is_u32_not32. }
  assert (is_u32 (Z.lor (cap_effective (current s)) (Z.land (cap_permitted (current s)) CAP_FS_MASK)))
    by (apply is_u32_lor; [done|by apply is_u32_land_l]).
  assert (cap_le (Z.land (cap_effective (current s)) (not32 CAP_FS_MASK)) (cap_permitted (current s)))
    by (eapply cap_le_trans; [apply cap_le_land_l|done]).
  assert (cap_le (Z.lor (cap_effective (current s)) (Z.land (cap_permitted (current s)) CAP_FS_MASK))
    (cap_permitted (current s))) by auto with caps.
  unfold cap_task_post_setuid, cap_emulate_setxuid. unfold_monad.
  assert (is_u32 0) by done.
  split_tests; first
    [ eexists _, (cap_effective (current s)), (cap_permitted (current s)); rewrite Hid;
      split; [reflexivity|]; simpl
    | do 3 eexists; split; [reflexivity|]; simpl ]; (split; [|split; [|split; [|split]]]); auto with caps;
    intros Hf; exfalso; intuition congruence.
Qed.

Local Arguments Z.testbit : simpl never.

(** Runs a call symbolically: every test, capability check, set_user and
    post_setuid becomes a case. *)
Ltac run_call held procs :=
  unfold run, check, security_task_setuid, security_task_setgid, security_task_post_setuid, not_own;
  unfold_monad; simpl;
  repeat (first
    [ rewrite capable_spec by done
    | match goal with
      | |- context [if Z.testbit ?a ?b then _ else _] => destruct (Z.testbit a b) eqn:?
      | |- context [Z.eqb ?a ?b] => destruct (Z.eqb_spec a b)
      | |- context [set_user ?n ?d ?st] =>
          let A := fresh "A" in let G := fresh "G" in let C := fresh "C" in
          destruct (set_user_spec held procs n d st) as (? & ? & -> & G & A & [[-> C]|[-> C]]);
          [assumption|..]
      | |- context [cap_task_post_setuid ?a ?b ?c ?f ?st] =>
          let P := fresh "P" in
          destruct (post_setuid_spec a b c f st) as (? & ? & ? & -> & P);
          [simpl; try match goal with C : current _ = _ |- _ => rewrite C end; assumption|]
      | |- context [Z.ltb ?a ?b] => destruct (Z.ltb_spec a b)
      end ]; simpl).

Ltac close_own :=
  unfold own; first [ left; congruence | right; left; congruence | right; right; congruence ].

Ltac close_ids :=
  let H := fresh in intros H; first
    [ congruence
    | unfold ids_from; simpl; split; [close_own|]; split; [close_own|]; split; [close_own|];
      first [ left; close_own | right; congruence ] ].

Ltac close_caps :=
  first [ assumption
        | unfold caps_ok in *; simpl;
          repeat match goal with H : _ /\ _ |- _ => destruct H end; tauto ].

(** Every outcome of a call is a permitted step. *)
Ltac close_call :=
  unfold call_step; split;
  [ first [ assumption | match goal with A : acct _ _ _ |- _ => exact A end ]
  | split;
    [ first [ assumption | done ]
    | unfold task_step; simpl in *;
      try match goal with C : current _ = _ |- _ => rewrite C; unfold set_user_result; simpl end;
      try match goal with C : current _ = _, P : is_u32 _ /\ _ |- _ => rewrite C in P; simpl in P end;
      split; [close_caps|]; split; [first [apply cap_le_refl | tauto]|];
      split; [done|]; split; [close_ids|close_ids] ] ].

Lemma setreuid_step held procs ruid euid s :
  acct held procs s -> caps_ok (current s) ->
  call_step held procs s (run (sys_setreuid ruid euid) s).2.
Proof. intros Ha Hc. unfold sys_setreuid. run_call held procs; close_call. Qed.

Lemma setuid_step held procs uid s :
  acct held procs s -> caps_ok (current s) ->
  call_step held procs s (run (sys_setuid uid) s).2.
Proof. intros Ha Hc. unfold sys_setuid. run_call held procs; close_call. Qed.

Lemma setresuid_step held procs ruid euid suid s :
  acct held procs s -> caps_ok (current s) ->
  call_step held procs s (run (sys_setresuid ruid euid suid) s).2.
Proof. intros Ha Hc. unfold sys_setresuid. run_call held procs; close_call. Qed.

Lemma setfsuid_step held procs uid s :
  acct held procs s -> caps_ok (current s) ->
  call_step held procs s (run (sys_setfsuid uid) s).2.
Proof. intros Ha Hc. unfold sys_setfsuid. run_call held procs; close_call. Qed.

Lemma setregid_step held procs rgid egid s :
  acct held procs s -> caps_ok (current s) ->
  call_step held procs s (run (sys_setregid rgid egid) s).2.
Proof. intros Ha Hc. unfold sys_setregid. run_call held procs; close_call. Qed.

Lemma setgid_step held procs gid s :
  acct held procs s -> caps_ok (current s) ->
  call_step held procs s (run (sys_setgid gid) s).2.
Proof. intros Ha Hc. unfold sys_setgid. run_call held procs; close_call. Qed.

Lemma setresgid_step held procs rgid egid sgid s :
  acct held procs s -> caps_ok (current s) ->
  call_step held procs s (run (sys_setresgid rgid egid sgid) s).2.
Proof. intros Ha Hc. unfold sys_setresgid. run_call held procs; close_call. Qed.

Lemma setfsgid_step held procs gid s :
  acct held procs s -> caps_ok (current s) ->
  call_step held procs s (run (sys_setfsgid gid) s).2.
Proof. intros Ha Hc. unfold sys_setfsgid. run_call held procs; close_call. Qed.

Lemma set_keepcaps_step held procs k s :
  acct held procs s -> caps_ok (current s) ->
  call_step held procs s (run (prctl_set_keepcaps k) s).2.
Proof. intros Ha Hc. unfold prctl_set_keepcaps. run_call held procs; close_call. Qed.

Lemma capset_self_step held procs eff inh perm s :
  is_u32 eff -> is_u32 inh -> is_u32 perm ->
  acct held procs s -> caps_ok (current s) ->
  call_step held procs s (run (sys_capset (self_request eff inh perm)) s).2.
Proof.
  intros He Hi Hp Ha Hc. assert (Hids : forall i, ids_from i i) by (intros i; unfold ids_from, own; tauto).
  destruct (capset_self_spec eff inh perm s He Hi Hp Hc) as [[-> (A1 & A2 & A3)]|[-> _]]; simpl.
  - split; [done|]. split; [done|]. unfold task_step. simpl. split; [done|]. split; [|done].
    eapply cap_le_trans; [exact A2|]. auto with caps.
  - split; [done|]. split; [done|]. unfold task_step. auto with caps.
Qed.

(** ** Sequences of calls *)

(** The calls by which a task changes its own credentials. *)
Inductive id_call :=
| Setreuid (ruid euid : Z)
| Setuid (uid : Z)
| Setresuid (ruid euid suid : Z)
| Setfsuid (uid : Z)
| Setregid (rgid egid : Z)
| Setgid (gid : Z)
| Setresgid (rgid egid sgid : Z)
| Setfsgid (gid : Z)
| Capset (eff inh perm : Z)
| SetKeepcaps (arg2 : Z).

Definition do_call (c : id_call) : M Z :=
  match c with
  | Setreuid r e => sys_setreuid r e
  | Setuid u => sys_setuid u
  | Setresuid r e s => sys_setresuid r e s
  | Setfsuid u => sys_setfsuid u
  | Setregid r e => sys_setregid r e
  | Setgid g => sys_setgid g
  | Setresgid r e s => sys_setresgid r e s
  | Setfsgid g => sys_setfsgid g
  | Capset e i p => sys_capset (self_request (u32 e) (u32 i) (u32 p))
  | SetKeepcaps k => prctl_set_keepcaps k
  end.

Definition run_calls (cs : list id_call) (s : kern) : kern :=
  fold_left (fun s c => (run (do_call c) s).2) cs s.

Lemma do_call_step held procs c s :
  acct held procs s -> caps_ok (current s) -> call_step held procs s (run (do_call c) s).2.
Proof.
  intros Ha Hc. destruct c; simpl; eauto using setreuid_step, setuid_step, setresuid_step,
    setfsuid_step, setregid_step, setgid_step, setresgid_step, setfsgid_step, set_keepcaps_step,
    capset_self_step, u32_range.
Qed.

(** [run_calls] keeps any property of current that every permitted step keeps. *)
Lemma run_calls_ind held procs (P : kern -> Prop) cs s :
  (forall s s', P s -> acct held procs s -> caps_ok (current s) -> call_step held procs s s' -> P s') ->
  P s -> acct held procs s -> caps_ok (current s) ->
  P (run_calls cs s) /\ acct held procs (run_calls cs s) /\ caps_ok (current (run_calls cs s)).
Proof.
  intros Hstep. revert s. induction cs as [|c cs IH]; intros s HP Ha Hc; [done|].
  simpl. pose proof (do_call_step held procs c s Ha Hc) as Hs. apply IH.
  - eauto.
  - apply Hs.
  - apply Hs.
Qed.


Lemma ids_from_trans i0 i1 i2 : ids_from i0 i1 -> ids_from i1 i2 -> ids_from i0 i2.
Proof.
  unfold ids_from, own. intros (A1 & A2 & A3 & A4) (B1 & B2 & B3 & B4).
  repeat split.
  - destruct B1 as [->|[->| ->]]; auto.
  - destruct B2 as [->|[->| ->]]; auto.
  - destruct B3 as [->|[->| ->]]; auto.
  - destruct B4 as [B4|B4]; [destruct B4 as [->|[->| ->]]|rewrite B4]; auto.
Qed.

Lemma run_calls_permitted held procs cs s :
  acct held procs s -> caps_ok (current s) ->
  cap_le (cap_permitted (current (run_calls cs s))) (cap_permitted (current s)).
Proof.
  intros Ha Hc.
  apply (run_calls_ind held procs
    (fun s' => cap_le (cap_permitted (current s')) (cap_permitted (current s))) cs s); auto with caps.
  intros s1 s2 H1 _ _ (_ & _ & _ & H2 & _). eauto using cap_le_trans.
Qed.

Lemma not_permitted_not_effective t c :
  0 <= c -> caps_ok t -> Z.testbit (cap_permitted t) c = false ->
  Z.testbit (cap_effective t) c = false.
Proof.
  intros Hc (_ & _ & _ & Hle) Hp. destruct (Z.testbit (cap_effective t) c) eqn:E; [|done].
  apply Hle in E; [congruence|done].
Qed.

Lemma run_calls_uids held procs cs s :
  acct held procs s -> caps_ok (current s) ->
  Z.testbit (cap_permitted (current s)) CAP_SETUID = false ->
  ids_from (uids (current s)) (uids (current (run_calls cs s))).
Proof.
  intros Ha Hc Hp.
  apply (run_calls_ind held procs (fun s' =>
    Z.testbit (cap_permitted (current s')) CAP_SETUID = false /\
    ids_from (uids (current s)) (uids (current s'))) cs s); [|split; [done|]|done|done].
  - intros s1 s2 [P1 I1] A1 C1 (_ & _ & _ & Hle & _ & Hu & _). split.
    + destruct (Z.testbit (cap_permitted (current s2)) CAP_SETUID) eqn:E; [|done].
      apply Hle in E; [congruence|done].
    + eapply ids_from_trans; [exact I1|]. apply Hu. by apply not_permitted_not_effective.
  - unfold ids_from, own. tauto.
Qed.

Lemma run_calls_gids held procs cs s :
  acct held procs s -> caps_ok (current s) ->
  Z.testbit (cap_permitted (current s)) CAP_SETGID = false ->
  ids_from (gids (current s)) (gids (current (run_calls cs s))).
Proof.
  intros Ha Hc Hp.
  apply (run_calls_ind held procs (fun s' =>
    Z.testbit (cap_permitted (current s')) CAP_SETGID = false /\
    ids_from (gids (current s)) (gids (current s'))) cs s); [|split; [done|]|done|done].
  - intros s1 s2 [P1 I1] A1 C1 (_ & _ & _ & Hle & _ & _ & Hg). split.
    + destruct (Z.testbit (cap_permitted (current s2)) CAP_SETGID) eqn:E; [|done].
      apply Hle in E; [congruence|done].
    + eapply ids_from_trans; [exact I1|]. apply Hg. by apply not_permitted_not_effective.
  - unfold ids_from, own. tauto.
Qed.
