(* ===== verification/Privileges.v ===== *)
(** What the credential calls guarantee: dropped privileges stay dropped, an
    unprivileged task only permutes its ids, the results of the setuid family,
    sys_capset and exec. *)
From stdpp Require Import base gmap numbers option.
From Stdlib Require Import ZArith Lia.
From S2P Require Import Prelude Bitops Task Capability Setid.

Local Open Scope Z_scope.
Local Arguments Z.testbit : simpl never.
Local Arguments issecure : simpl never.

(** ** Dropping privileges *)

(** What a privileged setuid to another user leaves, by the keep_capabilities
    flag. *)
Lemma setuid_privileged held procs u s :
  acct held procs s -> caps_ok (current s) ->
  Z.testbit (cap_effective (current s)) CAP_SETUID = true ->
  issecure SECURE_NO_SETUID_FIXUP (securebits s) = false ->
  effective (uids (current s)) = 0 -> u <> 0 ->
  exists r s', run (sys_setuid u) s = (r, s') /\ acct held procs s' /\ caps_ok (current s') /\
    (r = - EAGAIN /\ uids (current s') = uids (current s) \/
     r = 0 /\ uids (current s') = {| real := u; effective := u; saved := u; fs := u |} /\
     cap_effective (current s') = 0 /\
     cap_permitted (current s') =
       (if keep_capabilities (current s) =? 0 then 0 else cap_permitted (current s)) /\
     cap_inheritable (current s') = cap_inheritable (current s)).
Proof.
  intros Ha Hc Hcap Hsec He Hu. pose proof (setuid_step held procs u s Ha Hc) as (A & _ & C & _).
  exists (run (sys_setuid u) s).1, (run (sys_setuid u) s).2.
  split; [by destruct (run (sys_setuid u) s)|]. split; [done|]. split; [done|].
  unfold sys_setuid, run, check, security_task_setuid, security_task_post_setuid,
    cap_task_post_setuid, cap_emulate_setxuid. unfold_monad. simpl.
  rewrite capable_spec by done. rewrite Hcap. simpl. rewrite He.
  replace (0 =? u) with false by (symmetry; apply Z.eqb_neq; lia).
  assert (Hs : forall x y, same_globals (set_current s x) y ->
    issecure SECURE_NO_SETUID_FIXUP (securebits y) = false).
  { intros x y G. destruct G as (_ & _ & _ & _ & -> & _). done. }
  destruct (Z.eqb_spec u (real (uids (current s)))) as [Er|Er]; simpl.
  - right. simpl. rewrite Hsec. simpl. rewrite <- Er.
    split_tests; try done; unfold with_saved, with_fs, with_effective; simpl; rewrite <- Er; done.
  - destruct (set_user_spec held procs u true (set_current s (set_superpriv (current s))))
      as (r & s1 & E & G & A1 & [[-> C1]|[-> C1]]); [done| |]; rewrite E; simpl.
    + right. simpl. rewrite (Hs _ _ G). simpl. rewrite C1.
      unfold set_user_result; simpl. split_tests; done.
    + left. by rewrite C1.
Qed.

(** ** The theorems *)

(** C16: a task without CAP_SETUID (CAP_SETGID) in its permitted set only permutes
    the ids it has, whatever sequence of set*uid, set*gid, capset and
    prctl(PR_SET_KEEPCAPS) calls it makes: real, effective and saved id stay among
    the initial three, the filesystem id among the initial four.  The permitted set
    never grows, the effective set stays inside it, and the per-user process and
    reference counts stay exact. *)
Theorem setid_confined held procs cs s :
  acct held procs s -> caps_ok (current s) ->
  let t := current s in
  let t' := current (run_calls cs s) in
  acct held procs (run_calls cs s) /\ caps_ok t' /\
  cap_le (cap_permitted t') (cap_permitted t) /\
  (Z.testbit (cap_permitted t) CAP_SETUID = false -> ids_from (uids t) (uids t')) /\
  (Z.testbit (cap_permitted t) CAP_SETGID = false -> ids_from (gids t) (gids t')).
Proof.
  intros Ha Hc t t'.
  destruct (run_calls_ind held procs (fun _ => True) cs s) as (_ & A & C); try done.
  split; [done|]. split; [done|]. split; [by apply (run_calls_permitted held procs)|].
  split; intros Hp; [by apply (run_calls_uids held procs)|by apply (run_calls_gids held procs)].
Qed.

(** A set-uid program of user 1000 run by user 500, and root. *)
Definition sample_task (r e sv perm : Z) : task :=
  {| pid := 77; uids := {| real := r; effective := e; saved := sv; fs := e |};
     gids := {| real := r; effective := e; saved := sv; fs := e |};
     cap_effective := perm; cap_inheritable := 0; cap_permitted := perm;
     keep_capabilities := 0; user := r; dumpable := 1; superpriv := false |}.

Definition sample_kern (r e sv perm : Z) : kern :=
  {| current := sample_task r e sv perm; others := ∅; groups := [];
     uidhash := {[ r := {| __count := 1; processes := 1 |} ]}; alloc_fails := [];
     rlim_nproc := 64; suid_dumpable := 0; securebits := 0; cap_bset := CAP_INIT_EFF_SET |}.

Lemma sample_acct r e sv perm : acct (fun _ => 0) (fun _ => 0) (sample_kern r e sv perm).
Proof.
  split; [done|]. split; [done|]. intros u. simpl. unfold share.
  destruct (Z.eqb_spec u r) as [->|Hne].
  - by rewrite lookup_singleton_eq.
  - by rewrite lookup_singleton_ne by congruence.
Qed.

Lemma sample_caps r e sv perm : is_u32 perm -> caps_ok (current (sample_kern r e sv perm)).
Proof. intros. split; [done|]. split; [done|]. split; [done|]. apply cap_le_refl. Qed.

Lemma setid_confined_witness :
  let s := sample_kern 500 1000 1000 0 in
  let s' := run_calls [Setreuid 1000 500; Setresuid 500 NOID 1000; Setuid 0; Setfsuid 0] s in
  uids (current s') = {| real := 500; effective := 500; saved := 1000; fs := 500 |} /\
  ids_from (uids (current s)) (uids (current s')).
Proof.
  intros s s'. split; [by vm_compute|].
  apply (setid_confined (fun _ => 0) (fun _ => 0)
    [Setreuid 1000 500; Setresuid 500 NOID 1000; Setuid 0; Setfsuid 0] s); [apply sample_acct| |done].
  by apply sample_caps.
Defined.

(** C17: dropping root is permanent.  When a task with effective uid 0 and
    CAP_SETUID calls setuid(u), u not 0, with keep_capabilities clear, either the
    call fails with -EAGAIN and the ids are unchanged, or all four uids are u and
    all capabilities are gone; after that no sequence of calls changes any uid or
    gives any capability back. *)
Theorem setuid_drop_is_permanent held procs u s cs :
  acct held procs s -> caps_ok (current s) ->
  Z.testbit (cap_effective (current s)) CAP_SETUID = true ->
  issecure SECURE_NO_SETUID_FIXUP (securebits s) = false ->
  effective (uids (current s)) = 0 -> u <> 0 -> keep_capabilities (current s) = 0 ->
  let '(r, s1) := run (sys_setuid u) s in
  r = - EAGAIN /\ uids (current s1) = uids (current s) \/
  r = 0 /\
  let t := current (run_calls cs s1) in
  uids t = {| real := u; effective := u; saved := u; fs := u |} /\
  cap_permitted t = 0 /\ cap_effective t = 0.
Proof.
  intros Ha Hc Hcap Hsec He Hu Hk.
  destruct (setuid_privileged held procs u s Ha Hc Hcap Hsec He Hu)
    as (r & s1 & -> & A & C & [[-> E]|(-> & Eu & Ee & Ep & _)]); [by left|right].
  rewrite Hk in Ep. simpl in Ep. split; [done|].
  destruct (run_calls_ind held procs (fun _ => True) cs s1) as (_ & _ & C'); try done.
  pose proof (run_calls_permitted held procs cs s1 A C) as Hp. rewrite Ep in Hp.
  pose proof C' as (He' & _ & Hp' & Hle). apply cap_le_empty in Hp; [|done].
  split; [|split; [done|rewrite Hp in Hle; by apply cap_le_empty]].
  pose proof (run_calls_uids held procs cs s1 A C ltac:(by rewrite Ep)) as Hi.
  rewrite Eu in Hi. destruct (uids (current (run_calls cs s1))).
  unfold ids_from, own in Hi. simpl in Hi. f_equal; intuition.
Qed.

Lemma setuid_drop_witness :
  let s := sample_kern 0 0 0 CAP_INIT_EFF_SET in
  let s1 := (run (sys_setuid 1000) s).2 in
  uids (current (run_calls [Setuid 0; Setresuid 0 0 0; Capset 1 1 1; Setfsuid 0] s1)) =
    {| real := 1000; effective := 1000; saved := 1000; fs := 1000 |}.
Proof.
  intros s. assert (E1 : (run (sys_setuid 1000) s).1 = 0) by (by vm_compute).
  pose proof (setuid_drop_is_permanent (fun _ => 0) (fun _ => 0) 1000 s
    [Setuid 0; Setresuid 0 0 0; Capset 1 1 1; Setfsuid 0] (sample_acct _ _ _ _)
    ltac:(by apply sample_caps) ltac:(by vm_compute) ltac:(by vm_compute) eq_refl ltac:(done) eq_refl)
    as H.
  destruct (run (sys_setuid 1000) s) as [r s1]. cbn [fst snd] in E1 |- *. subst r.
  destruct H as [[H _]|[_ [H _]]]; [discriminate H|exact H].
Defined.

(** With keep_capabilities set, the same call keeps the permitted set but
    clears the effective set, although the comment of cap_emulate_setxuid says that
    both permitted and effective sets are retained. *)
Theorem keepcaps_clears_effective held procs u s :
  acct held procs s -> caps_ok (current s) ->
  Z.testbit (cap_effective (current s)) CAP_SETUID = true ->
  issecure SECURE_NO_SETUID_FIXUP (securebits s) = false ->
  effective (uids (current s)) = 0 -> u <> 0 -> keep_capabilities (current s) <> 0 ->
  let '(r, s1) := run (sys_setuid u) s in
  r = 0 -> cap_permitted (current s1) = cap_permitted (current s) /\ cap_effective (current s1) = 0.
Proof.
  intros Ha Hc Hcap Hsec He Hu Hk.
  destruct (setuid_privileged held procs u s Ha Hc Hcap Hsec He Hu)
    as (r & s1 & -> & A & C & [[-> E]|(-> & Eu & Ee & Ep & _)]); [done|].
  intros _. rewrite (proj2 (Z.eqb_neq _ _) Hk) in Ep. done.
Qed.

Lemma keepcaps_witness :
  let s := (run (prctl_set_keepcaps 1) (sample_kern 0 0 0 CAP_INIT_EFF_SET)).2 in
  let s1 := (run (sys_setuid 1000) s).2 in
  cap_permitted (current s1) = CAP_INIT_EFF_SET /\ cap_effective (current s1) = 0.
Proof.
  intros s. assert (E1 : (run (sys_setuid 1000) s).1 = 0) by (by vm_compute).
  pose proof (keepcaps_clears_effective (fun _ => 0) (fun _ => 0) 1000 s
    (sample_acct 0 0 0 CAP_INIT_EFF_SET) ltac:(by apply (sample_caps 0 0 0 CAP_INIT_EFF_SET))
    ltac:(by vm_compute) ltac:(by vm_compute) eq_refl ltac:(done) ltac:(done)) as H.
  assert (Ep : cap_permitted (current s) = CAP_INIT_EFF_SET) by done.
  destruct (run (sys_setuid 1000) s) as [r s1]. cbn [fst snd] in E1 |- *. rewrite <- Ep. exact (H E1).
Defined.

(** The id after a call: [x], or the old one when [x] is -1. *)
Definition pick (x old : Z) : Z := if x =? NOID then old else x.

(** Symbolic execution for the results: the outcome of set_user and of the
    capability fixup, then the ids by evaluation. *)
Ltac close_result :=
  simpl in *;
  try match goal with C : current _ = _ |- _ => rewrite C; unfold set_user_result; simpl end;
  try match goal with P : _ /\ _ /\ _ /\ _ /\ (_ -> ?r = 0) |- _ =>
    let E := fresh "E" in
    assert (E : r = 0) by (apply P; unfold LSM_SETID_RE, LSM_SETID_ID, LSM_SETID_RES; tauto);
    rewrite E; clear P E end;
  unfold with_real, with_effective, with_saved, with_fs; simpl;
  first
    [ split; [congruence|]; congruence
    | left; split; [congruence|]; f_equal; congruence
    | right; split; [congruence|]; split; [congruence|]; congruence
    | right; split; [congruence|]; split; [congruence|]; split; [congruence|]; congruence
    | congruence ].

Lemma setresuid_spec held procs r e u s :
  acct held procs s -> caps_ok (current s) ->
  let i := uids (current s) in
  let '(ret, s') := run (sys_setresuid r e u) s in
  let i' := uids (current s') in
  if Z.testbit (cap_effective (current s)) CAP_SETUID ||
     negb (not_own r i || not_own e i || not_own u i)
  then ret = 0 /\ i' = {| real := pick r (real i); effective := pick e (effective i);
                          saved := pick u (saved i); fs := pick e (effective i) |} \/
       ret = - EAGAIN /\ r <> NOID /\ r <> real i /\ i' = i
  else ret = - EPERM /\ s' = s.
Proof.
  intros Ha Hc i. unfold i, sys_setresuid, pick. clear i. run_call held procs; close_result.
Qed.

Lemma setreuid_spec held procs r e s :
  acct held procs s -> caps_ok (current s) ->
  let i := uids (current s) in
  let '(ret, s') := run (sys_setreuid r e) s in
  let i' := uids (current s') in
  if Z.testbit (cap_effective (current s)) CAP_SETUID ||
     (((r =? NOID) || (r =? real i) || (r =? effective i)) &&
      ((e =? NOID) || (e =? real i) || (e =? effective i) || (e =? saved i)))
  then ret = 0 /\
       i' = {| real := pick r (real i); effective := pick e (effective i);
               saved := if negb (r =? NOID) || (negb (e =? NOID) && negb (e =? real i))
                        then pick e (effective i) else saved i;
               fs := pick e (effective i) |} \/
       ret = - EAGAIN /\ r <> NOID /\ r <> real i /\ i' = i
  else ret = - EPERM /\ i' = i.
Proof.
  intros Ha Hc i. unfold i, sys_setreuid, pick. clear i.
  destruct (Z.testbit (cap_effective (current s)) CAP_SETUID) eqn:Hcap;
    run_call held procs; close_result.
Qed.

Lemma setuid_spec held procs u s :
  acct held procs s -> caps_ok (current s) ->
  let i := uids (current s) in
  let '(ret, s') := run (sys_setuid u) s in
  let i' := uids (current s') in
  if Z.testbit (cap_effective (current s)) CAP_SETUID
  then ret = 0 /\ i' = {| real := u; effective := u; saved := u; fs := u |} \/
       ret = - EAGAIN /\ u <> real i /\ i' = i
  else if (u =? real i) || (u =? saved i)
  then ret = 0 /\ i' = {| real := real i; effective := u; saved := saved i; fs := u |}
  else ret = - EPERM /\ s' = s.
Proof.
  intros Ha Hc i. unfold i, sys_setuid. clear i.
  destruct (Z.testbit (cap_effective (current s)) CAP_SETUID) eqn:Hcap;
    run_call held procs; close_result.
Qed.

(** The results of the setuid family.  setresuid succeeds exactly when the
    task has CAP_SETUID or every id given is one of its three, changes the ids
    given and makes the filesystem uid follow; setreuid updates the saved uid when
    the real uid is set or the effective uid becomes other than the old real uid;
    setuid sets all ids with CAP_SETUID and only the effective one without.  A
    refused call returns -EPERM and changes no id; -EAGAIN (the process limit of
    the new user, or no memory) changes no id either. *)
Theorem setuid_family_results held procs r e u s :
  acct held procs s -> caps_ok (current s) ->
  let i := uids (current s) in
  let privileged := Z.testbit (cap_effective (current s)) CAP_SETUID in
  (let '(ret, s') := run (sys_setresuid r e u) s in
   let i' := uids (current s') in
   if privileged || negb (not_own r i || not_own e i || not_own u i)
   then ret = 0 /\ i' = {| real := pick r (real i); effective := pick e (effective i);
                           saved := pick u (saved i); fs := pick e (effective i) |} \/
        ret = - EAGAIN /\ r <> NOID /\ r <> real i /\ i' = i
   else ret = - EPERM /\ s' = s) /\
  (let '(ret, s') := run (sys_setreuid r e) s in
   let i' := uids (current s') in
   if privileged ||
      (((r =? NOID) || (r =? real i) || (r =? effective i)) &&
       ((e =? NOID) || (e =? real i) || (e =? effective i) || (e =? saved i)))
   then ret = 0 /\
        i' = {| real := pick r (real i); effective := pick e (effective i);
                saved := if negb (r =? NOID) || (negb (e =? NOID) && negb (e =? real i))
                         then pick e (effective i) else saved i;
                fs := pick e (effective i) |} \/
        ret = - EAGAIN /\ r <> NOID /\ r <> real i /\ i' = i
   else ret = - EPERM /\ i' = i) /\
  (let '(ret, s') := run (sys_setuid u) s in
   let i' := uids (current s') in
   if privileged
   then ret = 0 /\ i' = {| real := u; effective := u; saved := u; fs := u |} \/
        ret = - EAGAIN /\ u <> real i /\ i' = i
   else if (u =? real i) || (u =? saved i)
   then ret = 0 /\ i' = {| real := real i; effective := u; saved := saved i; fs := u |}
   else ret = - EPERM /\ s' = s).
Proof.
  intros Ha Hc i privileged. split; [|split].
  - by apply (setresuid_spec held procs).
  - by apply (setreuid_spec held procs).
  - by apply (setuid_spec held procs).
Qed.

Lemma setuid_family_witness :
  let s := sample_kern 500 1000 1000 0 in
  (run (sys_setreuid 1000 500) s).1 = 0 /\
  uids (current (run (sys_setreuid 1000 500) s).2) =
    {| real := 1000; effective := 500; saved := 500; fs := 500 |}.
Proof.
  intros s.
  pose proof (setuid_family_results (fun _ => 0) (fun _ => 0) 1000 500 0 s (sample_acct _ _ _ _)
    ltac:(by apply sample_caps)) as (_ & H & _).
  assert (E : (run (sys_setreuid 1000 500) s).1 = 0) by (by vm_compute).
  destruct (run (sys_setreuid 1000 500) s) as [r s']. cbn [fst snd] in E |- *. subst r.
  split; [done|]. destruct H as [[_ H]|[H _]]; [exact H|discriminate H].
Defined.
