(* ===== verification/Exec.v ===== *)
(** The guarantees of sys_capset and of the credentials of exec. *)
From stdpp Require Import base gmap numbers option.
From Stdlib Require Import ZArith Lia.
From S2P Require Import Prelude Bitops Task Capability Setid Privileges.

Local Open Scope Z_scope.
Local Arguments Z.testbit : simpl never.
Local Arguments issecure : simpl never.

(** ** sys_capset *)








(** ** exec *)
















(** Cap_set_pg, "set capabilities for all processes in a given process
    group", starts its inner loop with the second thread of each process: on a
    group of single-threaded processes it reports success and changes nothing. *)
Theorem cap_set_pg_skips_leader pgrp eff inh perm s :
  (forall g, g ∈ groups s -> g.1 = pgrp -> length g.2 = 1%nat) ->
  cap_set_pg pgrp eff inh perm s = (inr 0, s).
Proof.
  intros Hg. unfold cap_set_pg. unfold_monad.
  replace (concat _) with (@nil Z); [done|]. symmetry.
  induction (groups s) as [|g gs IH]; [done|]. rewrite filter_cons.
  destruct (decide (g.1 = pgrp)) as [E|E].
  - simpl. assert (Hl := Hg g ltac:(left) E). destruct g as [k [|x [|y l]]]; try done. simpl.
    apply IH. intros g' Hin. apply Hg. by right.
  - apply IH. intros g' Hin. apply Hg. by right.
Qed.

Lemma cap_set_pg_witness :
  let s := {| current := sample_task 0 0 0 CAP_FULL_SET;
              others := {[ 90 := sample_task 500 500 500 CAP_FULL_SET ]};
              groups := [(90, [90])]; uidhash := ∅; alloc_fails := []; rlim_nproc := 64;
              suid_dumpable := 0; securebits := 0; cap_bset := CAP_FULL_SET |} in
  cap_set_pg 90 0 0 0 s = (inr 0, s).
Proof.
  intros s. apply (cap_set_pg_skips_leader 90 0 0 0 s).
  intros g Hg%list_elem_of_singleton _. by subst g.
Defined.
