(* ===== verification/Groups.v ===== *)
(** Supplementary groups: struct group_info and the functions on it in
    kernel/sys.c.

    The gids are stored in pages of 1024, or in a small block inside the
    structure; the sort and the search only use the accessor GROUP_AT, so they are
    proved against an interface of indexed cells ([Cells]) that the structure
    implements. *)
From stdpp Require Import base list gmap numbers option sorting.
From Stdlib Require Import ZArith Lia.
From S2P Require Import Prelude Kmem Task Capability.

Local Open Scope Z_scope.

(** ** Indexed cells *)

(** What the sort and the search need of a store of gids: reading and writing the
    cell [i]; [None] is an access out of bounds. *)
Class Cells (S : Type) := {
  cell_get : S -> Z -> option Z;
  cell_set : S -> Z -> Z -> option S;
  cells_ok : S -> Prop;
  cells : S -> list Z
}.

Class CellsLaws (S : Type) `{!Cells S} : Prop := {
  cell_get_law : forall s i, cells_ok s -> 0 <= i < Z.of_nat (length (cells s)) ->
    cell_get s i = Some (cells s !!! Z.to_nat i);
  cell_set_law : forall s i v, cells_ok s -> 0 <= i < Z.of_nat (length (cells s)) ->
    exists s', cell_set s i v = Some s' /\ cells_ok s' /\
      cells s' = <[Z.to_nat i := v]> (cells s)
}.

Section operations.
Context {S : Type} `{!Cells S}.

(** The inner loop of groups_sort: moves larger elements one stride up. *)
Definition shift_body (tmp stride : Z) (st : S * Z * Z)
    : (S * Z * Z) + option (S * Z) :=
  let '(a, left_, right_) := st in
  if 0 <=? left_ then
    match cell_get a left_ with
    | None => inr None
    | Some v =>
        if tmp <? v then
          match cell_set a right_ v with
          | None => inr None
          | Some a => inl (a, left_ - stride, left_)
          end
        else inr (Some (a, right_))
    end
  else inr (Some (a, right_)).

Definition shift_loop (tmp stride : Z) (a : S) (left_ right_ : Z) : option (S * Z) :=
  mjoin (loop (Datatypes.S (Z.to_nat (left_ + 1))) (shift_body tmp stride) (a, left_, right_)).

Definition sort_insert (stride base : Z) (a : S) : option S :=
  let left_ := base in
  let right_ := left_ + stride in
  tmp ← cell_get a right_;
  '(a, right_) ← shift_loop tmp stride a left_ right_;
  cell_set a right_ tmp.

(** One pass: [for (base = 0; base < max; base++)]. *)
Definition sort_pass (gidsetsize stride : Z) (a : S) : option S :=
  for_each (sort_insert stride) (seqZ 0 (gidsetsize - stride)) a.

(** [for (stride = 1; stride < gidsetsize; stride = 3 * stride + 1);] *)
Definition first_stride (gidsetsize : Z) : option Z :=
  loop (Datatypes.S (Z.to_nat gidsetsize))
    (fun stride => if stride <? gidsetsize then inl (3 * stride + 1) else inr stride) 1.

Definition pass_body (gidsetsize : Z) (st : S * Z) : (S * Z) + option S :=
  let '(a, stride) := st in
  if stride =? 0 then inr (Some a)
  else match sort_pass gidsetsize stride a with
       | None => inr None
       | Some a => inl (a, stride / 3)
       end.

Definition groups_sort (gidsetsize : Z) (a : S) : option S :=
  stride ← first_stride gidsetsize;
  let stride := stride / 3 in
  mjoin (loop (Datatypes.S (Z.to_nat stride)) (pass_body gidsetsize) (a, stride)).

(** The binary search; [cmp] is the difference converted to int. *)
Definition search_body (a : S) (grp : Z) (lr : Z * Z) : (Z * Z) + option Z :=
  let '(left_, right_) := lr in
  if left_ <? right_ then
    let mid := u32 (left_ + right_) / 2 in
    match cell_get a mid with
    | None => inr None
    | Some g =>
        let cmp := s32 (grp - g) in
        if 0 <? cmp then inl (u32 (mid + 1), right_)
        else if cmp <? 0 then inl (left_, mid)
        else inr (Some 1)
    end
  else inr (Some 0).

Definition groups_search (a : S) (ngroups grp : Z) : option Z :=
  mjoin (loop (Datatypes.S (Z.to_nat ngroups)) (search_body a grp) (0, ngroups)).

End operations.

(** ** Correctness of the sort *)

Section sort.
Context {S : Type} `{!Cells S} `{!CellsLaws S}.
Implicit Types (a : S).

(** Cell [i] of the array, by a Z index. *)
Definition at_ (l : list Z) (i : Z) : Z := l !!! Z.to_nat i.

Lemma at_insert_eq l i v : 0 <= i < Z.of_nat (length l) -> at_ (<[Z.to_nat i := v]> l) i = v.
Proof. intros. unfold at_. apply list_lookup_total_insert_eq. lia. Qed.

Lemma at_insert_ne l i j v : 0 <= i -> 0 <= j -> i <> j -> at_ (<[Z.to_nat i := v]> l) j = at_ l j.
Proof. intros. unfold at_. apply list_lookup_total_insert_ne. lia. Qed.

Lemma at_lookup l i : 0 <= i < Z.of_nat (length l) -> l !! Z.to_nat i = Some (at_ l i).
Proof. intros. unfold at_. apply list_lookup_lookup_total_lt. lia. Qed.

(** The array with [tmp] put back in the hole is a permutation of the array
    the loop started from; when the pass keeps a prefix sorted ([srt],
    stride 1) the elements outside of the hole stay sorted and those above it
    exceed [tmp]. *)
Definition shift_inv (srt : Prop) (l0 : list Z) (tmp stride top : Z) (a : S) (left_ right_ : Z) : Prop :=
  cells_ok a /\ right_ = left_ + stride /\ - stride <= left_ < Z.of_nat (length l0) - stride /\
  <[Z.to_nat right_ := tmp]> (cells a) ≡ₚ l0 /\
  (srt -> stride = 1 /\ right_ <= top /\
     (forall i j, 0 <= i < j -> j <= top -> i <> right_ -> j <> right_ ->
        at_ (cells a) i <= at_ (cells a) j) /\
     (forall j, right_ < j <= top -> tmp < at_ (cells a) j)).

Lemma shift_inv_length srt l0 tmp stride top a lf rt :
  shift_inv srt l0 tmp stride top a lf rt -> length (cells a) = length l0.
Proof. intros (_ & _ & _ & Hp & _). apply Permutation_length in Hp. by rewrite length_insert in Hp. Qed.

Lemma shift_step srt l0 tmp stride top a lf rt :
  0 < stride -> top < Z.of_nat (length l0) -> shift_inv srt l0 tmp stride top a lf rt -> 0 <= lf ->
  tmp < at_ (cells a) lf ->
  exists a', cell_set a rt (at_ (cells a) lf) = Some a' /\
    shift_inv srt l0 tmp stride top a' (lf - stride) lf.
Proof.
  intros Hst Htop Hinv Hlf Hgt. pose proof (shift_inv_length _ _ _ _ _ _ _ _ Hinv) as Hlen.
  destruct Hinv as (Hok & Hr & Hrange & Hperm & Hsort).
  destruct (cell_set_law a rt (at_ (cells a) lf) Hok) as (a' & E & Hok' & Ec); [lia|].
  exists a'. split; [done|]. unfold shift_inv. rewrite Ec.
  split; [done|]. split; [lia|]. split; [lia|]. split.
  - rewrite <- Hperm. symmetry.
    assert (Ei : <[Z.to_nat lf := tmp]> (<[Z.to_nat rt := at_ (cells a) lf]> (cells a)) =
      <[Z.to_nat lf := tmp]> (<[Z.to_nat rt := at_ (cells a) lf]> (<[Z.to_nat rt := tmp]> (cells a))))
      by (by rewrite list_insert_insert_eq).
    rewrite Ei. symmetry. apply list_swap_Permutation.
    + rewrite list_lookup_insert_ne by lia. apply at_lookup. lia.
    + apply list_lookup_insert_eq. lia.
  - intros Hs. destruct (Hsort Hs) as (-> & Hrt & Hord & Hbig). split; [done|]. split; [lia|]. split.
    + intros i j Hij Hj Hi' Hj'.
      destruct (decide (j = rt)) as [->|Hjr].
      * rewrite at_insert_eq, at_insert_ne by lia. apply Hord; lia.
      * rewrite (at_insert_ne _ rt j) by lia.
        destruct (decide (i = rt)) as [->|Hir].
        -- rewrite at_insert_eq by lia. apply Hord; lia.
        -- rewrite at_insert_ne by lia. apply Hord; lia.
    + intros j Hj. destruct (decide (j = rt)) as [->|Hjr].
      * rewrite at_insert_eq by lia. done.
      * rewrite at_insert_ne by lia. apply Hbig. lia.
Qed.

(** The end of the loop: everything below the hole is at most [tmp]. *)
Lemma shift_loop_spec srt l0 tmp stride top a lf rt :
  0 < stride -> top < Z.of_nat (length l0) -> shift_inv srt l0 tmp stride top a lf rt ->
  exists a' rt', shift_loop tmp stride a lf rt = Some (a', rt') /\
    shift_inv srt l0 tmp stride top a' (rt' - stride) rt' /\ 0 <= rt' /\
    (srt -> forall i, 0 <= i < rt' -> at_ (cells a') i <= tmp).
Proof.
  intros Hst Htop Hinv0. unfold shift_loop.
  destruct (loop_total (shift_body tmp stride)
    (fun '(a, lf, rt) => shift_inv srt l0 tmp stride top a lf rt)
    (fun r => exists a' rt', r = Some (a', rt') /\
       shift_inv srt l0 tmp stride top a' (rt' - stride) rt' /\ 0 <= rt' /\
       (srt -> forall i, 0 <= i < rt' -> at_ (cells a') i <= tmp))
    (fun '(_, lf, _) => Z.to_nat (lf + 1))) with
    (fuel := Datatypes.S (Z.to_nat (lf + 1))) (s := (a, lf, rt)) as (r & -> & Hr); [|done|lia|].
  2:{ destruct Hr as (a' & rt' & -> & H). by exists a', rt'. }
  clear a lf rt Hinv0. intros [[a lf] rt] Hinv. simpl.
  pose proof (shift_inv_length _ _ _ _ _ _ _ _ Hinv) as Hlen.
  pose proof Hinv as (Hok & Hr & Hrange & Hperm & Hsort).
  destruct (Z.leb_spec 0 lf) as [Hlf|Hlf].
  - rewrite cell_get_law by (done || lia). fold (at_ (cells a) lf).
    destruct (Z.ltb_spec tmp (at_ (cells a) lf)) as [Hgt|Hle].
    + destruct (shift_step srt l0 tmp stride top a lf rt Hst Htop Hinv Hlf Hgt) as (a' & -> & Hinv').
      split; [done|]. lia.
    + exists a, rt. split; [done|]. replace (rt - stride) with lf by lia. split; [done|].
      split; [lia|]. intros Hs. destruct (Hsort Hs) as (-> & Hrt & Hord & _). intros i Hi.
      destruct (decide (i = lf)) as [->|Hne]; [done|].
      etrans; [apply (Hord i lf); lia|done].
  - exists a, rt. split; [done|]. replace (rt - stride) with lf by lia. split; [done|].
    split; [lia|]. intros Hs. destruct (Hsort Hs) as (-> & _). lia.
Qed.

(** One insertion: a permutation, and for stride 1 the sorted prefix grows. *)
Definition prefix_sorted (l : list Z) (n : Z) : Prop :=
  forall i j, 0 <= i < j -> j < n -> at_ l i <= at_ l j.

Lemma sort_insert_spec stride base a :
  0 < stride -> 0 <= base -> base + stride < Z.of_nat (length (cells a)) -> cells_ok a ->
  exists a', sort_insert stride base a = Some a' /\ cells_ok a' /\ cells a' ≡ₚ cells a /\
    (stride = 1 -> prefix_sorted (cells a) (base + 1) -> prefix_sorted (cells a') (base + 2)).
Proof.
  intros Hst Hb Hlt Hok. unfold sort_insert. rewrite cell_get_law by (done || lia).
  fold (at_ (cells a) (base + stride)). set (tmp := at_ (cells a) (base + stride)). simpl.
  destruct (shift_loop_spec (stride = 1 /\ prefix_sorted (cells a) (base + 1)) (cells a) tmp stride
    (if stride =? 1 then base + 1 else -1) a base (base + stride)) as (a1 & rt & -> & Hinv & Hrt & Hlow);
    [done|destruct (Z.eqb_spec stride 1); lia| |].
  { split; [done|]. split; [done|]. split; [lia|]. split.
    - rewrite list_insert_id; [done|]. apply at_lookup. lia.
    - intros [-> Hp]. split; [done|]. split; [simpl; lia|]. split; [|simpl; lia].
      simpl. intros i j Hij Hj Hi' Hj'. apply Hp; lia. }
  simpl. pose proof (shift_inv_length _ _ _ _ _ _ _ _ Hinv) as Hlen.
  destruct Hinv as (Hok1 & _ & Hrange & Hperm & Hsort).
  destruct (cell_set_law a1 rt tmp Hok1) as (a2 & -> & Hok2 & E2); [lia|].
  exists a2. split; [done|]. split; [done|]. rewrite E2. split; [done|].
  intros -> Hp. destruct (Hsort (conj eq_refl Hp)) as (_ & Htop & Hord & Hbig). simpl in *.
  specialize (Hlow (conj eq_refl Hp)).
  intros i j Hij Hj. destruct (decide (j = rt)) as [->|Hjr].
  - rewrite at_insert_eq, at_insert_ne by lia. apply Hlow. lia.
  - rewrite (at_insert_ne _ rt j) by lia. destruct (decide (i = rt)) as [->|Hir].
    + rewrite at_insert_eq by lia. apply Z.lt_le_incl, Hbig. lia.
    + rewrite at_insert_ne by lia. apply Hord; lia.
Qed.

Lemma sort_pass_spec n stride a :
  0 < stride -> n = Z.of_nat (length (cells a)) -> cells_ok a ->
  exists a', sort_pass n stride a = Some a' /\ cells_ok a' /\ cells a' ≡ₚ cells a /\
    (stride = 1 -> prefix_sorted (cells a') n).
Proof.
  intros Hst Hn Hok. unfold sort_pass. destruct (Z.le_gt_cases n stride) as [Hle|Hgt].
  { exists a. rewrite seqZ_nil by lia. split; [done|]. split; [done|]. split; [done|].
    intros -> i j Hij Hj. lia. }
  destruct (for_up (sort_insert stride) (fun k a' => cells_ok a' /\ cells a' ≡ₚ cells a /\
    (stride = 1 -> prefix_sorted (cells a') (k + 1))) 0 (n - stride) a) as (a' & -> & Ha); [lia| | |].
  - split; [done|]. split; [done|]. intros _ i j Hij Hj. lia.
  - intros k a1 Hk (Hok1 & Hp1 & Hs1). pose proof (Permutation_length Hp1).
    destruct (sort_insert_spec stride k a1) as (a2 & -> & Hok2 & Hp2 & Hs2); [done|lia|lia|done|].
    exists a2. split; [done|]. split; [done|]. split; [by rewrite Hp2|]. intros E.
    replace (k + 1 + 1) with (k + 2) by lia. auto.
  - destruct Ha as (Ha1 & Ha2 & Ha3). exists a'. split; [done|]. split; [done|]. split; [done|].
    intros E. specialize (Ha3 E). by replace (0 + (n - stride) + 1) with n in Ha3 by lia.
Qed.

(** The strides: 1, 4, 13, 40, ... are the numbers whose thirds end in 1. *)
Inductive knuth : Z -> Prop :=
| knuth_1 : knuth 1
| knuth_next s : knuth s -> knuth (3 * s + 1).

Lemma knuth_pos s : knuth s -> 0 < s.
Proof. induction 1; lia. Qed.

Lemma knuth_div3 s : knuth s -> s / 3 = 0 /\ s = 1 \/ knuth (s / 3).
Proof.
  destruct 1 as [|s Hs]; [by left|right].
  replace ((3 * s + 1) / 3) with s; [done|]. apply Z.div_unique with 1; lia.
Qed.

Lemma first_stride_spec n : exists s, first_stride n = Some s /\ knuth s /\ (1 < n -> 1 < s).
Proof.
  unfold first_stride.
  destruct (loop_total (fun stride => if stride <? n then inl (3 * stride + 1) else inr stride)
    knuth (fun s => knuth s /\ (1 < n -> 1 < s)) (fun s => Z.to_nat (n - s)))
    with (fuel := Datatypes.S (Z.to_nat n)) (s := 1) as (s & -> & Hs); [|constructor|lia|].
  - intros s Hs. pose proof (knuth_pos s Hs). destruct (Z.ltb_spec s n); [split; [by constructor|lia]|].
    split; [done|lia].
  - exists s. done.
Qed.

(** groups_sort terminates, stays in bounds and sorts. *)
Lemma groups_sort_spec n a :
  n = Z.of_nat (length (cells a)) -> cells_ok a ->
  exists a', groups_sort n a = Some a' /\ cells_ok a' /\ cells a' ≡ₚ cells a /\
    prefix_sorted (cells a') n.
Proof.
  intros Hn Hok. unfold groups_sort. destruct (first_stride_spec n) as (s & -> & Hk & Hbig). simpl.
  destruct (loop_total (pass_body n)
    (fun '(a', st) => cells_ok a' /\ cells a' ≡ₚ cells a /\
       (knuth st \/ st = 0 /\ prefix_sorted (cells a') n))
    (fun r => exists a', r = Some a' /\ cells_ok a' /\ cells a' ≡ₚ cells a /\ prefix_sorted (cells a') n)
    (fun '(_, st) => Z.to_nat st)) with (fuel := Datatypes.S (Z.to_nat (s / 3))) (s := (a, s / 3))
    as (r & -> & a' & -> & Hr); [| |lia|by exists a'].
  - intros [a1 st] (Hok1 & Hp1 & Hst). simpl. pose proof (Permutation_length Hp1).
    destruct (Z.eqb_spec st 0) as [->|Hne].
    + exists a1. destruct Hst as [Hst%knuth_pos|[_ ?]]; [lia|done].
    + destruct Hst as [Hst|[? _]]; [|done]. pose proof (knuth_pos st Hst).
      destruct (sort_pass_spec n st a1) as (a2 & -> & Hok2 & Hp2 & Hs2); [done|lia|done|].
      split; [|div_lia]. split; [done|]. split; [by rewrite Hp2|].
      destruct (knuth_div3 st Hst) as [[-> ->]|?]; [right; auto|by left].
  - split; [done|]. split; [done|]. destruct (knuth_div3 s Hk) as [[-> ->]|?]; [|by left].
    right. split; [done|]. intros i j Hij Hj. destruct (Z.le_gt_cases n 1); [lia|]. lia.
Qed.
End sort.

(** ** Correctness of the search *)

Section search.
Context {S : Type} `{!Cells S} `{!CellsLaws S}.
Implicit Types (a : S).

(** A gid whose differences fit in an int. *)
Definition small_gid (g : Z) : Prop := 0 <= g < 2 ^ 31.

Lemma cmp_small x y : small_gid x -> small_gid y -> s32 (x - y) = x - y.
Proof. unfold small_gid. intros. apply s32_small. width_lia. Qed.

Lemma groups_search_spec n a grp :
  n = Z.of_nat (length (cells a)) -> n < 2 ^ 31 -> cells_ok a ->
  prefix_sorted (cells a) n -> Forall small_gid (cells a) -> small_gid grp ->
  groups_search a n grp = Some (if bool_decide (grp ∈ cells a) then 1 else 0).
Proof.
  intros Hn Hn31 Hok Hsort Hsmall Hgrp. unfold groups_search.
  assert (Hat : forall i, 0 <= i < n -> small_gid (at_ (cells a) i)).
  { intros i Hi. eapply Forall_forall; [exact Hsmall|]. eapply list_elem_of_lookup_2, at_lookup. lia. }
  destruct (loop_total (search_body a grp)
    (fun '(l, r) => 0 <= l /\ r <= n /\ l <= r /\
       (forall i, 0 <= i < l -> at_ (cells a) i < grp) /\
       (forall i, r <= i < n -> grp < at_ (cells a) i))
    (fun r => r = Some (if bool_decide (grp ∈ cells a) then 1 else 0))
    (fun '(l, r) => Z.to_nat (r - l))) with (fuel := Datatypes.S (Z.to_nat n)) (s := (0, n))
    as (r & -> & ->); [| |lia|done].
  2:{ split_and!; lia. }
  intros [l r] (Hl & Hr & Hlr & Hlow & Hhigh). unfold search_body.
  destruct (Z.ltb_spec l r) as [Hlt|Hge].
  2:{ rewrite bool_decide_false; [done|]. intros (i & Hi)%list_elem_of_lookup_1.
      pose proof (lookup_lt_Some _ _ _ Hi).
      assert (Ei : at_ (cells a) (Z.of_nat i) = grp)
        by (unfold at_; rewrite Nat2Z.id; by apply list_lookup_total_correct).
      destruct (Z.lt_ge_cases (Z.of_nat i) l).
      - specialize (Hlow (Z.of_nat i) ltac:(lia)). lia.
      - specialize (Hhigh (Z.of_nat i) ltac:(lia)). lia. }
  rewrite (u32_small (l + r)) by width_lia. set (mid := (l + r) / 2).
  assert (Hmid : l <= mid < r) by (unfold mid; div_lia).
  rewrite cell_get_law by (done || lia). fold (at_ (cells a) mid).
  rewrite cmp_small by (done || apply Hat; lia).
  destruct (Z.ltb_spec 0 (grp - at_ (cells a) mid)) as [Hpos|Hpos].
  { rewrite u32_small by width_lia. split; [|lia]. split_and!; [lia..| |done].
    intros i Hi. destruct (decide (i = mid)) as [->|]; [lia|].
    specialize (Hsort i mid ltac:(lia) ltac:(lia)). lia. }
  destruct (Z.ltb_spec (grp - at_ (cells a) mid) 0) as [Hneg|Hneg].
  { split; [|lia]. split_and!; [lia..|done|].
    intros i Hi. destruct (decide (i = mid)) as [->|]; [lia|].
    specialize (Hsort mid i ltac:(lia) ltac:(lia)). lia. }
  rewrite bool_decide_true; [done|]. eapply list_elem_of_lookup_2.
  rewrite (at_lookup (cells a) mid) by lia. f_equal. lia.
Qed.
End search.

(** ** struct group_info *)

Definition NGROUPS_SMALL : Z := 32.
Definition NGROUPS_PER_BLOCK : Z := 1024.   (* PAGE_SIZE / sizeof(gid_t) *)
Definition NGROUPS_MAX : Z := 65536.

(** A pointer in blocks[]: the structure's own small block or a page. *)
Inductive block := SmallBlock | PageBlock (addr : Z) (data : list Z).

Record group_info := {
  gi_addr : Z;
  ngroups : Z;
  usage : Z;
  small_block : list Z;
  nblocks : Z;
  blocks : list block
}.

Definition block_data (gi : group_info) (b : block) : list Z :=
  match b with SmallBlock => small_block gi | PageBlock _ d => d end.

(** Stores into block number [k]. *)
Definition set_block (gi : group_info) (k : Z) (d : list Z) : option group_info :=
  b ← array_get (blocks gi) k;
  match b with
  | SmallBlock => Some {| gi_addr := gi_addr gi; ngroups := ngroups gi; usage := usage gi;
                          small_block := d; nblocks := nblocks gi; blocks := blocks gi |}
  | PageBlock p _ =>
      bs ← array_set (blocks gi) k (PageBlock p d);
      Some {| gi_addr := gi_addr gi; ngroups := ngroups gi; usage := usage gi;
              small_block := small_block gi; nblocks := nblocks gi; blocks := bs |}
  end.

Definition set_usage (gi : group_info) (u : Z) : group_info :=
  {| gi_addr := gi_addr gi; ngroups := ngroups gi; usage := u; small_block := small_block gi;
     nblocks := nblocks gi; blocks := blocks gi |}.

(** GROUP_AT(gi, i), read and written. *)
Definition GROUP_AT (gi : group_info) (i : Z) : option Z :=
  b ← array_get (blocks gi) (i / NGROUPS_PER_BLOCK);
  array_get (block_data gi b) (i mod NGROUPS_PER_BLOCK).

Definition GROUP_AT_set (gi : group_info) (i v : Z) : option group_info :=
  b ← array_get (blocks gi) (i / NGROUPS_PER_BLOCK);
  d ← array_set (block_data gi b) (i mod NGROUPS_PER_BLOCK) v;
  set_block gi (i / NGROUPS_PER_BLOCK) d.

(** Allocates the pages of a large structure; on failure the pages got so far
    come back for release. *)
Fixpoint alloc_pages (junk : Z -> list Z) (n : nat) (h : kmem)
    : (list block * kmem) + (list block * kmem) :=
  match n with
  | O => inr ([], h)
  | Datatypes.S n =>
      match kmalloc h with
      | (None, h) => inl ([], h)
      | (Some p, h) =>
          match alloc_pages junk n h with
          | inr (bs, h) => inr (PageBlock p (junk NGROUPS_PER_BLOCK) :: bs, h)
          | inl (bs, h) => inl (PageBlock p (junk NGROUPS_PER_BLOCK) :: bs, h)
          end
      end
  end.

(** free_page on each block. *)
Fixpoint free_pages (bs : list block) (h : kmem) : option kmem :=
  match bs with
  | [] => Some h
  | PageBlock p _ :: bs => h ← kfree p h; free_pages bs h
  | SmallBlock :: _ => None
  end.

Definition groups_alloc (junk : Z -> list Z) (gidsetsize : Z) (h : kmem)
    : option (option group_info * kmem) :=
  let n := (gidsetsize + NGROUPS_PER_BLOCK - 1) / NGROUPS_PER_BLOCK in
  let n := if n =? 0 then 1 else n in
  match kmalloc h with
  | (None, h) => Some (None, h)
  | (Some p, h) =>
      let mk bs := {| gi_addr := p; ngroups := gidsetsize; usage := 1;
                      small_block := junk NGROUPS_SMALL; nblocks := n; blocks := bs |} in
      if gidsetsize <=? NGROUPS_SMALL then Some (Some (mk [SmallBlock]), h)
      else match alloc_pages junk (Z.to_nat n) h with
           | inr (bs, h) => Some (Some (mk bs), h)
           | inl (bs, h) =>
               h ← free_pages (reverse bs) h;
               h ← kfree p h;
               Some (None, h)
           end
  end.

Definition groups_free (gi : group_info) (h : kmem) : option kmem :=
  b0 ← array_get (blocks gi) 0;
  h ← match b0 with
      | SmallBlock => Some h
      | PageBlock _ _ => free_pages (take (Z.to_nat (nblocks gi)) (blocks gi)) h
      end;
  kfree (gi_addr gi) h.

Definition get_group_info (gi : group_info) : group_info := set_usage gi (usage gi + 1).

(** Drops a reference; frees the structure with the last one. *)
Definition put_group_info (gi : group_info) (h : kmem) : option (group_info * kmem) :=
  let gi := set_usage gi (usage gi - 1) in
  if usage gi =? 0 then h ← groups_free gi h; Some (gi, h) else Some (gi, h).

(** User memory: the gids at [grouplist] that the task may access; an access
    past the end faults. *)
Fixpoint from_user_loop (user : list Z) (ks : list Z) (gi : group_info) (count : Z)
    : option (Z * group_info) :=
  match ks with
  | [] => Some (0, gi)
  | i :: ks =>
      let cp_count := Z.min NGROUPS_PER_BLOCK count in
      let off := i * NGROUPS_PER_BLOCK in
      match mem_read user off cp_count with
      | None => Some (- EFAULT, gi)
      | Some data =>
          b ← array_get (blocks gi) i;
          d ← mem_write (block_data gi b) 0 data;
          gi ← set_block gi i d;
          from_user_loop user ks gi (count - cp_count)
      end
  end.

Definition groups_from_user (gi : group_info) (user : list Z) : option (Z * group_info) :=
  from_user_loop user (seqZ 0 (nblocks gi)) gi (ngroups gi).

Fixpoint to_user_loop (gi : group_info) (ks : list Z) (user : list Z) (count : Z)
    : option (Z * list Z) :=
  match ks with
  | [] => Some (0, user)
  | i :: ks =>
      let cp_count := Z.min NGROUPS_PER_BLOCK count in
      let off := i * NGROUPS_PER_BLOCK in
      b ← array_get (blocks gi) i;
      data ← mem_read (block_data gi b) 0 cp_count;
      match mem_write user off data with
      | None => Some (- EFAULT, user)
      | Some user => to_user_loop gi ks user (count - cp_count)
      end
  end.

Definition groups_to_user (user : list Z) (gi : group_info) : option (Z * list Z) :=
  to_user_loop gi (seqZ 0 (nblocks gi)) user (ngroups gi).

(** ** group_info implements the cells *)

(** Lookups in a sequence of blocks of equal size. *)
Lemma concat_lookup (k : nat) (ls : list (list Z)) (i : nat) :
  (0 < k)%nat -> Forall (fun l => length l = k) ls ->
  concat ls !! i = (l ← ls !! (i / k)%nat; l !! (i mod k)%nat).
Proof.
  intros Hk Hall. revert i. induction Hall as [|l ls Hl _ IH]; intros i; [done|].
  cbn [concat]. destruct (decide (i < k)%nat) as [Hi|Hi].
  - rewrite lookup_app_l by lia. by rewrite Nat.div_small, Nat.mod_small.
  - rewrite lookup_app_r by lia. rewrite Hl, IH.
    assert (E1 : (i / k = Datatypes.S ((i - k) / k))%nat).
    { replace i with (i - k + 1 * k)%nat at 1 by lia. rewrite Nat.div_add by lia. lia. }
    assert (E2 : (i mod k = (i - k) mod k)%nat).
    { replace i with (i - k + 1 * k)%nat at 1 by lia. by rewrite Nat.Div0.mod_add. }
    by rewrite E1, E2.
Qed.

Lemma concat_length_eq (k : nat) (ls : list (list Z)) :
  Forall (fun l => length l = k) ls -> length (concat ls) = (length ls * k)%nat.
Proof. induction 1 as [|l ls Hl _ IH]; [done|]. cbn [concat length]. rewrite length_app. lia. Qed.

Lemma concat_insert (k : nat) (ls : list (list Z)) (i : nat) l v :
  (0 < k)%nat -> Forall (fun l => length l = k) ls -> ls !! (i / k)%nat = Some l ->
  concat (<[(i / k)%nat := <[(i mod k)%nat := v]> l]> ls) = <[i := v]> (concat ls).
Proof.
  intros Hk Hall Hl.
  assert (Hlen : length l = k) by (by eapply (Forall_lookup_1 (fun l => length l = k))).
  assert (Hq : (i / k < length ls)%nat) by (by eapply lookup_lt_Some).
  assert (Hi : (i < length (concat ls))%nat).
  { rewrite (concat_length_eq k) by done. pose proof (Nat.div_mod_eq i k).
    pose proof (Nat.mod_upper_bound i k ltac:(lia)). nia. }
  assert (Hall' : Forall (fun l => length l = k) (<[(i / k)%nat := <[(i mod k)%nat := v]> l]> ls)).
  { apply Forall_insert; [done|]. by rewrite length_insert. }
  apply list_eq. intros j. rewrite (concat_lookup k) by done.
  destruct (decide (i = j)) as [<-|Hne].
  - rewrite list_lookup_insert_eq by done. simpl.
    by rewrite !list_lookup_insert_eq by (done || (rewrite Hlen; apply Nat.mod_upper_bound; lia)).
  - rewrite (list_lookup_insert_ne (concat ls)) by done. rewrite (concat_lookup k) by done.
    destruct (decide (i / k = j / k)%nat) as [E|E].
    + rewrite <- E, list_lookup_insert_eq, Hl by done. simpl. apply list_lookup_insert_ne.
      pose proof (Nat.div_mod_eq i k). pose proof (Nat.div_mod_eq j k). intros Em. rewrite <- Em, <- E in *. lia.
    + by rewrite list_lookup_insert_ne by done.
Qed.

Definition is_page (b : block) : Prop :=
  match b with PageBlock _ d => length d = 1024%nat | SmallBlock => False end.

Definition gi_ok (gi : group_info) : Prop :=
  0 <= ngroups gi <= NGROUPS_MAX /\
  ( (ngroups gi <= NGROUPS_SMALL /\ blocks gi = [SmallBlock] /\ nblocks gi = 1 /\
     length (small_block gi) = 32%nat) \/
    (NGROUPS_SMALL < ngroups gi /\ Forall is_page (blocks gi) /\
     nblocks gi = Z.of_nat (length (blocks gi)) /\
     ngroups gi <= nblocks gi * NGROUPS_PER_BLOCK < ngroups gi + NGROUPS_PER_BLOCK) ).

(** All cells, and the gids: the first [ngroups] of them. *)
Definition all_cells (gi : group_info) : list Z := concat (map (block_data gi) (blocks gi)).
Definition gids_of (gi : group_info) : list Z := take (Z.to_nat (ngroups gi)) (all_cells gi).

Lemma pages_length gi : Forall is_page (blocks gi) ->
  Forall (fun l => length l = 1024%nat) (map (block_data gi) (blocks gi)).
Proof. intros H. apply Forall_fmap. eapply Forall_impl; [exact H|]. by intros []. Qed.

Lemma all_cells_length gi : gi_ok gi -> ngroups gi <= Z.of_nat (length (all_cells gi)).
Proof.
  unfold all_cells. intros (_ & [(Hs & -> & _ & Hl)|(_ & Hp & Hn & Hr)]).
  - simpl. rewrite app_nil_r, Hl. unfold NGROUPS_SMALL in Hs. lia.
  - rewrite (concat_length_eq 1024) by (by apply pages_length). rewrite length_map.
    unfold NGROUPS_PER_BLOCK in *. lia.
Qed.

Lemma gids_of_length gi : gi_ok gi -> Z.of_nat (length (gids_of gi)) = ngroups gi.
Proof.
  intros H. pose proof (all_cells_length gi H). unfold gids_of. rewrite length_take.
  destruct H as [? _]. lia.
Qed.

(** Block and offset of a cell. *)
Lemma cell_position gi i :
  gi_ok gi -> 0 <= i < ngroups gi ->
  exists b, blocks gi !! Z.to_nat (i / NGROUPS_PER_BLOCK) = Some b /\
    0 <= i / NGROUPS_PER_BLOCK /\
    (Z.to_nat (i mod NGROUPS_PER_BLOCK) < length (block_data gi b))%nat /\
    all_cells gi !! Z.to_nat i = block_data gi b !! Z.to_nat (i mod NGROUPS_PER_BLOCK).
Proof.
  intros Hok Hi. pose proof (Z.div_pos i NGROUPS_PER_BLOCK ltac:(lia) ltac:(done)).
  pose proof (Z.mod_pos_bound i NGROUPS_PER_BLOCK ltac:(done)).
  destruct Hok as (Hn & [(Hs & Eb & _ & Hl)|(_ & Hp & Hb & Hr)]).
  - unfold all_cells. rewrite Eb. unfold NGROUPS_SMALL, NGROUPS_PER_BLOCK in *.
    rewrite Z.div_small, Z.mod_small by lia. exists SmallBlock. split; [done|]. split; [done|].
    simpl. rewrite app_nil_r. split; [lia|done].
  - assert (Hq : (Z.to_nat (i / NGROUPS_PER_BLOCK) < length (blocks gi))%nat).
    { unfold NGROUPS_PER_BLOCK in *. div_lia. }
    destruct (lookup_lt_is_Some_2 _ _ Hq) as [b Eb]. exists b.
    pose proof (Forall_lookup_1 _ _ _ _ Hp Eb) as Hpb. split; [done|]. split; [done|]. split.
    + destruct b; [done|]. simpl in *. unfold NGROUPS_PER_BLOCK in *. lia.
    + unfold all_cells. rewrite (concat_lookup 1024) by (lia || by apply pages_length).
      rewrite list_lookup_fmap. unfold NGROUPS_PER_BLOCK in *.
      rewrite Z2Nat.inj_div in Eb by lia. rewrite Z2Nat.inj_mod by lia.
      change (Z.to_nat 1024) with 1024%nat in *. by rewrite Eb.
Qed.

#[export] Instance group_info_cells : Cells group_info := {
  cell_get := GROUP_AT;
  cell_set := GROUP_AT_set;
  cells_ok := gi_ok;
  cells := gids_of
}.

Lemma GROUP_AT_spec gi i :
  gi_ok gi -> 0 <= i < ngroups gi -> GROUP_AT gi i = all_cells gi !! Z.to_nat i.
Proof.
  intros Hok Hi. destruct (cell_position gi i Hok Hi) as (b & Eb & Hq & Hr & E).
  unfold GROUP_AT, array_get. rewrite (bool_decide_true (0 <= i / _)) by done. rewrite Eb. simpl.
  rewrite bool_decide_true by (apply Z.mod_pos_bound; done). by rewrite E.
Qed.

(** Replacing the data of one block. *)
Lemma set_block_spec gi k b d :
  gi_ok gi -> blocks gi !! Z.to_nat k = Some b -> 0 <= k -> length d = length (block_data gi b) ->
  exists gi', set_block gi k d = Some gi' /\ gi_ok gi' /\ ngroups gi' = ngroups gi /\
    usage gi' = usage gi /\ gi_addr gi' = gi_addr gi /\ nblocks gi' = nblocks gi /\
    map (block_data gi') (blocks gi') = <[Z.to_nat k := d]> (map (block_data gi) (blocks gi)).
Proof.
  intros Hok Eb Hk Hd. unfold set_block, array_get. rewrite bool_decide_true, Eb by done. simpl.
  pose proof (lookup_lt_Some _ _ _ Eb) as Hlt.
  destruct b as [|p d0].
  - eexists. split; [done|]. destruct Hok as (Hn & [(Hs & Ebs & Hnb & Hl)|(_ & Hp & _)]).
    2:{ by pose proof (Forall_lookup_1 _ _ _ _ Hp Eb). }
    split; [|split; [done|]; split; [done|]; split; [done|]; split; [done|]].
    + split; [done|]. left. simpl. split; [done|]. split; [done|]. split; [done|].
      simpl in Hd. lia.
    + simpl. rewrite Ebs in Hlt |- *. simpl in Hlt. assert (Z.to_nat k = 0%nat) as -> by lia. done.
  - rewrite array_set_Some by lia. simpl. eexists. split; [done|].
    split; [|split; [done|]; split; [done|]; split; [done|]; split; [done|]].
    + destruct Hok as (Hn & [(Hs & Ebs & Hnb & Hl)|(Hl & Hp & Hb & Hr)]).
      * rewrite Ebs in Eb. apply list_lookup_singleton_Some in Eb as [_ ?]. done.
      * split; [done|]. right. simpl. rewrite length_insert. split; [done|]. split; [|done].
        apply Forall_insert; [done|]. simpl. pose proof (Forall_lookup_1 _ _ _ _ Hp Eb) as H1.
        simpl in H1, Hd. congruence.
    + apply (list_fmap_insert (block_data gi) (blocks gi) (Z.to_nat k) (PageBlock p d)).
Qed.

#[export] Instance group_info_laws : CellsLaws group_info.
Proof.
  split; cbn [cell_get cell_set cells_ok cells group_info_cells].
  - intros gi i Hok Hi. rewrite gids_of_length in Hi by done. rewrite GROUP_AT_spec by done.
    unfold gids_of. rewrite list_lookup_total_alt, lookup_take_lt by lia.
    pose proof (all_cells_length gi Hok).
    destruct (lookup_lt_is_Some_2 (all_cells gi) (Z.to_nat i) ltac:(lia)) as [x ->]. done.
  - intros gi i v Hok Hi. rewrite gids_of_length in Hi by done.
    destruct (cell_position gi i Hok Hi) as (b & Eb & Hq & Hr & E).
    pose proof (Z.mod_pos_bound i NGROUPS_PER_BLOCK ltac:(done)).
    unfold GROUP_AT_set, array_get. rewrite bool_decide_true, Eb by done. simpl.
    rewrite array_set_Some by lia. simpl.
    destruct (set_block_spec gi (i / NGROUPS_PER_BLOCK) b
      (<[Z.to_nat (i mod NGROUPS_PER_BLOCK) := v]> (block_data gi b)) Hok Eb Hq)
      as (gi' & -> & Hok' & En & _ & _ & _ & Em); [by rewrite length_insert|].
    exists gi'. split; [done|]. split; [done|]. unfold gids_of. rewrite En.
    rewrite <- take_insert_lt by lia. f_equal. unfold all_cells. rewrite Em.
    destruct Hok as (Hn & [(Hs & Ebs & _ & Hl)|(_ & Hp & Hb & Hrg)]).
    + rewrite Ebs in *. unfold NGROUPS_SMALL, NGROUPS_PER_BLOCK in *.
      rewrite Z.div_small, Z.mod_small in * by lia. injection Eb as <-. simpl.
      by rewrite !app_nil_r.
    + unfold NGROUPS_PER_BLOCK in *. rewrite Z2Nat.inj_div, Z2Nat.inj_mod in * by lia.
      change (Z.to_nat 1024) with 1024%nat in *.
      apply concat_insert; [lia|by apply pages_length|]. by rewrite list_lookup_fmap, Eb.
Qed.
