(* ===== verification/GroupCalls.v ===== *)
(** The supplementary group system calls of kernel/sys.c on top of Groups:
    allocation and release, copying from and to user memory, sys_setgroups,
    sys_getgroups and the membership tests. *)
From stdpp Require Import base list gmap sets numbers option sorting.
From Stdlib Require Import ZArith Lia.
From S2P Require Import Prelude Kmem Task Capability Groups.

Local Open Scope Z_scope.

(** The heap and current->group_info. *)
Record gstate := { heap : kmem; cur_groups : group_info }.

(** Sorts, takes a reference, installs the structure and drops the old one; the
    result carries the reference of the caller too. *)
Definition set_current_groups (gi : group_info) (g : gstate) : option (Z * group_info * gstate) :=
  gi ← groups_sort (ngroups gi) gi;
  let gi := get_group_info gi in
  let old_info := cur_groups g in
  '(_, h) ← put_group_info old_info (heap g);
  Some (0, gi, {| heap := h; cur_groups := gi |}).

Definition sys_getgroups (gidsetsize : Z) (user : list Z) (g : gstate) : option (Z * list Z) :=
  if gidsetsize <? 0 then Some (- EINVAL, user)
  else
    let i := ngroups (cur_groups g) in
    if gidsetsize =? 0 then Some (i, user)
    else if gidsetsize <? i then Some (- EINVAL, user)
    else
      '(r, user) ← groups_to_user user (cur_groups g);
      Some (if r =? 0 then i else - EFAULT, user).

(** [user] is the caller's array; [gidsetsize] is the int argument. *)
Definition sys_setgroups (junk : Z -> list Z) (gidsetsize : Z) (user : list Z)
    (k : kern) (g : gstate) : option (Z * kern * gstate) :=
  match capable CAP_SETGID k with
  | (inl r, k) => Some (r, k, g)
  | (inr ok, k) =>
    if negb ok then Some (- EPERM, k, g)
    else if NGROUPS_MAX <? u32 gidsetsize then Some (- EINVAL, k, g)
    else
      '(gi, h) ← groups_alloc junk gidsetsize (heap g);
      let g := {| heap := h; cur_groups := cur_groups g |} in
      match gi with
      | None => Some (- ENOMEM, k, g)
      | Some gi =>
          '(retval, gi) ← groups_from_user gi user;
          if negb (retval =? 0) then
            '(_, h) ← put_group_info gi (heap g);
            Some (retval, k, {| heap := h; cur_groups := cur_groups g |})
          else
            '(retval, gi, g) ← set_current_groups gi g;
            '(gi, h) ← put_group_info gi (heap g);
            Some (retval, k, {| heap := h; cur_groups := gi |})
      end
  end.

Definition in_group_p (k : kern) (g : gstate) (grp : Z) : option Z :=
  if negb (grp =? fs (gids (current k)))
  then groups_search (cur_groups g) (ngroups (cur_groups g)) grp else Some 1.

Definition in_egroup_p (k : kern) (g : gstate) (grp : Z) : option Z :=
  if negb (grp =? effective (gids (current k)))
  then groups_search (cur_groups g) (ngroups (cur_groups g)) grp else Some 1.

(** ** Allocation *)

Definition page_addrs (bs : list block) : list Z :=
  omap (fun b => match b with PageBlock p _ => Some p | SmallBlock => None end) bs.

(** The blocks of memory a structure owns. *)
Definition addrs (gi : group_info) : gset Z :=
  {[ gi_addr gi ]} ∪ list_to_set (page_addrs (blocks gi)).

Section alloc.
Variable junk : Z -> list Z.
Hypothesis junk_length : forall n, length (junk n) = Z.to_nat n.

(** Fresh pages: distinct, not live before, live after. *)
Definition fresh_pages (bs : list block) (h h' : kmem) : Prop :=
  kmem_ok h' /\ Forall is_page bs /\ NoDup (page_addrs bs) /\
  (forall p, p ∈ page_addrs bs -> p ∉ live h) /\
  live h' = list_to_set (page_addrs bs) ∪ live h.

Lemma alloc_pages_spec n h :
  kmem_ok h ->
  match alloc_pages junk n h with
  | inr (bs, h') => length bs = n /\ fresh_pages bs h h'
  | inl (bs, h') => fresh_pages bs h h'
  end.
Proof.
  assert (Hnil : forall h, kmem_ok h -> fresh_pages [] h h).
  { intros h0 Hh. split; [done|]. split; [constructor|]. split; [constructor|].
    split; [set_solver|]. simpl. set_solver. }
  assert (Hcons : forall p bs h h1 h2, 0 < p -> p ∉ live h -> live h1 = {[p]} ∪ live h ->
    fresh_pages bs h1 h2 -> fresh_pages (PageBlock p (junk NGROUPS_PER_BLOCK) :: bs) h h2).
  { intros p bs h0 h1 h2 Hp Hn El (K & F & N & D & L). split; [done|].
    split; [constructor; [simpl; by rewrite junk_length|done]|].
    simpl. split; [constructor; [intros Hin; apply D in Hin; set_solver|done]|].
    split; [|rewrite L, El; set_solver].
    intros q Hq. apply elem_of_cons in Hq as [->|Hq]; [done|]. apply D in Hq. set_solver. }
  revert h. induction n as [|n IH]; intros h Hh; simpl; [by auto|].
  pose proof (kmalloc_spec h Hh) as Hm. destruct (kmalloc h) as [[p|] h1].
  - destruct Hm as (Hh1 & Hp & Hp' & El). specialize (IH h1 Hh1).
    destruct (alloc_pages junk n h1) as [[bs h2]|[bs h2]].
    + by eapply Hcons.
    + destruct IH as [Hl IH]. split; [simpl; lia|]. by eapply Hcons.
  - destruct Hm as [Hh1 El]. pose proof (Hnil h1 Hh1) as (K & F & N & D & L).
    split; [done|]. split; [done|]. split; [done|]. split; [set_solver|]. rewrite L, El. done.
Qed.
End alloc.

Lemma free_pages_spec bs h :
  kmem_ok h -> Forall is_page bs -> NoDup (page_addrs bs) ->
  (forall p, p ∈ page_addrs bs -> p ∈ live h) ->
  exists h', free_pages bs h = Some h' /\ kmem_ok h' /\
    live h' = (live h ∖ list_to_set (page_addrs bs)).
Proof.
  revert h. induction bs as [|[|p d] bs IH]; intros h Hh Hp Hn Hl; simpl.
  - exists h. split; [done|]. split; [done|]. set_solver.
  - by inversion Hp.
  - inversion Hp; subst. simpl in Hn. inversion Hn as [|? ? Hnp Hn']; subst.
    destruct (kfree_spec h p Hh) as (h1 & -> & Hh1 & El); [apply Hl; simpl; set_solver|]. simpl.
    destruct (IH h1 Hh1) as (h2 & -> & Hh2 & El2); [done|done| |].
    { intros q Hq. rewrite El. apply elem_of_difference. split; [apply Hl; simpl; set_solver|].
      set_solver. }
    exists h2. split; [done|]. split; [done|]. rewrite El2, El. set_solver.
Qed.

(** A structure that is allocated in the heap. *)
Definition owned (gi : group_info) (h : kmem) : Prop :=
  gi_ok gi /\ NoDup (gi_addr gi :: page_addrs (blocks gi)) /\ addrs gi ⊆ live h.

Lemma groups_free_spec gi h :
  kmem_ok h -> owned gi h ->
  exists h', groups_free gi h = Some h' /\ kmem_ok h' /\ live h' = (live h ∖ addrs gi).
Proof.
  intros Hh (Hok & Hnd & Hl). unfold groups_free, array_get, addrs in *.
  inversion Hnd as [|? ? Hna Hnp]; subst.
  destruct Hok as (Hn & [(Hs & Eb & Hnb & Hsl)|(Hs & Hp & Hnb & Hr)]).
  - rewrite Eb in *. simpl in *.
    destruct (kfree_spec h (gi_addr gi) Hh) as (h1 & -> & Hh1 & El); [set_solver|].
    exists h1. split; [done|]. split; [done|]. rewrite El. set_solver.
  - unfold NGROUPS_SMALL, NGROUPS_PER_BLOCK in *.
    destruct (blocks gi) as [|[|p d] bs] eqn:Eb; [simpl in *; lia|by inversion Hp|].
    rewrite Hnb, Nat2Z.id, take_ge by done. cbn [bool_decide]. simpl (_ !! _).
    cbn [mbind option_bind].
    destruct (free_pages_spec (PageBlock p d :: bs) h Hh Hp Hnp) as (h1 & E1 & Hh1 & El1).
    { intros q Hq. apply Hl. apply elem_of_union. right. by apply elem_of_list_to_set. }
    rewrite bool_decide_true by done. cbn [mbind option_bind]. rewrite E1. cbn [mbind option_bind].
    destruct (kfree_spec h1 (gi_addr gi) Hh1) as (h2 & E2 & Hh2 & El2).
    { rewrite El1. set_solver. }
    exists h2. split; [done|]. split; [done|]. rewrite El2, El1. set_solver.
Qed.

Section syscalls.
Variable junk : Z -> list Z.
Hypothesis junk_length : forall n, length (junk n) = Z.to_nat n.

Lemma page_addrs_reverse bs : page_addrs (reverse bs) ≡ₚ page_addrs bs.
Proof. unfold page_addrs. apply omap_Permutation, reverse_Permutation. Qed.

Lemma groups_alloc_spec n h :
  kmem_ok h -> 0 <= n <= NGROUPS_MAX ->
  exists r h', groups_alloc junk n h = Some (r, h') /\ kmem_ok h' /\
    match r with
    | None => live h' = live h
    | Some gi => owned gi h' /\ ngroups gi = n /\ usage gi = 1 /\ addrs gi ## live h /\
        live h' = addrs gi ∪ live h
    end.
Proof.
  intros Hh Hn. unfold groups_alloc.
  set (nb := (n + NGROUPS_PER_BLOCK - 1) / NGROUPS_PER_BLOCK).
  pose proof (kmalloc_spec h Hh) as Hm. destruct (kmalloc h) as [[p|] h1].
  2:{ destruct Hm as [Hh1 El]. do 2 eexists. done. }
  destruct Hm as (Hh1 & Hp & Hp' & El).
  destruct (Z.leb_spec n NGROUPS_SMALL) as [Hs|Hs].
  { do 2 eexists. split; [done|]. split; [done|]. unfold NGROUPS_SMALL, NGROUPS_PER_BLOCK in *.
    assert (Enb : (if nb =? 0 then 1 else nb) = 1).
    { unfold nb. destruct (Z.eqb_spec ((n + 1024 - 1) / 1024) 0); [done|]. div_lia. }
    unfold owned, addrs. simpl. split; [|split; [done|]; split; [done|]; split; set_solver].
    split; [|split; [|set_solver]].
    - split; [done|]. left. simpl. unfold NGROUPS_SMALL. split; [lia|]. split; [done|].
      split; [done|]. by rewrite junk_length.
    - constructor; [set_solver|constructor]. }
  pose proof (alloc_pages_spec junk junk_length (Z.to_nat (if nb =? 0 then 1 else nb)) h1 Hh1) as Ha.
  destruct (alloc_pages junk _ h1) as [[bs h2]|[bs h2]].
  - destruct Ha as (Hh2 & F & N & D & L).
    destruct (free_pages_spec (reverse bs) h2 Hh2) as (h3 & -> & Hh3 & L3).
    + by apply Forall_reverse.
    + by rewrite page_addrs_reverse.
    + intros q. rewrite page_addrs_reverse, L. set_solver.
    + simpl. rewrite page_addrs_reverse in L3.
      destruct (kfree_spec h3 p Hh3) as (h4 & -> & Hh4 & L4).
      { rewrite L3, L, El. apply elem_of_difference. split; [set_solver|].
        intros Hin%elem_of_list_to_set. apply D in Hin. set_solver. }
      simpl. do 2 eexists. split; [done|]. split; [done|]. rewrite L4, L3, L, El.
      assert (list_to_set (page_addrs bs) ## live h1).
      { intros q Hq%elem_of_list_to_set Hq'. by apply D in Hq. }
      set_solver.
  - destruct Ha as (Hlen & Hh2 & F & N & D & L). do 2 eexists. split; [done|]. split; [done|].
    unfold owned, addrs. simpl.
    assert (Hpn : p ∉ page_addrs bs) by (intros Hin; apply D in Hin; set_solver).
    split; [|split; [done|]; split; [done|]; split; [|set_solver]].
    2:{ intros q Hq Hq'. apply elem_of_union in Hq as [Hq|Hq]; [set_solver|].
        apply elem_of_list_to_set in Hq. apply D in Hq. set_solver. }
    split; [|split; [by constructor|set_solver]].
    split; [done|]. right. simpl. unfold NGROUPS_SMALL, NGROUPS_PER_BLOCK in *.
    assert (Hnb : 0 < nb) by (unfold nb; div_lia).
    rewrite Hlen. destruct (Z.eqb_spec nb 0); [lia|]. rewrite Z2Nat.id by lia.
    split; [lia|]. split; [done|]. split; [done|]. unfold nb. div_lia.
Qed.
End syscalls.

(** ** Copies between user memory and the blocks *)

Lemma cells_lookup gi j :
  gi_ok gi -> 0 <= j < ngroups gi ->
  all_cells gi !! Z.to_nat j =
    (l ← map (block_data gi) (blocks gi) !! Z.to_nat (j / NGROUPS_PER_BLOCK);
     l !! Z.to_nat (j mod NGROUPS_PER_BLOCK)).
Proof.
  intros Hok Hj. destruct (cell_position gi j Hok Hj) as (b & Eb & _ & _ & ->).
  by rewrite list_lookup_fmap, Eb.
Qed.

(** The block number [k] holds the cells it has to. *)
Lemma block_room gi k :
  gi_ok gi -> 0 <= k < nblocks gi ->
  exists b, blocks gi !! Z.to_nat k = Some b /\
    Z.min NGROUPS_PER_BLOCK (ngroups gi - k * NGROUPS_PER_BLOCK)
      <= Z.of_nat (length (block_data gi b)) /\
    0 <= ngroups gi - k * NGROUPS_PER_BLOCK /\
    (ngroups gi <= k * NGROUPS_PER_BLOCK + NGROUPS_PER_BLOCK <-> k = nblocks gi - 1).
Proof.
  intros (Hn & [(Hs & Eb & Hnb & Hl)|(Hs & Hp & Hnb & Hr)]) Hk;
    unfold NGROUPS_SMALL, NGROUPS_PER_BLOCK in *.
  - exists SmallBlock. assert (k = 0) as -> by lia. rewrite Eb. simpl. rewrite Hl.
    split; [done|]. lia.
  - destruct (lookup_lt_is_Some_2 (blocks gi) (Z.to_nat k) ltac:(lia)) as [b Ebk]. exists b.
    pose proof (Forall_lookup_1 _ _ _ _ Hp Ebk) as Hb. destruct b; [done|]. simpl in *.
    split; [done|]. lia.
Qed.

(** What the copy leaves: the same structure with other cells. *)
Definition same_shape (gi gi' : group_info) : Prop :=
  ngroups gi' = ngroups gi /\ usage gi' = usage gi /\ addrs gi' = addrs gi /\
  gi_addr gi' = gi_addr gi /\ page_addrs (blocks gi') = page_addrs (blocks gi) /\
  nblocks gi' = nblocks gi.

Lemma set_block_addrs gi k d gi' :
  set_block gi k d = Some gi' -> page_addrs (blocks gi') = page_addrs (blocks gi).
Proof.
  unfold set_block, array_get. case_bool_decide; [|done].
  destruct (blocks gi !! Z.to_nat k) as [[|p d0]|] eqn:E; simpl; [by intros [= <-]| |done].
  unfold array_set. case_bool_decide; simpl; [|done]. intros [= <-]. simpl.
  clear -E. revert k E. generalize (blocks gi). intros bs k. generalize (Z.to_nat k) as n.
  induction bs as [|b bs IH]; intros [|n]; simpl; try done.
  - by intros [= ->].
  - intros E. unfold page_addrs in *. destruct b; simpl; by rewrite IH.
Qed.

Lemma set_block_shape gi k b d :
  gi_ok gi -> blocks gi !! Z.to_nat k = Some b -> 0 <= k -> length d = length (block_data gi b) ->
  exists gi', set_block gi k d = Some gi' /\ gi_ok gi' /\ same_shape gi gi' /\
    map (block_data gi') (blocks gi') = <[Z.to_nat k := d]> (map (block_data gi) (blocks gi)).
Proof.
  intros Hok Eb Hk Hd.
  destruct (set_block_spec gi k b d Hok Eb Hk Hd) as (gi' & E & Hok' & En & Eu & Ea & Enb & Em).
  exists gi'. pose proof (set_block_addrs _ _ _ _ E) as Ep. split; [done|]. split; [done|].
  split; [|done]. unfold same_shape, addrs. rewrite Ea, Ep. done.
Qed.

Lemma same_shape_refl gi : same_shape gi gi.
Proof. done. Qed.

Lemma same_shape_trans g1 g2 g3 : same_shape g1 g2 -> same_shape g2 g3 -> same_shape g1 g3.
Proof. unfold same_shape. intuition congruence. Qed.

Lemma from_user_spec user (m : nat) k gi count :
  gi_ok gi -> 0 <= k -> nblocks gi = k + Z.of_nat m ->
  count = (if decide (m = 0)%nat then 0 else ngroups gi - k * NGROUPS_PER_BLOCK) ->
  let done := if decide (m = 0)%nat then ngroups gi else k * NGROUPS_PER_BLOCK in
  done <= Z.of_nat (length user) ->
  (forall j, 0 <= j < done -> all_cells gi !! Z.to_nat j = user !! Z.to_nat j) ->
  exists r gi', from_user_loop user (seqZ k (Z.of_nat m)) gi count = Some (r, gi') /\
    gi_ok gi' /\ same_shape gi gi' /\
    (r = 0 /\ ngroups gi <= Z.of_nat (length user) /\
       (forall j, 0 <= j < ngroups gi -> all_cells gi' !! Z.to_nat j = user !! Z.to_nat j) \/
     r = - EFAULT /\ Z.of_nat (length user) < ngroups gi).
Proof.
  revert k gi count. induction m as [|m IH]; intros k gi count Hok Hk Hnb Hc done Hd Hcells.
  { exists 0, gi. split; [done|]. split; [done|]. split; [apply same_shape_refl|]. left. auto. }
  destruct (decide (Datatypes.S m = 0)%nat); [done|]. subst count done.
  rewrite seqZ_cons by lia. cbn [from_user_loop].
  destruct (block_room gi k Hok ltac:(lia)) as (b & Eb & Hroom & Hcount & Hlast).
  set (cp := Z.min NGROUPS_PER_BLOCK (ngroups gi - k * NGROUPS_PER_BLOCK)) in *.
  assert (Hcp : 0 <= cp <= NGROUPS_PER_BLOCK) by (unfold cp, NGROUPS_PER_BLOCK in *; lia).
  destruct (Z.le_gt_cases (k * NGROUPS_PER_BLOCK + cp) (Z.of_nat (length user))) as [Hfit|Hno].
  2:{ unfold mem_read. rewrite bool_decide_false by lia. exists (- EFAULT), gi.
      split; [done|]. split; [done|]. split; [apply same_shape_refl|]. right.
      split; [done|]. unfold cp in Hno. lia. }
  destruct (mem_read user (k * NGROUPS_PER_BLOCK) cp) as [data|] eqn:Er.
  2:{ rewrite mem_read_Some in Er by (unfold NGROUPS_PER_BLOCK in *; lia). done. }
  pose proof (mem_read_length _ _ _ _ Er) as Ld.
  unfold array_get. rewrite bool_decide_true, Eb by done. simpl.
  destruct (mem_write (block_data gi b) 0 data) as [d|] eqn:Ew.
  2:{ rewrite mem_write_Some in Ew by lia. done. }
  pose proof (mem_write_length _ _ _ _ Ew) as Lw. simpl.
  destruct (set_block_shape gi k b d Hok Eb Hk Lw) as (gi1 & -> & Hok1 & Hs1 & Em). simpl.
  pose proof Hs1 as (En & _ & _ & _ & _ & Enb).
  replace (Z.pred (Z.of_nat (Datatypes.S m))) with (Z.of_nat m) by lia.
  rewrite <- Z.add_1_r.
  destruct (IH (k + 1) gi1 (ngroups gi - k * NGROUPS_PER_BLOCK - cp)) as (r & gi2 & -> & Hok2 & Hs2 & Hr);
    [done|lia|rewrite Enb; lia| | | |].
  - rewrite En. unfold cp. destruct (decide (m = 0)%nat); unfold NGROUPS_PER_BLOCK in *; lia.
  - rewrite En. unfold cp in Hfit. destruct (decide (m = 0)%nat); unfold NGROUPS_PER_BLOCK in *; lia.
  - rewrite En. intros j Hj.
    assert (Hj' : j < k * NGROUPS_PER_BLOCK + cp).
    { unfold cp in *. destruct (decide (m = 0)%nat); unfold NGROUPS_PER_BLOCK in *; lia. }
    rewrite cells_lookup by (done || unfold cp in *; lia). rewrite Em.
    destruct (decide (k * NGROUPS_PER_BLOCK <= j)) as [Hge|Hlt].
    + assert (Hq : j / NGROUPS_PER_BLOCK = k)
        by (symmetry; apply Z.div_unique with (j - k * NGROUPS_PER_BLOCK); unfold NGROUPS_PER_BLOCK in *; lia).
      assert (Hm : j mod NGROUPS_PER_BLOCK = j - k * NGROUPS_PER_BLOCK)
        by (symmetry; apply Z.mod_unique with k; unfold NGROUPS_PER_BLOCK in *; lia).
      rewrite Hq, Hm, list_lookup_insert_eq by (rewrite length_map; by eapply lookup_lt_Some).
      cbn [mbind option_bind]. rewrite (mem_write_lookup _ _ _ _ _ Ew), bool_decide_true by lia.
      rewrite Nat.sub_0_r, (mem_read_lookup _ _ _ _ _ Er) by lia. f_equal.
      unfold NGROUPS_PER_BLOCK in *. lia.
    + rewrite list_lookup_insert_ne.
      2:{ intros E. apply Z2Nat.inj in E; [|lia|apply Z.div_pos; [lia|done]].
          pose proof (Z.mul_div_le j NGROUPS_PER_BLOCK ltac:(done)). unfold NGROUPS_PER_BLOCK in *. lia. }
      rewrite <- cells_lookup by (done || unfold cp in *; lia). apply Hcells. lia.
  - exists r, gi2. split; [done|]. split; [done|]. split; [by eapply same_shape_trans|].
    rewrite En in Hr. done.
Qed.

Lemma groups_from_user_spec gi user :
  gi_ok gi ->
  exists r gi', groups_from_user gi user = Some (r, gi') /\ gi_ok gi' /\ same_shape gi gi' /\
    (r = 0 /\ ngroups gi <= Z.of_nat (length user) /\
       gids_of gi' = take (Z.to_nat (ngroups gi)) user \/
     r = - EFAULT /\ Z.of_nat (length user) < ngroups gi).
Proof.
  intros Hok. unfold groups_from_user.
  assert (Hnb : 0 < nblocks gi).
  { destruct Hok as (Hn & [(_ & _ & -> & _)|(Hs & _ & _ & Hr)]); [done|].
    unfold NGROUPS_SMALL, NGROUPS_PER_BLOCK in *. lia. }
  destruct (from_user_spec user (Z.to_nat (nblocks gi)) 0 gi (ngroups gi)) as (r & gi' & E & Hok' & Hs & Hr);
    [done|done|lia| | | |].
  - destruct (decide _); lia.
  - destruct (decide _); lia.
  - destruct (decide _); lia.
  - rewrite Z2Nat.id in E by lia.
    exists r, gi'. rewrite E. split; [done|]. split; [done|]. split; [done|].
    destruct Hr as [(-> & Hl & Hc)|Hr]; [left|by right]. split; [done|]. split; [done|].
    pose proof Hs as (En & _). unfold gids_of. rewrite En. pose proof (all_cells_length gi' Hok').
    apply list_eq. intros i. destruct (decide (i < Z.to_nat (ngroups gi))%nat) as [Hi|Hi].
    + rewrite !lookup_take_lt by done. specialize (Hc (Z.of_nat i) ltac:(lia)).
      by rewrite Nat2Z.id in Hc.
    + rewrite !lookup_take_ge by lia. done.
Qed.

(** The other direction: the user array gets the gids at its start. *)
Lemma to_user_spec gi user0 (m : nat) k user count :
  gi_ok gi -> 0 <= k -> nblocks gi = k + Z.of_nat m -> length user = length user0 ->
  count = (if decide (m = 0)%nat then 0 else ngroups gi - k * NGROUPS_PER_BLOCK) ->
  let done := if decide (m = 0)%nat then ngroups gi else k * NGROUPS_PER_BLOCK in
  done <= Z.of_nat (length user) ->
  (forall j, 0 <= j -> user !! Z.to_nat j =
     if bool_decide (j < done) then all_cells gi !! Z.to_nat j else user0 !! Z.to_nat j) ->
  exists r user', to_user_loop gi (seqZ k (Z.of_nat m)) user count = Some (r, user') /\
    (r = 0 /\ ngroups gi <= Z.of_nat (length user0) /\
       (forall j, 0 <= j -> user' !! Z.to_nat j =
          if bool_decide (j < ngroups gi) then all_cells gi !! Z.to_nat j
          else user0 !! Z.to_nat j) \/
     r = - EFAULT /\ Z.of_nat (length user0) < ngroups gi).
Proof.
  intros Hok. revert k user count. induction m as [|m IH];
    intros k user count Hk Hnb Hlen Hc done Hd Hcells.
  { exists 0, user. split; [done|]. left. rewrite <- Hlen. auto. }
  destruct (decide (Datatypes.S m = 0)%nat); [done|]. subst count done.
  rewrite seqZ_cons by lia. cbn [to_user_loop].
  destruct (block_room gi k Hok ltac:(lia)) as (b & Eb & Hroom & Hcount & Hlast).
  set (cp := Z.min NGROUPS_PER_BLOCK (ngroups gi - k * NGROUPS_PER_BLOCK)) in *.
  assert (Hcp : 0 <= cp <= NGROUPS_PER_BLOCK) by (unfold cp, NGROUPS_PER_BLOCK in *; lia).
  unfold array_get. rewrite bool_decide_true, Eb by done. cbn [mbind option_bind].
  destruct (mem_read (block_data gi b) 0 cp) as [data|] eqn:Er.
  2:{ rewrite mem_read_Some in Er by lia. done. }
  pose proof (mem_read_length _ _ _ _ Er) as Ld. cbn [mbind option_bind].
  destruct (mem_write user (k * NGROUPS_PER_BLOCK) data) as [u1|] eqn:Ew.
  2:{ exists (- EFAULT), user. split; [done|]. right. split; [done|]. rewrite <- Hlen.
      unfold mem_write in Ew. case_bool_decide as Hb; [done|].
      unfold cp, NGROUPS_PER_BLOCK in *. lia. }
  pose proof (mem_write_length _ _ _ _ Ew) as Lw.
  assert (Hfit : k * NGROUPS_PER_BLOCK + cp <= Z.of_nat (length user)).
  { unfold mem_write in Ew. case_bool_decide as Hb; [|done]. lia. }
  replace (Z.pred (Z.of_nat (Datatypes.S m))) with (Z.of_nat m) by lia. rewrite <- Z.add_1_r.
  apply IH; [lia|lia|congruence| | |].
  - unfold cp. destruct (decide (m = 0)%nat); unfold NGROUPS_PER_BLOCK in *; lia.
  - rewrite Lw. unfold cp in Hfit. destruct (decide (m = 0)%nat); unfold NGROUPS_PER_BLOCK in *; lia.
  - intros j Hj. set (done := if decide (m = 0)%nat then _ else _).
    assert (Hdone : done = k * NGROUPS_PER_BLOCK + cp).
    { unfold done, cp. destruct (decide (m = 0)%nat); unfold NGROUPS_PER_BLOCK in *; lia. }
    rewrite Hdone, (mem_write_lookup _ _ _ _ _ Ew), Ld, !Z2Nat.id by lia.
    destruct (decide (k * NGROUPS_PER_BLOCK <= j < k * NGROUPS_PER_BLOCK + cp)) as [Hin|Hout].
    + rewrite bool_decide_true, bool_decide_true by lia.
      rewrite cells_lookup by (done || unfold cp in *; lia).
      assert (Hq : j / NGROUPS_PER_BLOCK = k)
        by (symmetry; apply Z.div_unique with (j - k * NGROUPS_PER_BLOCK); unfold NGROUPS_PER_BLOCK in *; lia).
      assert (Hm : j mod NGROUPS_PER_BLOCK = j - k * NGROUPS_PER_BLOCK)
        by (symmetry; apply Z.mod_unique with k; unfold NGROUPS_PER_BLOCK in *; lia).
      rewrite Hq, Hm, list_lookup_fmap, Eb. simpl.
      rewrite (mem_read_lookup _ _ _ _ _ Er) by lia. f_equal. unfold NGROUPS_PER_BLOCK in *. lia.
    + rewrite bool_decide_false by lia. rewrite Hcells by lia.
      destruct (decide (j < k * NGROUPS_PER_BLOCK)).
      * by rewrite !bool_decide_true by lia.
      * by rewrite !bool_decide_false by lia.
Qed.

Lemma groups_to_user_spec gi user :
  gi_ok gi ->
  exists r user', groups_to_user user gi = Some (r, user') /\
    (r = 0 /\ ngroups gi <= Z.of_nat (length user) /\
       user' = gids_of gi ++ drop (Z.to_nat (ngroups gi)) user \/
     r = - EFAULT /\ Z.of_nat (length user) < ngroups gi).
Proof.
  intros Hok. unfold groups_to_user.
  assert (Hnb : 0 < nblocks gi).
  { destruct Hok as (Hn & [(_ & _ & -> & _)|(Hs & _ & _ & Hr)]); [done|].
    unfold NGROUPS_SMALL, NGROUPS_PER_BLOCK in *. lia. }
  destruct (to_user_spec gi user (Z.to_nat (nblocks gi)) 0 user (ngroups gi)) as (r & user' & E & Hr);
    [done|done|lia|done| | | |].
  - destruct (decide _); lia.
  - destruct (decide _); lia.
  - intros j Hj. destruct (decide _); [lia|]. by rewrite bool_decide_false by lia.
  - rewrite Z2Nat.id in E by lia. exists r, user'. rewrite E. split; [done|].
    destruct Hr as [(-> & Hl & Hc)|Hr]; [left|by right]. split; [done|]. split; [done|].
    pose proof (gids_of_length gi Hok) as Hgl. destruct Hok as [Hn _].
    apply list_eq. intros i. specialize (Hc (Z.of_nat i) ltac:(lia)). rewrite Nat2Z.id in Hc.
    rewrite Hc. case_bool_decide.
    + rewrite lookup_app_l by lia. unfold gids_of. by rewrite lookup_take_lt by lia.
    + rewrite lookup_app_r by lia. rewrite lookup_drop. f_equal. lia.
Qed.

(** Sorting keeps the structure: the cells are exchanged in place. *)
Definition framed_cells (gi0 : group_info) : Cells group_info :=
  {| cell_get := GROUP_AT; cell_set := GROUP_AT_set;
     cells_ok := fun gi => gi_ok gi /\ same_shape gi0 gi; cells := gids_of |}.

Lemma framed_laws gi0 : @CellsLaws group_info (framed_cells gi0).
Proof.
  split; cbn [cell_get cell_set cells_ok cells framed_cells].
  - intros gi i [Hok _]. apply (@cell_get_law group_info group_info_cells group_info_laws gi i Hok).
  - intros gi i v [Hok Hs] Hi.
    pose proof (@cell_set_law group_info group_info_cells group_info_laws gi i v Hok Hi) as (gi' & E & Hok' & Ec).
    exists gi'. split; [done|]. split; [|done]. split; [done|].
    eapply same_shape_trans; [exact Hs|]. cbn in E. unfold GROUP_AT_set in E.
    destruct (array_get (blocks gi) (i / NGROUPS_PER_BLOCK)) as [b|] eqn:Eb; [|done]. cbn in E.
    destruct (array_set (block_data gi b) (i mod NGROUPS_PER_BLOCK) v) as [d|] eqn:Ed; [|done].
    cbn in E. unfold array_get in Eb. case_bool_decide; [|done].
    destruct (set_block_shape gi (i / NGROUPS_PER_BLOCK) b d) as (gi2 & E2 & _ & Hs2 & _); try done.
    + unfold array_set in Ed. case_bool_decide; [|done]. injection Ed as <-. apply length_insert.
    + congruence.
Qed.

Lemma groups_sort_gi gi :
  gi_ok gi ->
  exists gi', groups_sort (ngroups gi) gi = Some gi' /\ gi_ok gi' /\ same_shape gi gi' /\
    gids_of gi' ≡ₚ gids_of gi /\ prefix_sorted (gids_of gi') (ngroups gi).
Proof.
  intros Hok.
  destruct (@groups_sort_spec group_info (framed_cells gi) (framed_laws gi) (ngroups gi) gi)
    as (gi' & E & [Hok' Hs] & Hp & Hsort).
  - symmetry. by apply gids_of_length.
  - split; [done|apply same_shape_refl].
  - exists gi'. split; [exact E|]. done.
Qed.

(** ** The system calls *)

Lemma put_last gi h :
  kmem_ok h -> owned gi h -> usage gi = 1 ->
  exists gi' h', put_group_info gi h = Some (gi', h') /\ kmem_ok h' /\ live h' = (live h ∖ addrs gi).
Proof.
  intros Hh Ho Hu. unfold put_group_info. replace (usage gi - 1) with 0 by lia.
  change (usage (set_usage gi 0)) with 0. change (0 =? 0) with true. cbv iota zeta.
  destruct (groups_free_spec (set_usage gi 0) h Hh Ho) as (h' & E & Hh' & L).
  rewrite E. simpl. by do 2 eexists.
Qed.

Lemma put_shared gi h :
  1 < usage gi -> put_group_info gi h = Some (set_usage gi (usage gi - 1), h).
Proof.
  intros Hu. unfold put_group_info.
  change (usage (set_usage gi (usage gi - 1))) with (usage gi - 1). cbv zeta.
  by destruct (Z.eqb_spec (usage gi - 1) 0); [lia|].
Qed.

Lemma owned_shape gi gi' h : owned gi h -> gi_ok gi' -> same_shape gi gi' -> owned gi' h.
Proof.
  intros (_ & N & L) Hok (_ & _ & Ea & Eg & Ep & _). split; [done|]. rewrite Eg, Ep, Ea. done.
Qed.

Lemma set_current_groups_spec gi g :
  kmem_ok (heap g) -> owned gi (heap g) -> usage gi = 1 -> owned (cur_groups g) (heap g) ->
  0 < usage (cur_groups g) -> addrs gi ## addrs (cur_groups g) ->
  exists gi' g', set_current_groups gi g = Some (0, gi', g') /\ cur_groups g' = gi' /\
    kmem_ok (heap g') /\ owned gi' (heap g') /\ usage gi' = 2 /\ addrs gi' = addrs gi /\
    ngroups gi' = ngroups gi /\ gids_of gi' ≡ₚ gids_of gi /\
    prefix_sorted (gids_of gi') (ngroups gi) /\
    live (heap g') = (if decide (usage (cur_groups g) = 1)
                      then live (heap g) ∖ addrs (cur_groups g) else live (heap g)).
Proof.
  intros Hh Ho Hu Hc Huc Hdis. unfold set_current_groups.
  destruct (groups_sort_gi gi (proj1 Ho)) as (gi1 & -> & Hok1 & Hs1 & Hp1 & Hsort1). simpl.
  pose proof Hs1 as (En & Eu & Ea & Eg & Ep & _).
  pose proof (owned_shape gi gi1 _ Ho Hok1 Hs1) as Ho1.
  destruct (decide (usage (cur_groups g) = 1)) as [Eq|Hne].
  - destruct (put_last (cur_groups g) (heap g) Hh Hc Eq) as (o & h' & -> & Hh' & L). simpl.
    do 2 eexists. split; [done|]. split; [done|]. split; [done|]. split; [|split; [simpl; lia|]].
    + split; [done|]. split; [apply Ho1|]. simpl. rewrite L.
      change (addrs (get_group_info gi1)) with (addrs gi1). rewrite Ea.
      destruct Ho as (_ & _ & Hsub). set_solver.
    + done.
  - rewrite put_shared by lia. simpl. do 2 eexists. split; [done|]. split; [done|].
    split; [done|]. split; [exact Ho1|]. split; [simpl; lia|]. done.
Qed.

(** C20: sys_setgroups.  Without CAP_SETGID it returns -EPERM, for a size outside
    0..65536 -EINVAL, without memory -ENOMEM, for an array it cannot read -EFAULT;
    in all these cases the task keeps its groups and nothing is leaked.  Otherwise
    the task's groups are exactly the ones given, sorted, in a structure with one
    reference, the old structure has lost the task's reference (and is freed with the
    last one), and no access leaves a block. *)
Theorem setgroups_correct junk n user k g :
  (forall m, length (junk m) = Z.to_nat m) ->
  kmem_ok (heap g) -> owned (cur_groups g) (heap g) -> 0 < usage (cur_groups g) -> is_s32 n ->
  exists r k' g', sys_setgroups junk n user k g = Some (r, k', g') /\ kmem_ok (heap g') /\
    gids (current k') = gids (current k) /\
    ( r = 0 /\ Z.testbit (cap_effective (current k)) CAP_SETGID = true /\ 0 <= n <= NGROUPS_MAX /\
      n <= Z.of_nat (length user) /\
      owned (cur_groups g') (heap g') /\ usage (cur_groups g') = 1 /\ ngroups (cur_groups g') = n /\
      gids_of (cur_groups g') ≡ₚ take (Z.to_nat n) user /\
      prefix_sorted (gids_of (cur_groups g')) n /\
      live (heap g') = addrs (cur_groups g') ∪
        (if decide (usage (cur_groups g) = 1) then live (heap g) ∖ addrs (cur_groups g)
         else live (heap g))
      \/
      cur_groups g' = cur_groups g /\ live (heap g') = live (heap g) /\
      ( r = - EPERM /\ Z.testbit (cap_effective (current k)) CAP_SETGID = false \/
        r = - EINVAL /\ ~ 0 <= n <= NGROUPS_MAX \/
        r = - ENOMEM \/ r = - EFAULT /\ Z.of_nat (length user) < n ) ).
Proof.
  intros Hj Hh Ho Hu Hn. unfold sys_setgroups. rewrite capable_spec by done.
  destruct (Z.testbit (cap_effective (current k)) CAP_SETGID); simpl.
  2:{ do 3 eexists. split; [done|]. split; [done|]. split; [done|]. right. tauto. }
  destruct (Z.ltb_spec NGROUPS_MAX (u32 n)) as [Hbig|Hfit].
  { do 3 eexists. split; [done|]. split; [done|]. split; [done|]. right. split; [done|].
    split; [done|]. right. left. split; [done|]. intros Hr. unfold NGROUPS_MAX in *.
    rewrite u32_small in Hbig by width_lia. lia. }
  assert (Hn' : 0 <= n <= NGROUPS_MAX).
  { unfold NGROUPS_MAX in *. destruct (Z.le_gt_cases 0 n); [rewrite u32_small in Hfit by width_lia; lia|].
    exfalso. revert Hfit. unfold u32. rewrite <- (Z.mod_unique n U32_MOD (-1) (n + U32_MOD)); width_lia. }
  destruct (groups_alloc_spec junk Hj n (heap g) Hh Hn') as (r & h1 & -> & Hh1 & Hr). simpl.
  destruct r as [gi|].
  2:{ do 3 eexists. split; [done|]. split; [done|]. split; [done|]. right. tauto. }
  destruct Hr as (Ho1 & En & Eu & Hdis & L1).
  destruct (groups_from_user_spec gi user (proj1 Ho1)) as (r & gi2 & -> & Hok2 & Hs2 & Hcopy). simpl.
  pose proof Hs2 as (En2 & Eu2 & Ea2 & _). pose proof (owned_shape gi gi2 _ Ho1 Hok2 Hs2) as Ho2.
  destruct Hcopy as [(-> & Hlen & Hgids)|[-> Hlen]]; simpl.
  2:{ destruct (put_last gi2 h1 Hh1 Ho2 ltac:(lia)) as (o & h2 & -> & Hh2 & L2). simpl.
      do 3 eexists. split; [done|]. split; [done|]. split; [done|]. right. split; [done|].
      split; [|rewrite <- En; tauto]. simpl. rewrite L2, L1, Ea2. set_solver. }
  destruct (set_current_groups_spec gi2 {| heap := h1; cur_groups := cur_groups g |})
    as (gi3 & g3 & -> & Ec3 & Hh3 & Ho3 & Eu3 & Ea3 & En3 & Hp3 & Hs3 & L3); simpl;
    [done|done|lia| |done| |].
  { destruct Ho as (? & ? & ?). split; [done|]. split; [done|]. rewrite L1. set_solver. }
  { rewrite Ea2. destruct Ho as (_ & _ & Hsub). set_solver. }
  rewrite put_shared by lia. simpl. do 3 eexists. split; [done|]. split; [done|]. split; [done|].
  left. split; [done|]. split; [done|]. split; [done|]. split; [lia|]. simpl.
  split; [exact Ho3|]. split; [lia|]. split; [lia|].
  split; [change (gids_of gi3 ≡ₚ take (Z.to_nat n) user); by rewrite Hp3, Hgids, En|].
  split; [replace n with (ngroups gi2) by lia; exact Hs3|].
  change (addrs (set_usage gi3 (usage gi3 - 1))) with (addrs gi3). rewrite L3, Ea3, Ea2. simpl.
  rewrite L1. destruct Ho as (_ & _ & Hsub). destruct (decide _); set_solver.
Qed.

(** A task of root with an empty group structure. *)
Definition sample_groups : gstate :=
  {| heap := {| oom := []; live := {[ 5 ]}; fresh := 10 |};
     cur_groups := {| gi_addr := 5; ngroups := 0; usage := 1; small_block := replicate 32 0;
                      nblocks := 1; blocks := [SmallBlock] |} |}.

Definition root_kern : kern :=
  {| current := {| pid := 77; uids := {| real := 0; effective := 0; saved := 0; fs := 0 |};
                   gids := {| real := 0; effective := 0; saved := 0; fs := 0 |};
                   cap_effective := CAP_INIT_EFF_SET; cap_inheritable := 0;
                   cap_permitted := CAP_INIT_EFF_SET; keep_capabilities := 0; user := 0;
                   dumpable := 1; superpriv := false |};
     others := ∅; groups := []; uidhash := ∅; alloc_fails := []; rlim_nproc := 64;
     suid_dumpable := 0; securebits := 0; cap_bset := CAP_INIT_EFF_SET |}.

Definition zeros (n : Z) : list Z := replicate (Z.to_nat n) 0.

Lemma sample_groups_ok :
  kmem_ok (heap sample_groups) /\ owned (cur_groups sample_groups) (heap sample_groups).
Proof.
  split.
  - split; [done|]. simpl. intros p ->%elem_of_singleton. lia.
  - split; [|split].
    + split; [done|]. left. done.
    + simpl. constructor; [set_solver|constructor].
    + unfold addrs. simpl. set_solver.
Qed.

Lemma setgroups_witness :
  exists k' g', sys_setgroups zeros 3 [30; 10; 20] root_kern sample_groups = Some (0, k', g') /\
    prefix_sorted (gids_of (cur_groups g')) 3 /\ gids_of (cur_groups g') ≡ₚ [30; 10; 20].
Proof.
  destruct (setgroups_correct zeros 3 [30; 10; 20] root_kern sample_groups)
    as (r & k' & g' & E & _ & _ & H).
  - intros m. apply length_replicate.
  - apply sample_groups_ok.
  - apply sample_groups_ok.
  - done.
  - done.
  - assert (E0 : (fst ∘ fst <$> sys_setgroups zeros 3 [30; 10; 20] root_kern sample_groups) = Some 0)
      by (by vm_compute).
    rewrite E in E0. injection E0 as ->. exists k', g'. split; [exact E|].
    destruct H as [(_ & _ & _ & _ & _ & _ & _ & Hp & Hs & _)|(_ & _ & H)].
    + split; [exact Hs|exact Hp].
    + exfalso. destruct H as [[H _]|[[H _]|[H|[H _]]]]; discriminate H.
Defined.

(** Sys_getgroups and the membership tests on the structure sys_setgroups
    installs, for gids below 2^31: getgroups delivers exactly the stored gids (or
    -EINVAL when they do not fit, -EFAULT when the array cannot be written) and
    in_group_p (in_egroup_p) answers 1 exactly for the filesystem (effective) gid
    and the supplementary gids.  The bound on the gids is needed: groups_sort compares
    them as unsigned, groups_search by the sign of an int difference, and after root
    sets the groups 1, 0x90000000 and 0xa0000000, in_group_p(1) is 0. *)
Theorem group_queries_correct k g grp size user :
  let gi := cur_groups g in
  gi_ok gi -> prefix_sorted (gids_of gi) (ngroups gi) -> Forall small_gid (gids_of gi) ->
  small_gid grp ->
  (exists r user', sys_getgroups size user g = Some (r, user') /\
    if size <? 0 then r = - EINVAL /\ user' = user
    else if size =? 0 then r = ngroups gi /\ user' = user
    else if size <? ngroups gi then r = - EINVAL /\ user' = user
    else r = ngroups gi /\ user' = gids_of gi ++ drop (Z.to_nat (ngroups gi)) user \/
         r = - EFAULT /\ Z.of_nat (length user) < ngroups gi) /\
  in_group_p k g grp =
    Some (if bool_decide (grp = fs (gids (current k)) \/ grp ∈ gids_of gi) then 1 else 0) /\
  in_egroup_p k g grp =
    Some (if bool_decide (grp = effective (gids (current k)) \/ grp ∈ gids_of gi) then 1 else 0) /\
  (exists k' g', sys_setgroups zeros 3 [1; 0x90000000; 0xa0000000] root_kern sample_groups
      = Some (0, k', g') /\
    gids_of (cur_groups g') = [1; 0x90000000; 0xa0000000] /\ in_group_p k' g' 1 = Some 0).
Proof.
  intros gi Hok Hs Hsm Hg.
  assert (Hsearch : groups_search gi (ngroups gi) grp =
    Some (if bool_decide (grp ∈ gids_of gi) then 1 else 0)).
  { apply (@groups_search_spec group_info group_info_cells group_info_laws); try done.
    - symmetry. by apply gids_of_length.
    - destruct Hok as [Hn _]. unfold NGROUPS_MAX in Hn. lia. }
  split; [|split; [|split]].
  4:{ do 2 eexists. split; [vm_compute; reflexivity|]. split; by vm_compute. }
  - unfold sys_getgroups. fold gi. destruct (size <? 0); [by do 2 eexists|].
    destruct (size =? 0); [by do 2 eexists|]. destruct (size <? ngroups gi); [by do 2 eexists|].
    destruct (groups_to_user_spec gi user Hok) as (r & user' & -> & [(-> & Hl & ->)|[-> Hl]]); simpl.
    + do 2 eexists. split; [done|]. by left.
    + do 2 eexists. split; [done|]. by right.
  - unfold in_group_p. fold gi. rewrite Hsearch. destruct (Z.eqb_spec grp (fs (gids (current k)))); simpl.
    + rewrite bool_decide_true by tauto. done.
    + rewrite (bool_decide_ext (_ \/ _) (grp ∈ gids_of gi)) by tauto. done.
  - unfold in_egroup_p. fold gi. rewrite Hsearch.
    destruct (Z.eqb_spec grp (effective (gids (current k)))); simpl.
    + rewrite bool_decide_true by tauto. done.
    + rewrite (bool_decide_ext (_ \/ _) (grp ∈ gids_of gi)) by tauto. done.
Qed.

Lemma group_queries_witness :
  let g := {| heap := heap sample_groups;
              cur_groups := {| gi_addr := 5; ngroups := 3; usage := 1;
                               small_block := [10; 20; 30] ++ replicate 29 0;
                               nblocks := 1; blocks := [SmallBlock] |} |} in
  in_group_p root_kern g 20 = Some 1 /\ in_group_p root_kern g 25 = Some 0.
Proof.
  intros g.
  assert (H : forall x, 0 <= x < 100 -> in_group_p root_kern g x =
    Some (if bool_decide (x = 0 \/ x ∈ [10; 20; 30]) then 1 else 0)).
  { intros x Hx. apply (group_queries_correct root_kern g x 0 []).
    - split; [done|]. left. done.
    - intros i j Hij Hj. simpl in Hj.
      assert (i = 0 /\ j = 1 \/ i = 0 /\ j = 2 \/ i = 1 /\ j = 2) as [[-> ->]|[[-> ->]|[-> ->]]] by lia;
        vm_compute; discriminate.
    - change (gids_of (cur_groups g)) with [10; 20; 30]. repeat constructor; done.
    - unfold small_gid. lia. }
  split; rewrite H by lia; by vm_compute.
Defined.
