(* ===== verification/Shdac.v ===== *)
(** The hardware that the two sound drivers of the palmtops share: the DAC of the
    SH3 with the functions of include/asm-sh/cpu-sh3/dac.h, timer 1 and the speaker
    bit of the HD64461.  [played] is the trace of the samples that were put on a
    channel, the output of the whole sound path. *)
From stdpp Require Import base list.
From Stdlib Require Import ZArith Lia.
From S2P Require Import Prelude.

Local Open Scope Z_scope.

Record dac_regs := {
  DACR : Z;             (* control, 8 bits *)
  DADR0 : Z;            (* data of channel 0 and 1, 8 bits *)
  DADR1 : Z;
  played : list Z
}.

Definition DACR_DAOE1 : Z := 0x80.
Definition DACR_DAOE0 : Z := 0x40.

Definition set_dacr (h : dac_regs) (v : Z) : dac_regs :=
  {| DACR := v; DADR0 := DADR0 h; DADR1 := DADR1 h; played := played h |}.

Definition sh_dac_enable (channel : Z) (h : dac_regs) : dac_regs :=
  set_dacr h (Z.lor (DACR h) (if negb (channel =? 0) then DACR_DAOE1 else DACR_DAOE0)).

Definition sh_dac_disable (channel : Z) (h : dac_regs) : dac_regs :=
  set_dacr h (Z.land (DACR h) (u8 (Z.lnot (if negb (channel =? 0) then DACR_DAOE1 else DACR_DAOE0)))).

Definition sh_dac_output (value channel : Z) (h : dac_regs) : dac_regs :=
  {| DACR := DACR h;
     DADR0 := if negb (channel =? 0) then DADR0 h else value;
     DADR1 := if negb (channel =? 0) then value else DADR1 h;
     played := played h ++ [value] |}.

(** The output enable bit of channel 1, the channel of the speaker. *)
Lemma enable_bit h : Z.testbit (DACR (sh_dac_enable 1 h)) 7 = true.
Proof.
  change (Z.testbit (Z.lor (DACR h) DACR_DAOE1) 7 = true).
  rewrite Z.lor_spec. by rewrite orb_true_r.
Qed.

Lemma disable_bit h : Z.testbit (DACR (sh_dac_disable 1 h)) 7 = false.
Proof.
  change (Z.testbit (Z.land (DACR h) 0x7f) 7 = false).
  rewrite Z.land_spec. by rewrite andb_false_r.
Qed.

(** ** Timer 1 and the speaker *)

Record hw := {
  TMU_TSTR : Z;         (* timer start register, 8 bits *)
  TMU1_TCR : Z;         (* timer 1 control, 16 bits *)
  TMU1_TCOR : Z;        (* timer 1 constant, 32 bits *)
  TMU1_TCNT : Z;        (* timer 1 counter, 32 bits *)
  GPADR : Z;            (* HD64461 port A, 16 bits *)
  chan : dac_regs
}.

Definition set_tstr (h : hw) (v : Z) : hw :=
  {| TMU_TSTR := v; TMU1_TCR := TMU1_TCR h; TMU1_TCOR := TMU1_TCOR h; TMU1_TCNT := TMU1_TCNT h;
     GPADR := GPADR h; chan := chan h |}.
Definition set_tcr (h : hw) (v : Z) : hw :=
  {| TMU_TSTR := TMU_TSTR h; TMU1_TCR := v; TMU1_TCOR := TMU1_TCOR h; TMU1_TCNT := TMU1_TCNT h;
     GPADR := GPADR h; chan := chan h |}.
Definition set_count (h : hw) (v : Z) : hw :=
  {| TMU_TSTR := TMU_TSTR h; TMU1_TCR := TMU1_TCR h; TMU1_TCOR := v; TMU1_TCNT := v;
     GPADR := GPADR h; chan := chan h |}.
Definition set_gpadr (h : hw) (v : Z) : hw :=
  {| TMU_TSTR := TMU_TSTR h; TMU1_TCR := TMU1_TCR h; TMU1_TCOR := TMU1_TCOR h;
     TMU1_TCNT := TMU1_TCNT h; GPADR := v; chan := chan h |}.
Definition set_chan (h : hw) (c : dac_regs) : hw :=
  {| TMU_TSTR := TMU_TSTR h; TMU1_TCR := TMU1_TCR h; TMU1_TCOR := TMU1_TCOR h;
     TMU1_TCNT := TMU1_TCNT h; GPADR := GPADR h; chan := c |}.

Definition TMU1_TCR_INIT : Z := 0x0020.
Definition TMU1_TSTR_INIT : Z := 0x02.
Definition HD64461_GPADR_SPEAKER : Z := 0x01.

Lemma tstr_start_bit t : Z.testbit (Z.lor t TMU1_TSTR_INIT) 1 = true.
Proof. rewrite Z.lor_spec. by rewrite orb_true_r. Qed.

Lemma tstr_stop_bit t : Z.testbit (Z.land t (u8 (Z.lnot TMU1_TSTR_INIT))) 1 = false.
Proof.
  rewrite Z.land_spec. change (u8 (Z.lnot TMU1_TSTR_INIT)) with 0xfd. by rewrite andb_false_r.
Qed.

Lemma speaker_on_bit t : Z.testbit (Z.land t (u16 (Z.lnot HD64461_GPADR_SPEAKER))) 0 = false.
Proof.
  rewrite Z.land_spec. change (u16 (Z.lnot HD64461_GPADR_SPEAKER)) with 0xfffe.
  by rewrite andb_false_r.
Qed.

Lemma speaker_off_bit t : Z.testbit (Z.lor t HD64461_GPADR_SPEAKER) 0 = true.
Proof. rewrite Z.lor_spec. by rewrite orb_true_r. Qed.
