(* ===== verification/OssDac.v ===== *)
(** sound/oss/sh_dac_audio.c: the OSS driver for the DAC of the HP palmtops.

    Programs write bytes into a ring of 48000 cells; the interrupt of timer 1
    takes one byte per tick and puts it on the DAC.  The abstract state is the
    queue of bytes still to be played and the list of bytes played.  Pointers into
    data_buffer are offsets; a char is kept as its value 0..255; [None] is an access outside of the buffer. *)
From stdpp Require Import base list gmap numbers option.
From Stdlib Require Import ZArith Lia.
From S2P Require Import Prelude Ring Queue Kmem Shdac.

Local Open Scope Z_scope.

(** ** The driver *)

Definition BUFFER_SIZE : Z := 48000.
Definition AUDIO_CHANNEL : Z := 1.    (* CONFIG_SOUND_SH_DAC_AUDIO_CHANNEL *)

Record dac := {
  rate : Z;
  empty : bool;
  data_buffer : list Z;
  buffer_begin : Z;
  buffer_end : Z;
  in_use : bool;
  regs : hw
}.

Definition set_regs (d : dac) (h : hw) : dac :=
  {| rate := rate d; empty := empty d; data_buffer := data_buffer d;
     buffer_begin := buffer_begin d; buffer_end := buffer_end d; in_use := in_use d; regs := h |}.
Definition set_queue (d : dac) (e : bool) (b : list Z) (bg en : Z) : dac :=
  {| rate := rate d; empty := e; data_buffer := b; buffer_begin := bg; buffer_end := en;
     in_use := in_use d; regs := regs d |}.
Definition set_in_use (d : dac) (u : bool) : dac :=
  {| rate := rate d; empty := empty d; data_buffer := data_buffer d;
     buffer_begin := buffer_begin d; buffer_end := buffer_end d; in_use := u; regs := regs d |}.
Definition set_rate_to (d : dac) (r : Z) : dac :=
  {| rate := r; empty := empty d; data_buffer := data_buffer d;
     buffer_begin := buffer_begin d; buffer_end := buffer_end d; in_use := in_use d; regs := regs d |}.

Definition dac_audio_start_timer (d : dac) : dac :=
  set_regs d (set_tstr (regs d) (Z.lor (TMU_TSTR (regs d)) TMU1_TSTR_INIT)).

Definition dac_audio_stop_timer (d : dac) : dac :=
  set_regs d (set_tstr (regs d) (Z.land (TMU_TSTR (regs d)) (u8 (Z.lnot TMU1_TSTR_INIT)))).

Definition dac_audio_reset (d : dac) : dac :=
  let d := dac_audio_stop_timer d in
  set_queue d true (data_buffer d) 0 0.

(** timer1_interrupt *)
Definition timer1_interrupt (d : dac) : option dac :=
  let d := set_regs d (set_tcr (regs d) (Z.land (TMU1_TCR (regs d)) (u16 (Z.lnot 0x100)))) in
  if empty d then Some d
  else
    sample ← array_get (data_buffer d) (buffer_begin d);
    let d := set_regs d (set_chan (regs d) (sh_dac_output sample AUDIO_CHANNEL (chan (regs d)))) in
    let bg := buffer_begin d + 1 in
    let bg := if bg =? BUFFER_SIZE then 0 else bg in
    let d := set_queue d (empty d) (data_buffer d) bg (buffer_end d) in
    if bg =? buffer_end d then
      Some (dac_audio_stop_timer (set_queue d true (data_buffer d) bg (buffer_end d)))
    else Some d.

Fixpoint interrupts (n : nat) (d : dac) : option dac :=
  match n with
  | O => Some d
  | S n => d ← timer1_interrupt d; interrupts n d
  end.

(** [while (!empty) schedule();]: the interrupts that come while the caller
    sleeps; [fuel] bounds them. *)
Fixpoint dac_audio_sync (fuel : nat) (d : dac) : option dac :=
  if empty d then Some d
  else match fuel with
       | O => None
       | S fuel => d ← timer1_interrupt d; dac_audio_sync fuel d
       end.

(** The ring holds at most BUFFER_SIZE bytes, so that many ticks empty it. *)
Definition SYNC_FUEL : nat := Z.to_nat BUFFER_SIZE.

Definition dac_audio_start (d : dac) : dac :=
  let d := set_regs d (set_gpadr (regs d)
             (Z.land (GPADR (regs d)) (u16 (Z.lnot HD64461_GPADR_SPEAKER)))) in
  let d := set_regs d (set_chan (regs d) (sh_dac_enable AUDIO_CHANNEL (chan (regs d)))) in
  set_regs d (set_tcr (regs d) TMU1_TCR_INIT).

Definition dac_audio_stop (d : dac) : dac :=
  let d := dac_audio_stop_timer d in
  let d := set_regs d (set_gpadr (regs d) (Z.lor (GPADR (regs d)) HD64461_GPADR_SPEAKER)) in
  let d := set_regs d (set_chan (regs d) (sh_dac_output 0 AUDIO_CHANNEL (chan (regs d)))) in
  set_regs d (set_chan (regs d) (sh_dac_disable AUDIO_CHANNEL (chan (regs d)))).

(** [clk_rate] is what clk_get_rate returns for module_clk. *)
Definition dac_audio_set_rate (clk_rate : Z) (d : dac) : dac :=
  set_regs d (set_count (regs d) (clk_rate / 4 / rate d)).

(** copy_from_user: the bytes that could be read are copied; the result is the
    number that could not. *)
Definition copy_from_user (dst : list Z) (doff : Z) (src : list Z) (soff n : Z)
    : option (Z * list Z) :=
  let ok := Z.max 0 (Z.min n (Z.of_nat (length src) - soff)) in
  b ← memcpy dst doff src soff ok; Some (n - ok, b).

(** The part of dac_audio_write up to the update of buffer_end: copies what fits;
    [inl] is an error return. *)
Definition write_copy (buf : list Z) (count : Z) (d : dac) : option ((Z + Z) * dac) :=
  let free := buffer_begin d - buffer_end d in
  let free := if free <? 0 then free + BUFFER_SIZE else free in
  let free := if (free =? 0) && empty d then BUFFER_SIZE else free in
  let count := if u32 free <? count then u32 free else count in
  let single :=
    '(rest, b) ← copy_from_user (data_buffer d) (buffer_end d) buf 0 count;
    if negb (rest =? 0) then
      Some (inl (- EFAULT), set_queue d (empty d) b (buffer_begin d) (buffer_end d))
    else Some (inr count, set_queue d (empty d) b (buffer_begin d) (buffer_end d + count)) in
  if buffer_end d <? buffer_begin d then single
  else
    let nbytes := BUFFER_SIZE - buffer_end d in
    if count <? u32 nbytes then single
    else
      '(rest, b) ← copy_from_user (data_buffer d) (buffer_end d) buf 0 nbytes;
      if negb (rest =? 0) then
        Some (inl (- EFAULT), set_queue d (empty d) b (buffer_begin d) (buffer_end d))
      else
        '(rest, b) ← copy_from_user b 0 buf nbytes (count - nbytes);
        if negb (rest =? 0) then
          Some (inl (- EFAULT), set_queue d (empty d) b (buffer_begin d) (buffer_end d))
        else Some (inr count, set_queue d (empty d) b (buffer_begin d) (count - nbytes)).

(** The end of dac_audio_write: starts the timer when the ring was empty. *)
Definition write_kick (d : dac) : dac :=
  if empty d then
    dac_audio_start_timer (set_queue d false (data_buffer d) (buffer_begin d) (buffer_end d))
  else d.

(** [count] is a size_t: the test [count < 0] never succeeds. *)
Definition dac_audio_write (buf : list Z) (count : Z) (d : dac) : option (Z * dac) :=
  if count <? 0 then Some (- EINVAL, d)
  else if count =? 0 then d ← dac_audio_sync SYNC_FUEL d; Some (0, d)
  else
    '(r, d) ← write_copy buf count d;
    match r with
    | inl err => Some (err, d)
    | inr count => Some (count, write_kick d)
    end.

Definition FMODE_READ : Z := 1.

Definition dac_audio_open (f_mode : Z) (d : dac) : Z * dac :=
  if negb (Z.land f_mode FMODE_READ =? 0) then (- ENODEV, d)
  else if in_use d then (- EBUSY, d)
  else (0, dac_audio_start (set_in_use d true)).

Definition dac_audio_release (d : dac) : option (Z * dac) :=
  d ← dac_audio_sync SYNC_FUEL d;
  Some (0, set_in_use (dac_audio_stop d) false).

(** The requests of dac_audio_ioctl; [CmdOther] stands for the rest. *)
Inductive ioctl_cmd :=
| OSS_GETVERSION | SNDCTL_DSP_SYNC | SNDCTL_DSP_RESET | SNDCTL_DSP_GETFMTS | SNDCTL_DSP_SETFMT
| SNDCTL_DSP_NONBLOCK | SNDCTL_DSP_GETCAPS | SOUND_PCM_WRITE_RATE | SNDCTL_DSP_STEREO
| SOUND_PCM_WRITE_CHANNELS | SNDCTL_DSP_SETDUPLEX | SNDCTL_DSP_PROFILE | SNDCTL_DSP_GETBLKSIZE
| SNDCTL_DSP_SETFRAGMENT | CmdOther (cmd : Z).

Definition SOUND_VERSION : Z := 0x030802.
Definition AFMT_U8 : Z := 0x08.

(** The int that [arg] points to, [None] when it is not writable. *)
Definition put_user (v : Z) (arg : option Z) : Z * option Z :=
  match arg with Some _ => (0, Some v) | None => (- EFAULT, None) end.

(** Returns the result, the user's int, whether O_NONBLOCK was set on the file,
    and the driver. *)
Definition dac_audio_ioctl (clk_rate : Z) (cmd : ioctl_cmd) (arg : option Z) (d : dac)
    : option (Z * option Z * bool * dac) :=
  let put v d := let '(r, a) := put_user v arg in Some (r, a, false, d) in
  match cmd with
  | OSS_GETVERSION => put SOUND_VERSION d
  | SNDCTL_DSP_SYNC => d ← dac_audio_sync SYNC_FUEL d; Some (0, arg, false, d)
  | SNDCTL_DSP_RESET => Some (0, arg, false, dac_audio_reset d)
  | SNDCTL_DSP_GETFMTS => put AFMT_U8 d
  | SNDCTL_DSP_SETFMT => put AFMT_U8 d
  | SNDCTL_DSP_NONBLOCK => Some (0, arg, true, d)
  | SNDCTL_DSP_GETCAPS => Some (0, arg, false, d)
  | SOUND_PCM_WRITE_RATE =>
      val ← arg;
      let d := if 0 <? val then dac_audio_set_rate clk_rate (set_rate_to d val) else d in
      put (rate d) d
  | SNDCTL_DSP_STEREO => put 0 d
  | SOUND_PCM_WRITE_CHANNELS => put 1 d
  | SNDCTL_DSP_SETDUPLEX => Some (- EINVAL, arg, false, d)
  | SNDCTL_DSP_PROFILE => Some (- EINVAL, arg, false, d)
  | SNDCTL_DSP_GETBLKSIZE => put BUFFER_SIZE d
  | SNDCTL_DSP_SETFRAGMENT => Some (0, arg, false, d)
  | CmdOther _ => Some (- EINVAL, arg, false, d)
  end.

(** ** Loading the module *)

(** What the module holds of the kernel: the registered device, the buffer and
    the interrupt. *)
Record held := { dsp_registered : bool; buffer_block : option Z; irq_taken : bool; mem : kmem }.

(** The outcomes of register_sound_dsp and request_irq are arguments. *)
Definition dac_audio_init (major irq_ret clk_rate : Z) (junk : list Z) (h : hw) (m : kmem)
    : Z * held * option dac :=
  if major <? 0 then
    (major, {| dsp_registered := false; buffer_block := None; irq_taken := false; mem := m |}, None)
  else
    match kmalloc m with
    | (None, m) =>
        (- ENOMEM, {| dsp_registered := true; buffer_block := None; irq_taken := false; mem := m |},
         None)
    | (Some p, m) =>
        let d := {| rate := 0; empty := false; data_buffer := junk; buffer_begin := 0;
                    buffer_end := 0; in_use := false; regs := h |} in
        let d := dac_audio_reset d in
        let d := dac_audio_set_rate clk_rate (set_rate_to d 8000) in
        (if irq_ret <? 0 then irq_ret else 0,
         {| dsp_registered := true; buffer_block := Some p;
            irq_taken := negb (irq_ret <? 0); mem := m |}, Some d)
    end.

Definition dac_audio_exit (k : held) : option held :=
  m ← match buffer_block k with Some p => kfree p (mem k) | None => Some (mem k) end;
  Some {| dsp_registered := false; buffer_block := None; irq_taken := false; mem := m |}.

(** ** Invariant and abstraction *)

Definition timer_running (d : dac) : bool := Z.testbit (TMU_TSTR (regs d)) 1.

(** Number of bytes waiting; begin = end means empty or full. *)
Definition qlen (d : dac) : Z :=
  if empty d then 0
  else let k := (buffer_end d - buffer_begin d) mod BUFFER_SIZE in
       if k =? 0 then BUFFER_SIZE else k.

(** The bytes still to be played, in order. *)
Definition waiting (d : dac) : list Z := ring_slice (data_buffer d) (buffer_begin d) (qlen d).

Definition dac_inv (d : dac) : Prop :=
  Z.of_nat (length (data_buffer d)) = BUFFER_SIZE /\
  0 <= buffer_begin d < BUFFER_SIZE /\ 0 <= buffer_end d < BUFFER_SIZE /\
  (empty d = true -> buffer_begin d = buffer_end d) /\
  timer_running d = negb (empty d).

Lemma qlen_range d : dac_inv d -> 0 <= qlen d <= BUFFER_SIZE /\ (qlen d = 0 <-> empty d = true).
Proof.
  intros _. unfold qlen. destruct (empty d); [done|].
  pose proof (Z.mod_pos_bound (buffer_end d - buffer_begin d) BUFFER_SIZE ltac:(done)).
  destruct (Z.eqb_spec ((buffer_end d - buffer_begin d) mod BUFFER_SIZE) 0);
    unfold BUFFER_SIZE in *; (split; [lia|]); split; (done || lia).
Qed.

Lemma waiting_length d : dac_inv d -> Z.of_nat (length (waiting d)) = qlen d.
Proof. intros H. unfold waiting. rewrite ring_slice_length. destruct (qlen_range d H). lia. Qed.

(** buffer_end is the cell behind the queue. *)
Lemma end_position d :
  dac_inv d -> buffer_end d = (buffer_begin d + qlen d) mod BUFFER_SIZE.
Proof.
  intros (_ & Hb & He & Hemp & _). unfold qlen. destruct (empty d).
  - rewrite Z.add_0_r, Z.mod_small by lia. symmetry. by apply Hemp.
  - pose proof (Z.div_mod (buffer_end d - buffer_begin d) BUFFER_SIZE ltac:(done)).
    destruct (Z.eqb_spec ((buffer_end d - buffer_begin d) mod BUFFER_SIZE) 0) as [E|E].
    + rewrite <- (Z.mod_small (buffer_end d) BUFFER_SIZE) by lia.
      replace (buffer_begin d + BUFFER_SIZE) with
        (buffer_end d + (1 - (buffer_end d - buffer_begin d) / BUFFER_SIZE) * BUFFER_SIZE) by lia.
      by rewrite Z_mod_plus_full.
    + rewrite Zplus_mod_idemp_r. replace (buffer_begin d + (buffer_end d - buffer_begin d))
        with (buffer_end d) by lia. by rewrite Z.mod_small by lia.
Qed.

(** The free space as the code computes it. *)
Lemma free_space d :
  dac_inv d ->
  let free := buffer_begin d - buffer_end d in
  let free := if free <? 0 then free + BUFFER_SIZE else free in
  (if (free =? 0) && empty d then BUFFER_SIZE else free) = BUFFER_SIZE - qlen d.
Proof.
  intros (_ & Hb & He & Hemp & _). cbv zeta. unfold qlen. destruct (empty d) eqn:E.
  - rewrite (Hemp eq_refl), Z.sub_diag. done.
  - rewrite andb_false_r.
    destruct (Z.ltb_spec (buffer_begin d - buffer_end d) 0) as [Hlt|Hge].
    + rewrite Z.mod_small by lia. destruct (Z.eqb_spec (buffer_end d - buffer_begin d) 0); lia.
    + destruct (decide (buffer_begin d = buffer_end d)) as [->|Hne].
      * rewrite Z.sub_diag. done.
      * rewrite <- (Z.mod_unique (buffer_end d - buffer_begin d) BUFFER_SIZE (-1)
          (buffer_end d - buffer_begin d + BUFFER_SIZE)) by lia.
        destruct (Z.eqb_spec (buffer_end d - buffer_begin d + BUFFER_SIZE) 0); lia.
Qed.

(** The length of a queue that ends at [e]. *)
Lemma qlen_eq d e n :
  0 < n <= BUFFER_SIZE -> e = (buffer_begin d + n) mod BUFFER_SIZE ->
  (let k := (e - buffer_begin d) mod BUFFER_SIZE in if k =? 0 then BUFFER_SIZE else k) = n.
Proof.
  intros Hn ->. cbv zeta. rewrite Zminus_mod_idemp_l.
  replace (buffer_begin d + n - buffer_begin d) with n by lia.
  destruct (decide (n = BUFFER_SIZE)) as [->|Hne]; [by rewrite Z.mod_same|].
  rewrite Z.mod_small by lia. by destruct (Z.eqb_spec n 0); [lia|].
Qed.

(** ** dac_audio_write *)

(** Copies of at most [n] bytes behind the queue; [m] of them can be read. *)
Lemma queue_append d buf m :
  dac_inv d -> 0 <= m <= BUFFER_SIZE - qlen d -> m <= Z.of_nat (length buf) ->
  let l := Z.min m (BUFFER_SIZE - buffer_end d) in
  exists b1 b2, memcpy (data_buffer d) (buffer_end d) buf 0 l = Some b1 /\
    memcpy b1 0 buf l (m - l) = Some b2 /\ length b2 = length (data_buffer d) /\
    ring_slice b2 (buffer_begin d) (qlen d + m) = waiting d ++ take (Z.to_nat m) buf.
Proof.
  intros Hinv Hm Hb l. pose proof (qlen_range d Hinv) as [Hq _]. pose proof (end_position d Hinv) as He.
  pose proof Hinv as (Hlen & _).
  apply (ring_append (data_buffer d) buf (buffer_begin d) (qlen d) m (buffer_end d) l);
    rewrite ?Hlen; try (done || lia).
Qed.

Lemma queue_kept b buf d m :
  dac_inv d -> 0 <= m ->
  ring_slice b (buffer_begin d) (qlen d + m) = waiting d ++ take (Z.to_nat m) buf ->
  ring_slice b (buffer_begin d) (qlen d) = waiting d.
Proof.
  intros Hinv Hm H. pose proof (qlen_range d Hinv) as [Hq _].
  rewrite ring_slice_app in H by lia.
  apply app_inj_1 in H as [H _]; [done|]. unfold waiting. by rewrite !ring_slice_length.
Qed.

Definition advanced (d : dac) (b : list Z) (n : Z) : dac :=
  set_queue d (empty d) b (buffer_begin d) ((buffer_end d + n) mod BUFFER_SIZE).

(** The copies of dac_audio_write: all that fits, or -EFAULT with the queue
    unchanged. *)
Definition copied (d : dac) (buf : list Z) (n : Z) (res : option ((Z + Z) * dac)) : Prop :=
  exists b, length b = length (data_buffer d) /\
    ( n <= Z.of_nat (length buf) /\ res = Some (inr n, advanced d b n) /\
      ring_slice b (buffer_begin d) (qlen d + n) = waiting d ++ take (Z.to_nat n) buf \/
      Z.of_nat (length buf) < n /\
      res = Some (inl (- EFAULT), set_queue d (empty d) b (buffer_begin d) (buffer_end d)) /\
      ring_slice b (buffer_begin d) (qlen d) = waiting d ).

(** What lies before the end of the array. *)
Lemma copy_single d buf n :
  dac_inv d -> 0 <= n <= BUFFER_SIZE - qlen d -> buffer_end d + n < BUFFER_SIZE ->
  copied d buf n ('(rest, b) ← copy_from_user (data_buffer d) (buffer_end d) buf 0 n;
    if negb (rest =? 0) then
      Some (inl (- EFAULT), set_queue d (empty d) b (buffer_begin d) (buffer_end d))
    else Some (inr n, set_queue d (empty d) b (buffer_begin d) (buffer_end d + n))).
Proof.
  intros Hinv Hn Hlt. pose proof (qlen_range d Hinv) as [Hq _]. pose proof Hinv as (Hlen & Hb & He & _ & _).
  unfold copied, copy_from_user.
  replace (Z.max 0 (Z.min n (Z.of_nat (length buf) - 0))) with (Z.min n (Z.of_nat (length buf))) by lia.
  remember (Z.min n (Z.of_nat (length buf))) as m eqn:Hm.
  destruct (queue_append d buf m Hinv) as (b1 & b2 & E1 & E2 & L & R); [lia..|].
  replace (Z.min m (BUFFER_SIZE - buffer_end d)) with m in * by lia.
  rewrite Z.sub_diag in E2. apply memcpy_nothing in E2 as ->. rewrite E1. simpl. exists b1.
  split; [done|]. destruct (Z.eqb_spec (n - m) 0) as [Em|Em]; simpl.
  - left. replace m with n in * by lia. split; [lia|]. split; [|done].
    unfold advanced. by rewrite Z.mod_small by lia.
  - right. split; [lia|]. split; [done|]. apply (queue_kept b1 buf d m); auto. lia.
Qed.

(** What wraps around it. *)
Lemma copy_double d buf n nb :
  dac_inv d -> n <= BUFFER_SIZE - qlen d -> nb = BUFFER_SIZE - buffer_end d -> nb <= n ->
  copied d buf n ('(rest, b) ← copy_from_user (data_buffer d) (buffer_end d) buf 0 nb;
    if negb (rest =? 0) then
      Some (inl (- EFAULT), set_queue d (empty d) b (buffer_begin d) (buffer_end d))
    else
      '(rest, b) ← copy_from_user b 0 buf nb (n - nb);
      if negb (rest =? 0) then
        Some (inl (- EFAULT), set_queue d (empty d) b (buffer_begin d) (buffer_end d))
      else Some (inr n, set_queue d (empty d) b (buffer_begin d) (n - nb))).
Proof.
  intros Hinv Hn Hnb Hge. pose proof (qlen_range d Hinv) as [Hq _]. pose proof Hinv as (Hlen & Hb & He & _ & _).
  unfold copied, copy_from_user.
  replace (Z.max 0 (Z.min nb (Z.of_nat (length buf) - 0))) with (Z.min nb (Z.of_nat (length buf))) by lia.
  remember (Z.min n (Z.of_nat (length buf))) as m eqn:Hm.
  destruct (queue_append d buf m Hinv) as (b1 & b2 & E1 & E2 & L & R); [lia..|].
  rewrite <- Hnb in E1, E2. pose proof (queue_kept b2 buf d m Hinv ltac:(lia) R) as Hkeep.
  replace (Z.min nb (Z.of_nat (length buf))) with (Z.min m nb) by lia.
  rewrite E1. cbn [mbind option_bind].
  destruct (Z.eqb_spec (nb - Z.min m nb) 0) as [E0|E0]; cbn [negb].
  - assert (Hnm : nb <= m) by lia. replace (Z.min m nb) with nb in * by lia.
    replace (Z.max 0 (Z.min (n - nb) (Z.of_nat (length buf) - nb))) with (m - nb) by lia.
    rewrite E2. cbn [mbind option_bind]. exists b2. split; [done|].
    destruct (Z.eqb_spec (n - nb - (m - nb)) 0) as [Em|Em]; cbn [negb].
    + left. replace m with n in * by lia. split; [lia|]. split; [|done].
      unfold advanced. do 3 f_equal. apply Z.mod_unique with 1; lia.
    + right. split; [lia|]. done.
  - exists b1. assert (Hmn : m < nb) by lia. replace (Z.min m nb) with m in * by lia.
    rewrite Z.sub_diag in E2. apply memcpy_nothing in E2 as ->. split; [done|].
    right. split; [lia|]. done.
Qed.

Lemma write_copy_spec d buf count :
  dac_inv d -> 0 < count ->
  copied d buf (Z.min count (BUFFER_SIZE - qlen d)) (write_copy buf count d).
Proof.
  intros Hinv Hc. pose proof (qlen_range d Hinv) as [Hq _].
  pose proof Hinv as (Hlen & Hb & He & _ & _). set (n := Z.min count (BUFFER_SIZE - qlen d)).
  unfold write_copy. rewrite free_space by done.
  rewrite (u32_small (BUFFER_SIZE - qlen d)) by (unfold BUFFER_SIZE in *; width_lia).
  rewrite (u32_small (BUFFER_SIZE - buffer_end d)) by (unfold BUFFER_SIZE in *; width_lia).
  replace (if BUFFER_SIZE - qlen d <? count then BUFFER_SIZE - qlen d else count) with n
    by (unfold n; destruct (Z.ltb_spec (BUFFER_SIZE - qlen d) count); lia).
  assert (Hn : 0 <= n <= BUFFER_SIZE - qlen d) by (unfold n; lia). clearbody n.
  destruct (Z.ltb_spec (buffer_end d) (buffer_begin d)) as [Hbe|Hbe].
  - apply copy_single; [done|done|]. assert (Hf := free_space d Hinv). cbv zeta in Hf.
    destruct (Z.ltb_spec (buffer_begin d - buffer_end d) 0); [lia|].
    destruct (Z.eqb_spec (buffer_begin d - buffer_end d) 0); [lia|]. simpl in Hf. lia.
  - destruct (Z.ltb_spec n (BUFFER_SIZE - buffer_end d)) as [Hlt|Hge];
      [apply copy_single; [done|done|lia]|apply copy_double; [done|lia|done|lia]].
Qed.

(** Setting and clearing the start bit of timer 1. *)
Lemma start_timer_running d : timer_running (dac_audio_start_timer d) = true.
Proof. apply tstr_start_bit. Qed.

Lemma stop_timer_running d : timer_running (dac_audio_stop_timer d) = false.
Proof. apply tstr_stop_bit. Qed.

(** After the copy and the start of the timer the queue is extended by [n]. *)
Lemma kick_spec d b n :
  dac_inv d -> length b = length (data_buffer d) -> 0 <= n <= BUFFER_SIZE - qlen d ->
  (empty d = true -> 0 < n) ->
  let d' := write_kick (advanced d b n) in
  dac_inv d' /\ qlen d' = qlen d + n /\ data_buffer d' = b /\ buffer_begin d' = buffer_begin d /\
  played (chan (regs d')) = played (chan (regs d)) /\ in_use d' = in_use d.
Proof.
  intros Hinv Hl Hn He d'. pose proof (qlen_range d Hinv) as [Hq Hq0].
  pose proof Hinv as (Hlen & Hb & _ & Hemp & Ht).
  pose proof (end_position d Hinv) as Hend.
  assert (Hm : (buffer_end d + n) mod BUFFER_SIZE = (buffer_begin d + (qlen d + n)) mod BUFFER_SIZE).
  { rewrite Hend, Zplus_mod_idemp_l. f_equal. lia. }
  pose proof (Z.mod_pos_bound (buffer_end d + n) BUFFER_SIZE ltac:(done)) as Hr.
  unfold d', write_kick. change (empty (advanced d b n)) with (empty d).
  destruct (empty d) eqn:E.
  - assert (qlen d = 0) by tauto. specialize (He eq_refl).
    split; [|split; [|done]].
    + split; [simpl; by rewrite Hl|]. split; [done|]. split; [done|]. split; [done|].
      apply (start_timer_running (set_queue (advanced d b n) false b (buffer_begin d) _)).
    + unfold qlen at 1. cbn [empty dac_audio_start_timer set_regs set_queue advanced buffer_end
        buffer_begin]. apply (qlen_eq d); [lia|done].
  - assert (qlen d <> 0) by (rewrite Hq0; done).
    split; [|split; [|done]].
    + split; [simpl; by rewrite Hl|]. split; [done|]. split; [done|]. split; [|].
      * cbn. by rewrite E.
      * change (timer_running (advanced d b n)) with (timer_running d). rewrite Ht. cbn. by rewrite E.
    + unfold qlen at 1. cbn [empty set_queue advanced buffer_end buffer_begin]. rewrite E.
      apply (qlen_eq d); [lia|done].
Qed.

Lemma dac_write_spec d buf count :
  dac_inv d -> 0 < count ->
  let n := Z.min count (BUFFER_SIZE - qlen d) in
  exists r d', dac_audio_write buf count d = Some (r, d') /\ dac_inv d' /\
    played (chan (regs d')) = played (chan (regs d)) /\ in_use d' = in_use d /\
    (n <= Z.of_nat (length buf) /\ r = n /\ waiting d' = waiting d ++ take (Z.to_nat n) buf \/
     Z.of_nat (length buf) < n /\ r = - EFAULT /\ waiting d' = waiting d).
Proof.
  intros Hinv Hc n. pose proof (qlen_range d Hinv) as [Hq Hq0].
  unfold dac_audio_write. destruct (Z.ltb_spec count 0); [lia|]. destruct (Z.eqb_spec count 0); [lia|].
  destruct (write_copy_spec d buf count Hinv Hc) as (b & Lb & [(Hn & -> & R)|(Hn & -> & R)]);
    fold n in Hn, R |- *; simpl.
  - destruct (kick_spec d b n Hinv Lb) as (Hi & Hql & Hdb & Hbg & Hpl & Hiu); [unfold n; lia| |].
    { intros He. apply Hq0 in He. unfold n, BUFFER_SIZE in *. lia. }
    do 2 eexists. split; [done|]. split; [done|]. split; [done|]. split; [done|]. left.
    split; [done|]. split; [done|]. unfold waiting at 1. by rewrite Hdb, Hbg, Hql.
  - do 2 eexists. split; [done|]. split; [|split; [done|split; [done|]]].
    + destruct Hinv as (Hlen & ? & ? & ? & ?). split; [cbn; by rewrite Lb|]. done.
    + right. split; [done|]. split; [done|]. exact R.
Qed.

(** ** The interrupt *)

Lemma interrupt_spec d :
  dac_inv d ->
  exists d', timer1_interrupt d = Some d' /\ dac_inv d' /\ waiting d' = drop 1 (waiting d) /\
    played (chan (regs d')) = played (chan (regs d)) ++ take 1 (waiting d) /\ in_use d' = in_use d /\
    data_buffer d' = data_buffer d /\ buffer_end d' = buffer_end d.
Proof.
  intros Hinv. pose proof (qlen_range d Hinv) as [Hq Hq0]. pose proof (end_position d Hinv) as Hend.
  pose proof Hinv as (Hlen & Hb & He & Hemp & Ht).
  unfold timer1_interrupt. cbn [empty set_regs].
  destruct (empty d) eqn:E.
  { assert (E0 : waiting d = []) by (apply nil_length_inv; pose proof (waiting_length d Hinv); lia || lia).
    eexists. split; [done|]. rewrite E0. split; [|split; [|split; [|done]]].
    - split; [done|]. split; [done|]. split; [done|]. split; [intros _; exact (Hemp eq_refl)|]. cbn. rewrite E. exact Ht.
    - change (waiting d = []). done.
    - cbn. by rewrite app_nil_r. }
  assert (Hpos : 0 < qlen d) by (assert (qlen d <> 0) by (rewrite Hq0; done); lia).
  destruct (array_get_Some (data_buffer d) (buffer_begin d) ltac:(lia)) as [x Ex].
  cbn [data_buffer set_regs buffer_begin buffer_end regs]. rewrite Ex. simpl.
  assert (Ew : waiting d = x :: ring_slice (data_buffer d) (buffer_begin d + 1) (qlen d - 1)).
  { unfold waiting. replace (qlen d) with (1 + (qlen d - 1)) at 1 by lia.
    rewrite ring_slice_app by lia. change (Z.to_nat 1) with 1%nat.
    unfold ring_slice at 1. simpl. f_equal. rewrite Z.add_0_r, Hlen, Z.mod_small by lia.
    unfold array_get in Ex. rewrite bool_decide_true in Ex by lia. by apply list_lookup_total_correct. }
  set (bg := if buffer_begin d + 1 =? BUFFER_SIZE then 0 else buffer_begin d + 1).
  assert (Hbg : 0 <= bg < BUFFER_SIZE /\ bg = (buffer_begin d + 1) mod BUFFER_SIZE).
  { unfold bg. destruct (Z.eqb_spec (buffer_begin d + 1) BUFFER_SIZE) as [->|]; [done|].
    rewrite Z.mod_small by lia. lia. }
  destruct Hbg as [Hbg1 Hbg2].
  assert (Hshift : forall n, ring_slice (data_buffer d) bg n = ring_slice (data_buffer d) (buffer_begin d + 1) n).
  { intros n. apply ring_slice_shift. rewrite Hlen, Hbg2. apply Z.mod_mod. done. }
  assert (Hend2 : buffer_end d = (bg + (qlen d - 1)) mod BUFFER_SIZE).
  { rewrite Hend, Hbg2, Zplus_mod_idemp_l. f_equal. lia. }
  destruct (Z.eqb_spec bg (buffer_end d)) as [Eb|Eb].
  - assert (Hq1 : qlen d = 1).
    { rewrite <- (Z.mod_small bg BUFFER_SIZE) in Eb by lia. rewrite Hend2 in Eb.
      destruct (decide (qlen d = 1)) as [|Hne]; [done|exfalso].
      destruct (Z.lt_ge_cases (bg + (qlen d - 1)) BUFFER_SIZE).
      - rewrite !Z.mod_small in Eb by lia. lia.
      - rewrite <- (Z.mod_unique (bg + (qlen d - 1)) BUFFER_SIZE 1 (bg + (qlen d - 1) - BUFFER_SIZE))
          in Eb by lia. rewrite Z.mod_small in Eb by lia. lia. }
    eexists. split; [done|]. rewrite Ew. split; [|split; [|done]].
    + split; [done|]. split; [done|]. split; [done|]. split; [done|].
      apply (stop_timer_running (set_queue _ true _ _ _)).
    + rewrite Hq1. done.
  - assert (Hq2 : 1 < qlen d).
    { destruct (decide (qlen d = 1)) as [E1|]; [|lia]. rewrite E1, Z.add_0_r in Hend2.
      rewrite Z.mod_small in Hend2 by lia. congruence. }
    eexists. split; [done|]. rewrite Ew. split; [|split; [|done]].
    + split; [done|]. split; [done|]. split; [done|]. split; [|exact Ht]. done.
    + unfold waiting. cbn [data_buffer set_queue set_regs buffer_begin]. simpl drop. rewrite drop_0, <- Hshift.
      f_equal. unfold qlen at 1. cbn [empty set_queue set_regs buffer_end buffer_begin]. rewrite ?E.
      rewrite Hend2, Zminus_mod_idemp_l. replace (bg + (qlen d - 1) - bg) with (qlen d - 1) by lia.
      rewrite Z.mod_small by lia. destruct (Z.eqb_spec (qlen d - 1) 0); [lia|]. done.
Qed.

Lemma interrupts_spec n d :
  dac_inv d ->
  exists d', interrupts n d = Some d' /\ dac_inv d' /\ waiting d' = drop n (waiting d) /\
    played (chan (regs d')) = played (chan (regs d)) ++ take n (waiting d) /\ in_use d' = in_use d /\
    data_buffer d' = data_buffer d /\ buffer_end d' = buffer_end d.
Proof.
  revert d. induction n as [|n IH]; intros d Hinv; simpl.
  - exists d. rewrite drop_0, app_nil_r. done.
  - destruct (interrupt_spec d Hinv) as (d1 & -> & H1 & W1 & P1 & U1 & B1 & E1). simpl.
    destruct (IH d1 H1) as (d2 & -> & H2 & W2 & P2 & U2 & B2 & E2). exists d2.
    split; [done|]. split; [done|]. rewrite W2, P2, W1, P1. split; [by rewrite drop_drop|].
    split; [|split; [congruence|split; congruence]]. rewrite <- app_assoc. f_equal.
    change (S n) with (1 + n)%nat. by rewrite take_take_drop.
Qed.

Lemma waiting_nil d : dac_inv d -> waiting d = [] <-> empty d = true.
Proof.
  intros H. pose proof (waiting_length d H) as Hl. pose proof (qlen_range d H) as [Hq <-].
  split; [intros E; rewrite E in Hl; simpl in Hl; lia|].
  intros E. apply nil_length_inv. lia.
Qed.

(** dac_audio_sync returns after exactly the ticks that play the queue. *)
Lemma sync_spec fuel d :
  dac_inv d -> (length (waiting d) <= fuel)%nat ->
  exists d', dac_audio_sync fuel d = Some d' /\ dac_inv d' /\ empty d' = true /\ waiting d' = [] /\
    played (chan (regs d')) = played (chan (regs d)) ++ waiting d /\ in_use d' = in_use d.
Proof.
  revert d. induction fuel as [|fuel IH]; intros d Hinv Hf; simpl;
    destruct (empty d) eqn:E.
  1, 3: exists d; apply (waiting_nil d Hinv) in E as Ew; rewrite Ew, app_nil_r; done.
  - exfalso. assert (Ew : waiting d = []) by (apply nil_length_inv; lia).
    apply (waiting_nil d Hinv) in Ew. congruence.
  - destruct (interrupt_spec d Hinv) as (d1 & -> & H1 & W1 & P1 & U1 & _). simpl.
    destruct (IH d1 H1) as (d2 & -> & H2 & E2 & W2 & P2 & U2).
    { rewrite W1, length_drop. lia. }
    exists d2. split; [done|]. split; [done|]. split; [done|]. split; [done|].
    split; [|congruence]. rewrite P2, P1, W1, <- app_assoc. by rewrite take_drop.
Qed.

Lemma sync_enough d : dac_inv d -> (length (waiting d) <= SYNC_FUEL)%nat.
Proof.
  intros H. pose proof (waiting_length d H). destruct (qlen_range d H) as [? _]. unfold SYNC_FUEL. lia.
Qed.

Lemma reset_spec d :
  dac_inv d -> let d' := dac_audio_reset d in
  dac_inv d' /\ waiting d' = [] /\ timer_running d' = false /\ played (chan (regs d')) = played (chan (regs d)).
Proof.
  intros (Hl & _). pose proof (stop_timer_running d) as Hs. split; [|done].
  split; [done|]. split; [done|]. split; [done|]. split; [done|]. exact Hs.
Qed.

(** ** The ring as a byte queue *)

#[export] Instance dac_queue : ByteQueue dac := {
  q_put d data :=
    match data with
    | [] => Some (0%nat, d)
    | _ => '(r, d) ← dac_audio_write data (Z.of_nat (length data)) d; Some (Z.to_nat r, d)
    end;
  q_get d n :=
    d' ← interrupts n d; Some (drop (length (played (chan (regs d)))) (played (chan (regs d'))), d');
  q_inv := dac_inv;
  q_contents := waiting;
  q_capacity _ := Z.to_nat BUFFER_SIZE
}.

#[export] Instance dac_queue_laws : ByteQueueLaws dac.
Proof.
  split; cbn [q_inv q_put q_get q_contents q_capacity dac_queue]; intros d.
  - intros data Hinv. pose proof (waiting_length d Hinv) as Hw.
    destruct data as [|x data'] eqn:Ed.
    { exists d. simpl. rewrite app_nil_r. done. }
    rewrite <- Ed. assert (Hl : 0 < Z.of_nat (length data)) by (subst data; simpl; lia).
    set (n := (length data `min` (Z.to_nat BUFFER_SIZE - length (waiting d)))%nat).
    destruct (dac_write_spec d data (Z.of_nat (length data)) Hinv Hl)
      as (r & d' & -> & Hi & _ & _ & [(Hn & -> & Hc)|(Hn & _)]); [|lia].
    cbn [mbind option_bind]. exists d'.
    replace (Z.to_nat (Z.of_nat (length data) `min` (BUFFER_SIZE - qlen d))) with n in *
      by (unfold n; destruct (qlen_range d Hinv); lia). done.
  - intros n Hinv. destruct (interrupts_spec n d Hinv) as (d' & -> & Hi & Hw & Hp & _).
    cbn [mbind option_bind]. exists d'. rewrite Hp, drop_app_length. done.
Qed.

(** ** The theorems *)

Local Arguments Z.to_nat : simpl never.
Local Arguments SYNC_FUEL : simpl never.
Local Arguments Z.testbit : simpl never.
Local Arguments Z.land : simpl never.
Local Arguments Z.lor : simpl never.

(** C33: the driver is a queue between the program and the DAC.  A write appends
    as many bytes as there is room for and returns that count, or -EFAULT with the
    queue unchanged; a timer interrupt plays exactly the oldest byte; a write of 0
    bytes waits until everything is played; reset drops the queue.  The timer runs
    exactly while there is something to play, and no access leaves the buffer. *)
Theorem dac_refines_queue d buf count :
  dac_inv d -> 0 < count ->
  (let n := Z.min count (BUFFER_SIZE - Z.of_nat (length (waiting d))) in
   exists r d', dac_audio_write buf count d = Some (r, d') /\ dac_inv d' /\
     played (chan (regs d')) = played (chan (regs d)) /\
     (n <= Z.of_nat (length buf) /\ r = n /\ waiting d' = waiting d ++ take (Z.to_nat n) buf \/
      Z.of_nat (length buf) < n /\ r = - EFAULT /\ waiting d' = waiting d)) /\
  (exists d', timer1_interrupt d = Some d' /\ dac_inv d' /\ waiting d' = drop 1 (waiting d) /\
     played (chan (regs d')) = played (chan (regs d)) ++ take 1 (waiting d)) /\
  (exists d', dac_audio_write buf 0 d = Some (0, d') /\ dac_inv d' /\ waiting d' = [] /\
     played (chan (regs d')) = played (chan (regs d)) ++ waiting d) /\
  (dac_inv (dac_audio_reset d) /\ waiting (dac_audio_reset d) = []) /\
  (timer_running d = true <-> waiting d <> []).
Proof.
  intros Hinv Hc. rewrite waiting_length by done. split; [|split; [|split; [|split]]].
  - destruct (dac_write_spec d buf count Hinv Hc) as (r & d' & E & Hi & Hp & _ & Hr).
    exists r, d'. auto.
  - destruct (interrupt_spec d Hinv) as (d' & E & Hi & Hw & Hp & _). exists d'. auto.
  - unfold dac_audio_write. change (0 <? 0) with false. change (0 =? 0) with true. cbv iota.
    destruct (sync_spec SYNC_FUEL d Hinv (sync_enough d Hinv)) as (d' & -> & Hi & _ & Hw & Hp & _).
    exists d'. auto.
  - destruct (reset_spec d Hinv) as (Hi & Hw & _). done.
  - rewrite (waiting_nil d Hinv). destruct Hinv as (_ & _ & _ & _ & ->).
    destruct (empty d); simpl; split; (done || congruence).
Qed.

(** A driver whose buffer is full of old samples, with nothing to play. *)
Definition sample_hw : hw :=
  {| TMU_TSTR := 0x01; TMU1_TCR := 0x20; TMU1_TCOR := 0; TMU1_TCNT := 0; GPADR := 0;
     chan := {| DACR := 0x80; DADR0 := 0; DADR1 := 0; played := [] |} |}.

Definition sample_dac : dac :=
  {| rate := 8000; empty := true; data_buffer := replicate (Z.to_nat BUFFER_SIZE) 7;
     buffer_begin := 47999; buffer_end := 47999; in_use := true; regs := sample_hw |}.

Lemma sample_dac_inv : dac_inv sample_dac.
Proof.
  split; [cbn; by rewrite length_replicate|]. unfold BUFFER_SIZE. cbn.
  split; [lia|]. split; [lia|]. split; [done|]. done.
Qed.

Lemma dac_refines_queue_witness :
  exists r d', dac_audio_write [1; 2; 3] 3 sample_dac = Some (r, d') /\ r = 3 /\
    waiting d' = [1; 2; 3].
Proof.
  destruct (dac_refines_queue sample_dac [1; 2; 3] 3 sample_dac_inv ltac:(lia)) as ((r & d' & E & _ & _ & H) & _).
  exists r, d'. split; [exact E|].
  assert (W : waiting sample_dac = []) by done. rewrite W in H. simpl in H.
  destruct H as [(_ & -> & H)|(H & _)]; [|vm_compute in H; discriminate H].
  split; [done|]. rewrite H. done.
Defined.

(** Through any sequence of writes and ticks the DAC gets the bytes in the
    order in which they were written; none is lost, repeated or reordered. *)
Theorem dac_stream ops d :
  dac_inv d ->
  exists ins outs d', queue_run ops d = Some (ins, outs, d') /\ dac_inv d' /\
    waiting d ++ ins = outs ++ waiting d'.
Proof.
  intros Hinv. pose proof (queue_run_fifo ops d) as Hrun.
  destruct (Hrun Hinv) as (ins & outs & d' & E & Hi & Hc & _). by exists ins, outs, d'.
Qed.

Lemma dac_stream_witness :
  exists ins outs d', queue_run [Put [1; 2]; Get 1; Put [3]; Get 5] sample_dac
      = Some (ins, outs, d') /\ ins = [1; 2; 3] /\ ins = outs ++ waiting d'.
Proof.
  destruct (dac_stream [Put [1; 2]; Get 1; Put [3]; Get 5] sample_dac sample_dac_inv)
    as (ins & outs & d' & E & _ & H).
  exists ins, outs, d'. split; [exact E|].
  assert (Ei : (fst ∘ fst <$> queue_run [Put [1; 2]; Get 1; Put [3]; Get 5] sample_dac)
    = Some [1; 2; 3]) by (by vm_compute).
  rewrite E in Ei. injection Ei as Ei. split; [exact Ei|]. exact H.
Defined.

Local Opaque dac_audio_sync.

Lemma ioctl_spec d clk cmd v :
  dac_inv d ->
  exists r v' nb d', dac_audio_ioctl clk cmd (Some v) d = Some (r, v', nb, d') /\ dac_inv d' /\
     (cmd = SNDCTL_DSP_SYNC -> waiting d' = [] /\
        played (chan (regs d')) = played (chan (regs d)) ++ waiting d) /\
     (cmd <> SNDCTL_DSP_SYNC -> cmd <> SNDCTL_DSP_RESET -> waiting d' = waiting d) /\
     (cmd = SOUND_PCM_WRITE_RATE ->
        rate d' = (if 0 <? v then v else rate d) /\ v' = Some (rate d')).
Proof.
  intros Hinv.
  assert (Hplain : forall r v' nb, cmd <> SNDCTL_DSP_SYNC -> cmd <> SOUND_PCM_WRITE_RATE ->
    dac_audio_ioctl clk cmd (Some v) d = Some (r, v', nb, d) ->
    exists r v' nb d', dac_audio_ioctl clk cmd (Some v) d = Some (r, v', nb, d') /\ dac_inv d' /\
     (cmd = SNDCTL_DSP_SYNC -> waiting d' = [] /\
        played (chan (regs d')) = played (chan (regs d)) ++ waiting d) /\
     (cmd <> SNDCTL_DSP_SYNC -> cmd <> SNDCTL_DSP_RESET -> waiting d' = waiting d) /\
     (cmd = SOUND_PCM_WRITE_RATE ->
        rate d' = (if 0 <? v then v else rate d) /\ v' = Some (rate d')))
    by (intros r v' nb ? ? E; exists r, v', nb, d; split; [exact E|]; split; [exact Hinv|];
        split; [congruence|]; split; [done|congruence]).
  destruct cmd; try (eapply Hplain; [discriminate|discriminate|reflexivity]).
  - cbn [dac_audio_ioctl].
    destruct (sync_spec SYNC_FUEL d Hinv (sync_enough d Hinv)) as (d1 & -> & Hi & _ & Hw & Hp & _).
    exists 0, (Some v), false, d1. split; [reflexivity|]. split; [exact Hi|]. split; [auto|].
    split; [congruence|discriminate].
  - destruct (reset_spec d Hinv) as (Hi & _).
    exists 0, (Some v), false, (dac_audio_reset d). split; [reflexivity|]. split; [exact Hi|].
    split; [discriminate|]. split; [congruence|discriminate].
  - cbn [dac_audio_ioctl mbind option_bind put_user]. do 4 eexists. split; [reflexivity|].
    destruct (0 <? v); (split; [exact Hinv|]); (split; [discriminate|]); split; done.
Qed.

Local Transparent dac_audio_sync.

(** Opening and closing.  A second open, or one for reading, is refused
    without any effect; release plays what is left, then stops the timer, mutes the
    speaker, disables the DAC channel and makes the device available again.  The
    ioctl requests never break the invariant, a sync plays the whole queue, and
    only a positive rate is accepted. *)
Theorem dac_lifecycle d f_mode clk cmd v :
  dac_inv d ->
  (let '(r, d') := dac_audio_open f_mode d in
   if negb (Z.land f_mode FMODE_READ =? 0) then r = - ENODEV /\ d' = d
   else if in_use d then r = - EBUSY /\ d' = d
   else r = 0 /\ in_use d' = true /\ dac_inv d' /\ waiting d' = waiting d /\
        Z.testbit (GPADR (regs d')) 0 = false /\ Z.testbit (DACR (chan (regs d'))) 7 = true) /\
  (exists d', dac_audio_release d = Some (0, d') /\ dac_inv d' /\ in_use d' = false /\
     waiting d' = [] /\ played (chan (regs d')) = played (chan (regs d)) ++ waiting d ++ [0] /\
     timer_running d' = false /\ Z.testbit (GPADR (regs d')) 0 = true /\
     Z.testbit (DACR (chan (regs d'))) 7 = false) /\
  (exists r v' nb d', dac_audio_ioctl clk cmd (Some v) d = Some (r, v', nb, d') /\ dac_inv d' /\
     (cmd = SNDCTL_DSP_SYNC -> waiting d' = [] /\
        played (chan (regs d')) = played (chan (regs d)) ++ waiting d) /\
     (cmd <> SNDCTL_DSP_SYNC -> cmd <> SNDCTL_DSP_RESET -> waiting d' = waiting d) /\
     (cmd = SOUND_PCM_WRITE_RATE ->
        rate d' = (if 0 <? v then v else rate d) /\ v' = Some (rate d'))).
Proof.
  intros Hinv. split; [|split].
  - unfold dac_audio_open. destruct (Z.land f_mode FMODE_READ =? 0); simpl; [|done].
    destruct (in_use d); [done|]. split; [done|]. split; [done|]. split; [exact Hinv|].
    split; [done|]. split.
    + apply speaker_on_bit.
    + apply enable_bit.
  - unfold dac_audio_release.
    destruct (sync_spec SYNC_FUEL d Hinv (sync_enough d Hinv)) as (d1 & -> & Hi & He & Hw & Hp & _).
    simpl. eexists. split; [done|]. pose proof (stop_timer_running d1) as Hstop.
    split; [|split; [done|split; [|split; [|split; [exact Hstop|split]]]]].
    + destruct Hi as (? & ? & ? & ? & ?). split; [done|]. split; [done|]. split; [done|].
      split; [done|]. cbn. rewrite He. exact Hstop.
    + exact Hw.
    + cbn. rewrite Hp. by rewrite <- app_assoc.
    + apply speaker_off_bit.
    + apply disable_bit.
  - exact (ioctl_spec d clk cmd v Hinv).
Qed.

Lemma dac_lifecycle_witness :
  exists d', dac_audio_release sample_dac = Some (0, d') /\ in_use d' = false /\ waiting d' = [].
Proof.
  destruct (dac_lifecycle sample_dac 2 33333333 SNDCTL_DSP_GETCAPS 0 sample_dac_inv)
    as (_ & (d' & E & _ & Hu & Hw & _) & _).
  exists d'. split; [exact E|]. split; [exact Hu|exact Hw].
Defined.

(** C34: the interrupt may run between the update of buffer_end and the test
    [if (empty)] at the end of dac_audio_write.  As long as it does not play the
    whole queue there the result is as if the write were atomic; when it plays
    everything, it sets [empty] itself, the write then clears [empty] with begin
    equal to end, and the driver goes on to play a whole buffer of 48000 old
    bytes that nobody wrote. *)
Theorem dac_write_race d buf count k :
  dac_inv d -> empty d = false -> 0 < count -> count <= Z.of_nat (length buf) ->
  let n := Z.min count (BUFFER_SIZE - Z.of_nat (length (waiting d))) in
  let all := waiting d ++ take (Z.to_nat n) buf in
  (k <= length all)%nat ->
  exists d1 d2, write_copy buf count d = Some (inr n, d1) /\ interrupts k d1 = Some d2 /\
    played (chan (regs (write_kick d2))) = played (chan (regs d)) ++ take k all /\
    if decide (k < length all)%nat then waiting (write_kick d2) = drop k all
    else length (waiting (write_kick d2)) = Z.to_nat BUFFER_SIZE.
Proof.
  intros Hinv He Hc Hbuf. cbv zeta. rewrite (waiting_length d Hinv).
  set (n := Z.min count (BUFFER_SIZE - qlen d)). intros Hk.
  pose proof (qlen_range d Hinv) as [Hq Hq0].
  destruct (write_copy_spec d buf count Hinv Hc) as (b & Lb & [(Hn & -> & R)|(Hn & _)]);
    fold n in Hn |- *; [|unfold n in Hn; lia]. fold n in R.
  destruct (kick_spec d b n Hinv Lb) as (Hi & Hql & Hdb & Hbg & Hpl & _);
    [unfold n; lia|by rewrite He|].
  assert (Ek : write_kick (advanced d b n) = advanced d b n).
  { unfold write_kick. change (empty (advanced d b n)) with (empty d). by rewrite He. }
  rewrite Ek in *.
  assert (Hw : waiting (advanced d b n) = waiting d ++ take (Z.to_nat n) buf).
  { unfold waiting at 1. by rewrite Hdb, Hbg, Hql. }
  destruct (interrupts_spec k (advanced d b n) Hi) as (d2 & E2 & Hi2 & Hw2 & Hp2 & _).
  rewrite Hw in Hw2, Hp2. exists (advanced d b n), d2. split; [done|]. split; [done|].
  assert (Hpk : played (chan (regs (write_kick d2))) = played (chan (regs d2)))
    by (unfold write_kick; by destruct (empty d2)).
  split; [by rewrite Hpk, Hp2|].
  destruct (decide (k < length (waiting d ++ take (Z.to_nat n) buf))%nat) as [Hlt|Hge].
  - assert (E0 : empty d2 = false).
    { destruct (empty d2) eqn:E0; [|done]. apply (waiting_nil d2 Hi2) in E0. rewrite Hw2 in E0.
      apply (f_equal length) in E0. rewrite length_drop in E0. simpl in E0. lia. }
    unfold write_kick. rewrite E0. done.
  - assert (E0 : empty d2 = true).
    { apply (waiting_nil d2 Hi2). rewrite Hw2. apply drop_ge. lia. }
    unfold write_kick. rewrite E0. destruct Hi2 as (_ & _ & _ & Hb2 & _).
    unfold waiting. rewrite ring_slice_length. f_equal.
    unfold qlen, dac_audio_start_timer, set_regs, set_queue. cbn [empty buffer_begin buffer_end].
    by rewrite (Hb2 E0), Z.sub_diag.
Qed.

Lemma dac_write_race_witness :
  exists d1 d2, write_copy [2] 1 (write_kick (set_queue sample_dac true (data_buffer sample_dac) 5 6))
      = Some (inr 1, d1) /\ interrupts 2 d1 = Some d2 /\
    length (waiting (write_kick d2)) = Z.to_nat BUFFER_SIZE.
Proof.
  set (d := write_kick (set_queue sample_dac true (data_buffer sample_dac) 5 6)).
  assert (Hw : length (waiting d) = 1%nat) by done.
  destruct (dac_write_race d [2] 1 2) as (d1 & d2 & E1 & E2 & _ & H).
  - split; [apply sample_dac_inv|]. unfold BUFFER_SIZE. cbn. split; [lia|]. split; [lia|]. done.
  - done.
  - lia.
  - simpl. lia.
  - rewrite length_app, Hw. vm_compute. lia.
  - exists d1, d2. split; [|split; [exact E2|]].
    + rewrite E1, Hw. done.
    + rewrite length_app, Hw in H. exact H.
Defined.

(** Dac_audio_init.  On success the driver is in its initial state, with the
    device registered, the buffer allocated and the interrupt taken, and
    dac_audio_exit gives everything back.  When the buffer cannot be allocated, or
    the interrupt cannot be taken, init fails but leaves the device registered (and
    the buffer allocated): nothing undoes the first steps. *)
Theorem dac_init_leaks major irq clk junk h m :
  0 <= major -> kmem_ok m -> Z.of_nat (length junk) = BUFFER_SIZE ->
  let '(r, k, od) := dac_audio_init major irq clk junk h m in
  dsp_registered k = true /\
  match buffer_block k, od with
  | None, None => r = - ENOMEM /\ live (mem k) = live m
  | Some p, Some d =>
      dac_inv d /\ waiting d = [] /\ rate d = 8000 /\ (p ∉ live m) /\
      live (mem k) = {[ p ]} ∪ live m /\
      (if irq <? 0 then r = irq /\ irq_taken k = false
       else r = 0 /\ irq_taken k = true /\
            exists k', dac_audio_exit k = Some k' /\ dsp_registered k' = false /\
              live (mem k') = live m)
  | _, _ => False
  end.
Proof.
  intros Hmaj Hm Hj. unfold dac_audio_init. destruct (Z.ltb_spec major 0); [lia|].
  pose proof (kmalloc_spec m Hm) as Ha. destruct (kmalloc m) as [[p|] m'].
  2:{ destruct Ha as [_ Hl]. done. }
  destruct Ha as (Hm' & Hp & Hn & Hl). simpl. split; [done|].
  split; [|split; [done|split; [done|split; [done|split; [done|]]]]].
  - split; [done|]. split; [done|]. split; [done|]. split; [done|].
    apply (stop_timer_running {| rate := 0; empty := false; data_buffer := junk; buffer_begin := 0;
      buffer_end := 0; in_use := false; regs := h |}).
  - destruct (irq <? 0); [done|]. split; [done|]. split; [done|].
    unfold dac_audio_exit. simpl.
    destruct (kfree_spec m' p Hm') as (m2 & -> & _ & L2); [rewrite Hl; set_solver|]. simpl.
    eexists. split; [done|]. split; [done|]. simpl. rewrite L2, Hl. set_solver.
Qed.

Lemma dac_init_leaks_witness :
  let '(r, k, _) := dac_audio_init 3 0 33333333 [] sample_hw {| oom := [true]; live := ∅; fresh := 1 |} in
  r = - ENOMEM /\ dsp_registered k = true.
Proof.
  assert (Hm : kmem_ok {| oom := [true]; live := ∅; fresh := 1 |}) by (split; [done|set_solver]).
  pose proof (dac_init_leaks 3 0 33333333 (replicate (Z.to_nat BUFFER_SIZE) 0) sample_hw
    {| oom := [true]; live := ∅; fresh := 1 |} ltac:(lia) Hm) as H.
  rewrite length_replicate in H. specialize (H eq_refl). simpl in H. destruct H as (Hr & Hm' & _).
  split; [exact Hm'|exact Hr].
Defined.
