(* ===== verification/AlsaDac.v ===== *)
(** sound/sh/snd_sh_dac_audio.c: the ALSA driver for the DAC of the HP palmtops.

    The ALSA core copies frames to positions of data_buffer that it chooses; the
    interrupt of timer 1 plays one byte per tick from buffer_begin on until
    buffer_begin meets buffer_end.  Pointers into data_buffer are offsets and
    [None] is an access outside of the buffer, or through a null substream. *)
From stdpp Require Import base list gmap numbers option.
From Stdlib Require Import ZArith Lia.
From S2P Require Import Prelude Ring Kmem Shdac.

Local Open Scope Z_scope.

(** The fields of struct snd_pcm_runtime that the driver reads. *)
Record snd_pcm_runtime := {
  frame_bits : Z;
  period_size : Z;        (* frames *)
  rt_buffer_size : Z      (* frames *)
}.

Definition frames_to_bytes (rt : snd_pcm_runtime) (size : Z) : Z :=
  s32 (u32 (size * frame_bits rt) / 8).

Definition BUFFER_SIZE : Z := 64000.
Definition AUDIO_CHANNEL : Z := 1.
Definition RATE : Z := 8000.

(** struct snd_sh_dac, with the registers and the number of times that
    snd_pcm_period_elapsed was called. *)
Record snd_sh_dac := {
  substream : option snd_pcm_runtime;
  rate : Z;
  empty : bool;
  data_buffer : list Z;
  buffer_begin : Z;
  buffer_end : Z;
  processed : Z;
  buffer_size : Z;
  regs : hw;
  elapsed : Z
}.

Definition set_regs (c : snd_sh_dac) (h : hw) : snd_sh_dac :=
  {| substream := substream c; rate := rate c; empty := empty c; data_buffer := data_buffer c;
     buffer_begin := buffer_begin c; buffer_end := buffer_end c; processed := processed c;
     buffer_size := buffer_size c; regs := h; elapsed := elapsed c |}.
Definition set_ring (c : snd_sh_dac) (e : bool) (b : list Z) (bg en p : Z) : snd_sh_dac :=
  {| substream := substream c; rate := rate c; empty := e; data_buffer := b;
     buffer_begin := bg; buffer_end := en; processed := p;
     buffer_size := buffer_size c; regs := regs c; elapsed := elapsed c |}.
Definition set_elapsed (c : snd_sh_dac) (n : Z) : snd_sh_dac :=
  {| substream := substream c; rate := rate c; empty := empty c; data_buffer := data_buffer c;
     buffer_begin := buffer_begin c; buffer_end := buffer_end c; processed := processed c;
     buffer_size := buffer_size c; regs := regs c; elapsed := n |}.
Definition set_stream (c : snd_sh_dac) (s : option snd_pcm_runtime) (bs : Z) : snd_sh_dac :=
  {| substream := s; rate := rate c; empty := empty c; data_buffer := data_buffer c;
     buffer_begin := buffer_begin c; buffer_end := buffer_end c; processed := processed c;
     buffer_size := bs; regs := regs c; elapsed := elapsed c |}.

(** ** Hardware functions *)

Definition dac_audio_start_timer (h : hw) : hw := set_tstr h (Z.lor (TMU_TSTR h) TMU1_TSTR_INIT).

Definition dac_audio_stop_timer (h : hw) : hw :=
  set_tstr h (Z.land (TMU_TSTR h) (u8 (Z.lnot TMU1_TSTR_INIT))).

Definition dac_audio_reset (c : snd_sh_dac) : snd_sh_dac :=
  let c := set_regs c (dac_audio_stop_timer (regs c)) in
  set_ring c true (data_buffer c) 0 0 0.

Definition dac_audio_start (h : hw) : hw :=
  let h := set_gpadr h (Z.land (GPADR h) (u16 (Z.lnot HD64461_GPADR_SPEAKER))) in
  let h := set_chan h (sh_dac_enable AUDIO_CHANNEL (chan h)) in
  set_tcr h TMU1_TCR_INIT.

Definition dac_audio_stop (h : hw) : hw :=
  let h := dac_audio_stop_timer h in
  let h := set_gpadr h (Z.lor (GPADR h) HD64461_GPADR_SPEAKER) in
  let h := set_chan h (sh_dac_output 0 AUDIO_CHANNEL (chan h)) in
  set_chan h (sh_dac_disable AUDIO_CHANNEL (chan h)).

(** [clk_rate] is what clk_get_rate returns for module_clk. *)
Definition dac_audio_set_rate (clk_rate rate : Z) (h : hw) : hw :=
  set_count h (clk_rate / 4 / rate).

(** ** The interrupt *)

(** snd_pcm_period_elapsed may make the core call back snd_sh_dac_pcm_trigger with
    SNDRV_PCM_TRIGGER_STOP, which does nothing in this driver. *)
Definition snd_sh_dac_interrupt (c : snd_sh_dac) : option snd_sh_dac :=
  runtime ← substream c;
  let c := set_regs c (set_tcr (regs c) (Z.land (TMU1_TCR (regs c)) (u16 (Z.lnot 0x100)))) in
  if empty c then Some c
  else
    sample ← array_get (data_buffer c) (buffer_begin c);
    let c := set_regs c (set_chan (regs c) (sh_dac_output sample AUDIO_CHANNEL (chan (regs c)))) in
    let c := set_ring c (empty c) (data_buffer c) (buffer_begin c + 1) (buffer_end c)
               (processed c + 1) in
    let ps := frames_to_bytes runtime (period_size runtime) in
    let c := if ps <=? processed c
             then set_elapsed (set_ring c (empty c) (data_buffer c) (buffer_begin c) (buffer_end c)
                                 (processed c - ps)) (elapsed c + 1)
             else c in
    let c := if buffer_begin c =? buffer_size c - 1
             then set_ring c (empty c) (data_buffer c) 0 (buffer_end c) (processed c)
             else c in
    if buffer_begin c =? buffer_end c
    then let c := set_ring c true (data_buffer c) (buffer_begin c) (buffer_end c) (processed c) in
         Some (set_regs c (dac_audio_stop_timer (regs c)))
    else Some c.

Fixpoint ticks (n : nat) (c : snd_sh_dac) : option snd_sh_dac :=
  match n with
  | O => Some c
  | S n => c ← snd_sh_dac_interrupt c; ticks n c
  end.

(** [while (!chip->empty) schedule();] with at most [fuel] interrupts. *)
Fixpoint dac_audio_sync (fuel : nat) (c : snd_sh_dac) : option snd_sh_dac :=
  if empty c then Some c
  else match fuel with
       | O => None
       | S fuel => c ← snd_sh_dac_interrupt c; dac_audio_sync fuel c
       end.

(** ** The PCM operations *)

Definition snd_sh_dac_pcm_open (rt : snd_pcm_runtime) (c : snd_sh_dac) : Z * snd_sh_dac :=
  let c := set_stream c (Some rt) (buffer_size c) in
  let c := set_ring c true (data_buffer c) 0 0 0 in
  (0, set_regs c (dac_audio_start (regs c))).

Definition snd_sh_dac_pcm_close (fuel : nat) (c : snd_sh_dac) : option (Z * snd_sh_dac) :=
  c ← dac_audio_sync fuel c;
  Some (0, set_regs c (dac_audio_stop (regs c))).

Definition snd_sh_dac_pcm_prepare (c : snd_sh_dac) : option (Z * snd_sh_dac) :=
  runtime ← substream c;
  Some (0, set_stream c (substream c) (rt_buffer_size runtime)).

Inductive trigger_cmd := SNDRV_PCM_TRIGGER_START | SNDRV_PCM_TRIGGER_STOP | TriggerOther.

Definition snd_sh_dac_pcm_trigger (cmd : trigger_cmd) (c : snd_sh_dac) : Z * snd_sh_dac :=
  match cmd with
  | SNDRV_PCM_TRIGGER_START => (0, set_regs c (dac_audio_start_timer (regs c)))
  | SNDRV_PCM_TRIGGER_STOP => (0, c)
  | TriggerOther => (- EINVAL, c)
  end.

(** The tail that snd_sh_dac_pcm_copy and snd_sh_dac_pcm_silence share:
    buffer_end is moved and the timer is started when nothing was left. *)
Definition new_end (b : list Z) (e : Z) (c : snd_sh_dac) : snd_sh_dac :=
  let c := set_ring c (empty c) b (buffer_begin c) e (processed c) in
  if empty c
  then let c := set_ring c false (data_buffer c) (buffer_begin c) (buffer_end c) (processed c) in
       set_regs c (dac_audio_start_timer (regs c))
  else c.

(** [count] is unsigned: the test [count < 0] never succeeds.  [src] is read
    with memcpy_toio, not with copy_from_user. *)
Definition snd_sh_dac_pcm_copy (fuel : nat) (rt : snd_pcm_runtime) (pos : Z) (src : list Z)
    (count : Z) (c : snd_sh_dac) : option (Z * snd_sh_dac) :=
  if count <? 0 then Some (- EINVAL, c)
  else if count =? 0 then c ← dac_audio_sync fuel c; Some (0, c)
  else
    b ← memcpy (data_buffer c) (frames_to_bytes rt pos) src 0 (frames_to_bytes rt count);
    Some (0, new_end b (frames_to_bytes rt pos + frames_to_bytes rt count) c).

Definition snd_sh_dac_pcm_silence (fuel : nat) (rt : snd_pcm_runtime) (pos count : Z)
    (c : snd_sh_dac) : option (Z * snd_sh_dac) :=
  if count <? 0 then Some (- EINVAL, c)
  else if count =? 0 then c ← dac_audio_sync fuel c; Some (0, c)
  else
    b ← mem_write (data_buffer c) (frames_to_bytes rt pos)
          (replicate (Z.to_nat (frames_to_bytes rt count)) 0);
    Some (0, new_end b (frames_to_bytes rt pos + frames_to_bytes rt count) c).

Definition snd_sh_dac_pcm_pointer (c : snd_sh_dac) : Z := buffer_begin c.

(** ** Creating and removing the card *)

(** What the driver holds of the kernel: its blocks, the interrupt line, and the
    snd_device blocks on the list of the card. *)
Record held := { mem : kmem; irq_taken : bool; devices : list Z }.

Definition hold_mem (k : held) (m : kmem) : held :=
  {| mem := m; irq_taken := irq_taken k; devices := devices k |}.

Definition TIMER1_IRQ : Z := 17.

(** snd_sh_dac_dev_free, called on the block at [p] whose irq field holds [irq]. *)
Definition snd_sh_dac_dev_free (p irq : Z) (k : held) : option held :=
  let k := if 0 <=? irq then {| mem := mem k; irq_taken := false; devices := devices k |} else k in
  m ← kfree p (mem k); Some (hold_mem k m).

(** sound/core/device.c, snd_device_new: a block for the device, put at the head
    of the list of the card. *)
Definition snd_device_new (k : held) : Z * held :=
  match kmalloc (mem k) with
  | (None, m) => (- ENOMEM, hold_mem k m)
  | (Some dev, m) => (0, {| mem := m; irq_taken := irq_taken k; devices := dev :: devices k |})
  end.

(** snd_device_free for the device of this driver: ops->dev_free is called with
    the snd_device, and the driver's dev_free takes its argument for the chip.  The
    word at the offset of chip->irq is dev->card, the address of the card. *)
Definition snd_device_free (card dev : Z) (k : held) : option held :=
  let k := {| mem := mem k; irq_taken := irq_taken k;
              devices := filter (fun d => d <> dev) (devices k) |} in
  k ← snd_sh_dac_dev_free dev (s32 card) k;
  m ← kfree dev (mem k); Some (hold_mem k m).

(** snd_card_free, as far as the device of this driver is concerned. *)
Fixpoint free_devices (card : Z) (devs : list Z) (k : held) : option held :=
  match devs with
  | [] => Some k
  | dev :: devs => k ← snd_device_free card dev k; free_devices card devs k
  end.

Definition snd_card_free (card : Z) (k : held) : option held := free_devices card (devices k) k.

Definition new_chip (junk : list Z) (h : hw) : snd_sh_dac :=
  {| substream := None; rate := 0; empty := false; data_buffer := junk; buffer_begin := 0;
     buffer_end := 0; processed := 0; buffer_size := 0; regs := h; elapsed := 0 |}.

(** snd_sh_dac_create; [irq_ret] is what request_irq returns.  The chip that is
    handed out comes with the addresses of its block and of its buffer. *)
Definition snd_sh_dac_create (irq_ret clk_rate : Z) (junk : list Z) (h : hw) (k : held)
    : option (Z * held * option (Z * Z * snd_sh_dac)) :=
  match kmalloc (mem k) with
  | (None, m) => Some (- ENOMEM, hold_mem k m, None)
  | (Some chip, m) =>
      let k := hold_mem k m in
      match kmalloc (mem k) with
      | (None, m) => Some (- ENOMEM, hold_mem k m, None)
      | (Some buf, m) =>
          let k := hold_mem k m in
          let c := dac_audio_reset (new_chip junk h) in
          let c := {| substream := substream c; rate := RATE; empty := empty c;
                      data_buffer := data_buffer c; buffer_begin := buffer_begin c;
                      buffer_end := buffer_end c; processed := processed c;
                      buffer_size := buffer_size c; regs := regs c; elapsed := elapsed c |} in
          let c := set_regs c (dac_audio_set_rate clk_rate (rate c) (regs c)) in
          if negb (irq_ret =? 0) then
            k ← snd_sh_dac_dev_free chip (-1) k; Some (- EBUSY, k, None)
          else
            let k := {| mem := mem k; irq_taken := true; devices := devices k |} in
            let '(err, k) := snd_device_new k in
            if err <? 0 then
              k ← snd_sh_dac_dev_free chip TIMER1_IRQ k; Some (err, k, None)
            else Some (0, k, Some (chip, buf, c))
      end
  end.

(** snd_sh_dac_probe with the module enabled; [card] is what snd_card_new returns
    (0 for NULL), [pcm_ret] and [reg_ret] what snd_sh_dac_pcm and
    snd_card_register return. *)
Definition snd_sh_dac_probe (card irq_ret pcm_ret reg_ret clk_rate : Z) (junk : list Z) (h : hw)
    (k : held) : option (Z * held * option (Z * Z * snd_sh_dac)) :=
  if card =? 0 then Some (- ENOMEM, k, None)
  else
    '(err, k, chip) ← snd_sh_dac_create irq_ret clk_rate junk h k;
    let probe_error err k := k ← snd_card_free card k; Some (err, k, None) in
    if err <? 0 then probe_error err k
    else if pcm_ret <? 0 then probe_error pcm_ret k
    else if reg_ret <? 0 then probe_error reg_ret k
    else Some (0, k, chip).

Definition snd_sh_dac_remove (card : Z) (k : held) : option (Z * held) :=
  k ← snd_card_free card k; Some (0, k).

(** ** Invariant *)

(** The streams that snd_sh_dac_pcm_hw lets the core set up, with at least two
    frames of buffer: one byte per frame and at most 48 KB. *)
Definition rt_ok (rt : snd_pcm_runtime) : Prop :=
  frame_bits rt = 8 /\ 0 < period_size rt <= rt_buffer_size rt /\
  2 <= rt_buffer_size rt <= 48 * 1024.

(** The cell at which the interrupt goes back to the start. *)
Definition wrap (c : snd_sh_dac) : Z := buffer_size c - 1.

Definition chip_ok (rt : snd_pcm_runtime) (c : snd_sh_dac) : Prop :=
  substream c = Some rt /\ Z.of_nat (length (data_buffer c)) = BUFFER_SIZE /\
  buffer_size c = rt_buffer_size rt /\ 0 <= buffer_begin c < wrap c /\
  0 <= buffer_end c <= buffer_size c /\ 0 <= processed c < period_size rt.

(** The cells that the interrupt ever plays. *)
Definition playable (c : snd_sh_dac) : list Z := take (Z.to_nat (wrap c)) (data_buffer c).

(** The time of the stream in bytes, as the core learns it. *)
Definition clock (rt : snd_pcm_runtime) (c : snd_sh_dac) : Z :=
  elapsed c * period_size rt + processed c.

Lemma frames_to_bytes_id rt n : rt_ok rt -> 0 <= n <= 48 * 1024 -> frames_to_bytes rt n = n.
Proof.
  intros (Hf & _) Hn. unfold frames_to_bytes. rewrite Hf, u32_small by width_lia.
  rewrite Z.div_mul by lia. apply s32_small. width_lia.
Qed.

Lemma playable_length rt c :
  rt_ok rt -> chip_ok rt c -> Z.of_nat (length (playable c)) = wrap c.
Proof.
  intros (_ & _ & Hr) (_ & Hl & Hb & _). unfold playable, wrap in *. rewrite length_take.
  unfold BUFFER_SIZE in Hl. lia.
Qed.

(** One interrupt with something to play, field by field. *)
Lemma tick_fields rt c x :
  substream c = Some rt -> empty c = false ->
  array_get (data_buffer c) (buffer_begin c) = Some x ->
  let ps := frames_to_bytes rt (period_size rt) in
  let bg := if buffer_begin c + 1 =? buffer_size c - 1 then 0 else buffer_begin c + 1 in
  exists c', snd_sh_dac_interrupt c = Some c' /\ substream c' = Some rt /\
    data_buffer c' = data_buffer c /\ buffer_end c' = buffer_end c /\
    buffer_size c' = buffer_size c /\ buffer_begin c' = bg /\
    played (chan (regs c')) = played (chan (regs c)) ++ [x] /\
    empty c' = (bg =? buffer_end c) /\
    (if ps <=? processed c + 1
     then processed c' = processed c + 1 - ps /\ elapsed c' = elapsed c + 1
     else processed c' = processed c + 1 /\ elapsed c' = elapsed c).
Proof.
  intros Hs He Ex ps bg. unfold snd_sh_dac_interrupt. rewrite Hs. cbn [mbind option_bind].
  cbn [empty set_regs data_buffer buffer_begin]. rewrite He, Ex. cbn [mbind option_bind].
  fold ps. unfold bg. clearbody ps. clear bg. cbn [processed set_ring set_regs].
  destruct (ps <=? processed c + 1); cbn [buffer_begin buffer_size set_elapsed set_ring set_regs];
    destruct (buffer_begin c + 1 =? buffer_size c - 1);
    cbn [buffer_begin buffer_end set_elapsed set_ring set_regs];
    (destruct (_ =? buffer_end c); eexists; (split; [reflexivity|])); cbn; auto 12.
Qed.

(** The same on a well-formed stream. *)
Lemma tick_spec rt c :
  rt_ok rt -> chip_ok rt c -> empty c = false ->
  exists c', snd_sh_dac_interrupt c = Some c' /\ chip_ok rt c' /\
    data_buffer c' = data_buffer c /\ buffer_end c' = buffer_end c /\
    buffer_size c' = buffer_size c /\ buffer_begin c' = (buffer_begin c + 1) mod wrap c /\
    played (chan (regs c')) = played (chan (regs c)) ++ ring_slice (playable c) (buffer_begin c) 1 /\
    empty c' = (buffer_begin c' =? buffer_end c) /\ clock rt c' = clock rt c + 1.
Proof.
  intros Hr Hc He. pose proof Hc as (Hs & Hl & Hb & Hbg & Hen & Hp).
  pose proof Hr as (_ & Hps & Hbs). pose proof (playable_length rt c Hr Hc) as Hpl.
  destruct (array_get_Some (data_buffer c) (buffer_begin c)) as [x Ex].
  { unfold wrap, BUFFER_SIZE in *. lia. }
  destruct (tick_fields rt c x Hs He Ex) as (c' & E & S' & D' & En' & Z' & B' & P' & M' & K').
  rewrite frames_to_bytes_id in K' by (done || lia). fold (wrap c) in B', M'.
  assert (Hmod : (if buffer_begin c + 1 =? wrap c then 0 else buffer_begin c + 1)
    = (buffer_begin c + 1) mod wrap c).
  { destruct (Z.eqb_spec (buffer_begin c + 1) (wrap c)) as [->|];
      [by rewrite Z.mod_same by lia|by rewrite Z.mod_small by lia]. }
  rewrite Hmod in B', M'.
  pose proof (Z.mod_pos_bound (buffer_begin c + 1) (wrap c) ltac:(lia)) as Hrange.
  exists c'. split; [done|]. unfold chip_ok, clock. rewrite S', D', En', Z', B', P'.
  assert (Hw : wrap c' = wrap c) by (unfold wrap; congruence). rewrite Hw.
  split; [|do 5 (split; [try done|])].
  - do 5 (split; [done|]). destruct (Z.leb_spec (period_size rt) (processed c + 1)); lia.
  - f_equal. unfold ring_slice. simpl. rewrite Z.add_0_r, Hpl, Z.mod_small by lia.
    unfold array_get in Ex. rewrite bool_decide_true in Ex by lia. f_equal. symmetry.
    apply list_lookup_total_correct. unfold playable. rewrite lookup_take_lt by lia. done.
  - split; [exact M'|]. destruct (Z.leb_spec (period_size rt) (processed c + 1)); lia.
Qed.

(** Any number of interrupts before the one at which buffer_begin meets
    buffer_end. *)
Lemma ticks_spec rt n c :
  rt_ok rt -> chip_ok rt c -> empty c = false ->
  (forall i, 0 < i < Z.of_nat n -> (buffer_begin c + i) mod wrap c <> buffer_end c) ->
  exists c', ticks n c = Some c' /\ chip_ok rt c' /\
    data_buffer c' = data_buffer c /\ buffer_end c' = buffer_end c /\
    buffer_size c' = buffer_size c /\ buffer_begin c' = (buffer_begin c + Z.of_nat n) mod wrap c /\
    played (chan (regs c')) =
      played (chan (regs c)) ++ ring_slice (playable c) (buffer_begin c) (Z.of_nat n) /\
    empty c' = (0 <? Z.of_nat n) && (buffer_begin c' =? buffer_end c) /\
    clock rt c' = clock rt c + Z.of_nat n.
Proof.
  intros Hr. revert c. induction n as [|n IH]; intros c Hc He Hne.
  - exists c. pose proof Hc as (_ & _ & _ & Hbg & _). simpl.
    rewrite !Z.add_0_r, Z.mod_small by lia. rewrite app_nil_r. done.
  - destruct (tick_spec rt c Hr Hc He) as (c1 & E1 & H1 & D1 & En1 & S1 & B1 & P1 & M1 & K1).
    assert (W1 : wrap c1 = wrap c) by (unfold wrap; by rewrite S1).
    assert (Pl1 : playable c1 = playable c) by (unfold playable; by rewrite W1, D1).
    cbn [ticks]. rewrite E1. cbn [mbind option_bind].
    destruct n as [|n].
    { exists c1. rewrite M1. cbn. done. }
    destruct (IH c1) as (c2 & E2 & H2 & D2 & En2 & S2 & B2 & P2 & M2 & K2).
    + done.
    + rewrite M1, B1. apply Z.eqb_neq. apply (Hne 1). lia.
    + intros i Hi. rewrite W1, B1, En1, Zplus_mod_idemp_l, <- Z.add_assoc. apply Hne. lia.
    + assert (HB : buffer_begin c2 = (buffer_begin c + Z.of_nat (S (S n))) mod wrap c).
      { rewrite B2, W1, B1, Zplus_mod_idemp_l. f_equal. lia. }
      exists c2. rewrite E2. split; [done|]. split; [done|]. split; [congruence|].
      split; [congruence|]. split; [congruence|]. split; [exact HB|]. split; [|split].
      * rewrite P2, P1, Pl1, <- app_assoc. f_equal.
        replace (Z.of_nat (S (S n))) with (1 + Z.of_nat (S n)) by lia.
        rewrite ring_slice_app by lia. f_equal. apply ring_slice_shift.
        rewrite (playable_length rt c Hr Hc), B1. apply Zmod_mod.
      * rewrite M2, En1. done.
      * rewrite K2, K1. lia.
Qed.

(** The interrupts up to and including the one that empties the ring, when the
    end can be reached. *)
Definition todo (c : snd_sh_dac) : Z :=
  let k := (buffer_end c - buffer_begin c) mod wrap c in if k =? 0 then wrap c else k.

Lemma todo_spec rt c :
  chip_ok rt c -> buffer_end c < wrap c ->
  0 < todo c <= wrap c /\ (buffer_begin c + todo c) mod wrap c = buffer_end c /\
  forall i, 0 < i < todo c -> (buffer_begin c + i) mod wrap c <> buffer_end c.
Proof.
  intros (_ & _ & _ & Hb & He & _) Hend. unfold todo. set (w := wrap c) in *.
  pose proof (Z.mod_pos_bound (buffer_end c - buffer_begin c) w ltac:(lia)) as Hk.
  assert (Hi : forall i, 0 < i <= w -> (buffer_begin c + i) mod w =
    if bool_decide (buffer_begin c + i < w) then buffer_begin c + i else buffer_begin c + i - w).
  { intros i Hi. case_bool_decide; [apply Z.mod_small; lia|].
    symmetry. apply (Z.mod_unique _ _ 1); lia. }
  assert (Hcase : (buffer_end c - buffer_begin c) mod w =
    if bool_decide (buffer_begin c <= buffer_end c) then buffer_end c - buffer_begin c
    else buffer_end c - buffer_begin c + w).
  { case_bool_decide; [apply Z.mod_small; lia|].
    symmetry. apply (Z.mod_unique _ _ (-1)); lia. }
  cbv zeta. rewrite Hcase in *. clear Hcase.
  destruct (Z.eqb_spec (if bool_decide (buffer_begin c <= buffer_end c)
    then buffer_end c - buffer_begin c else buffer_end c - buffer_begin c + w) 0);
  repeat case_bool_decide;
  (split; [lia|]); (split; [rewrite Hi by lia; case_bool_decide; lia|]);
  intros i Hlt; rewrite Hi by lia; case_bool_decide; lia.
Qed.

(** dac_audio_sync in terms of the interrupts it waits for. *)
Lemma sync_returns n fuel c c' :
  (n <= fuel)%nat -> ticks n c = Some c' -> empty c' = true ->
  (forall i c1, (i < n)%nat -> ticks i c = Some c1 -> empty c1 = false) ->
  dac_audio_sync fuel c = Some c'.
Proof.
  revert fuel c. induction n as [|n IH]; intros fuel c Hf Ht He Hn.
  - injection Ht as ->. destruct fuel; simpl; by rewrite He.
  - destruct fuel as [|fuel]; [lia|]. cbn [dac_audio_sync ticks] in *.
    rewrite (Hn O c) by (done || lia).
    destruct (snd_sh_dac_interrupt c) as [c1|] eqn:E; [|done]. cbn [mbind option_bind] in *.
    apply IH; [lia|done|done|]. intros i c2 Hi Hc2. apply (Hn (S i)); [lia|].
    cbn [ticks]. rewrite E. exact Hc2.
Qed.

Lemma sync_hangs fuel c :
  (forall i, exists c1, ticks i c = Some c1 /\ empty c1 = false) -> dac_audio_sync fuel c = None.
Proof.
  revert c. induction fuel as [|fuel IH]; intros c H;
    destruct (H O) as (c0 & [= <-] & E0); cbn [dac_audio_sync]; rewrite E0; [done|].
  destruct (H 1%nat) as (c1 & E1 & _). cbn [ticks] in E1.
  destruct (snd_sh_dac_interrupt c) as [c'|] eqn:E; [|done]. cbn [mbind option_bind] in *.
  apply IH. intros i. destruct (H (S i)) as (c2 & E2 & M2). exists c2. split; [|done].
  cbn [ticks] in E2. by rewrite E in E2.
Qed.

(** The two ways playback goes on: to the end of the ring, or for ever. *)
Definition plays (rt : snd_pcm_runtime) (c : snd_sh_dac) (n : nat) (c' : snd_sh_dac) : Prop :=
  ticks n c = Some c' /\ chip_ok rt c' /\
  played (chan (regs c')) =
    played (chan (regs c)) ++ ring_slice (playable c) (buffer_begin c) (Z.of_nat n) /\
  clock rt c' = clock rt c + Z.of_nat n.

Lemma plays_to_end rt c n :
  rt_ok rt -> chip_ok rt c -> empty c = false -> buffer_end c < wrap c -> Z.of_nat n <= todo c ->
  exists c', plays rt c n c' /\ empty c' = (Z.of_nat n =? todo c).
Proof.
  intros Hr Hc He Hend Hn. destruct (todo_spec rt c Hc Hend) as (Hk & Hmeet & Hbefore).
  destruct (ticks_spec rt n c Hr Hc He) as (c' & E & H & _ & _ & _ & B & P & M & K).
  { intros i Hi. apply Hbefore. lia. }
  exists c'. split; [done|].
  rewrite M, B. destruct (Z.eqb_spec (Z.of_nat n) (todo c)) as [->|Hne].
  - rewrite Hmeet, Z.eqb_refl. apply andb_true_iff. split; [|done]. apply Z.ltb_lt. lia.
  - destruct (Z.ltb_spec 0 (Z.of_nat n)); [|done]. simpl. apply Z.eqb_neq. apply Hbefore. lia.
Qed.

Lemma plays_for_ever rt c n :
  rt_ok rt -> chip_ok rt c -> empty c = false -> wrap c <= buffer_end c ->
  exists c', plays rt c n c' /\ empty c' = false.
Proof.
  intros Hr Hc He Hend. pose proof Hc as (_ & _ & _ & Hb & _).
  assert (Hnever : forall i, (buffer_begin c + i) mod wrap c <> buffer_end c).
  { intros i. pose proof (Z.mod_pos_bound (buffer_begin c + i) (wrap c) ltac:(lia)). lia. }
  destruct (ticks_spec rt n c Hr Hc He) as (c' & E & H & _ & _ & _ & B & P & M & K); [auto|].
  exists c'. split; [done|]. rewrite M, B.
  destruct (0 <? Z.of_nat n); [|done]. apply Z.eqb_neq, Hnever.
Qed.

(** C35: the interrupt plays the cells of the ring in order, without gap, up to
    buffer_end, tells the core after every period, and then stops.  But the ring it
    plays is one cell shorter than the buffer: a byte in the last cell is never
    played.  When buffer_end lies behind that ring, as it does after every copy that
    fills the buffer up to its end, no interrupt ever empties the ring: the old
    contents are played again and again, and dac_audio_sync, and with it close, never
    returns.  When buffer_end lies in the ring, close returns after exactly the
    interrupts that play what is left. *)
Theorem alsa_playback_and_close rt c :
  rt_ok rt -> chip_ok rt c -> empty c = false ->
  (buffer_end c < wrap c ->
   (forall n, Z.of_nat n <= todo c ->
      exists c', plays rt c n c' /\ empty c' = (Z.of_nat n =? todo c)) /\
   exists c', forall fuel, todo c <= Z.of_nat fuel ->
     snd_sh_dac_pcm_close fuel c = Some (0, c') /\
     played (chan (regs c')) =
       played (chan (regs c)) ++ ring_slice (playable c) (buffer_begin c) (todo c) ++ [0]) /\
  (wrap c <= buffer_end c ->
   forall n, snd_sh_dac_pcm_close n c = None /\ exists c', plays rt c n c' /\ empty c' = false).
Proof.
  intros Hr Hc He. split; intros Hend.
  - pose proof (plays_to_end rt c) as Hplay. destruct (todo_spec rt c Hc Hend) as (Hk & _ & _).
    split; [auto|].
    destruct (Hplay (Z.to_nat (todo c))) as (c1 & (E1 & _ & P1 & _) & M1); [auto..|lia|].
    rewrite Z2Nat.id in P1, M1 by lia. rewrite Z.eqb_refl in M1.
    exists (set_regs c1 (dac_audio_stop (regs c1))). intros fuel Hf. unfold snd_sh_dac_pcm_close.
    rewrite (sync_returns (Z.to_nat (todo c)) fuel c c1); [|lia|done|done|].
    + split; [done|]. cbn. rewrite P1. by rewrite <- app_assoc.
    + intros i ci Hi Eci. destruct (Hplay i) as (c2 & (E2 & _) & M2); [auto..|lia|].
      rewrite E2 in Eci. injection Eci as <-. rewrite M2. apply Z.eqb_neq. lia.
  - intros n. split; [|by apply plays_for_ever]. unfold snd_sh_dac_pcm_close.
    rewrite sync_hangs; [done|]. intros i.
    destruct (plays_for_ever rt c i) as (c1 & (E & _) & M); [auto..|]. by exists c1.
Qed.

(** A stream of 4 frames that was filled once. *)
Definition sample_rt : snd_pcm_runtime :=
  {| frame_bits := 8; period_size := 2; rt_buffer_size := 4 |}.

Definition sample_hw : hw :=
  {| TMU_TSTR := 0x01; TMU1_TCR := 0x20; TMU1_TCOR := 0; TMU1_TCNT := 0; GPADR := 0;
     chan := {| DACR := 0x80; DADR0 := 0; DADR1 := 0; played := [] |} |}.

Definition sample_chip (e : bool) (en : Z) : snd_sh_dac :=
  {| substream := Some sample_rt; rate := 8000; empty := e;
     data_buffer := [1; 2; 3; 4] ++ replicate (Z.to_nat (BUFFER_SIZE - 4)) 9;
     buffer_begin := 0; buffer_end := en; processed := 0; buffer_size := 4;
     regs := sample_hw; elapsed := 0 |}.

Lemma sample_rt_ok : rt_ok sample_rt.
Proof. unfold rt_ok, sample_rt. simpl. lia. Qed.

Lemma sample_chip_ok e en : 0 <= en <= 4 -> chip_ok sample_rt (sample_chip e en).
Proof.
  intros He. unfold chip_ok, sample_chip, wrap, sample_rt. cbn [substream data_buffer buffer_size
    buffer_begin buffer_end processed rt_buffer_size period_size].
  split; [done|]. split; [by rewrite length_app, length_replicate|]. lia.
Qed.

Lemma alsa_playback_and_close_witness :
  (forall n, snd_sh_dac_pcm_close n (sample_chip false 4) = None) /\
  (exists c', snd_sh_dac_pcm_close 9 (sample_chip false 2) = Some (0, c') /\
     played (chan (regs c')) = [1; 2; 0]).
Proof.
  split.
  - destruct (alsa_playback_and_close sample_rt (sample_chip false 4) sample_rt_ok
      (sample_chip_ok false 4 ltac:(lia)) eq_refl) as [_ H].
    intros n. apply H. unfold wrap. simpl. lia.
  - destruct (alsa_playback_and_close sample_rt (sample_chip false 2) sample_rt_ok
      (sample_chip_ok false 2 ltac:(lia)) eq_refl) as [H _].
    destruct H as (_ & c' & H); [unfold wrap; simpl; lia|].
    destruct (H 9%nat) as [E P]; [vm_compute; intros ?; discriminate|].
    exists c'. split; [exact E|]. rewrite P. by vm_compute.
Defined.

(** ** Sequences of operations *)

(** What happens to an open stream, in any order. *)
Inductive pcm_op :=
| Copy (pos : Z) (src : list Z)
| Silence (pos count : Z)
| Trigger (cmd : trigger_cmd)
| Tick.

Definition pcm_step (rt : snd_pcm_runtime) (op : pcm_op) (c : snd_sh_dac) : option snd_sh_dac :=
  match op with
  | Copy pos src => snd <$> snd_sh_dac_pcm_copy 0 rt pos src (Z.of_nat (length src)) c
  | Silence pos count => snd <$> snd_sh_dac_pcm_silence 0 rt pos count c
  | Trigger cmd => Some (snd (snd_sh_dac_pcm_trigger cmd c))
  | Tick => snd_sh_dac_interrupt c
  end.

Fixpoint pcm_run (rt : snd_pcm_runtime) (ops : list pcm_op) (c : snd_sh_dac) : option snd_sh_dac :=
  match ops with
  | [] => Some c
  | op :: ops => c ← pcm_step rt op c; pcm_run rt ops c
  end.

(** The core copies a positive number of frames that lie in its buffer. *)
Definition op_fits (rt : snd_pcm_runtime) (op : pcm_op) : Prop :=
  match op with
  | Copy pos src =>
      0 <= pos /\ 0 < Z.of_nat (length src) /\ pos + Z.of_nat (length src) <= rt_buffer_size rt
  | Silence pos count => 0 <= pos /\ 0 < count /\ pos + count <= rt_buffer_size rt
  | _ => True
  end.

(** The timer runs while there is something to play. *)
Definition timer_ok (c : snd_sh_dac) : Prop :=
  empty c = false -> Z.testbit (TMU_TSTR (regs c)) 1 = true.

Lemma tick_timer c c' : snd_sh_dac_interrupt c = Some c' -> timer_ok c -> timer_ok c'.
Proof.
  unfold snd_sh_dac_interrupt, timer_ok. intros E H.
  destruct (substream c) as [rt|]; [|done]. cbn [mbind option_bind] in E.
  cbn [empty set_regs] in E. destruct (empty c) eqn:Em.
  { injection E as <-. cbn. by rewrite Em. }
  cbn [data_buffer set_regs buffer_begin] in E.
  destruct (array_get _ _) as [x|]; [|done]. cbn [mbind option_bind] in E.
  repeat match type of E with context [if ?b then _ else _] => destruct b end;
    injection E as <-; cbn; rewrite ?Em; done || (intros _; exact (H eq_refl)).
Qed.

Lemma tick_safe rt c :
  rt_ok rt -> chip_ok rt c -> exists c', snd_sh_dac_interrupt c = Some c' /\ chip_ok rt c'.
Proof.
  intros Hr Hc. destruct (empty c) eqn:He.
  - pose proof Hc as (Hs & _). unfold snd_sh_dac_interrupt. rewrite Hs. cbn [mbind option_bind].
    cbn [empty set_regs]. rewrite He. eexists. split; [done|]. exact Hc.
  - destruct (tick_spec rt c Hr Hc He) as (c' & E & H & _). by exists c'.
Qed.

Lemma new_end_ok rt c b e :
  chip_ok rt c -> timer_ok c -> length b = length (data_buffer c) -> 0 <= e <= buffer_size c ->
  chip_ok rt (new_end b e c) /\ timer_ok (new_end b e c).
Proof.
  intros (Hs & Hl & Hb & Hbg & _ & Hp) Ht Hlen He. unfold new_end. cbn [empty set_ring].
  unfold timer_ok in *.
  destruct (empty c) eqn:Em; (split; [|]); unfold chip_ok, wrap in *; cbn; rewrite ?Hlen, ?Em;
    auto 10. intros _. apply tstr_start_bit.
Qed.

Lemma pcm_step_ok rt op c :
  rt_ok rt -> op_fits rt op -> chip_ok rt c -> timer_ok c ->
  exists c', pcm_step rt op c = Some c' /\ chip_ok rt c' /\ timer_ok c'.
Proof.
  intros Hr Hop Hc Ht. pose proof Hc as (_ & Hl & Hb & _). pose proof Hr as (_ & _ & Hbs).
  assert (Hbig : 48 * 1024 <= BUFFER_SIZE) by done.
  destruct op as [pos src|pos n|cmd|]; cbn [op_fits pcm_step] in *.
  - unfold snd_sh_dac_pcm_copy.
    destruct (Z.ltb_spec (Z.of_nat (length src)) 0); [lia|].
    destruct (Z.eqb_spec (Z.of_nat (length src)) 0); [lia|].
    rewrite !frames_to_bytes_id by (done || lia). unfold memcpy.
    rewrite mem_read_Some by lia. cbn [mbind option_bind].
    rewrite drop_0, take_ge by lia. rewrite mem_write_Some by lia. cbn [mbind option_bind].
    eexists. split; [reflexivity|]. cbn [snd]. apply new_end_ok; [done..| |lia].
    rewrite !length_app, length_take, length_drop. lia.
  - unfold snd_sh_dac_pcm_silence.
    destruct (Z.ltb_spec n 0); [lia|]. destruct (Z.eqb_spec n 0); [lia|].
    rewrite !frames_to_bytes_id by (done || lia).
    rewrite mem_write_Some by (rewrite ?length_replicate; lia). cbn [mbind option_bind].
    eexists. split; [reflexivity|]. cbn [snd]. apply new_end_ok; [done..| |lia].
    rewrite !length_app, length_take, length_drop, length_replicate. lia.
  - destruct cmd; cbn [snd_sh_dac_pcm_trigger snd]; eexists; (split; [reflexivity|]); [|done..].
    split; [exact Hc|]. intros _. apply tstr_start_bit.
  - destruct (tick_safe rt c Hr Hc) as (c' & E & H). exists c'. split; [done|].
    split; [done|]. by apply (tick_timer c).
Qed.

Lemma pcm_run_ok rt ops c :
  rt_ok rt -> Forall (op_fits rt) ops -> chip_ok rt c -> timer_ok c ->
  exists c', pcm_run rt ops c = Some c' /\ chip_ok rt c' /\ timer_ok c'.
Proof.
  intros Hr Hops. revert c. induction Hops as [|op ops Hop Hops IH]; intros c H1 T1.
  - by exists c.
  - destruct (pcm_step_ok rt op c Hr Hop H1 T1) as (c2 & E & H2 & T2). cbn [pcm_run].
    rewrite E. cbn [mbind option_bind]. by apply IH.
Qed.

Lemma open_prepare_ok rt c :
  rt_ok rt -> Z.of_nat (length (data_buffer c)) = BUFFER_SIZE ->
  exists c1, snd_sh_dac_pcm_prepare (snd (snd_sh_dac_pcm_open rt c)) = Some (0, c1) /\
    chip_ok rt c1 /\ timer_ok c1.
Proof.
  intros (_ & ? & ?) Hl. eexists. split; [reflexivity|]. unfold chip_ok, timer_ok, wrap. cbn.
  split; [|done]. split; [done|]. split; [done|]. lia.
Qed.

(** C36: every stream that the core can open on the driver stays well formed.
    From open and prepare on, through any sequence of copies and silences in the
    buffer, triggers and interrupts, no access leaves data_buffer, the position
    that snd_sh_dac_pcm_pointer reports is a frame of the buffer, less than a
    period is unreported, and the timer runs while there is something to play. *)
Theorem alsa_stream_invariant rt ops c :
  rt_ok rt -> Z.of_nat (length (data_buffer c)) = BUFFER_SIZE -> Forall (op_fits rt) ops ->
  exists c1 c2, snd_sh_dac_pcm_prepare (snd (snd_sh_dac_pcm_open rt c)) = Some (0, c1) /\
    pcm_run rt ops c1 = Some c2 /\ chip_ok rt c2 /\ timer_ok c2 /\
    0 <= snd_sh_dac_pcm_pointer c2 < rt_buffer_size rt.
Proof.
  intros Hr Hl Hops. destruct (open_prepare_ok rt c Hr Hl) as (c1 & E1 & H1 & T1).
  destruct (pcm_run_ok rt ops c1 Hr Hops H1 T1) as (c2 & E2 & H2 & T2).
  exists c1, c2. split; [done|]. split; [done|]. split; [done|]. split; [done|].
  destruct H2 as (_ & _ & Hb & Hbg & _). unfold snd_sh_dac_pcm_pointer, wrap in *. lia.
Qed.

Lemma alsa_stream_invariant_witness :
  exists c1 c2, snd_sh_dac_pcm_prepare (snd (snd_sh_dac_pcm_open sample_rt (sample_chip true 0)))
      = Some (0, c1) /\
    pcm_run sample_rt [Copy 0 [5; 6]; Tick; Trigger SNDRV_PCM_TRIGGER_START; Silence 2 2; Tick; Tick] c1
      = Some c2 /\ 0 <= snd_sh_dac_pcm_pointer c2 < 4.
Proof.
  destruct (alsa_stream_invariant sample_rt
    [Copy 0 [5; 6]; Tick; Trigger SNDRV_PCM_TRIGGER_START; Silence 2 2; Tick; Tick]
    (sample_chip true 0) sample_rt_ok) as (c1 & c2 & E1 & E2 & _ & _ & H).
  - cbn [sample_chip data_buffer]. by rewrite length_app, length_replicate.
  - repeat constructor; simpl; lia.
  - exists c1, c2. split; [exact E1|]. split; [exact E2|exact H].
Defined.

(** ** A buffer of one frame *)

(** With one frame the wrap is at cell 0, which the interrupt leaves before it
    compares: buffer_begin runs past the buffer. *)
Lemma run_past_end rt n c :
  substream c = Some rt -> empty c = false -> buffer_size c = 1 ->
  Z.of_nat (length (data_buffer c)) = BUFFER_SIZE ->
  buffer_end c <= buffer_begin c -> 0 <= buffer_begin c <= BUFFER_SIZE ->
  BUFFER_SIZE - buffer_begin c < Z.of_nat n -> ticks n c = None.
Proof.
  revert c. induction n as [|n IH]; intros c Hs He Hb Hl Hend Hbg Hn; [lia|].
  cbn [ticks]. destruct (array_get (data_buffer c) (buffer_begin c)) as [x|] eqn:Ex.
  - assert (Hlt : buffer_begin c < BUFFER_SIZE).
    { unfold array_get in Ex. rewrite bool_decide_true in Ex by lia. apply lookup_lt_Some in Ex. lia. }
    destruct (tick_fields rt c x Hs He Ex) as (c' & -> & S' & D' & En' & Z' & B' & _ & M' & _).
    cbn [mbind option_bind]. rewrite Hb in B', M'.
    destruct (Z.eqb_spec (buffer_begin c + 1) (1 - 1)); [lia|].
    apply IH; rewrite ?D', ?En', ?Z', ?B'; try (done || lia).
    rewrite M'. apply Z.eqb_neq. lia.
  - unfold snd_sh_dac_interrupt. rewrite Hs. cbn [mbind option_bind].
    cbn [empty set_regs data_buffer buffer_begin]. by rewrite He, Ex.
Qed.

Lemma pcm_run_cons rt op ops c : pcm_run rt (op :: ops) c = c' ← pcm_step rt op c; pcm_run rt ops c'.
Proof. done. Qed.

Lemma pcm_run_app rt ops ops' c :
  pcm_run rt (ops ++ ops') c = c' ← pcm_run rt ops c; pcm_run rt ops' c'.
Proof.
  revert c. induction ops as [|op ops IH]; intros c; [done|]. simpl.
  destruct (pcm_step rt op c); simpl; [apply IH|done].
Qed.

Lemma pcm_run_ticks rt n c : pcm_run rt (replicate n Tick) c = ticks n c.
Proof.
  revert c. induction n as [|n IH]; intros c; [done|]. simpl.
  destruct (snd_sh_dac_interrupt c); simpl; [apply IH|done].
Qed.

Local Arguments Z.to_nat : simpl never.

Lemma copy_one rt x c :
  frame_bits rt = 8 -> Z.of_nat (length (data_buffer c)) = BUFFER_SIZE ->
  exists b, pcm_step rt (Copy 0 [x]) c = Some (new_end b 1 c) /\
    Z.of_nat (length b) = BUFFER_SIZE.
Proof.
  intros Hf Hl. unfold BUFFER_SIZE in *. cbn [pcm_step length]. unfold snd_sh_dac_pcm_copy.
  change (Z.of_nat 1) with 1. change (1 <? 0) with false. change (1 =? 0) with false. cbv iota.
  assert (Hftb : forall n, 0 <= n <= 1 -> frames_to_bytes rt n = n).
  { intros n Hn. unfold frames_to_bytes. rewrite Hf, u32_small by width_lia.
    rewrite Z.div_mul by lia. apply s32_small. width_lia. }
  rewrite !Hftb by lia. unfold memcpy. rewrite mem_read_Some by (simpl; lia).
  cbn [mbind option_bind]. rewrite mem_write_Some by (simpl; lia). eexists. split; [reflexivity|].
  rewrite !length_app, length_take, length_drop. simpl. lia.
Qed.

Lemma second_byte_fatal rt y c n :
  frame_bits rt = 8 -> Z.of_nat (length (data_buffer c)) = BUFFER_SIZE ->
  BUFFER_SIZE <= Z.of_nat n -> substream c = Some rt -> empty c = false ->
  buffer_begin c = 0 -> buffer_end c = 1 -> buffer_size c = 1 ->
  exists c', pcm_run rt [Tick; Copy 0 [y]] c = Some c' /\ ticks n c' = None.
Proof.
  intros Hf Hl Hn Hs Hm Hb He Hz.
  destruct (array_get_Some (data_buffer c) (buffer_begin c)) as [z Ez].
  { rewrite Hl, Hb. done. }
  destruct (tick_fields rt c z Hs Hm Ez) as (c3 & E3 & S3 & D3 & En3 & Z3 & B3 & _).
  rewrite Hb, Hz in B3. change (0 + 1 =? 1 - 1) with false in B3. cbv iota in B3.
  destruct (copy_one rt y c3 Hf) as (b4 & E4 & L4); [by rewrite D3|].
  exists (new_end b4 1 c3). rewrite !pcm_run_cons.
  change (pcm_step rt Tick c) with (snd_sh_dac_interrupt c).
  rewrite E3. cbn [mbind option_bind]. rewrite pcm_run_cons, E4. split; [reflexivity|].
  unfold new_end. cbn [empty set_ring]. destruct (empty c3) eqn:M3;
    (apply (run_past_end rt); cbn [substream empty buffer_size data_buffer buffer_end buffer_begin
       set_ring set_regs]; rewrite ?Z3, ?Hz, ?B3; [assumption || reflexivity..|lia| |lia]);
    unfold BUFFER_SIZE; lia.
Qed.

(** Snd_sh_dac_pcm_hw lets a program ask for a buffer of one frame (one
    period of one byte).  On such a stream the second byte is fatal: once it was
    written, the interrupt reads on from cell to cell to the end of the 64000 bytes
    of data_buffer and past it. *)
Theorem alsa_one_frame_overrun rt x y c n :
  frame_bits rt = 8 -> period_size rt = 1 -> rt_buffer_size rt = 1 ->
  Z.of_nat (length (data_buffer c)) = BUFFER_SIZE -> BUFFER_SIZE <= Z.of_nat n ->
  exists c1, snd_sh_dac_pcm_prepare (snd (snd_sh_dac_pcm_open rt c)) = Some (0, c1) /\
    is_Some (pcm_run rt [Copy 0 [x]; Tick; Copy 0 [y]] c1) /\
    pcm_run rt ([Copy 0 [x]; Tick; Copy 0 [y]] ++ replicate n Tick) c1 = None.
Proof.
  intros Hf Hp Hb Hl Hn.
  exists (set_stream (snd (snd_sh_dac_pcm_open rt c)) (Some rt) (rt_buffer_size rt)).
  split; [reflexivity|]. rewrite pcm_run_app.
  destruct (copy_one rt x (set_stream (snd (snd_sh_dac_pcm_open rt c)) (Some rt)
    (rt_buffer_size rt)) Hf Hl) as (b & E1 & Lb).
  destruct (second_byte_fatal rt y (new_end b 1 (set_stream (snd (snd_sh_dac_pcm_open rt c))
    (Some rt) (rt_buffer_size rt))) n Hf Lb Hn eq_refl eq_refl eq_refl eq_refl Hb) as (c' & E2 & E3).
  rewrite (pcm_run_cons rt (Copy 0 [x])), E1. cbn [mbind option_bind].
  rewrite E2. cbn [mbind option_bind]. rewrite pcm_run_ticks. done.
Qed.

Lemma alsa_one_frame_overrun_witness :
  let rt := {| frame_bits := 8; period_size := 1; rt_buffer_size := 1 |} in
  exists n c1, snd_sh_dac_pcm_prepare (snd (snd_sh_dac_pcm_open rt (sample_chip true 0))) = Some (0, c1) /\
    pcm_run rt ([Copy 0 [3]; Tick; Copy 0 [4]] ++ replicate n Tick) c1 = None.
Proof.
  intros rt. exists (Z.to_nat BUFFER_SIZE).
  destruct (alsa_one_frame_overrun rt 3 4 (sample_chip true 0) (Z.to_nat BUFFER_SIZE)
    eq_refl eq_refl eq_refl) as (c1 & E1 & _ & E2).
  - cbn [sample_chip data_buffer]. by rewrite length_app, length_replicate.
  - rewrite Z2Nat.id; [apply Z.le_refl|]. unfold BUFFER_SIZE. lia.
  - exists c1. split; [exact E1|exact E2].
Defined.

(** ** Probe and remove *)

Lemma dev_free_spec p irq k :
  kmem_ok (mem k) -> p ∈ live (mem k) ->
  exists k', snd_sh_dac_dev_free p irq k = Some k' /\ kmem_ok (mem k') /\
    live (mem k') = (live (mem k) ∖ {[ p ]}) /\ devices k' = devices k /\
    irq_taken k' = irq_taken k && negb (0 <=? irq).
Proof.
  intros Hk Hp. unfold snd_sh_dac_dev_free.
  destruct (0 <=? irq); cbn [mem irq_taken devices];
    destruct (kfree_spec (mem k) p Hk Hp) as (m & -> & Hm & Hl); cbn [mbind option_bind];
    eexists; (split; [reflexivity|]); cbn; rewrite ?andb_false_r, ?andb_true_r; done.
Qed.

(** Every path through snd_sh_dac_create. *)
Lemma create_spec irq_ret clk junk h m :
  kmem_ok m ->
  exists r k oc,
    snd_sh_dac_create irq_ret clk junk h {| mem := m; irq_taken := false; devices := [] |}
      = Some (r, k, oc) /\ kmem_ok (mem k) /\
    match oc with
    | None =>
        irq_taken k = false /\ devices k = [] /\
        (r = - ENOMEM /\ live (mem k) = live m \/
         (r = - ENOMEM \/ r = - EBUSY) /\ exists p, (p ∉ live m) /\ live (mem k) = {[ p ]} ∪ live m)
    | Some (chip, buf, c) =>
        r = 0 /\ irq_ret = 0 /\ irq_taken k = true /\ empty c = true /\ data_buffer c = junk /\
        Z.testbit (TMU_TSTR (regs c)) 1 = false /\
        exists dev, devices k = [dev] /\ live (mem k) = {[ dev; buf; chip ]} ∪ live m
    end.
Proof.
  intros Hm. unfold snd_sh_dac_create. cbn [mem].
  pose proof (kmalloc_spec m Hm) as H1. destruct (kmalloc m) as [[chip|] m1]; cbn [mem hold_mem].
  2:{ destruct H1 as [Hm1 L1]. do 3 eexists. split; [reflexivity|]. cbn [mem hold_mem]. auto 10. }
  destruct H1 as (Hm1 & _ & N1 & L1).
  pose proof (kmalloc_spec m1 Hm1) as H2. destruct (kmalloc m1) as [[buf|] m2]; cbn [mem hold_mem].
  2:{ destruct H2 as [Hm2 L2]. do 3 eexists. split; [reflexivity|]. cbn [mem hold_mem].
      rewrite L1 in L2. eauto 10. }
  destruct H2 as (Hm2 & _ & N2 & L2). rewrite L1 in N2, L2. unfold hold_mem.
  cbn [mem irq_taken devices].
  destruct (Z.eqb_spec irq_ret 0) as [Hirq|Hirq]; cbn [negb].
  2:{ destruct (dev_free_spec chip (-1) {| mem := m2; irq_taken := false; devices := [] |} Hm2)
        as (k & E & Hk & Lk & Dk & Ik); [cbn; rewrite L2; set_solver|].
      rewrite E. do 3 eexists. split; [reflexivity|].
      split; [done|]. rewrite Dk, Ik, Lk. cbn [mem]. rewrite L2. split; [done|].
      split; [done|]. right. split; [auto|]. exists buf. split; [set_solver|]. set_solver. }
  unfold snd_device_new. cbn [mem irq_taken devices].
  pose proof (kmalloc_spec m2 Hm2) as H3. destruct (kmalloc m2) as [[dev|] m3].
  - destruct H3 as (Hm3 & _ & N3 & L3). do 3 eexists. split; [reflexivity|]. cbn [mem].
    split; [done|]. split; [done|]. split; [done|]. split; [done|]. split; [done|].
    split; [done|]. split; [apply tstr_stop_bit|]. exists dev. split; [done|].
    rewrite L3, L2. set_solver.
  - destruct H3 as [Hm3 L3]. rewrite L2 in L3. change (- ENOMEM <? 0) with true. cbv iota.
    destruct (dev_free_spec chip TIMER1_IRQ {| mem := m3; irq_taken := true; devices := [] |} Hm3)
        as (k & E & Hk & Lk & Dk & Ik); [cbn; rewrite L3; set_solver|].
    unfold hold_mem. cbn [irq_taken devices]. rewrite E. do 3 eexists. split; [reflexivity|].
    split; [done|]. rewrite Dk, Ik, Lk. cbn [mem]. rewrite L3. split; [done|].
    split; [done|]. right. split; [auto|]. exists buf. split; [set_solver|]. set_solver.
Qed.

(** Freeing a card that carries the device of the driver. *)
Lemma card_free_twice card dev k :
  2 ^ 31 <= card < 2 ^ 32 -> kmem_ok (mem k) -> devices k = [dev] -> dev ∈ live (mem k) ->
  snd_card_free card k = None.
Proof.
  intros Hcard Hk Hd Hin. unfold snd_card_free. rewrite Hd. cbn [free_devices].
  unfold snd_device_free.
  destruct (dev_free_spec dev (s32 card) {| mem := mem k; irq_taken := irq_taken k;
    devices := filter (fun d => d <> dev) (devices k) |} Hk Hin) as (k' & -> & _ & Lk & _).
  cbn [mbind option_bind]. unfold kfree. rewrite decide_False; [done|].
  rewrite Lk. cbn [mem]. set_solver.
Qed.

(** The error paths of probe, and remove.  When probe fails before the device
    of the driver was created, the interrupt is released, but unless it is the very
    first allocation that fails one block (the chip or the buffer) is left behind,
    always so when the interrupt is busy.  Once the device exists, freeing the card, in remove as on
    a later error of probe, is a double free: snd_device_free calls
    snd_sh_dac_dev_free with the snd_device in place of the chip, which frees the
    device, and then frees it again. *)
Theorem alsa_probe_remove card irq_ret pcm_ret reg_ret clk junk h m :
  2 ^ 31 <= card < 2 ^ 32 -> kmem_ok m ->
  let k0 := {| mem := m; irq_taken := false; devices := [] |} in
  match snd_sh_dac_probe card irq_ret pcm_ret reg_ret clk junk h k0 with
  | None => (pcm_ret < 0 \/ reg_ret < 0) /\ irq_ret = 0
  | Some (r, k, None) =>
      irq_taken k = false /\ devices k = [] /\
      (r = - ENOMEM /\ live (mem k) = live m \/
       (r = - ENOMEM \/ r = - EBUSY) /\ exists p, (p ∉ live m) /\ live (mem k) = {[ p ]} ∪ live m)
  | Some (r, k, Some (chip, buf, c)) =>
      r = 0 /\ irq_taken k = true /\ empty c = true /\ data_buffer c = junk /\
      Z.testbit (TMU_TSTR (regs c)) 1 = false /\
      (exists dev, devices k = [dev] /\ live (mem k) = {[ dev; buf; chip ]} ∪ live m) /\
      snd_sh_dac_remove card k = None
  end.
Proof.
  intros Hcard Hm k0. unfold snd_sh_dac_probe.
  destruct (Z.eqb_spec card 0) as [|_]; [lia|].
  destruct (create_spec irq_ret clk junk h m Hm) as (r & k & [[[chip buf] c]|] & E & Hk & H);
    fold k0 in E; rewrite E; cbn [mbind option_bind].
  - destruct H as (-> & -> & Hi & He & Hd & Ht & dev & Dk & Lk).
    assert (Hfree : snd_card_free card k = None)
      by (apply (card_free_twice card dev); [done..|rewrite Lk; set_solver]).
    rewrite Hfree. change (0 <? 0) with false. cbv iota.
    destruct (Z.ltb_spec pcm_ret 0); [cbn; auto|]. destruct (Z.ltb_spec reg_ret 0); [cbn; auto|].
    unfold snd_sh_dac_remove. rewrite Hfree. eauto 12.
  - destruct H as (Hi & Dk & Lk).
    assert (Hneg : (r <? 0) = true) by (destruct Lk as [[-> _]|[[-> | ->] _]]; done). rewrite Hneg.
    assert (Hfree : snd_card_free card k = Some k) by (unfold snd_card_free; by rewrite Dk).
    rewrite Hfree. cbn [mbind option_bind]. done.
Qed.

Lemma alsa_probe_remove_witness :
  let k0 := {| mem := {| oom := []; live := ∅; fresh := 1 |}; irq_taken := false; devices := [] |} in
  match snd_sh_dac_probe (2 ^ 31) 0 0 0 33333333 [] sample_hw k0 with
  | Some (_, k, Some _) => snd_sh_dac_remove (2 ^ 31) k = None
  | _ => False
  end.
Proof.
  intros k0. assert (Hm : kmem_ok {| oom := []; live := ∅; fresh := 1 |}) by (split; [done|set_solver]).
  pose proof (alsa_probe_remove (2 ^ 31) 0 0 0 33333333 [] sample_hw _ ltac:(lia) Hm) as H.
  cbv zeta in H. fold k0 in H.
  destruct (snd_sh_dac_probe (2 ^ 31) 0 0 0 33333333 [] sample_hw k0)
    as [[[r k] [[[chip buf] c]|]]|] eqn:E.
  - apply H.
  - vm_compute in E. discriminate E.
  - vm_compute in E. discriminate E.
Defined.
