(* ===== verification/Sort.v ===== *)
(** lib/sort.c: the heap sort of the kernel.

    The array is a list of bytes; an element is a chunk of [size] of them, and the
    counters of the code are byte offsets.  The two phases are proved on a store of
    elements that can be read and exchanged ([Store]); the bytes with generic_swap
    or u32_swap implement it. *)
From stdpp Require Import base list numbers option sorting.
From Stdlib Require Import ZArith Lia.
From S2P Require Import Prelude.

Local Open Scope Z_scope.

(** ** Operations *)

Definition read_bytes (base : list Z) (off size : Z) : option (list Z) := mem_read base off size.

(** u32_swap: one word at a time. *)
Definition u32_swap (base : list Z) (a b : Z) : option (list Z) :=
  t ← mem_read base a 4;
  vb ← mem_read base b 4;
  base ← mem_write base a vb;
  mem_write base b t.

(** generic_swap: do { ... } while (--size > 0). *)
Definition swap_body (st : list Z * Z * Z * Z) : (list Z * Z * Z * Z) + option (list Z) :=
  let '(base, a, b, size) := st in
  match (t ← array_get base a; vb ← array_get base b;
         base ← array_set base a vb; array_set base b t) with
  | None => inr None
  | Some base =>
      let size := size - 1 in
      if 0 <? size then inl (base, a + 1, b + 1, size) else inr (Some base)
  end.

Definition generic_swap (base : list Z) (a b size : Z) : option (list Z) :=
  mjoin (loop (S (Z.to_nat size)) swap_body (base, a, b, size)).

(** What the sort needs of its array: the element at a byte offset and the
    exchange of two elements. *)
Class Store (S A : Type) := {
  el_get : S -> Z -> option A;
  el_swap : S -> Z -> Z -> option S
}.

Section heap_sort.
Context {St A : Type} `{!Store St A}.
Variable cmp : A -> A -> Z.

(** The inner loop, which the two phases share: [r] sinks in the heap of the
    first [n] bytes.  The comparison [c < n - size] is unsigned. *)
Definition sift_body (n size : Z) (st : St * Z) : (St * Z) + option St :=
  let '(base, r) := st in
  if s32 (r * 2) <? n then
    let c := s32 (r * 2) in
    match (c ← (if u32 c <? u32 (n - size)
                then x ← el_get base c; y ← el_get base (c + size);
                     Some (if cmp x y <? 0 then s32 (c + size) else c)
                else Some c);
           x ← el_get base r; y ← el_get base c;
           if 0 <=? cmp x y then Some (base, None)
           else base ← el_swap base r c; Some (base, Some c)) with
    | None => inr None
    | Some (base, None) => inr (Some base)
    | Some (base, Some c) => inl (base, c)
    end
  else inr (Some base).

Definition sift (n size : Z) (base : St) (r : Z) : option St :=
  mjoin (loop (S (Z.to_nat n)) (sift_body n size) (base, r)).

(** for ( ; i >= 0; i -= size) *)
Definition heapify_body (n size : Z) (st : St * Z) : (St * Z) + option St :=
  let '(base, i) := st in
  if 0 <=? i then
    match sift n size base i with
    | None => inr None
    | Some base => inl (base, s32 (i - size))
    end
  else inr (Some base).

(** for (i = n - size; i >= 0; i -= size) *)
Definition extract_body (size : Z) (st : St * Z) : (St * Z) + option St :=
  let '(base, i) := st in
  if 0 <=? i then
    match (base ← el_swap base 0 i; sift i size base 0) with
    | None => inr None
    | Some base => inl (base, s32 (i - size))
    end
  else inr (Some base).

Definition heap_sort (base : St) (num size : Z) : option St :=
  let i := s32 (u32 (num / 2 * size)) in
  let n := s32 (u32 (num * size)) in
  base ← mjoin (loop (S (S (Z.to_nat num))) (heapify_body n size) (base, i));
  mjoin (loop (S (S (Z.to_nat num))) (extract_body size) (base, s32 (n - size))).
End heap_sort.

(** The array of bytes, with the swap that sort chooses when it is given none. *)
#[export] Instance byte_store (size : Z) : Store (list Z) (list Z) := {
  el_get base off := read_bytes base off size;
  el_swap base a b := if size =? 4 then u32_swap base a b else generic_swap base a b size
}.

Definition sort (base : list Z) (num size : Z) (cmp : list Z -> list Z -> Z) : option (list Z) :=
  @heap_sort _ _ (byte_store size) cmp base num size.

(** ** The exchange of two elements *)

(** The first [k] bytes at [a] and at [b] exchanged. *)
Definition swapped (base base' : list Z) (a b k : Z) : Prop :=
  length base' = length base /\
  forall p : nat, base' !! p =
    if bool_decide (a <= Z.of_nat p < a + k) then base !! Z.to_nat (Z.of_nat p - a + b)
    else if bool_decide (b <= Z.of_nat p < b + k) then base !! Z.to_nat (Z.of_nat p - b + a)
    else base !! p.

(** Two chunks that are equal or do not overlap. *)
Definition apart (a b size : Z) : Prop := a = b \/ a + size <= b \/ b + size <= a.

Ltac decide_all := repeat case_bool_decide; try lia; try done.

Lemma swap_step base base' a b t size :
  0 <= a -> 0 <= b -> 0 <= t < size -> apart a b size ->
  a + size <= Z.of_nat (length base) -> b + size <= Z.of_nat (length base) ->
  swapped base base' a b t ->
  exists base'', (x ← array_get base' (a + t); y ← array_get base' (b + t);
                  l ← array_set base' (a + t) y; array_set l (b + t) x) = Some base'' /\
    swapped base base'' a b (t + 1).
Proof.
  intros Ha Hb Ht Hap Hla Hlb [Hl Hp].
  assert (Hget : forall q, q = a \/ q = b -> array_get base' (q + t) = base !! Z.to_nat (q + t)).
  { intros q Hq. unfold array_get. rewrite bool_decide_true by lia. rewrite Hp.
    unfold apart in Hap. decide_all; destruct Hq as [-> | ->]; lia || (f_equal; lia). }
  rewrite !Hget by auto.
  destruct (lookup_lt_is_Some_2 base (Z.to_nat (a + t))) as [x Ex]; [lia|].
  destruct (lookup_lt_is_Some_2 base (Z.to_nat (b + t))) as [y Ey]; [lia|].
  rewrite Ex, Ey. cbn [mbind option_bind].
  rewrite array_set_Some by lia. cbn [mbind option_bind].
  rewrite array_set_Some by (rewrite length_insert; lia).
  eexists. split; [reflexivity|]. split; [by rewrite !length_insert|]. intros p.
  destruct (decide (p = Z.to_nat (b + t))) as [->|Hpb].
  - rewrite list_lookup_insert_eq by (rewrite length_insert; lia). rewrite <- Ex.
    unfold apart in Hap. decide_all; f_equal; lia.
  - rewrite list_lookup_insert_ne by done.
    destruct (decide (p = Z.to_nat (a + t))) as [->|Hpa].
    + rewrite list_lookup_insert_eq by lia. rewrite <- Ey. decide_all; f_equal; lia.
    + rewrite list_lookup_insert_ne by done. rewrite Hp. decide_all.
Qed.

Lemma generic_swap_spec base a b size :
  0 < size -> 0 <= a -> 0 <= b -> apart a b size ->
  a + size <= Z.of_nat (length base) -> b + size <= Z.of_nat (length base) ->
  exists base', generic_swap base a b size = Some base' /\ swapped base base' a b size.
Proof.
  intros Hs Ha Hb Hap Hla Hlb. unfold generic_swap.
  destruct (loop_total swap_body
    (fun '(base', a', b', k) => exists t, 0 <= t < size /\ a' = a + t /\ b' = b + t /\ k = size - t /\
       swapped base base' a b t)
    (fun r => exists base', r = Some base' /\ swapped base base' a b size)
    (fun '(_, _, _, k) => Z.to_nat k)) with (fuel := S (Z.to_nat size)) (s := (base, a, b, size))
    as (r & E & base' & -> & H).
  - intros [[[base' a'] b'] k] (t & Ht & -> & -> & -> & H). unfold swap_body.
    destruct (swap_step base base' a b t size) as (base'' & -> & H'); [done..|].
    destruct (Z.ltb_spec 0 (size - t - 1)).
    + split; [|lia]. exists (t + 1). split; [lia|]. split; [lia|]. split; [lia|]. split; [lia|done].
    + exists base''. split; [done|]. by replace size with (t + 1) by lia.
  - exists 0. split; [lia|]. split; [lia|]. split; [lia|]. split; [lia|].
    split; [done|]. intros p. decide_all.
  - lia.
  - exists base'. by rewrite E.
Qed.

Lemma u32_swap_spec base a b :
  0 <= a -> 0 <= b -> apart a b 4 ->
  a + 4 <= Z.of_nat (length base) -> b + 4 <= Z.of_nat (length base) ->
  exists base', u32_swap base a b = Some base' /\ swapped base base' a b 4.
Proof.
  intros Ha Hb Hap Hla Hlb. unfold u32_swap.
  destruct (mem_read base a 4) as [x|] eqn:Ex; [|by rewrite mem_read_Some in Ex by lia].
  destruct (mem_read base b 4) as [y|] eqn:Ey; [|by rewrite mem_read_Some in Ey by lia].
  cbn [mbind option_bind]. pose proof (mem_read_length _ _ _ _ Ex) as Lx.
  pose proof (mem_read_length _ _ _ _ Ey) as Ly.
  destruct (mem_write base a y) as [l|] eqn:El; [|rewrite mem_write_Some in El by lia; discriminate El].
  cbn [mbind option_bind]. pose proof (mem_write_length _ _ _ _ El) as Ll.
  destruct (mem_write l b x) as [l'|] eqn:El'; [|rewrite mem_write_Some in El' by lia; discriminate El'].
  exists l'. split; [done|]. split; [rewrite (mem_write_length _ _ _ _ El'); done|]. intros p.
  rewrite (mem_write_lookup _ _ _ _ p El'), (mem_write_lookup _ _ _ _ p El), Lx, Ly.
  unfold apart in Hap. change (Z.of_nat (Z.to_nat 4)) with 4. decide_all;
    rewrite ?(mem_read_lookup _ _ _ _ _ Ex), ?(mem_read_lookup _ _ _ _ _ Ey) by lia; f_equal; lia.
Qed.

(** ** Heaps on a list of elements

    The code numbers the cells from 0 but gives cell [r] the children [2 r] and
    [2 r + 1]: cell 0 has the only child 1. *)
Section heaps.
Context {A : Type} (cmp : A -> A -> Z).

(** A comparison function that orders its arguments: negative answers are
    answered the other way round, and order is transitive. *)
Class Ordering : Prop := {
  cmp_total : forall x y, cmp x y < 0 -> 0 <= cmp y x;
  cmp_trans : forall x y z, 0 <= cmp x y -> 0 <= cmp y z -> 0 <= cmp x z
}.
Context {ord : Ordering}.

Lemma cmp_refl x : 0 <= cmp x x.
Proof. destruct (Z.lt_ge_cases (cmp x x) 0) as [H|H]; [|lia]. pose proof (cmp_total x x H). lia. Qed.

(** The element in cell [i] is not above the one in cell [j]. *)
Definition below (l : list A) (i j : nat) : Prop :=
  forall x y, l !! i = Some x -> l !! j = Some y -> 0 <= cmp y x.

Definition child (j c : nat) : Prop := (c = 2 * j \/ c = 2 * j + 1)%nat /\ c <> j.

(** The cells from [k] on are a heap in the first [m] cells, [r] apart. *)
Definition heap_from (l : list A) (k m : nat) : Prop :=
  forall j c, (k <= j)%nat -> child j c -> (c < m)%nat -> below l c j.

Definition heap_but (l : list A) (k m r : nat) : Prop :=
  (forall j c, (k <= j)%nat -> j <> r -> child j c -> (c < m)%nat -> below l c j) /\
  (forall j c, (k <= j)%nat -> child j r -> child r c -> (c < m)%nat -> below l c j).

(** The list with two cells exchanged. *)
Definition exchanged (l l' : list A) (i j : nat) : Prop :=
  length l' = length l /\ l' !! i = l !! j /\ l' !! j = l !! i /\
  forall p, p <> i -> p <> j -> l' !! p = l !! p.

Lemma exchanged_insert (l : list A) i j x y :
  l !! i = Some x -> l !! j = Some y -> exchanged l (<[i := y]> (<[j := x]> l)) i j.
Proof.
  intros Hx Hy. pose proof (lookup_lt_Some _ _ _ Hx). pose proof (lookup_lt_Some _ _ _ Hy).
  split; [by rewrite !length_insert|]. split; [|split].
  - rewrite list_lookup_insert_eq; [done|]. by rewrite length_insert.
  - destruct (decide (j = i)) as [->|Hne].
    + rewrite list_lookup_insert_eq; [congruence|]. by rewrite length_insert.
    + rewrite list_lookup_insert_ne by done. by rewrite list_lookup_insert_eq.
  - intros p Hi Hj. by rewrite !list_lookup_insert_ne by done.
Qed.

Lemma exchanged_perm (l l' : list A) i j :
  (i < length l)%nat -> (j < length l)%nat -> exchanged l l' i j -> l' ≡ₚ l.
Proof.
  intros Hi Hj (Hl & H1 & H2 & H3).
  destruct (lookup_lt_is_Some_2 l i Hi) as [x Hx]. destruct (lookup_lt_is_Some_2 l j Hj) as [y Hy].
  replace l' with (<[i := y]> (<[j := x]> l)); [by apply list_swap_Permutation|].
  destruct (exchanged_insert l i j x y Hx Hy) as (_ & E1 & E2 & E3).
  apply list_eq. intros p. destruct (decide (p = i)) as [->|]; [congruence|].
  destruct (decide (p = j)) as [->|]; [congruence|]. rewrite E3, H3; done.
Qed.

Lemma below_refl l i : below l i i.
Proof. intros x y Hx Hy. assert (x = y) by congruence. subst. apply cmp_refl. Qed.

Lemma below_trans l i j k : (j < length l)%nat -> below l i j -> below l j k -> below l i k.
Proof.
  intros Hj H1 H2 x z Hx Hz. destruct (lookup_lt_is_Some_2 l j Hj) as [y Hy].
  apply (cmp_trans z y x); auto.
Qed.

(** [c'] holds the largest child of [r]: when it is not above [r], the heap is
    restored, otherwise it moves up and the hole moves down. *)
Lemma heap_done l k m r c' :
  (m <= length l)%nat -> (c' < m)%nat -> heap_but l k m r ->
  (forall c, child r c -> (c < m)%nat -> below l c c') -> below l c' r -> heap_from l k m.
Proof.
  intros Hm Hc' [H1 H2] Hbig Hle j c Hj Hch Hc. destruct (decide (j = r)) as [->|Hne].
  - apply (below_trans l c c' r); [lia|auto|done].
  - by apply H1.
Qed.

Lemma heap_sink l l' k m r c' :
  (m <= length l)%nat -> (k <= r)%nat -> (c' < m)%nat -> child r c' -> heap_but l k m r ->
  (forall c, child r c -> (c < m)%nat -> below l c c') -> below l r c' ->
  exchanged l l' r c' -> heap_but l' k m c'.
Proof.
  intros Hm Hk Hc' Hch [H1 H2] Hbig Hle (_ & E1 & E2 & E3). split.
  - intros j c Hj Hne Hjc Hc x y. pose proof Hch as [? ?]. pose proof Hjc as [? ?]. destruct (decide (j = r)) as [->|Hjr].
    + rewrite E1. destruct (decide (c = c')) as [->|Hcc].
      * rewrite E2. intros Hx Hy. by apply (Hle x y).
      * rewrite E3 by (done || lia). intros Hx Hy. by apply (Hbig c).
    + rewrite (E3 j) by done. destruct (decide (c = r)) as [->|Hcr].
      * rewrite E1. intros Hx Hy. apply (H2 j c' Hj); done.
      * rewrite (E3 c) by lia. intros Hx Hy. by apply (H1 j c).
  - intros j c Hj Hjc Hcc Hc x y. pose proof Hch as [? ?]. pose proof Hcc as [? ?].
    assert (j = r) as -> by (destruct Hjc; lia).
    rewrite E1, (E3 c) by lia. intros Hx Hy. apply (H1 c' c); (done || lia).
Qed.

Lemma heap_top l m j : (j < m)%nat -> (m <= length l)%nat -> heap_from l 0 m -> below l j 0.
Proof.
  intros Hj Hm H. induction j as [j IH] using lt_wf_ind.
  destruct (decide (j = 0)%nat) as [->|Hne]; [apply below_refl|].
  apply (below_trans l j (j / 2)).
  - pose proof (Nat.div_lt j 2). lia.
  - pose proof (Nat.div_mod j 2 ltac:(lia)). pose proof (Nat.mod_upper_bound j 2 ltac:(lia)).
    apply H; [lia| |done]. unfold child. lia.
  - pose proof (Nat.div_lt j 2 ltac:(lia) ltac:(lia)). apply IH; lia.
Qed.
End heaps.

(** ** The loops *)

(** A store of [num] elements of [size] bytes each. *)
Class StoreLaws (St A : Type) `{!Store St A} (num size : Z) := {
  st_ok : St -> Prop;
  st_els : St -> list A;
  st_length : forall s, st_ok s -> Z.of_nat (length (st_els s)) = num;
  st_get : forall s (i : nat), st_ok s -> Z.of_nat i < num ->
    el_get s (Z.of_nat i * size) = st_els s !! i;
  st_swap : forall s (i j : nat), st_ok s -> Z.of_nat i < num -> Z.of_nat j < num ->
    exists s', el_swap s (Z.of_nat i * size) (Z.of_nat j * size) = Some s' /\ st_ok s' /\
      exchanged (st_els s) (st_els s') i j
}.

Section loops.
Context {St A : Type} `{!Store St A} (num size : Z) {laws : StoreLaws St A num size}.
Context (cmp : A -> A -> Z) {ord : Ordering cmp}.
Hypothesis size_pos : 0 < size <= 2 ^ 30.
Hypothesis num_nonneg : 0 <= num.
Hypothesis fits : num * size <= 2 ^ 30.

(** Offsets of cells do not overflow. *)
Lemma off_twice (m r : nat) :
  Z.of_nat m <= num -> (r < m)%nat \/ r = O ->
  s32 (Z.of_nat r * size * 2) = Z.of_nat (2 * r) * size.
Proof.
  intros Hm Hr. rewrite s32_small by (width_lia; nia). lia.
Qed.

Lemma off_test (m c : nat) :
  Z.of_nat m <= num -> (c < m)%nat ->
  (u32 (Z.of_nat c * size) <? u32 (Z.of_nat m * size - size)) = bool_decide (c + 1 < m)%nat.
Proof.
  intros Hm Hc. rewrite !u32_small by (width_lia; nia).
  case_bool_decide; [apply Z.ltb_lt; nia|apply Z.ltb_ge; nia].
Qed.

(** The choice of the larger child. *)
Lemma pick_child s (m r : nat) :
  st_ok s -> Z.of_nat m <= num -> (2 * r < m)%nat ->
  exists c', (if u32 (Z.of_nat (2 * r) * size) <? u32 (Z.of_nat m * size - size)
              then x ← el_get s (Z.of_nat (2 * r) * size);
                   y ← el_get s (Z.of_nat (2 * r) * size + size);
                   Some (if cmp x y <? 0 then s32 (Z.of_nat (2 * r) * size + size)
                         else Z.of_nat (2 * r) * size)
              else Some (Z.of_nat (2 * r) * size)) = Some (Z.of_nat c' * size) /\
    (c' = 2 * r \/ c' = 2 * r + 1)%nat /\ (c' < m)%nat /\
    forall c, child r c -> (c < m)%nat -> below cmp (st_els s) c c'.
Proof.
  intros Hs Hm Hr. rewrite off_test by lia. pose proof (st_length s Hs) as Hl.
  case_bool_decide as Hc.
  - rewrite (st_get s (2 * r) Hs) by lia.
    replace (Z.of_nat (2 * r) * size + size) with (Z.of_nat (2 * r + 1) * size) by lia.
    rewrite (st_get s (2 * r + 1) Hs) by lia.
    destruct (lookup_lt_is_Some_2 (st_els s) (2 * r)) as [x Ex]; [lia|].
    destruct (lookup_lt_is_Some_2 (st_els s) (2 * r + 1)) as [y Ey]; [lia|].
    rewrite Ex, Ey. cbn [mbind option_bind].
    destruct (Z.ltb_spec (cmp x y) 0) as [Hlt|Hge].
    + exists (2 * r + 1)%nat. split; [|split; [lia|split; [lia|]]].
      * by rewrite s32_small by (width_lia; nia).
      * intros c [[-> | ->] Hne] Hcm; [|apply below_refl; done].
        intros x' y' Hx' Hy'. simplify_eq. by apply (cmp_total cmp).
    + exists (2 * r)%nat. split; [done|]. split; [lia|]. split; [lia|].
      intros c [[-> | ->] Hne] Hcm; [apply below_refl; done|].
      intros x' y' Hx' Hy'. by simplify_eq.
  - exists (2 * r)%nat. split; [done|]. split; [lia|]. split; [lia|].
    intros c [[-> | ->] Hne] Hcm; [apply below_refl; done|lia].
Qed.

Lemma sift_step s (k m r : nat) :
  st_ok s -> Z.of_nat m <= num -> (k <= r)%nat -> (2 * r < m)%nat ->
  heap_but cmp (st_els s) k m r ->
  match sift_body cmp (Z.of_nat m * size) size (s, Z.of_nat r * size) with
  | inl (s', off) => exists c' : nat, off = Z.of_nat c' * size /\ (r < c' < m)%nat /\ st_ok s' /\
      heap_but cmp (st_els s') k m c' /\ exchanged (st_els s) (st_els s') r c'
  | inr (Some s') => s' = s /\ heap_from cmp (st_els s) k m
  | inr None => False
  end.
Proof.
  intros Hs Hm Hk Hr Hheap. pose proof (st_length s Hs) as Hl. unfold sift_body.
  rewrite (off_twice m r) by lia.
  destruct (Z.ltb_spec (Z.of_nat (2 * r) * size) (Z.of_nat m * size)) as [_|H]; [|nia].
  destruct (pick_child s m r Hs Hm Hr) as (c' & -> & Hc & Hcm & Hbig). cbn [mbind option_bind].
  rewrite (st_get s r Hs), (st_get s c' Hs) by lia.
  destruct (lookup_lt_is_Some_2 (st_els s) r) as [x Ex]; [lia|].
  destruct (lookup_lt_is_Some_2 (st_els s) c') as [y Ey]; [lia|].
  rewrite Ex, Ey. cbn [mbind option_bind].
  destruct (Z.leb_spec 0 (cmp x y)) as [Hge|Hlt].
  - split; [done|]. apply (heap_done cmp _ k m r c'); [lia|done|done|done|].
    intros y' x' Hy' Hx'. by simplify_eq.
  - assert (Hne : c' <> r) by (intros ->; simplify_eq; pose proof (cmp_refl cmp x); lia).
    destruct (st_swap s r c' Hs) as (s' & -> & Hs' & Hex); [lia..|]. cbn [mbind option_bind].
    exists c'. split; [done|]. split; [lia|]. split; [done|]. split; [|done].
    apply (heap_sink cmp (st_els s) _ k m r c'); try done; [lia|].
    intros x' y' Hx' Hy'. simplify_eq. by apply (cmp_total cmp).
Qed.

(** [l'] is [l] with its first [m] cells rearranged. *)
Definition rearranged (m : nat) (l l' : list A) : Prop :=
  l' ≡ₚ l /\ forall p, (m <= p)%nat -> l' !! p = l !! p.

Lemma rearranged_trans m l1 l2 l3 :
  rearranged m l1 l2 -> rearranged m l2 l3 -> rearranged m l1 l3.
Proof.
  intros [P1 E1] [P2 E2]. split; [by etrans|]. intros p Hp. rewrite E2 by done. by apply E1.
Qed.

Lemma exchanged_rearranged m l l' i j :
  (m <= length l)%nat -> (i < m)%nat -> (j < m)%nat -> exchanged l l' i j -> rearranged m l l'.
Proof.
  intros Hm Hi Hj H. split; [apply (exchanged_perm l l' i j); [lia|lia|done]|].
  intros p Hp. apply H; lia.
Qed.

Lemma sift_spec s (k m r : nat) :
  st_ok s -> Z.of_nat m <= num -> (k <= r)%nat -> (r < m)%nat \/ r = O ->
  heap_but cmp (st_els s) k m r ->
  exists s', sift cmp (Z.of_nat m * size) size s (Z.of_nat r * size) = Some s' /\ st_ok s' /\
    heap_from cmp (st_els s') k m /\ rearranged m (st_els s) (st_els s').
Proof.
  intros Hs Hm Hk Hr Hheap. unfold sift.
  destruct (loop_total (sift_body cmp (Z.of_nat m * size) size)
    (fun '(s', off) => exists r' : nat, off = Z.of_nat r' * size /\ (k <= r')%nat /\
       ((r' < m)%nat \/ r' = O) /\ st_ok s' /\ heap_but cmp (st_els s') k m r' /\
       rearranged m (st_els s) (st_els s'))
    (fun res => exists s', res = Some s' /\ st_ok s' /\ heap_from cmp (st_els s') k m /\
       rearranged m (st_els s) (st_els s'))
    (fun '(_, off) => Z.to_nat (Z.of_nat m * size - off)))
    with (fuel := Datatypes.S (Z.to_nat (Z.of_nat m * size))) (s := (s, Z.of_nat r * size))
    as (res & E & s' & -> & H).
  - intros [s1 off] (r1 & -> & Hk1 & Hr1 & Hs1 & Hh1 & Hre). pose proof (st_length s1 Hs1) as Hl1.
    destruct (decide (2 * r1 < m)%nat) as [Hlt|Hge].
    + pose proof (sift_step s1 k m r1 Hs1 Hm Hk1 Hlt Hh1) as Hstep.
      destruct (sift_body _ _ _ _) as [[s2 off2]|[s2|]]; [|destruct Hstep as [-> ?]; eauto|done].
      destruct Hstep as (c' & -> & Hc & Hs2 & Hh2 & Hex). split; [|nia]. exists c'.
      split; [done|]. split; [lia|]. split; [lia|]. split; [done|]. split; [done|].
      apply (rearranged_trans m _ (st_els s1)); [done|].
      apply (exchanged_rearranged m _ _ r1 c'); [lia..|done].
    + unfold sift_body. rewrite (off_twice m r1) by done.
      destruct (Z.ltb_spec (Z.of_nat (2 * r1) * size) (Z.of_nat m * size)) as [H|_]; [nia|].
      exists s1. split; [done|]. split; [done|]. split; [|done].
      intros j c Hj [Hc Hne] Hcm. apply (proj1 Hh1); [done| |done|done]. intros ->. lia.
  - exists r. split; [done|]. split; [done|]. split; [done|]. split; [done|]. split; [done|]. done.
  - lia.
  - exists s'. by rewrite E.
Qed.

(** [i -= size] on the offset of cell [i]; below cell 0 the offset is negative. *)
Lemma off_pred (i : nat) : Z.of_nat i <= num -> s32 (Z.of_nat i * size - size) = (Z.of_nat i - 1) * size.
Proof. intros Hi. rewrite s32_small by (width_lia; nia). ring. Qed.

Lemma heapify_spec s (i m : nat) :
  st_ok s -> Z.of_nat m = num -> (i < m)%nat \/ i = O -> heap_from cmp (st_els s) (i + 1) m ->
  exists s', mjoin (loop (Datatypes.S (Datatypes.S (Z.to_nat num)))
      (heapify_body cmp (Z.of_nat m * size) size) (s, Z.of_nat i * size)) = Some s' /\
    st_ok s' /\ heap_from cmp (st_els s') 0 m /\ rearranged m (st_els s) (st_els s').
Proof.
  intros Hs Hm Hi Hheap.
  destruct (loop_total (heapify_body cmp (Z.of_nat m * size) size)
    (fun '(s', off) => exists k : nat, off = (Z.of_nat k - 1) * size /\ ((k <= m)%nat \/ (k <= 1)%nat) /\
       st_ok s' /\ heap_from cmp (st_els s') k m /\ rearranged m (st_els s) (st_els s'))
    (fun res => exists s', res = Some s' /\ st_ok s' /\ heap_from cmp (st_els s') 0 m /\
       rearranged m (st_els s) (st_els s'))
    (fun '(_, off) => Z.to_nat (off / size + 1)))
    with (fuel := Datatypes.S (Datatypes.S (Z.to_nat num))) (s := (s, Z.of_nat i * size))
    as (res & E & s' & -> & H).
  - intros [s1 off] (k & -> & Hk & Hs1 & Hh & Hre). unfold heapify_body.
    destruct (Z.leb_spec 0 ((Z.of_nat k - 1) * size)) as [Hge|Hlt].
    + assert (Hk1 : (1 <= k)%nat) by nia. rewrite Z.div_mul by lia.
      replace ((Z.of_nat k - 1) * size) with (Z.of_nat (k - 1) * size) by (f_equal; lia).
      destruct (sift_spec s1 (k - 1) m (k - 1) Hs1) as (s2 & -> & Hs2 & Hh2 & Hre2); [lia|lia|lia| |].
      { split.
        - intros j c Hj Hne Hjc Hc. apply (Hh j c); [lia|done|done].
        - intros j c Hj [Hjc Hne] Hcc Hc. lia. }
      rewrite off_pred by lia. rewrite Z.div_mul by lia. split; [|lia].
      exists (k - 1)%nat. split; [done|]. split; [lia|]. split; [done|]. split; [done|].
      by apply (rearranged_trans m _ (st_els s1)).
    + assert (k = 0)%nat as -> by nia. exists s1. done.
  - exists (i + 1)%nat. split; [f_equal; lia|]. split; [lia|]. split; [done|]. split; [done|]. done.
  - rewrite Z.div_mul by lia. lia.
  - exists s'. by rewrite E.
Qed.

(** The cells from [m] on are sorted and not below any of the first [m]. *)
Definition sorted_from (l : list A) (m : nat) : Prop :=
  forall p q, (p <= q)%nat -> (m <= q)%nat -> below cmp l p q.

Lemma rearranged_prefix m (l l' : list A) p x :
  rearranged m l l' -> (p < m)%nat -> l' !! p = Some x -> exists p', (p' < m)%nat /\ l !! p' = Some x.
Proof.
  intros [HP HE] Hp Hx.
  assert (Ht : take m l' ≡ₚ take m l).
  { apply (Permutation_app_inv_r (drop m l)).
    assert (Hd : drop m l = drop m l').
    { apply list_eq. intros q. rewrite !lookup_drop. symmetry. apply HE. lia. }
    rewrite Hd at 1. by rewrite !take_drop. }
  assert (Hin : x ∈ take m l).
  { rewrite <- Ht. apply list_elem_of_lookup. exists p. by rewrite lookup_take_lt. }
  apply list_elem_of_lookup in Hin as [p' Hp'].
  apply lookup_take_Some in Hp' as [Hx' Hlt]. by exists p'.
Qed.

(** One round of the second phase. *)
Lemma extract_step s (i : nat) :
  st_ok s -> Z.of_nat i < num -> heap_from cmp (st_els s) 0 (i + 1) ->
  sorted_from (st_els s) (i + 1) ->
  exists s1 s2, el_swap s 0 (Z.of_nat i * size) = Some s1 /\
    sift cmp (Z.of_nat i * size) size s1 0 = Some s2 /\ st_ok s2 /\
    heap_from cmp (st_els s2) 0 i /\ sorted_from (st_els s2) i /\
    rearranged (i + 1) (st_els s) (st_els s2).
Proof.
  intros Hs Hi Hh Hsort. pose proof (st_length s Hs) as Hl.
  destruct (st_swap s 0 i Hs) as (s1 & E1 & Hs1 & Hex); [lia..|]. simpl in E1.
  pose proof Hex as (Hl1 & X0 & Xi & Xp).
  destruct (sift_spec s1 0 i 0 Hs1) as (s2 & E2 & Hs2 & Hh2 & Hre2); [lia|lia|lia| |].
  { split.
    - intros j c Hj Hne [Hjc Hcj] Hc x y. rewrite !Xp by lia. apply Hh; [lia|by split|lia].
    - intros j c Hj [Hjc Hne] Hcc Hc. lia. }
  exists s1, s2. split; [done|]. split; [done|]. split; [done|]. split; [done|].
  assert (Hre1 : rearranged (i + 1) (st_els s) (st_els s1))
    by (apply (exchanged_rearranged _ _ _ 0 i); [lia..|done]).
  split.
  - intros p q Hpq Hq x y Hx Hy. rewrite (proj2 Hre2) in Hy by done.
    assert (Hxs : exists p', (st_els s !! p' = Some x) /\ (p' <= q)%nat /\ ((p' <= i)%nat \/ p' = p)).
    { destruct (decide (p < i)%nat) as [Hlt|Hge].
      - destruct (rearranged_prefix i _ _ p x Hre2 Hlt Hx) as (p1 & Hp1 & Hx1).
        destruct (rearranged_prefix (i + 1) _ _ p1 x Hre1 ltac:(lia) Hx1) as (p2 & Hp2 & Hx2).
        exists p2. split; [done|]. lia.
      - rewrite (proj2 Hre2) in Hx by lia. destruct (decide (p = i)) as [->|Hne].
        + rewrite Xi in Hx. exists 0%nat. split; [done|]. lia.
        + rewrite Xp in Hx by lia. exists p. split; [done|]. lia. }
    destruct Hxs as (p' & Hx' & Hp' & Hcase). destruct (decide (q = i)) as [->|Hne].
    + rewrite Xi in Hy. apply (heap_top cmp (st_els s) (i + 1) p'); [lia|lia|done|done|done].
    + rewrite Xp in Hy by lia. apply (Hsort p' q); [done|lia|done|done].
  - apply (rearranged_trans _ _ (st_els s1)); [done|]. destruct Hre2 as [HP HE].
    split; [done|]. intros p Hp. apply HE. lia.
Qed.

Lemma extract_spec s (m : nat) :
  st_ok s -> Z.of_nat m = num -> heap_from cmp (st_els s) 0 m ->
  exists s', mjoin (loop (Datatypes.S (Datatypes.S (Z.to_nat num)))
      (extract_body cmp size) (s, (Z.of_nat m - 1) * size)) = Some s' /\
    st_ok s' /\ sorted_from (st_els s') 0 /\ rearranged m (st_els s) (st_els s').
Proof.
  intros Hs Hm Hheap.
  destruct (loop_total (extract_body cmp size)
    (fun '(s', off) => exists k : nat, off = (Z.of_nat k - 1) * size /\ (k <= m)%nat /\
       st_ok s' /\ heap_from cmp (st_els s') 0 k /\ sorted_from (st_els s') k /\
       rearranged m (st_els s) (st_els s'))
    (fun res => exists s', res = Some s' /\ st_ok s' /\ sorted_from (st_els s') 0 /\
       rearranged m (st_els s) (st_els s'))
    (fun '(_, off) => Z.to_nat (off / size + 1)))
    with (fuel := Datatypes.S (Datatypes.S (Z.to_nat num))) (s := (s, (Z.of_nat m - 1) * size))
    as (res & E & s' & -> & H).
  - intros [s1 off] (k & -> & Hk & Hs1 & Hh & Hsort & Hre). unfold extract_body.
    destruct (Z.leb_spec 0 ((Z.of_nat k - 1) * size)) as [Hge|Hlt].
    + assert (Hk1 : (1 <= k)%nat) by nia. rewrite Z.div_mul by lia.
      replace k with (k - 1 + 1)%nat in Hh, Hsort by lia.
      replace ((Z.of_nat k - 1) * size) with (Z.of_nat (k - 1) * size) by (f_equal; lia).
      destruct (extract_step s1 (k - 1) Hs1 ltac:(lia) Hh Hsort)
        as (s2 & s3 & -> & E3 & Hs3 & Hh3 & Hsort3 & Hre3). cbn [mbind option_bind]. rewrite E3.
      rewrite off_pred by lia. rewrite Z.div_mul by lia. split; [|lia].
      exists (k - 1)%nat. split; [done|]. split; [lia|]. split; [done|]. split; [done|].
      split; [done|]. apply (rearranged_trans m _ (st_els s1)); [done|]. destruct Hre3 as [HP HE].
      split; [done|]. intros p Hp. apply HE. lia.
    + assert (k = 0)%nat as -> by nia. exists s1. done.
  - exists m. split; [lia|]. split; [lia|]. split; [done|]. split; [done|]. split; [|by split].
    intros p q Hpq Hq x y Hx Hy. pose proof (st_length s Hs) as Hl. apply lookup_lt_Some in Hy. lia.
  - rewrite Z.div_mul by lia. lia.
  - exists s'. by rewrite E.
Qed.

Lemma heap_sort_spec s :
  st_ok s ->
  exists s', heap_sort cmp s num size = Some s' /\ st_ok s' /\ sorted_from (st_els s') 0 /\
    st_els s' ≡ₚ st_els s.
Proof.
  intros Hs. unfold heap_sort. pose (m := Z.to_nat num).
  assert (Hm : Z.of_nat m = num) by lia.
  assert (Hdiv : num / 2 <= num /\ (0 < num -> num / 2 < num) /\ 0 <= num / 2 /\ num < 2 * (num / 2 + 1))
    by div_lia.
  rewrite (u32_small (num / 2 * size)), (u32_small (num * size)) by (width_lia; nia).
  rewrite (s32_small (num / 2 * size)), (s32_small (num * size)), (s32_small (num * size - size))
    by (width_lia; nia).
  destruct (heapify_spec s (Z.to_nat (num / 2)) m Hs Hm) as (s1 & E1 & Hs1 & Hh1 & [HP1 _]); [lia| |].
  { intros j c Hj [Hc Hne] Hcm. lia. }
  rewrite Z2Nat.id, Hm in E1 by lia. rewrite E1. cbn [mbind option_bind].
  destruct (extract_spec s1 m Hs1 Hm Hh1) as (s2 & E2 & Hs2 & Hsort & [HP2 _]).
  exists s2. split; [|split; [done|split; [done|by etrans]]].
  rewrite <- E2. do 3 f_equal. rewrite Hm. ring.
Qed.
End loops.

(** ** The array of bytes *)

(** The elements of the array. *)
Definition elements (num size : Z) (base : list Z) : list (list Z) :=
  (fun i : nat => take (Z.to_nat size) (drop (Z.to_nat (Z.of_nat i * size)) base))
    <$> seq 0 (Z.to_nat num).

Lemma elements_lookup num size base (i : nat) :
  Z.of_nat i < num ->
  elements num size base !! i = Some (take (Z.to_nat size) (drop (Z.to_nat (Z.of_nat i * size)) base)).
Proof. intros Hi. unfold elements. rewrite list_lookup_fmap, lookup_seq_lt by lia. done. Qed.

Lemma elements_lookup_ge num size base (i : nat) : num <= Z.of_nat i -> elements num size base !! i = None.
Proof.
  intros Hi. apply lookup_ge_None_2. unfold elements. rewrite length_fmap, length_seq. lia.
Qed.

(** Exchanging the bytes of two elements exchanges the elements. *)
Lemma swapped_elements num size base base' (i j : nat) :
  0 < size -> num * size <= Z.of_nat (length base) -> Z.of_nat i < num -> Z.of_nat j < num ->
  swapped base base' (Z.of_nat i * size) (Z.of_nat j * size) size ->
  exchanged (elements num size base) (elements num size base') i j /\
  drop (Z.to_nat (num * size)) base' = drop (Z.to_nat (num * size)) base.
Proof.
  intros Hs Hl Hi Hj [Hlen Hp].
  assert (Hcell : forall (p q : nat), Z.of_nat p < num ->
    (forall t : nat, Z.of_nat t < size ->
       base' !! Z.to_nat (Z.of_nat p * size + Z.of_nat t) = base !! Z.to_nat (Z.of_nat q * size + Z.of_nat t)) ->
    take (Z.to_nat size) (drop (Z.to_nat (Z.of_nat p * size)) base') =
    take (Z.to_nat size) (drop (Z.to_nat (Z.of_nat q * size)) base)).
  { intros p q Hpn H. apply list_eq. intros t. destruct (decide (Z.of_nat t < size)) as [Ht|Ht].
    - rewrite !lookup_take_lt by lia. rewrite !lookup_drop.
      replace (Z.to_nat (Z.of_nat p * size) + t)%nat
        with (Z.to_nat (Z.of_nat p * size + Z.of_nat t)) by lia.
      replace (Z.to_nat (Z.of_nat q * size) + t)%nat
        with (Z.to_nat (Z.of_nat q * size + Z.of_nat t)) by lia. by apply H.
    - rewrite !lookup_take_ge by lia. done. }
  split; [split; [unfold elements; by rewrite !length_fmap|split; [|split]]|].
  - rewrite !elements_lookup by lia. f_equal. apply Hcell; [lia|]. intros t Ht. rewrite Hp.
    rewrite bool_decide_true by lia. f_equal. lia.
  - rewrite !elements_lookup by lia. f_equal. apply Hcell; [lia|]. intros t Ht. rewrite Hp.
    destruct (decide (i = j)) as [->|Hne]; [rewrite bool_decide_true by lia; f_equal; lia|].
    rewrite bool_decide_false by nia. rewrite bool_decide_true by lia. f_equal. lia.
  - intros p Hpi Hpj. destruct (decide (Z.of_nat p < num)) as [Hpn|Hpn];
      [|by rewrite !elements_lookup_ge by lia].
    rewrite !elements_lookup by lia. f_equal. apply Hcell; [lia|]. intros t Ht. rewrite Hp.
    by rewrite !bool_decide_false by nia.
  - apply list_eq. intros p. rewrite !lookup_drop, Hp. by rewrite !bool_decide_false by nia.
Qed.

(** The first [num] elements of an array of [len] bytes, with what lies behind. *)
#[export] Instance byte_store_laws (len num size : Z) (tail : list Z) (Hs : 0 < size)
    (Hn : num * size <= len) : StoreLaws (Store0 := byte_store size) (list Z) (list Z) num size.
Proof.
  refine {| st_ok := fun base => Z.of_nat (length base) = len /\ 0 <= num /\
              drop (Z.to_nat (num * size)) base = tail;
            st_els := elements num size |}.
  - intros s (_ & ? & _). unfold elements. rewrite length_fmap, length_seq. lia.
  - intros s i (Hl & _) Hi. rewrite elements_lookup by lia. cbn. unfold read_bytes.
    rewrite mem_read_Some by nia. done.
  - intros s i j (Hl & Hnn & Ht) Hi Hj. cbn.
    assert (Hap : apart (Z.of_nat i * size) (Z.of_nat j * size) size)
      by (unfold apart; destruct (Nat.lt_trichotomy i j) as [|[->|]]; [right; left; nia|by left|right; right; nia]).
    assert (Hsw : exists s', (if size =? 4 then u32_swap s (Z.of_nat i * size) (Z.of_nat j * size)
        else generic_swap s (Z.of_nat i * size) (Z.of_nat j * size) size) = Some s' /\
      swapped s s' (Z.of_nat i * size) (Z.of_nat j * size) size).
    { destruct (Z.eqb_spec size 4) as [->|];
        [apply u32_swap_spec|apply generic_swap_spec]; (done || nia). }
    destruct Hsw as (s' & E & Hsw). exists s'. split; [done|].
    destruct (swapped_elements num size s s' i j) as [Hex Hdrop]; [lia..|done|].
    destruct Hsw as [Hlen _]. split; [|done]. split; [lia|]. split; [done|]. congruence.
Defined.

(** The order of the result. *)
Definition ascending {A} (cmp : A -> A -> Z) (x y : A) : Prop := 0 <= cmp y x.

#[export] Instance ascending_dec {A} (cmp : A -> A -> Z) x y : Decision (ascending cmp x y).
Proof. unfold ascending. apply _. Defined.

Lemma StronglySorted_index {A} (R : A -> A -> Prop) (l : list A) :
  (forall i j x y, (i < j)%nat -> l !! i = Some x -> l !! j = Some y -> R x y) -> StronglySorted R l.
Proof.
  induction l as [|a l IH]; intros H; constructor.
  - apply IH. intros i j x y Hij Hx Hy. apply (H (S i) (S j)); [lia|done|done].
  - apply Forall_lookup. intros j y Hy. apply (H 0%nat (S j)); [lia|done|done].
Qed.

(** C23: sort terminates and stays in bounds for every array of up to 2^30 bytes
    and every comparison function that orders its arguments; the elements of the
    result are those of the array, in ascending order, and the bytes behind the
    array are untouched.  When only equal elements compare as equal, the result is
    the one of the reference merge sort. *)
Theorem sort_correct base num size cmp :
  0 <= num -> 0 < size <= 2 ^ 30 -> num * size <= 2 ^ 30 -> num * size <= Z.of_nat (length base) ->
  Ordering cmp ->
  exists base', sort base num size cmp = Some base' /\ length base' = length base /\
    drop (Z.to_nat (num * size)) base' = drop (Z.to_nat (num * size)) base /\
    elements num size base' ≡ₚ elements num size base /\
    StronglySorted (ascending cmp) (elements num size base') /\
    ((forall x y, 0 <= cmp x y -> 0 <= cmp y x -> x = y) ->
     elements num size base' =
       merge_sort (ascending cmp) (elements num size base)).
Proof.
  intros Hn Hs Hfit Hl Hord.
  pose (laws := byte_store_laws (Z.of_nat (length base)) num size
    (drop (Z.to_nat (num * size)) base) ltac:(lia) Hl).
  destruct (@heap_sort_spec _ _ (byte_store size) num size laws cmp Hord Hs Hn Hfit base)
    as (base' & E & (Hlen & _ & Htail) & Hsort & HP); [done|].
  assert (HS : StronglySorted (ascending cmp) (elements num size base')).
  { apply StronglySorted_index. intros p q x y Hpq Hx Hy.
    apply (Hsort p q); [lia|lia|done|done]. }
  exists base'. split; [exact E|]. split; [lia|]. split; [done|]. split; [exact HP|].
  split; [exact HS|]. intros Hanti.
  assert (Transitive (ascending cmp)) by (intros x y z H1 H2; by apply (cmp_trans cmp z y x)).
  assert (Total (ascending cmp)).
  { intros x y. unfold ascending.
    destruct (Z.lt_ge_cases (cmp y x) 0); [right; by apply (cmp_total cmp)|left; lia]. }
  assert (AntiSymm eq (ascending cmp)) by (intros x y H1 H2; by apply Hanti).
  apply (StronglySorted_unique (ascending cmp)).
  - exact HS.
  - apply (StronglySorted_merge_sort (ascending cmp)).
  - rewrite merge_sort_Permutation. exact HP.
Qed.

(** Three elements of two bytes, ordered by their first byte. *)
Definition sample_cmp (x y : list Z) : Z := nth 0 x 0 - nth 0 y 0.

Lemma sort_correct_witness :
  exists base', sort [3; 30; 1; 10; 2; 20; 99] 3 2 sample_cmp = Some base' /\
    base' = [1; 10; 2; 20; 3; 30; 99].
Proof.
  assert (Hord : Ordering sample_cmp) by (split; unfold sample_cmp; intros; lia).
  destruct (sort_correct [3; 30; 1; 10; 2; 20; 99] 3 2 sample_cmp ltac:(lia) ltac:(lia) ltac:(lia)
    ltac:(simpl; lia) Hord) as (base' & E & _).
  exists base'. split; [exact E|]. vm_compute in E. congruence.
Defined.
