(* ===== verification/Resource.v ===== *)
(** kernel/resource.c: the tree of I/O ports and memory ranges.

    A struct resource is a record in a store indexed by addresses (0 is NULL); the
    children of a resource are a list linked through [sibling] from its [child]
    field, and every child points back to its parent.  A [struct resource **p] of
    the code, which walks over the places that hold a pointer, is a [slot].
    [None] is a dereference of a pointer to no resource, or the end of the fuel. *)
From stdpp Require Import base list gmap numbers option sorting.
From Stdlib Require Import ZArith Lia.
From S2P Require Import Prelude.

Local Open Scope Z_scope.

(** ** The store *)

Record resource := {
  start : Z;
  end_ : Z;
  flags : Z;
  parent : Z;
  sibling : Z;
  child : Z
}.

Notation store := (gmap Z resource).

Definition set_range (n : resource) (a b : Z) : resource :=
  {| start := a; end_ := b; flags := flags n; parent := parent n; sibling := sibling n; child := child n |}.
Definition set_parent (n : resource) (v : Z) : resource :=
  {| start := start n; end_ := end_ n; flags := flags n; parent := v; sibling := sibling n; child := child n |}.
Definition set_sibling (n : resource) (v : Z) : resource :=
  {| start := start n; end_ := end_ n; flags := flags n; parent := parent n; sibling := v; child := child n |}.
Definition set_child (n : resource) (v : Z) : resource :=
  {| start := start n; end_ := end_ n; flags := flags n; parent := parent n; sibling := sibling n; child := v |}.

(** The two kinds of places that point to a resource. *)
Inductive slot := ChildOf (r : Z) | SiblingOf (r : Z).

#[export] Instance slot_eq_dec : EqDecision slot.
Proof. solve_decision. Defined.

Definition slot_get (h : store) (s : slot) : option Z :=
  match s with
  | ChildOf r => child <$> h !! r
  | SiblingOf r => sibling <$> h !! r
  end.

Definition slot_set (h : store) (s : slot) (v : Z) : option store :=
  match s with
  | ChildOf r => n ← h !! r; Some (<[r := set_child n v]> h)
  | SiblingOf r => n ← h !! r; Some (<[r := set_sibling n v]> h)
  end.

Definition write_parent (h : store) (r v : Z) : option store :=
  n ← h !! r; Some (<[r := set_parent n v]> h).

(** ** Requesting and releasing *)

(** The insertion: new->sibling = tmp; *p = new; new->parent = root. *)
Definition link_in (h : store) (root new : Z) (p : slot) (tmp : Z) : option store :=
  h ← slot_set h (SiblingOf new) tmp;
  h ← slot_set h p new;
  write_parent h new root.

Definition request_body (h : store) (root new start_ end__ : Z) (p : slot)
    : slot + option (Z * store) :=
  match slot_get h p with
  | None => inr None
  | Some tmp =>
      if tmp =? 0 then inr (h ← link_in h root new p tmp; Some (0, h))
      else
        match h !! tmp with
        | None => inr None
        | Some t =>
            if end__ <? start t then inr (h ← link_in h root new p tmp; Some (0, h))
            else if end_ t <? start_ then inl (SiblingOf tmp)
            else inr (Some (tmp, h))
        end
  end.

(** The result is the conflicting resource, 0 when the request succeeds. *)
Definition __request_resource (h : store) (root new : Z) : option (Z * store) :=
  n ← h !! new;
  r ← h !! root;
  if end_ n <? start n then Some (root, h)
  else if start n <? start r then Some (root, h)
  else if end_ r <? end_ n then Some (root, h)
  else mjoin (loop (S (S (size h))) (request_body h root new (start n) (end_ n)) (ChildOf root)).

Definition release_body (h : store) (old : Z) (p : slot) : slot + option (Z * store) :=
  match slot_get h p with
  | None => inr None
  | Some tmp =>
      if tmp =? 0 then inr (Some (- EINVAL, h))
      else if tmp =? old then
        inr (s ← slot_get h (SiblingOf tmp);
             h ← slot_set h p s;
             h ← write_parent h old 0; Some (0, h))
      else inl (SiblingOf tmp)
  end.

Definition __release_resource (h : store) (old : Z) : option (Z * store) :=
  n ← h !! old;
  mjoin (loop (S (S (size h))) (release_body h old) (ChildOf (parent n))).

Definition request_resource (h : store) (root new : Z) : option (Z * store) :=
  '(conflict, h) ← __request_resource h root new;
  Some (if conflict =? 0 then 0 else - EBUSY, h).

Definition release_resource (h : store) (old : Z) : option (Z * store) := __release_resource h old.

(** ** Allocation *)

(** include/linux/kernel.h *)
Definition ALIGN (x a : Z) : Z := Z.land (u32 (x + a - 1)) (u32 (Z.lnot (a - 1))).

(** The callback of the caller that may move the range it is shown. *)
Definition align_fun := Z -> Z -> Z -> Z -> Z * Z.

(** One turn of the loop of find_resource: [this] is the next child, or 0. *)
Definition find_body (h : store) (root_end size min max align : Z) (alignf : option align_fun)
    (st : Z * Z) : (Z * Z) + option (Z * (Z * Z)) :=
  let '(this, new_start) := st in
  match (if this =? 0 then Some (0, root_end, 0)
         else t ← h !! this; Some (end_ t, u32 (start t - 1), sibling t)) with
  | None => inr None
  | Some (this_end, new_end, next) =>
      let new_start := if new_start <? min then min else new_start in
      let new_end := if max <? new_end then max else new_end in
      let new_start := ALIGN new_start align in
      let '(new_start, new_end) :=
        match alignf with Some f => f new_start new_end size align | None => (new_start, new_end) end in
      if (new_start <? new_end) && (u32 (size - 1) <=? u32 (new_end - new_start)) then
        inr (Some (0, (new_start, u32 (new_start + size - 1))))
      else if this =? 0 then inr (Some (- EBUSY, (new_start, new_end)))
      else inl (next, u32 (this_end + 1))
  end.

(** Returns the error with the range that was left in [new]. *)
Definition find_resource (h : store) (root size min max align : Z) (alignf : option align_fun)
    : option (Z * (Z * Z)) :=
  r ← h !! root;
  '(this, new_start) ← (if child r =? 0 then Some (child r, start r)
                        else t ← h !! child r;
                             if start t =? 0 then Some (sibling t, u32 (end_ t + 1))
                             else Some (child r, start r));
  mjoin (loop (S (S (base.size h))) (find_body h (end_ r) size min max align alignf) (this, new_start)).

Definition allocate_resource (h : store) (root new size min max align : Z)
    (alignf : option align_fun) : option (Z * store) :=
  '(err, (a, b)) ← find_resource h root size min max align alignf;
  n ← h !! new;
  let h := <[new := set_range n a b]> h in
  if 0 <=? err then
    '(conflict, h) ← __request_resource h root new;
    Some (if conflict =? 0 then err else - EBUSY, h)
  else Some (err, h).

(** ** Insertion above existing resources *)

(** Walks over the resources that the new one, [n], has to cover: [Some None] is
    a partial overlap, otherwise the last of them is returned. *)
Definition cover_body (h : store) (n : resource) (next : Z) : Z + option (option Z) :=
  match h !! next with
  | None => inr None
  | Some t =>
      if (start t <? start n) || (end_ n <? end_ t) then inr (Some None)
      else if sibling t =? 0 then inr (Some (Some next))
      else
        match h !! sibling t with
        | None => inr None
        | Some s => if end_ n <? start s then inr (Some (Some next)) else inl (sibling t)
        end
  end.

(** for (next = first; next; next = next->sibling) next->parent = new; *)
Definition adopt_body (new : Z) (st : store * Z) : (store * Z) + option store :=
  let '(h, next) := st in
  if next =? 0 then inr (Some h)
  else
    match (h ← write_parent h next new; s ← slot_get h (SiblingOf next); Some (h, s)) with
    | None => inr None
    | Some st => inl st
    end.

(** while (next->sibling != first) next = next->sibling; *)
Definition before_body (h : store) (first next : Z) : Z + option Z :=
  match slot_get h (SiblingOf next) with
  | None => inr None
  | Some s => if s =? first then inr (Some next) else inl s
  end.

Definition cover (h : store) (parent_ new first next : Z) : option store :=
  h ← write_parent h new parent_;
  s ← slot_get h (SiblingOf next);
  h ← slot_set h (SiblingOf new) s;
  h ← slot_set h (ChildOf new) first;
  h ← slot_set h (SiblingOf next) 0;
  h ← mjoin (loop (S (S (size h))) (adopt_body new) (h, first));
  c ← slot_get h (ChildOf parent_);
  if c =? first then slot_set h (ChildOf parent_) new
  else next ← mjoin (loop (S (S (size h))) (before_body h first) c);
       slot_set h (SiblingOf next) new.

(** [fuel] bounds the depth of the descent. *)
Fixpoint insert_resource (fuel : nat) (h : store) (parent_ new : Z) : option (Z * store) :=
  match fuel with
  | O => None
  | S fuel =>
      '(first, h) ← __request_resource h parent_ new;
      if first =? 0 then Some (0, h)
      else if first =? parent_ then Some (- EBUSY, h)
      else
        f ← h !! first;
        n ← h !! new;
        if (start f <=? start n) && (end_ n <=? end_ f) then insert_resource fuel h first new
        else
          last ← mjoin (loop (S (S (size h))) (cover_body h n) first);
          match last with
          | None => Some (- EBUSY, h)
          | Some next => h ← cover h parent_ new first next; Some (0, h)
          end
  end.

(** ** Changing a range *)

(** The test of the children of [res]; [true] when one sticks out. *)
Definition child_out_body (h : store) (start_ end__ : Z) (tmp : Z) : Z + option bool :=
  if tmp =? 0 then inr (Some false)
  else match h !! tmp with
       | None => inr None
       | Some t => if (start t <? start_) || (end__ <? end_ t) then inr (Some true) else inl (sibling t)
       end.

Definition adjust_resource (h : store) (res start_ size_ : Z) : option (Z * store) :=
  r ← h !! res;
  let end__ := u32 (start_ + size_ - 1) in
  p ← h !! parent r;
  if (start_ <? start p) || (end_ p <? end__) then Some (- EBUSY, h)
  else
    out ← mjoin (loop (S (S (size h))) (child_out_body h start_ end__) (child r));
    if out : bool then Some (- EBUSY, h)
    else
      clash ← (if sibling r =? 0 then Some false
               else s ← h !! sibling r; Some (start s <=? end__));
      if clash : bool then Some (- EBUSY, h)
      else
        clash ← (if child p =? res then Some false
                 else tmp ← mjoin (loop (S (S (size h))) (before_body h res) (child p));
                      t ← h !! tmp; Some (start_ <=? end_ t));
        if clash : bool then Some (- EBUSY, h)
        else Some (0, <[res := set_range r start_ end__]> h).

(** ** Regions *)

Definition IORESOURCE_BUSY : Z := 0x80000000.

(** The loop of __request_region; the result is false when the region is busy. *)
Fixpoint request_region_loop (fuel : nat) (h : store) (parent_ res : Z) : option (bool * store) :=
  match fuel with
  | O => None
  | S fuel =>
      '(conflict, h) ← __request_resource h parent_ res;
      if conflict =? 0 then Some (true, h)
      else if negb (conflict =? parent_) then
        c ← h !! conflict;
        if Z.land (flags c) IORESOURCE_BUSY =? 0 then request_region_loop fuel h conflict res
        else Some (false, h)
      else Some (false, h)
  end.

(** [res] is what kzalloc returns, an address that is not in use, or 0. *)
Definition __request_region (fuel : nat) (h : store) (parent_ res start_ n : Z) : option (Z * store) :=
  if res =? 0 then Some (0, h)
  else
    let h := <[res := {| start := start_; end_ := u32 (start_ + n - 1); flags := IORESOURCE_BUSY;
                         parent := 0; sibling := 0; child := 0 |}]> h in
    '(ok, h) ← request_region_loop fuel h parent_ res;
    if ok : bool then Some (res, h) else Some (0, delete res h).

Definition __check_region (fuel : nat) (h : store) (parent_ res start_ n : Z) : option (Z * store) :=
  '(r, h) ← __request_region fuel h parent_ res start_ n;
  if r =? 0 then Some (- EBUSY, h)
  else '(_, h) ← release_resource h r; Some (0, delete r h).

Definition release_region_body (h : store) (start_ end__ : Z) (p : slot) : slot + option (bool * store) :=
  match slot_get h p with
  | None => inr None
  | Some res =>
      if res =? 0 then inr (Some (false, h))
      else
        match h !! res with
        | None => inr None
        | Some r =>
            if (start r <=? start_) && (end__ <=? end_ r) then
              if Z.land (flags r) IORESOURCE_BUSY =? 0 then inl (ChildOf res)
              else if negb (start r =? start_) || negb (end_ r =? end__) then inr (Some (false, h))
              else inr (h ← slot_set h p (sibling r); Some (true, delete res h))
            else inl (SiblingOf res)
        end
  end.

(** Returns whether a region was released; otherwise a warning is printed. *)
Definition __release_region (fuel : nat) (h : store) (parent_ start_ n : Z) : option (bool * store) :=
  mjoin (loop fuel (release_region_body h start_ (u32 (start_ + n - 1))) (ChildOf parent_)).
