(* ===== verification/ResourceTree.v ===== *)
(** The invariant of the resource tree of kernel/resource.c: the linked lists of
    children against Rocq lists, and the effect of linking a resource in and out.  The
    requests and releases of Resource.v are proved against it. *)
From stdpp Require Import base list gmap numbers option sorting.
From Stdlib Require Import ZArith Lia.
From S2P Require Import Prelude Resource.

Local Open Scope Z_scope.

(** ** The store through its accessors *)

Definition par (h : store) (r : Z) : option Z := parent <$> h !! r.
Definition rng (h : store) (r : Z) : option (Z * Z) := (fun n => (start n, end_ n)) <$> h !! r.

(** [h'] is [h] with the slots and parents given by [f] and [g]; ranges, flags and
    the set of resources are those of [h]. *)
Definition updated (h h' : store) (f : slot -> option Z) (g : Z -> option Z) : Prop :=
  (forall s, slot_get h' s = f s) /\ (forall r, par h' r = g r) /\
  (forall r, rng h' r = rng h r) /\ (forall r, flags <$> h' !! r = flags <$> h !! r) /\
  size h' = size h.

Definition fset {K V} `{EqDecision K} (f : K -> option V) (k : K) (v : V) : K -> option V :=
  fun k' => if decide (k' = k) then Some v else f k'.

Lemma updated_refl h : updated h h (slot_get h) (par h).
Proof. done. Qed.

Lemma updated_same h h' f f' g g' :
  updated h h' f g -> (forall s, f s = f' s) -> (forall r, g r = g' r) -> updated h h' f' g'.
Proof.
  intros (H1 & H2 & H3) Hf Hg. split; [intros s; by rewrite H1|]. split; [|done].
  intros r. by rewrite H2.
Qed.

(** An insertion of a record that keeps range and flags. *)
Lemma insert_keeps h r (n n' : resource) :
  h !! r = Some n -> start n' = start n -> end_ n' = end_ n -> flags n' = flags n ->
  (forall r', rng (<[r := n']> h) r' = rng h r') /\
  (forall r', flags <$> <[r := n']> h !! r' = flags <$> h !! r') /\ size (<[r := n']> h) = size h.
Proof.
  intros Hr H1 H2 H3. split; [|split].
  - intros r'. unfold rng. destruct (decide (r' = r)) as [->|];
      [rewrite lookup_insert_eq, Hr; simpl; by rewrite H1, H2|by rewrite lookup_insert_ne].
  - intros r'. destruct (decide (r' = r)) as [->|];
      [rewrite lookup_insert_eq, Hr; simpl; by rewrite H3|by rewrite lookup_insert_ne].
  - apply map_size_insert_Some. by exists n.
Qed.

Lemma slot_set_spec h s v :
  is_Some (slot_get h s) ->
  exists h', slot_set h s v = Some h' /\ updated h h' (fset (slot_get h) s v) (par h).
Proof.
  intros [x Hx]. destruct s as [r|r]; simpl in *; (destruct (h !! r) as [n|] eqn:Hn; [|done]);
    cbn [mbind option_bind]; eexists; (split; [reflexivity|]).
  - destruct (insert_keeps h r n (set_child n v) Hn) as (H1 & H2 & H3); [done..|].
    split; [|split; [|done]].
    + intros s. unfold fset. case_decide as Hs; [subst; simpl; by rewrite lookup_insert_eq|].
      destruct s as [r'|r']; simpl; (destruct (decide (r' = r)) as [->|];
        [|by rewrite lookup_insert_ne]); [done|rewrite lookup_insert_eq, Hn; done].
    + intros r'. unfold par. destruct (decide (r' = r)) as [->|];
        [rewrite lookup_insert_eq, Hn; done|by rewrite lookup_insert_ne].
  - destruct (insert_keeps h r n (set_sibling n v) Hn) as (H1 & H2 & H3); [done..|].
    split; [|split; [|done]].
    + intros s. unfold fset. case_decide as Hs; [subst; simpl; by rewrite lookup_insert_eq|].
      destruct s as [r'|r']; simpl; (destruct (decide (r' = r)) as [->|];
        [|by rewrite lookup_insert_ne]); [rewrite lookup_insert_eq, Hn; done|done].
    + intros r'. unfold par. destruct (decide (r' = r)) as [->|];
        [rewrite lookup_insert_eq, Hn; done|by rewrite lookup_insert_ne].
Qed.

Lemma write_parent_spec h r v :
  is_Some (h !! r) ->
  exists h', write_parent h r v = Some h' /\ updated h h' (slot_get h) (fset (par h) r v).
Proof.
  intros [n Hn]. unfold write_parent. rewrite Hn. eexists. split; [reflexivity|].
  destruct (insert_keeps h r n (set_parent n v) Hn) as (H1 & H2 & H3); [done..|].
  split; [|split; [|done]].
  - intros [r'|r']; simpl; (destruct (decide (r' = r)) as [->|];
      [rewrite lookup_insert_eq, Hn; done|by rewrite lookup_insert_ne]).
  - intros r'. unfold par, fset. case_decide; [subst; by rewrite lookup_insert_eq|].
    by rewrite lookup_insert_ne.
Qed.

Lemma updated_trans h1 h2 h3 f g f' g' :
  updated h1 h2 f g -> updated h2 h3 f' g' -> updated h1 h3 f' g'.
Proof.
  intros (_ & _ & R1 & F1 & Z1) (A2 & B2 & R2 & F2 & Z2). split; [done|]. split; [done|].
  split; [intros r; by rewrite R2|]. split; [intros r; by rewrite F2|]. by rewrite Z2.
Qed.

Lemma slot_some h s : is_Some (slot_get h s) <-> is_Some (h !! match s with ChildOf r | SiblingOf r => r end).
Proof. destruct s; simpl; by rewrite fmap_is_Some. Qed.

Lemma updated_dom h h' f g r : updated h h' f g -> is_Some (h' !! r) <-> is_Some (h !! r).
Proof.
  intros (_ & _ & H & _). specialize (H r). unfold rng in H.
  rewrite <- (fmap_is_Some (fun n => (start n, end_ n))), H. by rewrite fmap_is_Some.
Qed.

(** ** Linked lists *)

Local Arguments slot_get : simpl never.

(** The siblings [l] from [p] on, up to the pointer [q]. *)
Fixpoint seg (h : store) (p : Z) (l : list Z) (q : Z) : Prop :=
  match l with
  | [] => p = q
  | c :: l => p = c /\ c <> 0 /\ exists x, slot_get h (SiblingOf c) = Some x /\ seg h x l q
  end.

Lemma seg_app h p l1 l2 q : seg h p (l1 ++ l2) q <-> exists m, seg h p l1 m /\ seg h m l2 q.
Proof.
  revert p. induction l1 as [|c l1 IH]; intros p; simpl.
  - split; [eauto|]. intros (m & -> & ?). done.
  - split.
    + intros (-> & Hc & x & Hx & Hs). apply IH in Hs as (m & H1 & H2). exists m. eauto 10.
    + intros (m & (-> & Hc & x & Hx & H1) & H2). split; [done|]. split; [done|]. exists x.
      split; [done|]. apply IH. eauto.
Qed.

Lemma seg_frame h h' p l q :
  (forall c, c ∈ l -> slot_get h' (SiblingOf c) = slot_get h (SiblingOf c)) ->
  seg h p l q -> seg h' p l q.
Proof.
  revert p. induction l as [|c l IH]; intros p Hf; simpl; [done|].
  intros (-> & Hc & x & Hx & Hs). split; [done|]. split; [done|]. exists x.
  rewrite Hf by (left; done). split; [done|]. apply IH; [|done]. intros c' Hc'. apply Hf. by right.
Qed.

Definition hd0 (l : list Z) : Z := from_option id 0 (head l).

Lemma seg_head h p l : seg h p l 0 -> p = hd0 l.
Proof. destruct l; simpl; [done|]. by intros (-> & _). Qed.

(** The slot behind the children [l1] of [r]. *)
Definition slot_of (r : Z) (l1 : list Z) : slot :=
  match last l1 with None => ChildOf r | Some c => SiblingOf c end.

(** The children of [r] are the list [l]. *)
Definition linked (h : store) (r : Z) (l : list Z) : Prop :=
  exists p, slot_get h (ChildOf r) = Some p /\ seg h p l 0.

Lemma slot_of_get h r l1 l2 :
  linked h r (l1 ++ l2) -> slot_get h (slot_of r l1) = Some (hd0 l2).
Proof.
  intros (p & Hp & Hs). unfold slot_of. destruct (last l1) as [c|] eqn:E.
  - apply last_Some in E as [l' ->]. rewrite <- app_assoc in Hs.
    apply seg_app in Hs as (m & _ & H2). simpl in H2. destruct H2 as (-> & _ & x & Hx & H2).
    rewrite Hx. by rewrite (seg_head h x l2).
  - apply last_None in E as ->. simpl in Hs. rewrite Hp. by rewrite (seg_head h p l2).
Qed.

(** Replacing what follows the children [l1] of [r]. *)
Lemma linked_splice h h' r l1 rest rest' x :
  linked h r (l1 ++ rest) -> NoDup l1 ->
  slot_get h' (slot_of r l1) = Some x -> seg h' x rest' 0 ->
  (forall s, s <> slot_of r l1 -> s = ChildOf r \/ (exists c, c ∈ l1 /\ s = SiblingOf c) ->
     slot_get h' s = slot_get h s) ->
  linked h' r (l1 ++ rest').
Proof.
  intros (p & Hp & Hs) Hnd Hx Hrest Hf. unfold slot_of in *. destruct (last l1) as [c|] eqn:E.
  - apply last_Some in E as [l' ->]. rewrite <- app_assoc in Hs |- *.
    apply seg_app in Hs as (m & H1 & H2). simpl in H2. destruct H2 as (-> & Hc & _).
    apply NoDup_app in Hnd as (_ & Hnd & _).
    exists p. split; [rewrite Hf; [done|done|by left]|]. apply seg_app. exists c. split.
    + apply (seg_frame h); [|done]. intros c' Hc'. apply Hf.
      * intros [= ->]. apply (Hnd c Hc'). by left.
      * right. exists c'. split; [|done]. apply elem_of_app. by left.
    + simpl. split; [done|]. split; [done|]. by exists x.
  - apply last_None in E as ->. simpl. by exists x.
Qed.

Lemma slot_of_ne r l1 s :
  s <> ChildOf r -> (forall c, c ∈ l1 -> s <> SiblingOf c) -> s <> slot_of r l1.
Proof.
  intros H1 H2. unfold slot_of. destruct (last l1) as [c|] eqn:E; [|done].
  apply last_Some in E as [l' ->]. apply H2. apply elem_of_app. right. by left.
Qed.

(** ** The invariant of the tree *)

Definition before (h : store) (c d : Z) : Prop :=
  forall x y z w, rng h c = Some (x, y) -> rng h d = Some (z, w) -> y < z.

Definition inside (h : store) (r c : Z) : Prop :=
  exists a b x y, rng h r = Some (a, b) /\ rng h c = Some (x, y) /\ a <= x /\ x <= y /\ y <= b.

(** [kids r] are the children of [r]: linked in this order, pointing back to [r],
    within its range, one behind the other; [rank] excludes cycles. *)
Record tree_ok (h : store) (kids : Z -> list Z) (rank : Z -> nat) : Prop := {
  t_null : h !! 0 = None;
  t_linked : forall r, is_Some (h !! r) -> linked h r (kids r);
  t_none : forall r, h !! r = None -> kids r = [];
  t_parent : forall r c, c ∈ kids r -> par h c = Some r;
  t_listed : forall c p, par h c = Some p -> p <> 0 -> c ∈ kids p;
  t_inside : forall r c, c ∈ kids r -> inside h r c;
  t_sorted : forall r, StronglySorted (before h) (kids r);
  t_rank : forall r c, c ∈ kids r -> (rank c < rank r)%nat;
  t_u32 : forall r a b, rng h r = Some (a, b) -> is_u32 a /\ is_u32 b
}.

Section tree_facts.
Context (h : store) (kids : Z -> list Z) (rank : Z -> nat) (ok : tree_ok h kids rank).

Lemma kid_in_store r c : c ∈ kids r -> is_Some (h !! c) /\ is_Some (h !! r) /\ c <> 0 /\ r <> 0 /\ c <> r.
Proof.
  intros Hc. destruct (t_inside _ _ _ ok r c Hc) as (a & b & x & y & Hr & Hx & _).
  unfold rng in *. pose proof (t_rank _ _ _ ok r c Hc).
  destruct (h !! c) as [n|] eqn:E1; [|done]. destruct (h !! r) as [m|] eqn:E2; [|done].
  split; [done|]. split; [done|].
  split; [intros ->; by rewrite (t_null _ _ _ ok) in E1|].
  split; [intros ->; by rewrite (t_null _ _ _ ok) in E2|]. intros ->. lia.
Qed.

Lemma kids_disjoint r r' c : c ∈ kids r -> c ∈ kids r' -> r = r'.
Proof.
  intros H1%(t_parent _ _ _ ok) H2%(t_parent _ _ _ ok). congruence.
Qed.

Lemma before_irrefl r c : c ∈ kids r -> ~ before h c c.
Proof.
  intros Hc Hb. destruct (t_inside _ _ _ ok r c Hc) as (a & b & x & y & _ & Hx & _ & ? & _).
  pose proof (Hb x y x y Hx Hx). lia.
Qed.

Lemma kids_NoDup r : NoDup (kids r).
Proof.
  assert (H : forall l, (forall c, c ∈ l -> c ∈ kids r) -> StronglySorted (before h) l -> NoDup l).
  { induction l as [|c l IH]; intros Hin Hs; [constructor|].
    apply StronglySorted_inv in Hs as [Hs Hall]. constructor.
    - intros Hc. rewrite Forall_forall in Hall. apply (before_irrefl r c); [apply Hin; by left|].
      by apply Hall.
    - apply IH; [|done]. intros c' Hc'. apply Hin. by right. }
  apply H; [done|]. apply (t_sorted _ _ _ ok).
Qed.

Lemma kids_length r : (length (kids r) <= size h)%nat.
Proof.
  rewrite <- size_dom, <- (size_list_to_set (C := gset Z) (kids r)) by apply kids_NoDup.
  apply subseteq_size. intros c Hc%elem_of_list_to_set. apply elem_of_dom.
  by apply (kid_in_store r c).
Qed.
End tree_facts.

(** Ranges do not change along [updated]. *)
Lemma updated_inside h h' f g r c : updated h h' f g -> inside h r c -> inside h' r c.
Proof. intros (_ & _ & R & _) (a & b & x & y & H). exists a, b, x, y. by rewrite !R. Qed.

Lemma updated_before h h' f g c d : updated h h' f g -> before h c d -> before h' c d.
Proof. intros (_ & _ & R & _) H x y z w. rewrite !R. apply H. Qed.

Lemma updated_sorted h h' f g l :
  updated h h' f g -> StronglySorted (before h) l -> StronglySorted (before h') l.
Proof.
  intros H. induction 1 as [|c l _ IH Hall]; constructor; [done|].
  eapply Forall_impl; [exact Hall|]. intros d. by apply (updated_before h h' f g).
Qed.

(** A change of the children of one resource. *)
Definition kset (kids : Z -> list Z) (r : Z) (l : list Z) : Z -> list Z :=
  fun r' => if decide (r' = r) then l else kids r'.

Lemma kset_eq kids r l : kset kids r l r = l.
Proof. unfold kset. by rewrite decide_True. Qed.

Lemma kset_ne kids r l r' : r' <> r -> kset kids r l r' = kids r'.
Proof. intros. unfold kset. by rewrite decide_False. Qed.

Lemma link_in_spec h root new l1 l2 :
  is_Some (h !! new) -> linked h root (l1 ++ l2) ->
  exists h', link_in h root new (slot_of root l1) (hd0 l2) = Some h' /\
    updated h h' (fset (fset (slot_get h) (SiblingOf new) (hd0 l2)) (slot_of root l1) new)
      (fset (par h) new root).
Proof.
  intros Hnew Hl. unfold link_in.
  destruct (slot_set_spec h (SiblingOf new) (hd0 l2)) as (h1 & -> & U1); [by apply slot_some|].
  cbn [mbind option_bind].
  destruct (slot_set_spec h1 (slot_of root l1) new) as (h2 & -> & U2).
  { destruct U1 as [U1 _]. rewrite U1. unfold fset. case_decide; [done|].
    rewrite (slot_of_get h root l1 l2) by done. done. }
  cbn [mbind option_bind].
  destruct (write_parent_spec h2 new root) as (h3 & -> & U3).
  { rewrite (updated_dom h1 h2 _ _ new U2), (updated_dom h h1 _ _ new U1). done. }
  exists h3. split; [done|].
  apply (updated_same h h3 (slot_get h2) _ (fset (par h2) new root)).
  - eapply updated_trans; [|exact U3]. eapply updated_trans; [exact U1|exact U2].
  - intros s. destruct U2 as [U2 _]. rewrite U2. unfold fset.
    destruct (decide (s = slot_of root l1)); [done|]. destruct U1 as [U1 _]. by rewrite U1.
  - intros r. unfold fset. case_decide; [done|]. destruct U2 as (_ & U2 & _). rewrite U2.
    destruct U1 as (_ & U1 & _). by rewrite U1.
Qed.

(** [new] takes the place of the children [mid] of [root], which become its own. *)
Section insertion.
Context (h h' : store) (kids : Z -> list Z) (rank : Z -> nat) (root new : Z) (l1 mid l2 : list Z).
Hypothesis ok : tree_ok h kids rank.
Hypothesis Hkids : kids root = l1 ++ mid ++ l2.
Hypothesis Hroot : is_Some (h !! root).
Hypothesis Hfree : par h new = Some 0.
Hypothesis Hleaf : kids new = [].
Hypothesis Hne : new <> root.
Hypothesis Hin : inside h root new.
Hypothesis Hmid : forall c, c ∈ mid -> inside h new c.
Hypothesis Hl1 : forall c, c ∈ l1 -> before h c new.
Hypothesis Hl2 : forall c, c ∈ l2 -> before h new c.
Hypothesis Hrng : forall r, rng h' r = rng h r.
Hypothesis Hslot : slot_get h' (slot_of root l1) = Some new.
Hypothesis Hsib : slot_get h' (SiblingOf new) = Some (hd0 l2).
Hypothesis Hown : linked h' new mid.
Hypothesis Hother : forall s, s <> slot_of root l1 -> s <> SiblingOf new -> s <> ChildOf new ->
  (forall c, last mid = Some c -> s <> SiblingOf c) -> slot_get h' s = slot_get h s.
Hypothesis Hpnew : par h' new = Some root.
Hypothesis Hpmid : forall c, c ∈ mid -> par h' c = Some new.
Hypothesis Hpar : forall c, c <> new -> c ∉ mid -> par h' c = par h c.

Let kids' := kset (kset kids root (l1 ++ new :: l2)) new mid.

Lemma ins_dom r : is_Some (h' !! r) <-> is_Some (h !! r).
Proof.
  specialize (Hrng r). unfold rng in Hrng.
  rewrite <- (fmap_is_Some (fun n => (start n, end_ n))), Hrng. by rewrite fmap_is_Some.
Qed.

Lemma ins_not_kid r : new ∉ kids r.
Proof.
  intros Hc. pose proof (kid_in_store h kids rank ok r new Hc) as (_ & _ & _ & Hr & _).
  apply (t_parent _ _ _ ok) in Hc. congruence.
Qed.

Lemma ins_new_in : is_Some (h !! new) /\ new <> 0.
Proof.
  unfold par in Hfree. destruct (h !! new) eqn:E; [|done]. split; [done|].
  intros ->. by rewrite (t_null _ _ _ ok) in E.
Qed.

(** The slots of the other resources are as before. *)
Lemma ins_frame r :
  r <> root -> r <> new -> is_Some (h !! r) -> linked h' r (kids r).
Proof.
  intros H1 H2 Hr. destruct (t_linked _ _ _ ok r Hr) as (p & Hp & Hs). exists p.
  assert (Hdis : forall c, c ∈ kids r -> c ∉ l1 /\ c ∉ mid /\ c <> new).
  { intros c Hc. assert (Hcr : c ∉ kids root).
    { intros Hc'. apply H1. exact (kids_disjoint h kids rank ok r root c Hc Hc'). }
    rewrite Hkids, !elem_of_app in Hcr. split; [tauto|]. split; [tauto|].
    intros ->. by apply (ins_not_kid r). }
  split.
  - rewrite Hother; [done| | | |]; try congruence.
    apply slot_of_ne; [congruence|done].
  - apply (seg_frame h); [|done]. intros c Hc. destruct (Hdis c Hc) as (D1 & D2 & D3).
    apply Hother; try congruence.
    + apply slot_of_ne; [done|]. intros c' Hc' [= ->]. done.
    + intros c' Hlast [= ->]. apply D2. apply last_Some in Hlast as [l ->].
      apply elem_of_app. right. by left.
Qed.

Lemma ins_root : linked h' root (l1 ++ new :: l2).
Proof.
  pose proof (kids_NoDup h kids rank ok root) as Hnd. rewrite Hkids in Hnd.
  apply NoDup_app in Hnd as (Hnd1 & Hd1 & Hnd2). apply NoDup_app in Hnd2 as (_ & Hd2 & _).
  pose proof (t_linked _ _ _ ok root Hroot) as Hl. rewrite Hkids in Hl.
  assert (Hnk : new ∉ l1 ++ mid ++ l2) by (rewrite <- Hkids; apply ins_not_kid).
  rewrite !elem_of_app in Hnk.
  apply (linked_splice h h' root l1 (mid ++ l2) (new :: l2) new); [done|done|done| |].
  - simpl. split; [done|]. split; [apply ins_new_in|]. exists (hd0 l2). split; [done|].
    destruct Hl as (p & _ & Hs). apply seg_app in Hs as (m & _ & Hs).
    apply seg_app in Hs as (m' & _ & Hs). rewrite (seg_head _ _ _ Hs) in Hs.
    apply (seg_frame h); [|done]. intros c Hc. apply Hother; try congruence.
    + apply slot_of_ne; [done|]. intros c' Hc' [= ->]. apply (Hd1 c' Hc'), elem_of_app. by right.
    + intros [= ->]. tauto.
    + intros c' Hlast [= ->]. apply (Hd2 c'); [|done]. apply last_Some in Hlast as [l ->].
      apply elem_of_app. right. by left.
  - intros s Hs Hcase. apply Hother; [done| | |].
    + intros ->. destruct Hcase as [|(c & Hc & [= ->])]; [done|tauto].
    + intros ->. destruct Hcase as [[= ?]|(c & _ & [=])]. congruence.
    + intros c Hlast ->. destruct Hcase as [|(c' & Hc & [= ->])]; [done|].
      apply (Hd1 c' Hc), elem_of_app. left. apply last_Some in Hlast as [l ->].
      apply elem_of_app. right. by left.
Qed.
Definition ins_rank (r : Z) : nat :=
  if decide (r = new) then (2 * rank root + 1)%nat else (2 * rank r + 2)%nat.

Lemma ins_kids_elem r c :
  c ∈ kids' r <->
  (r = new /\ c ∈ mid) \/ (r = root /\ (c = new \/ c ∈ l1 \/ c ∈ l2)) \/
  (r <> new /\ r <> root /\ c ∈ kids r).
Proof.
  unfold kids'. destruct (decide (r = new)) as [->|H1]; [rewrite kset_eq; tauto|].
  rewrite kset_ne by done. destruct (decide (r = root)) as [->|H2].
  - rewrite kset_eq, elem_of_app, elem_of_cons. tauto.
  - rewrite kset_ne by done. tauto.
Qed.

Lemma ins_inside r c : c ∈ kids' r -> inside h r c.
Proof.
  intros [(-> & Hc)|[(-> & [-> | Hc])|(H1 & H2 & Hc)]]%ins_kids_elem.
  - by apply Hmid.
  - done.
  - apply (t_inside _ _ _ ok). rewrite Hkids, !elem_of_app. tauto.
  - by apply (t_inside _ _ _ ok).
Qed.

Lemma ins_sorted r : StronglySorted (before h) (kids' r).
Proof.
  pose proof (t_sorted _ _ _ ok root) as Hs. rewrite Hkids in Hs.
  apply StronglySorted_app in Hs as (H12 & Hs1 & Hs2).
  apply StronglySorted_app in Hs2 as (H23 & Hs2 & Hs3).
  unfold kids'. destruct (decide (r = new)) as [->|H1]; [by rewrite kset_eq|].
  rewrite kset_ne by done. destruct (decide (r = root)) as [->|H2].
  - rewrite kset_eq. apply StronglySorted_app. split; [|split; [done|]].
    + intros x y Hx [-> | Hy]%elem_of_cons; [by apply Hl1|]. apply H12; [done|].
      apply elem_of_app. by right.
    + constructor; [done|]. apply Forall_forall. intros c Hc. by apply Hl2.
  - rewrite kset_ne by done. apply (t_sorted _ _ _ ok).
Qed.

Lemma ins_parents r c : c ∈ kids' r -> par h' c = Some r.
Proof.
  pose proof (kids_NoDup h kids rank ok root) as Hnd. rewrite Hkids in Hnd.
  apply NoDup_app in Hnd as (_ & Hd1 & Hnd2). apply NoDup_app in Hnd2 as (_ & Hd2 & _).
  assert (Hnk : forall r', new ∉ kids r') by apply ins_not_kid.
  assert (Hkeep : forall r' c', c' ∈ kids r' -> c' ∉ mid -> par h' c' = Some r').
  { intros r' c' Hc Hm. rewrite Hpar; [by apply (t_parent _ _ _ ok)| |done].
    intros ->. by apply (Hnk r'). }
  intros [(-> & Hc)|[(-> & [-> | [Hc|Hc]])|(H1 & H2 & Hc)]]%ins_kids_elem.
  - by apply Hpmid.
  - done.
  - apply Hkeep; [rewrite Hkids, !elem_of_app; tauto|]. intros Hm. apply (Hd1 c Hc), elem_of_app. tauto.
  - apply Hkeep; [rewrite Hkids, !elem_of_app; tauto|]. intros Hm. by apply (Hd2 c Hm).
  - apply Hkeep; [done|]. intros Hm. apply H2. apply (kids_disjoint h kids rank ok r root c Hc).
    rewrite Hkids, !elem_of_app. tauto.
Qed.

Lemma ins_listed c p : par h' c = Some p -> p <> 0 -> c ∈ kids' p.
Proof.
  intros Hp H0. apply ins_kids_elem. destruct (decide (c = new)) as [->|Hcn].
  { rewrite Hpnew in Hp. injection Hp as <-. right. left. auto. }
  destruct (decide (c ∈ mid)) as [Hm|Hm].
  { rewrite (Hpmid c Hm) in Hp. injection Hp as <-. auto. }
  rewrite Hpar in Hp by done. pose proof (t_listed _ _ _ ok c p Hp H0) as Hc.
  destruct (decide (p = new)) as [->|Hpn]; [by rewrite Hleaf in Hc; apply elem_of_nil in Hc|].
  right. destruct (decide (p = root)) as [->|Hpr]; [left|right; auto].
  split; [done|]. rewrite Hkids, !elem_of_app in Hc. tauto.
Qed.

Lemma ins_tree : tree_ok h' kids' ins_rank.
Proof.
  split.
  - pose proof (t_null _ _ _ ok) as H0. destruct (h' !! 0) eqn:E; [|done].
    assert (is_Some (h !! 0)) as [? ?] by (apply ins_dom; by rewrite E). congruence.
  - intros r Hr%ins_dom. unfold kids'. destruct (decide (r = new)) as [->|H1]; [by rewrite kset_eq|].
    rewrite kset_ne by done. destruct (decide (r = root)) as [->|H2].
    + rewrite kset_eq. apply ins_root.
    + rewrite kset_ne by done. by apply ins_frame.
  - intros r Hr. assert (Hr' : h !! r = None).
    { destruct (h !! r) eqn:E; [|done].
      assert (is_Some (h' !! r)) as [? ?] by (apply ins_dom; by rewrite E). congruence. }
    unfold kids'. rewrite !kset_ne; [by apply (t_none _ _ _ ok)| |].
    + intros ->. destruct Hroot. congruence.
    + intros ->. destruct ins_new_in as [[? ?] _]. congruence.
  - apply ins_parents.
  - apply ins_listed.
  - intros r c Hc. destruct (ins_inside r c Hc) as (a & b & x & y & H).
    exists a, b, x, y. by rewrite !Hrng.
  - intros r. pose proof (ins_sorted r) as Hs. induction Hs as [|c l _ IH Hall]; constructor; [done|].
    eapply Forall_impl; [exact Hall|]. intros d H x y z w. rewrite !Hrng. apply H.
  - intros r c Hc. unfold ins_rank. assert (Hnk : forall r', new ∉ kids r') by apply ins_not_kid.
    assert (Hlt : c ∈ kids r -> (rank c < rank r)%nat) by apply (t_rank _ _ _ ok).
    assert (Hlt' : c ∈ kids root -> (rank c < rank root)%nat) by apply (t_rank _ _ _ ok).
    rewrite Hkids, !elem_of_app in Hlt'.
    apply ins_kids_elem in Hc as [(-> & Hc)|[(-> & [-> | Hc])|(H1 & H2 & Hc)]];
      repeat case_decide; simplify_eq; try done; try lia.
    + exfalso. apply (Hnk root). rewrite Hkids, !elem_of_app. tauto.
    + assert (rank c < rank root)%nat by tauto. lia.
    + assert (rank c < rank root)%nat by tauto. lia.
    + exfalso. by apply (Hnk r).
    + assert (rank c < rank r)%nat by tauto. lia.
  - intros r a b. rewrite Hrng. apply (t_u32 _ _ _ ok).
Qed.
End insertion.

(** ** Removal *)

(** The lists when [old] is taken out between [l1] and [l2]. *)
Lemma remove_linked h h' kids rank p old l1 l2 r :
  tree_ok h kids rank -> kids p = l1 ++ old :: l2 -> slot_get h' (slot_of p l1) = Some (hd0 l2) ->
  (forall s, s <> slot_of p l1 -> slot_get h' s = slot_get h s) ->
  is_Some (h !! r) -> linked h' r (kset kids p (l1 ++ l2) r).
Proof.
  intros ok Hk Hslot Hother Hr. pose proof (kids_NoDup h kids rank ok p) as Hnd. rewrite Hk in Hnd.
  apply NoDup_app in Hnd as (Hnd1 & Hd1 & _). unfold kset. case_decide as E; [subst r|].
  - pose proof (t_linked _ _ _ ok p Hr) as Hlk. rewrite Hk in Hlk.
    apply (linked_splice h h' p l1 (old :: l2) l2 (hd0 l2)); [done|done|done| |auto].
    destruct Hlk as (q & _ & Hs). apply seg_app in Hs as (m & _ & Hs). simpl in Hs.
    destruct Hs as (_ & _ & x & Hx & Hs). rewrite (seg_head _ _ _ Hs) in Hs.
    apply (seg_frame h); [|done]. intros c Hc. apply Hother. apply slot_of_ne; [done|].
    intros c' Hc' [= ->]. apply (Hd1 c' Hc'). by right.
  - destruct (t_linked _ _ _ ok r Hr) as (q & Hq & Hs). exists q. split.
    + rewrite Hother; [done|]. apply slot_of_ne; congruence.
    + apply (seg_frame h); [|done]. intros c Hc. apply Hother. apply slot_of_ne; [done|].
      intros c' Hc' [= ->]. apply E. apply (kids_disjoint h kids rank ok r p c' Hc).
      rewrite Hk, elem_of_app. tauto.
Qed.

Lemma tree_remove h h' kids rank p old l1 l2 :
  tree_ok h kids rank -> kids p = l1 ++ old :: l2 ->
  (forall r, rng h' r = rng h r) ->
  slot_get h' (slot_of p l1) = Some (hd0 l2) ->
  (forall s, s <> slot_of p l1 -> slot_get h' s = slot_get h s) ->
  par h' old = Some 0 -> (forall c, c <> old -> par h' c = par h c) ->
  tree_ok h' (kset kids p (l1 ++ l2)) rank.
Proof.
  intros ok Hk Hrng Hslot Hother Hp0 Hpar.
  pose proof (kids_NoDup h kids rank ok p) as Hnd. rewrite Hk in Hnd.
  apply NoDup_app in Hnd as (Hnd1 & Hd1 & Hnd2). apply NoDup_cons in Hnd2 as [Hold _].
  assert (Hdom : forall r, is_Some (h' !! r) <-> is_Some (h !! r)) by (apply ins_dom; done).
  assert (Hsub : forall r c, c ∈ kset kids p (l1 ++ l2) r -> c ∈ kids r /\ c <> old).
  { intros r c. unfold kset. case_decide as E; [subst r|].
    - rewrite Hk, !elem_of_app, elem_of_cons. intros [Hc|Hc]; (split; [tauto|]); intros ->; [|done].
      apply (Hd1 old Hc). by left.
    - intros Hc. split; [done|]. intros ->. apply E.
      apply (kids_disjoint h kids rank ok r p old Hc). rewrite Hk, elem_of_app, elem_of_cons. tauto. }
  split.
  - destruct (h' !! 0) eqn:E; [|done]. pose proof (t_null _ _ _ ok).
    assert (is_Some (h !! 0)) as [? ?] by (apply Hdom; by rewrite E). congruence.
  - intros r Hr%Hdom. by apply (remove_linked h h' kids rank p old l1 l2).
  - intros r Hr. unfold kset. case_decide as E; [subst r|].
    + assert (Ho : old ∈ kids p) by (rewrite Hk, elem_of_app, elem_of_cons; tauto).
      destruct (kid_in_store h kids rank ok p old Ho) as (_ & [? ?]%Hdom & _). congruence.
    + apply (t_none _ _ _ ok). destruct (h !! r) eqn:E'; [|done].
      assert (is_Some (h' !! r)) as [? ?] by (apply Hdom; by rewrite E'). congruence.
  - intros r c [Hc Hne]%Hsub. rewrite Hpar by done. by apply (t_parent _ _ _ ok).
  - intros c q Hc Hq. destruct (decide (c = old)) as [->|Hne]; [congruence|].
    rewrite Hpar in Hc by done. pose proof (t_listed _ _ _ ok c q Hc Hq) as Hin.
    unfold kset. case_decide; [|done]. subst q. rewrite Hk, elem_of_app, elem_of_cons in Hin.
    rewrite elem_of_app. tauto.
  - intros r c [Hc _]%Hsub. destruct (t_inside _ _ _ ok r c Hc) as (a & b & x & y & H).
    exists a, b, x, y. by rewrite !Hrng.
  - intros r. assert (Hs : StronglySorted (before h) (kset kids p (l1 ++ l2) r)).
    { unfold kset. case_decide; [|apply (t_sorted _ _ _ ok)].
      pose proof (t_sorted _ _ _ ok p) as Hs. rewrite Hk in Hs.
      apply StronglySorted_app in Hs as (H1 & H2 & H3%StronglySorted_inv).
      apply StronglySorted_app. split; [|split; [done|apply H3]].
      intros x y Hx Hy. apply H1; [done|]. by right. }
    induction Hs as [|c l _ IH Hall]; constructor; [done|].
    eapply Forall_impl; [exact Hall|]. intros d H x y z w. rewrite !Hrng. apply H.
  - intros r c [Hc _]%Hsub. by apply (t_rank _ _ _ ok).
  - intros r a b. rewrite Hrng. apply (t_u32 _ _ _ ok).
Qed.

(** ** Requests *)

(** The request of [n] fits in [r]; two ranges overlap. *)
Definition fits (r n : resource) : Prop := start r <= start n /\ start n <= end_ n /\ end_ n <= end_ r.
Definition overlap (n t : resource) : Prop := start n <= end_ t /\ start t <= end_ n.

(** A resource that is in no tree and has no children. *)
Definition detached (h : store) (kids : Z -> list Z) (new : Z) : Prop :=
  par h new = Some 0 /\ kids new = [].

Lemma rng_lookup h r n : h !! r = Some n -> rng h r = Some (start n, end_ n).
Proof. intros H. unfold rng. by rewrite H. Qed.

(** The outcome of a request: the new resource is among the children of [root], or
    the store is unchanged and the conflict is named. *)
Definition requested (h : store) (kids : Z -> list Z) (root new : Z) (r n : resource)
    (c : Z) (h' : store) : Prop :=
  (c = 0 /\ fits r n /\
   (forall d t, d ∈ kids root -> h !! d = Some t -> ~ overlap n t) /\
   exists l1 l2 rank', kids root = l1 ++ l2 /\
     tree_ok h' (kset kids root (l1 ++ new :: l2)) rank' /\
     (forall k, rng h' k = rng h k) /\ (forall k, flags <$> h' !! k = flags <$> h !! k) /\
     par h' new = Some root /\ (forall k, k <> new -> par h' k = par h k)) \/
  (c <> 0 /\ h' = h /\
   (c = root /\ ~ fits r n \/
    fits r n /\ c ∈ kids root /\ (exists t, h !! c = Some t /\ overlap n t) /\
    exists l1 l2, kids root = l1 ++ c :: l2 /\
      forall d t, d ∈ l1 -> h !! d = Some t -> end_ t < start n)).

Lemma link_in_tree h kids rank root new r n l1 l2 :
  tree_ok h kids rank -> detached h kids new -> new <> root ->
  h !! root = Some r -> h !! new = Some n -> fits r n -> kids root = l1 ++ l2 ->
  (forall d t, d ∈ l1 -> h !! d = Some t -> end_ t < start n) ->
  (forall d t, d ∈ l2 -> h !! d = Some t -> end_ n < start t) ->
  exists h', link_in h root new (slot_of root l1) (hd0 l2) = Some h' /\
    exists rank', tree_ok h' (kset kids root (l1 ++ new :: l2)) rank' /\
      (forall k, rng h' k = rng h k) /\ (forall k, flags <$> h' !! k = flags <$> h !! k) /\
      par h' new = Some root /\ (forall k, k <> new -> par h' k = par h k).
Proof.
  intros ok [Hfree Hleaf] Hne Hr Hn (F1 & F2 & F3) Hk H1 H2.
  pose proof (t_linked _ _ _ ok root (mk_is_Some _ _ Hr)) as Hl. rewrite Hk in Hl.
  destruct (link_in_spec h root new l1 l2 (mk_is_Some _ _ Hn) Hl) as (h' & E & U).
  exists h'. split; [done|]. pose proof U as (Us & Up & Ur & Uf & _).
  assert (Hnk : forall k, new ∉ kids k).
  { intros k Hc. pose proof (kid_in_store h kids rank ok k new Hc) as (_ & _ & _ & ? & _).
    apply (t_parent _ _ _ ok) in Hc. congruence. }
  assert (Hnl : SiblingOf new <> slot_of root l1).
  { apply slot_of_ne; [done|]. intros c Hc [= ->]. apply (Hnk root). rewrite Hk, elem_of_app. tauto. }
  assert (Hcl : ChildOf new <> slot_of root l1) by (apply slot_of_ne; congruence).
  assert (Hpn : par h' new = Some root) by (rewrite Up; unfold fset; by rewrite decide_True).
  assert (Hpo : forall k, k <> new -> par h' k = par h k)
    by (intros k Hkn; rewrite Up; unfold fset; by rewrite decide_False).
  exists (ins_rank rank root new). split; [|done].
  assert (T : tree_ok h' (kset (kset kids root (l1 ++ new :: l2)) new []) (ins_rank rank root new)).
  { apply (ins_tree h h' kids rank root new l1 [] l2); try done.
    - exists (start r), (end_ r), (start n), (end_ n). by rewrite !(rng_lookup h _ _ Hr), !(rng_lookup h _ _ Hn).
    - by intros c ?%elem_of_nil.
    - intros c Hc x y z w Hx Hz. rewrite (rng_lookup h _ _ Hn) in Hz. injection Hz as <- _.
      unfold rng in Hx. destruct (h !! c) as [t|] eqn:Et; [|done]. injection Hx as _ <-. by apply (H1 c).
    - intros c Hc x y z w Hx Hz. rewrite (rng_lookup h _ _ Hn) in Hx. injection Hx as _ <-.
      unfold rng in Hz. destruct (h !! c) as [t|] eqn:Et; [|done]. injection Hz as <- _. by apply (H2 c).
    - rewrite Us. unfold fset. by rewrite decide_True.
    - rewrite Us. unfold fset. by rewrite decide_False, decide_True.
    - destruct (t_linked _ _ _ ok new (mk_is_Some _ _ Hn)) as (q & Hq & Hs). rewrite Hleaf in Hs.
      exists q. split; [|done]. rewrite Us. unfold fset. by rewrite !decide_False.
    - intros s S1 S2 S3 _. rewrite Us. unfold fset. by rewrite !decide_False.
    - by intros c ?%elem_of_nil.
    - intros c Hc _. by apply Hpo. }
  assert (Hext : forall k, kset (kset kids root (l1 ++ new :: l2)) new [] k = kset kids root (l1 ++ new :: l2) k).
  { intros k. unfold kset. destruct (decide (k = new)) as [->|]; [|done].
    rewrite decide_False by done. by rewrite Hleaf. }
  destruct T as [T1 T2 T3 T4 T5 T6 T7 T8 T9]. split; try done;
    intros; rewrite <- ?Hext in *; eauto.
Qed.

(** The order of two children in the list. *)
Lemma kids_order h kids rank root l1 c d l2 x y t z :
  tree_ok h kids rank -> kids root = l1 ++ c :: l2 -> d ∈ l2 ->
  rng h c = Some (x, y) -> rng h d = Some (t, z) -> y < t.
Proof.
  intros ok Hk Hd Hc Ht. pose proof (t_sorted _ _ _ ok root) as Hs. rewrite Hk in Hs.
  apply StronglySorted_app in Hs as (_ & _ & Hs%StronglySorted_inv). destruct Hs as [_ Hall].
  rewrite Forall_forall in Hall. by apply (Hall d Hd x y t z).
Qed.

(** A loop over the children of [root], one slot after the other: [inv] holds of
    the children that were passed. *)
Lemma walk_kids {R} h kids rank root (body : slot -> slot + option R) (inv : Z -> Prop) (Q : R -> Prop) :
  tree_ok h kids rank -> is_Some (h !! root) ->
  (forall l1 l2, kids root = l1 ++ l2 -> (forall d, d ∈ l1 -> inv d) ->
     match body (slot_of root l1) with
     | inl s => exists c l2', l2 = c :: l2' /\ s = SiblingOf c /\ inv c
     | inr res => exists x, res = Some x /\ Q x
     end) ->
  exists x, mjoin (loop (S (S (size h))) body (ChildOf root)) = Some x /\ Q x.
Proof.
  intros ok Hroot Hbody.
  assert (H : forall l2 l1 fuel, kids root = l1 ++ l2 -> (forall d, d ∈ l1 -> inv d) ->
    (length l2 < fuel)%nat -> exists x, mjoin (loop fuel body (slot_of root l1)) = Some x /\ Q x).
  { induction l2 as [|c l2 IH]; intros l1 fuel Hk Hinv Hf; (destruct fuel as [|fuel]; [lia|]);
      rewrite loop_S; specialize (Hbody l1 _ Hk Hinv); destruct (body (slot_of root l1)) as [s|res].
    - destruct Hbody as (? & ? & [=] & _).
    - destruct Hbody as (x & -> & HQ). by exists x.
    - destruct Hbody as (c' & l2' & [= <- <-] & -> & Hc).
      replace (SiblingOf c) with (slot_of root (l1 ++ [c])) by (unfold slot_of; by rewrite last_snoc).
      apply IH; [by rewrite <- app_assoc| |simpl in Hf; lia].
      intros d [Hd | ->%list_elem_of_singleton]%elem_of_app; auto.
    - destruct Hbody as (x & -> & HQ). by exists x. }
  apply (H (kids root) []); [done| |].
  - by intros d ?%elem_of_nil.
  - pose proof (kids_length h kids rank ok root). lia.
Qed.

(** What the walk sees at the slot behind [l1]. *)
Lemma walk_slot h kids rank root l1 l2 :
  tree_ok h kids rank -> is_Some (h !! root) -> kids root = l1 ++ l2 ->
  slot_get h (slot_of root l1) = Some (hd0 l2) /\
  match l2 with
  | [] => hd0 l2 = 0
  | c :: _ => hd0 l2 = c /\ c <> 0 /\ exists t, h !! c = Some t
  end.
Proof.
  intros ok Hroot Hk. pose proof (t_linked _ _ _ ok root Hroot) as Hl. rewrite Hk in Hl.
  split; [by apply slot_of_get|]. destruct l2 as [|c l2]; [done|]. split; [done|].
  assert (Hc : c ∈ kids root) by (rewrite Hk, elem_of_app, elem_of_cons; tauto).
  destruct (kid_in_store h kids rank ok root c Hc) as ([t Ht] & _ & ? & _). eauto.
Qed.

(** The next child. *)
Lemma sibling_next h kids rank q l1 c l2 t :
  tree_ok h kids rank -> is_Some (h !! q) -> kids q = l1 ++ c :: l2 -> h !! c = Some t ->
  sibling t = hd0 l2.
Proof.
  intros ok Hq Hk Ht. pose proof (t_linked _ _ _ ok q Hq) as Hl. rewrite Hk in Hl.
  assert (E : slot_get h (slot_of q (l1 ++ [c])) = Some (hd0 l2))
    by (apply slot_of_get; by rewrite <- app_assoc).
  unfold slot_of in E. rewrite last_snoc in E. unfold slot_get in E. rewrite Ht in E. by injection E.
Qed.

Lemma request_spec h kids rank root new r n :
  tree_ok h kids rank -> detached h kids new -> new <> root ->
  h !! root = Some r -> h !! new = Some n ->
  exists c h', __request_resource h root new = Some (c, h') /\ requested h kids root new r n c h'.
Proof.
  intros ok Hdet Hne Hr Hn. unfold __request_resource. rewrite Hn, Hr. cbn [mbind option_bind].
  assert (Hroot0 : root <> 0) by (intros ->; by rewrite (t_null _ _ _ ok) in Hr).
  assert (Hbad : ~ fits r n -> requested h kids root new r n root h)
    by (intros Hf; right; auto).
  destruct (Z.ltb_spec (end_ n) (start n));
    [exists root, h; split; [done|]; apply Hbad; unfold fits; lia|].
  destruct (Z.ltb_spec (start n) (start r));
    [exists root, h; split; [done|]; apply Hbad; unfold fits; lia|].
  destruct (Z.ltb_spec (end_ r) (end_ n));
    [exists root, h; split; [done|]; apply Hbad; unfold fits; lia|].
  assert (Hfits : fits r n) by (unfold fits; lia). clear Hbad.
  destruct (walk_kids h kids rank root (request_body h root new (start n) (end_ n))
    (fun d => forall t, h !! d = Some t -> end_ t < start n)
    (fun '(c, h') => requested h kids root new r n c h') ok (mk_is_Some _ _ Hr))
    as ([c h'] & E & HQ); [|eauto].
  intros l1 l2 Hk Hinv.
  destruct (walk_slot h kids rank root l1 l2 ok (mk_is_Some _ _ Hr) Hk) as [Hs Hc].
  assert (Hlink : (forall d t, d ∈ l2 -> h !! d = Some t -> end_ n < start t) ->
    exists x, (h0 ← link_in h root new (slot_of root l1) (hd0 l2); Some (0, h0)) = Some x /\
      let '(c, h') := x in requested h kids root new r n c h').
  { intros H2. destruct (link_in_tree h kids rank root new r n l1 l2) as (h' & -> & rank' & HT);
      [done..|by intros d t Hd; apply Hinv|done|].
    exists (0, h'). split; [done|]. left. split; [done|]. split; [done|]. split.
    - intros d t Hd Ht [O1 O2]. rewrite Hk in Hd. apply elem_of_app in Hd as [Hd|Hd].
      + pose proof (Hinv d Hd t Ht). lia.
      + pose proof (H2 d t Hd Ht). lia.
    - exists l1, l2, rank'. done. }
  unfold request_body. rewrite Hs. destruct l2 as [|c l2].
  - rewrite Hc in *. apply Hlink. by intros d t ?%elem_of_nil.
  - destruct Hc as (Hc & Hc0 & t & Ht). rewrite Hc in *.
    destruct (Z.eqb_spec c 0) as [|_]; [done|]. rewrite Ht.
    assert (Hin : c ∈ kids root) by (rewrite Hk, elem_of_app, elem_of_cons; tauto).
    destruct (Z.ltb_spec (end_ n) (start t)) as [Hlt|Hge].
    + apply Hlink. intros d td [-> | Hd]%elem_of_cons Htd; [by simplify_eq|].
      pose proof (kids_order h kids rank root l1 c d l2 _ _ _ _ ok Hk Hd (rng_lookup _ _ _ Ht)
        (rng_lookup _ _ _ Htd)).
      destruct (t_inside _ _ _ ok root c Hin) as (a & b & x & y & _ & Hxy & _ & ? & _).
      rewrite (rng_lookup _ _ _ Ht) in Hxy. injection Hxy as <- <-. lia.
    + destruct (Z.ltb_spec (end_ t) (start n)) as [Hlt2|Hge2].
      * exists c, l2. split; [done|]. split; [done|]. intros t' Ht'. by simplify_eq.
      * exists (c, h). split; [done|]. right. split; [done|]. split; [done|]. right.
        split; [done|]. split; [done|]. split; [exists t; split; [done|]; unfold overlap; lia|].
        exists l1, l2. split; [done|]. intros d t' Hd. by apply Hinv.
Qed.

(** ** Release *)

Lemma release_spec h kids rank old p :
  tree_ok h kids rank -> par h old = Some p -> p <> 0 ->
  exists h' l1 l2, __release_resource h old = Some (0, h') /\ kids p = l1 ++ old :: l2 /\
    tree_ok h' (kset kids p (l1 ++ l2)) rank /\ par h' old = Some 0 /\
    (forall k, rng h' k = rng h k) /\ (forall k, flags <$> h' !! k = flags <$> h !! k).
Proof.
  intros ok Hp Hp0. pose proof (t_listed _ _ _ ok old p Hp Hp0) as Hold.
  unfold __release_resource. pose proof Hp as Hp'. unfold par in Hp'.
  destruct (h !! old) as [n|] eqn:Hn; [|done]. injection Hp' as Hpn.
  cbn [mbind option_bind]. rewrite Hpn.
  destruct (kid_in_store h kids rank ok p old Hold) as (_ & Hps & Ho0 & _).
  destruct (walk_kids h kids rank p (release_body h old) (fun d => d <> old)
    (fun '(c, h') => c = 0 /\ exists l1 l2, kids p = l1 ++ old :: l2 /\
       tree_ok h' (kset kids p (l1 ++ l2)) rank /\ par h' old = Some 0 /\
       (forall k, rng h' k = rng h k) /\ (forall k, flags <$> h' !! k = flags <$> h !! k)) ok Hps)
    as ([c h'] & E & -> & l1 & l2 & H).
  - intros l1 l2 Hk Hinv. destruct (walk_slot h kids rank p l1 l2 ok Hps Hk) as [Hs Hc].
    unfold release_body. rewrite Hs. destruct l2 as [|c l2].
    { exfalso. rewrite Hk, app_nil_r in Hold. by apply (Hinv old). }
    destruct Hc as (Hc & Hc0 & t & Ht). rewrite Hc.
    destruct (Z.eqb_spec c 0) as [|_]; [done|]. destruct (Z.eqb_spec c old) as [->|Hco].
    2:{ exists c, l2. done. }
    unfold slot_get at 1. rewrite Ht. cbn [fmap option_fmap option_map mbind option_bind].
    rewrite (sibling_next h kids rank p l1 old l2 t ok Hps Hk Ht).
    destruct (slot_set_spec h (slot_of p l1) (hd0 l2)) as (h1 & -> & U1); [by rewrite Hs|].
    cbn [mbind option_bind].
    destruct (write_parent_spec h1 old 0) as (h2 & -> & U2);
      [by rewrite (updated_dom h h1 _ _ old U1), Hn|].
    cbn [mbind option_bind]. exists (0, h2). split; [done|]. split; [done|]. exists l1, l2.
    split; [done|]. destruct U1 as (S1 & P1 & R1 & F1 & _). destruct U2 as (S2 & P2 & R2 & F2 & _).
    assert (Hpar : par h2 old = Some 0) by (rewrite P2; unfold fset; by rewrite decide_True).
    split; [|split; [done|split; intros k; by rewrite ?R2, ?F2]].
    apply (tree_remove h h2 kids rank p old l1 l2); try done.
    + intros k. by rewrite R2.
    + rewrite S2, S1. unfold fset. by rewrite decide_True.
    + intros s Hne. rewrite S2, S1. unfold fset. by rewrite decide_False.
    + intros c Hco. rewrite P2. unfold fset. rewrite decide_False by done. apply P1.
  - exists h', l1, l2. done.
Qed.

(** ** Resources outside of the tree *)

(** A resource that nobody points to may come, change its range, or go. *)
Lemma tree_off h h' kids rank x :
  tree_ok h kids rank -> (forall r, x ∉ kids r) -> kids x = [] ->
  (forall q, q <> x -> h' !! q = h !! q) ->
  (forall n, h' !! x = Some n ->
     x <> 0 /\ child n = 0 /\ parent n = 0 /\ is_u32 (start n) /\ is_u32 (end_ n)) ->
  tree_ok h' kids rank.
Proof.
  intros ok Hnk Hleaf Hl Hx.
  assert (Hkn : forall q c, c ∈ kids q -> c <> x /\ q <> x).
  { intros q c Hk. split; intros ->; [by apply (Hnk q)|]. rewrite Hleaf in Hk. by apply elem_of_nil in Hk. }
  split.
  - destruct (decide (0 = x)) as [<-|]; [|rewrite Hl by done; apply (t_null _ _ _ ok)].
    destruct (h' !! 0) as [n|] eqn:E; [|done]. by destruct (Hx n).
  - intros q Hq. destruct (decide (q = x)) as [->|Hne].
    + destruct Hq as [n Hn]. destruct (Hx n Hn) as (_ & Hc & _). rewrite Hleaf. exists 0.
      split; [|done]. unfold slot_get. rewrite Hn. simpl. by rewrite Hc.
    + rewrite Hl in Hq by done. destruct (t_linked _ _ _ ok q Hq) as (p & Hp' & Hs). exists p.
      split; [unfold slot_get in *; by rewrite Hl|]. apply (seg_frame h); [|done].
      intros c Hk. unfold slot_get. by rewrite Hl by apply (Hkn q c Hk).
  - intros q Hq. destruct (decide (q = x)) as [->|Hne]; [done|]. rewrite Hl in Hq by done.
    by apply (t_none _ _ _ ok).
  - intros q c Hk. unfold par. rewrite Hl by apply (Hkn q c Hk). by apply (t_parent _ _ _ ok).
  - intros c p Hcp Hp0. unfold par in Hcp. destruct (decide (c = x)) as [->|Hne].
    + destruct (h' !! x) as [n|] eqn:E; [|done]. destruct (Hx n eq_refl) as (_ & _ & Hp & _).
      simpl in Hcp. congruence.
    + rewrite Hl in Hcp by done. by apply (t_listed _ _ _ ok).
  - intros q c Hk. destruct (t_inside _ _ _ ok q c Hk) as (a & b & u & v & H). exists a, b, u, v.
    unfold rng in *. destruct (Hkn q c Hk). by rewrite !Hl.
  - intros q. assert (Hall : forall c, c ∈ kids q -> c <> x) by (intros c Hk; by apply (Hkn q c)).
    pose proof (t_sorted _ _ _ ok q) as Hs. induction Hs as [|c l _ IH Hb]; constructor.
    + apply IH. intros d Hd. apply Hall. by right.
    + apply Forall_forall. intros d Hd u v z w. unfold rng.
      rewrite !Hl; [|apply Hall; by right|apply Hall; by left].
      rewrite Forall_forall in Hb. by apply (Hb d Hd).
  - apply (t_rank _ _ _ ok).
  - intros q a b. unfold rng. destruct (decide (q = x)) as [->|Hq].
    + destruct (h' !! x) as [n|] eqn:E; [|done]. destruct (Hx n eq_refl) as (_ & _ & _ & ? & ?).
      by intros [= <- <-].
    + rewrite Hl by done. apply (t_u32 _ _ _ ok).
Qed.

Lemma detached_not_kid h kids rank x :
  tree_ok h kids rank -> detached h kids x -> forall r, x ∉ kids r.
Proof.
  intros ok [Hfree _] r Hc. pose proof (kid_in_store h kids rank ok r x Hc) as (_ & _ & _ & ? & _).
  apply (t_parent _ _ _ ok) in Hc. congruence.
Qed.

(** A new range for a detached resource. *)
Lemma tree_set_range h kids rank new n a b :
  tree_ok h kids rank -> detached h kids new -> h !! new = Some n -> is_u32 a -> is_u32 b ->
  tree_ok (<[new := set_range n a b]> h) kids rank /\ detached (<[new := set_range n a b]> h) kids new.
Proof.
  intros ok Hdet Hn Ha Hb. pose proof (detached_not_kid h kids rank new ok Hdet) as Hnk.
  destruct Hdet as [Hfree Hleaf]. unfold par in Hfree. rewrite Hn in Hfree. injection Hfree as Hp.
  destruct (t_linked _ _ _ ok new (mk_is_Some _ _ Hn)) as (q & Hq & Hs).
  rewrite Hleaf in Hs. simpl in Hs. subst q. unfold slot_get in Hq. rewrite Hn in Hq. injection Hq as Hc.
  split; [|split; [unfold par; rewrite lookup_insert_eq; simpl; by rewrite Hp|done]].
  apply (tree_off h _ kids rank new ok Hnk Hleaf); [intros q Hq; by rewrite lookup_insert_ne|].
  intros n' Hn'. rewrite lookup_insert_eq in Hn'. injection Hn' as <-. split; [|done].
  intros ->. by rewrite (t_null _ _ _ ok) in Hn.
Qed.

(** A new resource, and the end of one. *)
Lemma tree_fresh h kids rank new n :
  tree_ok h kids rank -> h !! new = None -> new <> 0 ->
  parent n = 0 -> child n = 0 -> is_u32 (start n) -> is_u32 (end_ n) ->
  tree_ok (<[new := n]> h) kids rank /\ detached (<[new := n]> h) kids new.
Proof.
  intros ok Hn H0 Hp Hc Us Ue. pose proof (t_none _ _ _ ok new Hn) as Hleaf.
  split; [|split; [unfold par; rewrite lookup_insert_eq; simpl; by rewrite Hp|done]].
  apply (tree_off h _ kids rank new ok); [|done|intros q Hq; by rewrite lookup_insert_ne|].
  - intros r Hk. destruct (kid_in_store h kids rank ok r new Hk) as ([? ?] & _). congruence.
  - intros n' Hn'. rewrite lookup_insert_eq in Hn'. by injection Hn' as <-.
Qed.

Lemma tree_delete h kids rank old :
  tree_ok h kids rank -> detached h kids old -> tree_ok (delete old h) kids rank.
Proof.
  intros ok Hdet. apply (tree_off h _ kids rank old ok).
  - by apply (detached_not_kid h kids rank).
  - apply Hdet.
  - intros q Hq. by rewrite lookup_delete_ne.
  - intros n. by rewrite lookup_delete_eq.
Qed.
