(* ===== verification/ResourceAlloc.v ===== *)
(** allocate_resource of kernel/resource.c: the lowest free range that meets the
    constraints. *)
From stdpp Require Import base list gmap numbers option sorting.
From Stdlib Require Import ZArith Lia.
From S2P Require Import Prelude Resource ResourceTree.

Local Open Scope Z_scope.

Local Arguments slot_get : simpl never.

(** ** Allocation *)

(** Rounding up to a power of two, when that does not wrap. *)
Lemma ALIGN_spec x k :
  0 <= k < 32 -> 0 <= x -> x + 2 ^ k <= 2 ^ 32 ->
  x <= ALIGN x (2 ^ k) < x + 2 ^ k /\ (2 ^ k | ALIGN x (2 ^ k)).
Proof.
  intros Hk Hx Hfit. unfold ALIGN. assert (H2 : 0 < 2 ^ k) by lia.
  rewrite (u32_small (x + 2 ^ k - 1)) by (width_lia; lia).
  set (y := x + 2 ^ k - 1).
  assert (E : Z.land y (u32 (Z.lnot (2 ^ k - 1))) = y - y mod 2 ^ k).
  { rewrite <- Z.land_ones by lia.
    assert (Hy : 0 <= y < 2 ^ 32) by lia. clearbody y. rewrite Z.ones_equiv, <- Z.sub_1_r.
    unfold u32, U32_MOD. rewrite <- Z.land_ones by lia.
    transitivity (Z.land y (Z.lnot (2 ^ k - 1))).
    - rewrite (Z.land_comm (Z.lnot _)), Z.land_assoc. f_equal.
      rewrite Z.land_ones by lia. apply Z.mod_small. lia.
    - assert (Hsplit : Z.land y (Z.lnot (2 ^ k - 1)) + Z.land y (2 ^ k - 1) = y); [|lia].
      rewrite Z.add_nocarry_lxor.
      + apply Z.bits_inj'. intros i Hi. rewrite Z.lxor_spec, !Z.land_spec, Z.lnot_spec by lia.
        destruct (Z.testbit y i), (Z.testbit (2 ^ k - 1) i); done.
      + apply Z.bits_inj'. intros i Hi. rewrite !Z.land_spec, Z.lnot_spec, Z.bits_0 by lia.
        destruct (Z.testbit y i), (Z.testbit (2 ^ k - 1) i); done. }
  rewrite E. pose proof (Z.mod_pos_bound y (2 ^ k) H2). split; [lia|].
  exists (y / 2 ^ k). rewrite (Z.div_mod y (2 ^ k)) at 1 by lia. lia.
Qed.

(** The least multiple of the alignment from [x] on. *)
Lemma ALIGN_least x k z :
  0 <= k < 32 -> 0 <= x -> x + 2 ^ k <= 2 ^ 32 -> x <= z -> (2 ^ k | z) -> ALIGN x (2 ^ k) <= z.
Proof.
  intros Hk Hx Hfit Hz [q ->]. destruct (ALIGN_spec x k Hk Hx Hfit) as [H1 [q' E]]. rewrite E in *.
  assert (0 < 2 ^ k) by lia. destruct (Z.le_gt_cases q' q) as [|Hgt]; [nia|].
  assert (q + 1 <= q') by lia. nia.
Qed.

(** At the end of the address space the sum wraps, and the result is 0. *)
Lemma ALIGN_wrap x k : 0 <= k < 32 -> x < 2 ^ 32 -> 2 ^ 32 < x + 2 ^ k -> ALIGN x (2 ^ k) = 0.
Proof.
  intros Hk Hx Hw. unfold ALIGN. assert (Hle : 2 ^ k <= 2 ^ 31) by (apply Z.pow_le_mono_r; lia).
  assert (E : u32 (x + 2 ^ k - 1) = x + 2 ^ k - 1 - 2 ^ 32).
  { unfold u32, U32_MOD. rewrite <- (Z_mod_plus_full _ (-1)). apply Z.mod_small. lia. }
  rewrite E. set (y := x + 2 ^ k - 1 - 2 ^ 32). assert (Hy : 0 <= y < 2 ^ k) by lia.
  apply Z.bits_inj'. intros i Hi. rewrite Z.land_spec, Z.bits_0. destruct (Z.lt_ge_cases i k) as [Hik|Hik].
  - unfold u32, U32_MOD. rewrite <- Z.land_ones by lia.
    rewrite Z.land_spec, Z.lnot_spec, Z.sub_1_r, <- Z.ones_equiv, (Z.ones_spec_low k i) by lia.
    simpl. by rewrite andb_false_r.
  - rewrite <- (Z.mod_small y (2 ^ k)), Z.mod_pow2_bits_high by lia. done.
Qed.

(** A place for [size] units in [root] that meets the constraints. *)
Definition candidate (h : store) (kids : Z -> list Z) (root : Z) (r : resource)
    (size min max align a : Z) : Prop :=
  (align | a) /\ min <= a /\ a + size - 1 <= max /\ start r <= a /\ a + size - 1 <= end_ r /\
  forall d t, d ∈ kids root -> h !! d = Some t -> a + size - 1 < start t \/ end_ t < a.

(** When the wrap of the rounding at the end of the address space does no harm: it does not
    occur, because neither [min] nor the start of the parent nor the end of a child is in the last unit of
    alignment (a child may end with the address space); or what it leads to is refused, because 0 is not
    below [min] or is outside of the parent. *)
Definition top_ok (h : store) (kids : Z -> list Z) (root : Z) (r : resource) (size min k : Z) : Prop :=
  min + 2 ^ k <= 2 ^ 32 /\ start r + 2 ^ k <= 2 ^ 32 /\
    (forall d t, d ∈ kids root -> h !! d = Some t ->
       end_ t + 1 + 2 ^ k <= 2 ^ 32 \/ 2 <= size /\ end_ t = 2 ^ 32 - 1) \/
  2 <= size /\ (min = 0 \/ 0 < start r).

Section find.
Context (h : store) (kids : Z -> list Z) (rank : Z -> nat) (root : Z) (r : resource).
Context (size min max k : Z).
Hypothesis ok : tree_ok h kids rank.
Hypothesis Hr : h !! root = Some r.
Hypothesis Hsize : 1 <= size < 2 ^ 32.
Hypothesis Hmin : 0 <= min < 2 ^ 32.
Hypothesis Hmax : 0 <= max < 2 ^ 32.
Hypothesis Hk : 0 <= k < 32.
Hypothesis Htop : top_ok h kids root r size min k.

(** The code takes no gap of a single unit. *)
Let room := Z.max size 2.
Let cand := candidate h kids root r room min max (2 ^ k).

(** What find_resource finds: the lowest place, or that there is none; or, after a wrap, a
    range that meets the limits but is not free. *)
Definition found (res : Z * (Z * Z)) : Prop :=
  let '(err, (a, b)) := res in
  is_u32 a /\ is_u32 b /\
  (err = 0 /\ b = a + size - 1 /\ cand a /\ (forall z, cand z -> a <= z) \/
   err = - EBUSY /\ (forall z, ~ cand z) \/
   err = 0 /\ (forall z, ~ cand z) /\ 2 <= size /\ b = a + size - 1 /\ (2 ^ k | a) /\ b <= max /\
     (min <= a \/ a < start r)).

(** The search has come to [s], past the children [l1], or there is no place at all. *)
Definition searched (l1 : list Z) (s : Z) : Prop :=
  start r <= s /\ (forall d t, d ∈ l1 -> h !! d = Some t -> end_ t < s) /\ (forall z, cand z -> s <= z) \/
  2 <= size /\ forall z, ~ cand z.

(** The rounding from [s] does not wrap, or that does no harm. *)
Definition rounds (s : Z) : Prop := Z.max s min + 2 ^ k <= 2 ^ 32 \/ 2 <= size /\ (min = 0 \/ 0 < start r).

Lemma end_range : 0 <= end_ r < 2 ^ 32.
Proof. destruct (t_u32 _ _ _ ok root _ _ (rng_lookup _ _ _ Hr)) as [_ H]. revert H. width_lia. Qed.

(** A place that is found after the search was lost. *)
Lemma found_lost a e' : 2 <= size -> (forall z, ~ cand z) -> is_u32 a -> (2 ^ k | a) -> e' <= max ->
  size - 1 <= e' - a -> min <= a \/ a < start r -> found (0, (a, u32 (a + size - 1))).
Proof.
  intros Hs Hn Ha Hd He Hf Hlow. assert (is_u32 (a + size - 1)) by (revert Ha; width_lia).
  rewrite u32_small by done. split_and!; [done|done|]. right. right. split_and!; [done..|lia|done].
Qed.

(** One gap: from [s] to [e], before the children [l2]. *)
Lemma gap_step l1 l2 s e a e' :
  kids root = l1 ++ l2 -> is_u32 s -> 0 <= e <= end_ r -> rounds s -> searched l1 s ->
  (forall d t, d ∈ l2 -> h !! d = Some t -> e < start t) ->
  a = ALIGN (Z.max s min) (2 ^ k) -> e' = Z.min e max ->
  is_u32 a /\ is_u32 e' /\
  if (a <? e') && (u32 (size - 1) <=? u32 (e' - a))
  then found (0, (a, u32 (a + size - 1)))
  else forall z, cand z -> e < z + room - 1.
Proof.
  intros Hl Hs He Hrnd Hsr H2 -> ->. pose proof end_range as Hend. set (x := Z.max s min).
  assert (Hpos : 0 < 2 ^ k) by lia. assert (Hs' : 0 <= s < 2 ^ 32) by (revert Hs; width_lia).
  assert (Hue : is_u32 (Z.min e max)) by (width_lia; lia).
  assert (Htest : forall a, is_u32 a ->
    (a <? Z.min e max) && (u32 (size - 1) <=? u32 (Z.min e max - a)) = true <-> a + room - 1 <= Z.min e max).
  { intros a Ha. unfold is_u32, U32_MOD in Ha. rewrite (u32_small (size - 1)) by (width_lia; lia).
    destruct (Z.ltb_spec a (Z.min e max)) as [Hlt|Hge]; cbn [andb]; [|split; [done|lia]].
    rewrite u32_small by (width_lia; lia). rewrite Z.leb_le. lia. }
  destruct (Z.le_gt_cases (x + 2 ^ k) (2 ^ 32)) as [Hfit|Hwrap].
  - destruct (ALIGN_spec x k Hk) as [Ha Hdiv]; [lia|done|]. set (a := ALIGN x (2 ^ k)) in *.
    assert (Hua : is_u32 a) by (width_lia; lia). split_and!; [done|done|]. specialize (Htest a Hua).
    destruct Hsr as [(Hs1 & H1 & Hlow)|[Hs2 Hn]].
    + assert (Hleast : forall z, cand z -> a <= z).
      { intros z Hz. pose proof (Hlow z Hz). destruct Hz as (Hdz & Hmz & _). apply ALIGN_least; [done|lia..|done]. }
      destruct (_ && _).
      * pose proof (proj1 Htest eq_refl) as Hr1. rewrite u32_small by (width_lia; lia).
        split_and!; [done|width_lia; lia|]. left. split_and!; [done|done| |done].
        split_and!; [done|lia..|]. intros d t Hd Ht. rewrite Hl in Hd.
        apply elem_of_app in Hd as [Hd|Hd]; [pose proof (H1 d t Hd Ht)|pose proof (H2 d t Hd Ht)]; lia.
      * intros z Hz. pose proof (Hleast z Hz). destruct Hz as (_ & _ & Hxz & _).
        destruct (Z.lt_ge_cases e (z + room - 1)); [done|]. assert (false = true) by (apply Htest; lia). done.
    + destruct (_ && _); [|by intros z Hz%Hn]. pose proof (proj1 Htest eq_refl).
      apply (found_lost a (Z.min e max)); [done..|lia|lia|lia].
  - rewrite ALIGN_wrap by lia. destruct Hrnd as [Hrnd|[Hs2 H0]]; [lia|].
    assert (Hn : forall z, ~ cand z).
    { destruct Hsr as [(_ & _ & Hlow)|[_ Hn]]; [|done]. intros z Hz. pose proof (Hlow z Hz).
      destruct Hz as ([q ->] & Hmz & _ & _ & Hez & _).
      assert (E32 : 2 ^ 32 = 2 ^ (32 - k) * 2 ^ k) by (rewrite <- Z.pow_add_r; [f_equal; lia|lia|lia]).
      assert (q < 2 ^ (32 - k)) by nia. assert ((q + 1) * 2 ^ k <= 2 ^ 32) by nia. lia. }
    assert (Hu0 : is_u32 0) by done. split_and!; [done|done|]. specialize (Htest 0 Hu0).
    destruct (_ && _); [|by intros z Hz%Hn]. pose proof (proj1 Htest eq_refl).
    apply (found_lost 0 (Z.min e max)); [done..|by exists 0|lia|lia|lia].
Qed.

Lemma kid_range d t : d ∈ kids root -> h !! d = Some t ->
  start r <= start t /\ start t <= end_ t /\ end_ t <= end_ r /\ 0 <= start t.
Proof.
  intros Hd Ht. destruct (t_inside _ _ _ ok root d Hd) as (a & b & x & y & Ha & Hx & H).
  rewrite (rng_lookup _ _ _ Hr) in Ha. rewrite (rng_lookup _ _ _ Ht) in Hx.
  injection Ha as <- <-. injection Hx as <- <-.
  destruct (t_u32 _ _ _ ok d (start t) (end_ t) (rng_lookup _ _ _ Ht)) as [[? _] _]. lia.
Qed.

(** Past the child [c]. *)
Lemma searched_past l1 c l2 t : kids root = l1 ++ c :: l2 -> h !! c = Some t ->
  (forall z, cand z -> start t - 1 < z + room - 1) ->
  searched (l1 ++ [c]) (u32 (end_ t + 1)) /\ rounds (u32 (end_ t + 1)).
Proof.
  intros Hl Ht G. assert (Hin : c ∈ kids root) by (rewrite Hl, elem_of_app, elem_of_cons; tauto).
  pose proof (kid_range c t Hin Ht) as Hrt. pose proof end_range as Hend.
  assert (Hafter : forall z, cand z -> end_ t + 1 <= z).
  { intros z Hz. pose proof (G z Hz). destruct Hz as (_ & _ & _ & _ & _ & Hdis).
    destruct (Hdis c t Hin Ht); lia. }
  unfold searched, rounds. destruct (Z.lt_ge_cases (end_ t + 1) (2 ^ 32)) as [Hlt|Hge].
  - rewrite u32_small by (width_lia; lia). split.
    + left. split_and!; [lia| |done]. intros d td [Hd | ->%list_elem_of_singleton]%elem_of_app Htd; [|simplify_eq; lia].
      pose proof (t_sorted _ _ _ ok root) as Hs. rewrite Hl in Hs. apply StronglySorted_app in Hs as (Hs & _).
      pose proof (Hs d c Hd ltac:(by left) _ _ _ _ (rng_lookup _ _ _ Htd) (rng_lookup _ _ _ Ht)). lia.
    + destruct Htop as [(T1 & T2 & T3)|?]; [|by right]. left. destruct (T3 c t Hin Ht); lia.
  - assert (Hs2 : 2 <= size) by (destruct Htop as [(_ & _ & T3)|[? _]]; [destruct (T3 c t Hin Ht); lia|done]).
    assert (E : end_ t + 1 = 2 ^ 32) by lia. rewrite E. change (u32 (2 ^ 32)) with 0. split.
    + right. split; [done|]. intros z Hz. pose proof (Hafter z Hz). destruct Hz as (_ & _ & _ & _ & ? & _). lia.
    + destruct Htop as [(T1 & _)|?]; [left; lia|by right].
Qed.

Lemma find_loop l2 : forall l1 s fuel,
  kids root = l1 ++ l2 -> is_u32 s -> rounds s -> searched l1 s ->
  (forall d t, d ∈ l2 -> h !! d = Some t -> 0 < start t) -> (length l2 < fuel)%nat ->
  exists res, mjoin (loop fuel (find_body h (end_ r) size min max (2 ^ k) None) (hd0 l2, s)) = Some res /\
    found res.
Proof.
  induction l2 as [|c l2 IH]; intros l1 s fuel Hl Hs Hrnd Hsr Hpos Hf;
    (destruct fuel as [|fuel]; [simpl in Hf; lia|]); rewrite loop_S; unfold find_body.
  - cbn [hd0 head from_option]. change (0 =? 0) with true. cbv iota.
    replace (if s <? min then min else s) with (Z.max s min) by (destruct (Z.ltb_spec s min); lia).
    replace (if max <? end_ r then max else end_ r) with (Z.min (end_ r) max)
      by (destruct (Z.ltb_spec max (end_ r)); lia).
    pose proof end_range as Hend.
    destruct (gap_step l1 [] s (end_ r) (ALIGN (Z.max s min) (2 ^ k)) (Z.min (end_ r) max))
      as (U1 & U2 & G); [done|done|lia|done|done| |done|done|].
    { by intros d t ?%elem_of_nil. }
    destruct (_ && _); [eexists; split; [reflexivity|exact G]|].
    eexists. split; [reflexivity|]. split; [done|]. split; [done|]. right. left. split; [done|].
    intros z Hz. pose proof (G z Hz). destruct Hz as (_ & _ & _ & _ & ? & _). lia.
  - destruct (walk_slot h kids rank root l1 (c :: l2) ok (mk_is_Some _ _ Hr) Hl) as (_ & Hc & Hc0 & t & Ht).
    rewrite Hc. destruct (Z.eqb_spec c 0) as [|_]; [done|]. rewrite Ht. cbn [mbind option_bind].
    assert (Hin : c ∈ kids root) by (rewrite Hl, elem_of_app, elem_of_cons; tauto).
    pose proof (kid_range c t Hin Ht) as Hrt. pose proof end_range as Hend.
    pose proof (Hpos c t ltac:(by left) Ht) as Hst.
    rewrite (u32_small (start t - 1)) by (width_lia; lia).
    replace (if s <? min then min else s) with (Z.max s min) by (destruct (Z.ltb_spec s min); lia).
    replace (if max <? start t - 1 then max else start t - 1) with (Z.min (start t - 1) max)
      by (destruct (Z.ltb_spec max (start t - 1)); lia).
    destruct (gap_step l1 (c :: l2) s (start t - 1) (ALIGN (Z.max s min) (2 ^ k)) (Z.min (start t - 1) max))
      as (U1 & U2 & G); [done|done|lia|done|done| |done|done|].
    { intros d td [-> | Hd]%elem_of_cons Htd; [simplify_eq; lia|].
      pose proof (kids_order h kids rank root l1 c d l2 _ _ _ _ ok Hl Hd (rng_lookup _ _ _ Ht)
        (rng_lookup _ _ _ Htd)). lia. }
    destruct (_ && _); [eexists; split; [reflexivity|exact G]|].
    destruct (searched_past l1 c l2 t Hl Ht G) as [Hsr' Hrnd'].
    rewrite (sibling_next h kids rank root l1 c l2 t ok (mk_is_Some _ _ Hr) Hl Ht). apply (IH (l1 ++ [c])).
    + by rewrite <- app_assoc.
    + apply u32_range.
    + done.
    + done.
    + intros d td Hd. apply Hpos. by right.
    + simpl in Hf. lia.
Qed.

Lemma rounds_start : start r <= end_ r -> rounds (start r) /\ searched [] (start r).
Proof.
  intros Hroot. pose proof end_range. split.
  - destruct Htop as [(T1 & T2 & _)|?]; [left; lia|by right].
  - left. split_and!; [lia|by intros d t ?%elem_of_nil|]. by intros z (_ & _ & _ & ? & _).
Qed.

Lemma find_resource_spec :
  start r <= end_ r ->
  exists res, find_resource h root size min max (2 ^ k) None = Some res /\ found res.
Proof.
  intros Hroot. unfold find_resource. rewrite Hr. cbn [mbind option_bind].
  pose proof (kids_length h kids rank ok root) as Hlen.
  destruct (t_u32 _ _ _ ok root _ _ (rng_lookup _ _ _ Hr)) as [Us _].
  destruct (walk_slot h kids rank root [] (kids root) ok (mk_is_Some _ _ Hr) eq_refl) as [Hc Hhd].
  unfold slot_of, slot_get in Hc. simpl in Hc. rewrite Hr in Hc. injection Hc as Hc. rewrite Hc.
  destruct (rounds_start Hroot) as [Hrnd Hsr].
  destruct (kids root) as [|c l2] eqn:Hl.
  - rewrite Hhd. cbn [mbind option_bind]. change (0 =? 0) with true. cbv iota. cbn [mbind option_bind].
    apply (find_loop [] []); [done..| |simpl; lia]. by intros d t ?%elem_of_nil.
  - destruct Hhd as (Hhd & Hc0 & t & Ht). rewrite Hhd.
    destruct (Z.eqb_spec c 0) as [|_]; [done|]. rewrite Ht. cbn [mbind option_bind].
    assert (Hin : c ∈ kids root) by (rewrite Hl; by left).
    pose proof (kid_range c t Hin Ht) as Hrt.
    assert (Hpos : forall d td, d ∈ l2 -> h !! d = Some td -> 0 < start td).
    { intros d td Hd Htd. pose proof (kids_order h kids rank root [] c d l2 _ _ _ _ ok Hl Hd
        (rng_lookup _ _ _ Ht) (rng_lookup _ _ _ Htd)). lia. }
    destruct (Z.eqb_spec (start t) 0) as [E0|E0]; cbn [mbind option_bind].
    + destruct (searched_past [] c l2 t Hl Ht) as [Hsr' Hrnd'].
      { intros z (_ & Hz & _). lia. }
      rewrite (sibling_next h kids rank root [] c l2 t ok (mk_is_Some _ _ Hr) Hl Ht).
      apply (find_loop l2 [c]); [done|apply u32_range|done|done|done|simpl in Hlen; lia].
    + rewrite <- Hhd. apply (find_loop (c :: l2) []); [done..| |lia].
      intros d td [-> | Hd]%elem_of_cons Htd; [simplify_eq; lia|by apply (Hpos d)].
Qed.
End find.

Lemma requested_free h kids root new r n c h' :
  requested h kids root new r n c h' -> fits r n ->
  (forall d t, d ∈ kids root -> h !! d = Some t -> ~ overlap n t) -> c = 0.
Proof.
  intros [(-> & _)|(_ & _ & [[_ Hf]|(_ & Hc & (t & Ht & Ho) & _)])] Hfit Hdis; [done|done|].
  exfalso. by apply (Hdis c t).
Qed.

(** C13: allocate_resource, for an alignment that is a power of two, no [alignf] and [top_ok]
    (in particular for sizes from 2 on and every parent, the whole port or memory space included, when [min] is 0
    or the parent does not start at 0).  It terminates with the lowest aligned range of that size that
    lies in the parent and between the limits and overlaps no child, and links it in among the children,
    all others being as before; when there is no such range it returns -EBUSY and the
    tree is unchanged.  A range of one unit is only put where two are free. *)
Theorem allocate_resource_correct h kids rank root new r n size min max k :
  tree_ok h kids rank -> detached h kids new -> new <> root ->
  h !! root = Some r -> h !! new = Some n -> start r <= end_ r ->
  1 <= size < 2 ^ 32 -> 0 <= min < 2 ^ 32 -> 0 <= max < 2 ^ 32 -> 0 <= k < 32 ->
  top_ok h kids root r size min k ->
  let cand := candidate h kids root r (Z.max size 2) min max (2 ^ k) in
  exists err h', allocate_resource h root new size min max (2 ^ k) None = Some (err, h') /\
    ((err = 0 /\ exists a l1 l2 rank', cand a /\ (forall z, cand z -> a <= z) /\
        rng h' new = Some (a, a + size - 1) /\ par h' new = Some root /\
        kids root = l1 ++ l2 /\ tree_ok h' (kset kids root (l1 ++ new :: l2)) rank' /\
        (forall q, q <> new -> rng h' q = rng h q /\ par h' q = par h q)) \/
     (err = - EBUSY /\ (forall z, ~ cand z) /\ tree_ok h' kids rank /\
        forall q, q <> new -> h' !! q = h !! q)).
Proof.
  intros ok Hdet Hne Hr Hn Hroot Hsize Hmin Hmax Hk Htop cand.
  destruct (find_resource_spec h kids rank root r size min max k ok Hr Hsize Hmin Hmax Hk Htop Hroot)
    as ([err [a b]] & E & Ua & Ub & Hcase). unfold allocate_resource. rewrite E, Hn.
  cbn [mbind option_bind].
  destruct (tree_set_range h kids rank new n a b ok Hdet Hn Ua Ub) as [ok1 Hdet1].
  set (n1 := set_range n a b) in *. set (h1 := <[new := n1]> h) in *.
  assert (Hn1 : h1 !! new = Some n1) by (unfold h1; by rewrite lookup_insert_eq).
  assert (Hr1 : h1 !! root = Some r) by (unfold h1; by rewrite lookup_insert_ne).
  assert (Hoth : forall q, q <> new -> h1 !! q = h !! q)
    by (intros q Hq; unfold h1; by rewrite lookup_insert_ne).
  assert (Hkid : forall d, d ∈ kids root -> d <> new)
    by (intros d Hd ->; by apply (detached_not_kid h1 kids rank new ok1 Hdet1 root)).
  destruct (request_spec h1 kids rank root new r n1 ok1 Hdet1 Hne Hr1 Hn1) as (c & h' & Erq & Hreq).
  rewrite Erq. destruct Hcase as [(-> & -> & Hc & Hleast)|[(-> & Hnone)|(-> & Hnone & Hs2 & Eb & Hd & Hbm & Hlow)]].
  - change (0 <=? 0) with true. cbn [mbind option_bind]. do 2 eexists. split; [reflexivity|]. left.
    pose proof Hc as (_ & _ & _ & Hc1 & Hc2 & Hdis).
    assert (c = 0) as ->.
    { apply (requested_free h1 kids root new r n1 c h' Hreq); unfold fits, n1; simpl; [lia|].
      intros d t Hd Ht [O1 O2]. simpl in O1, O2. rewrite Hoth in Ht by (by apply Hkid). destruct (Hdis d t Hd Ht); lia. }
    split; [done|].
    destruct Hreq as [(_ & _ & _ & l1 & l2 & rank' & Hl & T & Hg & _ & Hp & Hpo)|(H0 & _)]; [|done].
    exists a, l1, l2, rank'. split; [done|]. split; [done|].
    split; [rewrite Hg; unfold rng; by rewrite Hn1|]. split; [done|]. split; [done|]. split; [done|].
    intros q Hq. rewrite Hg, Hpo by done. unfold rng, par. by rewrite Hoth.
  - change (0 <=? - EBUSY) with false. do 2 eexists. split; [reflexivity|]. right. auto.
  - change (0 <=? 0) with true. cbn [mbind option_bind]. do 2 eexists. split; [reflexivity|]. right.
    destruct Hreq as [(_ & [F1 F2] & Hdis & _)|(Hc0 & -> & _)]; [|by rewrite (proj2 (Z.eqb_neq _ _) Hc0)].
    exfalso. unfold n1, overlap in *. simpl in F1, F2, Hdis. apply (Hnone a). split_and!; [done|lia..|].
    intros d t Hd' Ht. rewrite <- Hoth in Ht by (by apply Hkid). specialize (Hdis d t Hd' Ht). lia.
Qed.

(** Ports 0 to 255 with two devices. *)
Definition sample_store : store :=
  <[1 := {| start := 0; end_ := 255; flags := 0; parent := 0; sibling := 0; child := 2 |}]>
  (<[2 := {| start := 16; end_ := 31; flags := 0; parent := 1; sibling := 3; child := 0 |}]>
  (<[3 := {| start := 40; end_ := 47; flags := 0; parent := 1; sibling := 0; child := 0 |}]>
  (<[4 := {| start := 0; end_ := 0; flags := 0; parent := 0; sibling := 0; child := 0 |}]> ∅))).

Definition sample_kids (r : Z) : list Z := if r =? 1 then [2; 3] else [].
Definition sample_rank (r : Z) : nat := if r =? 1 then 1%nat else 0%nat.

Ltac sample_cases r :=
  destruct (decide (r = 1)) as [->|?]; [|destruct (decide (r = 2)) as [->|?];
    [|destruct (decide (r = 3)) as [->|?]; [|destruct (decide (r = 4)) as [->|?]]]].

Lemma sample_tree : tree_ok sample_store sample_kids sample_rank.
Proof.
  assert (Hk : forall r c, c ∈ sample_kids r -> r = 1 /\ (c = 2 \/ c = 3)).
  { intros r c. unfold sample_kids. destruct (Z.eqb_spec r 1) as [->|].
    - intros [-> | ->%list_elem_of_singleton]%elem_of_cons; auto.
    - by intros ?%elem_of_nil. }
  assert (Hn : forall r, r <> 1 -> sample_kids r = []).
  { intros r Hr. unfold sample_kids. by destruct (Z.eqb_spec r 1). }
  split.
  - done.
  - intros r Hr. sample_cases r; rewrite ?Hn by done.
    1: { exists 2. split; [done|]. simpl. split; [done|]. split; [done|]. exists 3. split; [done|].
         split; [done|]. split; [done|]. by exists 0. }
    1-3: by exists 0.
    exfalso. unfold sample_store in Hr. rewrite !lookup_insert_ne in Hr by done.
    rewrite lookup_empty in Hr. by destruct Hr.
  - intros r Hr. sample_cases r; try done. by rewrite Hn.
  - intros r c [-> [-> | ->]]%Hk; done.
  - intros c p Hp H0. sample_cases c; try (injection Hp as <-); try done.
    + change (2 ∈ [2; 3]). rewrite elem_of_cons. auto.
    + change (3 ∈ [2; 3]). rewrite !elem_of_cons. auto.
    + exfalso. unfold par, sample_store in Hp. by rewrite !lookup_insert_ne, lookup_empty in Hp.
  - intros r c [-> [-> | ->]]%Hk.
    + exists 0, 255, 16, 31. split; [done|]. split; [done|]. lia.
    + exists 0, 255, 40, 47. split; [done|]. split; [done|]. lia.
  - intros r. destruct (decide (r = 1)) as [->|]; [|rewrite Hn by done; constructor].
    repeat constructor. intros x y z w Hx Hz.
    vm_compute in Hx, Hz. injection Hx as <- <-. injection Hz as <- <-. lia.
  - intros r c [-> [-> | ->]]%Hk; unfold sample_rank; simpl; lia.
  - intros r a b Hg. sample_cases r; try (vm_compute in Hg; injection Hg as <- <-; width_lia).
    exfalso. unfold rng, sample_store in Hg. by rewrite !lookup_insert_ne, lookup_empty in Hg.
Qed.

Lemma allocate_resource_witness :
  exists h', allocate_resource sample_store 1 4 4 17 255 (2 ^ 3) None = Some (0, h') /\
    rng h' 4 = Some (32, 35).
Proof.
  destruct (allocate_resource_correct sample_store sample_kids sample_rank 1 4
    {| start := 0; end_ := 255; flags := 0; parent := 0; sibling := 0; child := 2 |}
    {| start := 0; end_ := 0; flags := 0; parent := 0; sibling := 0; child := 0 |} 4 17 255 3)
    as (err & h' & E & _); [exact sample_tree|done|done|done|done|simpl; lia|lia|lia|lia|lia| |].
  - left. split; [lia|]. split; [simpl; lia|]. intros d t Hd Ht. left. unfold sample_kids in Hd. simpl in Hd.
    apply elem_of_cons in Hd as [-> | ->%list_elem_of_singleton]; vm_compute in Ht; injection Ht as <-; simpl; lia.
  - exists h'. vm_compute in E. injection E as <- <-. done.
Defined.

(** A parent of the whole address space, as ioport_resource and iomem_resource are, with a child at the
    end of it. *)
Definition whole_store : store :=
  <[1 := {| start := 0; end_ := 2 ^ 32 - 1; flags := 0; parent := 0; sibling := 0; child := 2 |}]>
  (<[2 := {| start := 2 ^ 32 - 16; end_ := 2 ^ 32 - 1; flags := 0; parent := 1; sibling := 0; child := 0 |}]>
  (<[4 := {| start := 0; end_ := 0; flags := 0; parent := 0; sibling := 0; child := 0 |}]> ∅)).

(** The wrap of the rounding that [top_ok] excludes: 16 units from 2^32 - 256 on, aligned to 2^9, are placed
    at 0, below [min]. *)
Lemma allocate_below_min :
  (('(err, h) ← allocate_resource whole_store 1 4 16 (2 ^ 32 - 256) (2 ^ 32 - 1) (2 ^ 9) None;
    Some (err, rng h 4)) = Some (0, Some (0, 15))) /\
  (('(err, h) ← allocate_resource whole_store 1 4 16 (2 ^ 32 - 256) (2 ^ 32 - 1) (2 ^ 4) None;
    Some (err, rng h 4)) = Some (0, Some (2 ^ 32 - 256, 2 ^ 32 - 241))).
Proof. vm_compute. done. Qed.
