(* ===== verification/ResourceRegion.v ===== *)
(** The region calls of kernel/resource.c: __request_region, __check_region and
    __release_region, which descend into the resources that are not busy. *)
From stdpp Require Import base list gmap numbers option sorting.
From Stdlib Require Import ZArith Lia.
From S2P Require Import Prelude Resource ResourceTree.

Local Open Scope Z_scope.
Local Arguments slot_get : simpl never.

(** A tree does not depend on how its children are described. *)
Lemma tree_ext h kids kids' rank :
  (forall r, kids r = kids' r) -> tree_ok h kids rank -> tree_ok h kids' rank.
Proof. intros E [T1 T2 T3 T4 T5 T6 T7 T8 T9]. split; intros; rewrite <- ?E in *; eauto. Qed.


(** ** __request_region *)

(** [res] was linked in under [p]; everything else is as it was. *)
Definition placed (h : store) (kids : Z -> list Z) (res : Z) (h' : store) : Prop :=
  exists p l1 l2 rank', kids p = l1 ++ l2 /\ tree_ok h' (kset kids p (l1 ++ res :: l2)) rank' /\
    par h' res = Some p /\ p <> 0 /\ (forall k, rng h' k = rng h k) /\
    (forall k, k <> res -> par h' k = par h k).

Lemma requested_placed h kids rank root new r n h' :
  tree_ok h kids rank -> h !! root = Some r -> requested h kids root new r n 0 h' ->
  placed h kids new h'.
Proof.
  intros ok Hr [(_ & _ & _ & l1 & l2 & rank' & H)|(? & _)]; [|done].
  exists root, l1, l2, rank'. destruct H as (H1 & H2 & H3 & _ & H4 & H5).
  do 3 (split; [done|]). split; [|done]. intros ->. by rewrite (t_null _ _ _ ok) in Hr.
Qed.

Lemma region_loop_spec h kids rank res :
  tree_ok h kids rank -> detached h kids res -> is_Some (h !! res) ->
  forall m parent_, is_Some (h !! parent_) -> res <> parent_ -> (rank parent_ < m)%nat ->
  exists b h', (forall fuel, (rank parent_ < fuel)%nat ->
      request_region_loop fuel h parent_ res = Some (b, h')) /\
    if b : bool then placed h kids res h' else h' = h.
Proof.
  intros ok Hdet [n Hn]. induction m as [|m IH]; intros parent_ [r Hr] Hne Hm; [lia|].
  destruct (request_spec h kids rank parent_ res r n ok Hdet Hne Hr Hn) as (c & h' & E & Hreq).
  assert (Hstop : forall b, (c <> 0 -> c <> parent_ -> exists t, h' !! c = Some t /\
      Z.land (flags t) IORESOURCE_BUSY <> 0) -> b = (c =? 0) ->
    forall fuel, (rank parent_ < fuel)%nat -> request_region_loop fuel h parent_ res = Some (b, h')).
  { intros b Hbusy -> [|fuel] Hf; [lia|]. cbn [request_region_loop]. rewrite E. cbn [mbind option_bind].
    destruct (Z.eqb_spec c 0) as [|Hc0]; [done|].
    destruct (Z.eqb_spec c parent_) as [|Hcp]; [done|]. destruct (Hbusy Hc0 Hcp) as (t & Ht & Hb).
    cbn [negb]. rewrite Ht. cbn [mbind option_bind]. by destruct (Z.eqb_spec (Z.land (flags t) IORESOURCE_BUSY) 0). }
  destruct (decide (c = 0)) as [->|Hc0].
  { exists true, h'. split; [by apply Hstop|]. by apply (requested_placed h kids rank parent_ res r n). }
  pose proof Hreq as [(? & _)|(_ & Eh & Hcase)]; [done|]. subst h'.
  assert (Hfalse : false = (c =? 0)) by (symmetry; by apply Z.eqb_neq).
  destruct (decide (c = parent_)) as [Hcp|Hcp].
  { exists false, h. split; [|done]. by apply Hstop. }
  destruct Hcase as [[? _]|(_ & Hin & (t & Ht & _) & _)]; [done|].
  destruct (decide (Z.land (flags t) IORESOURCE_BUSY = 0)) as [Hfree|Hbusy].
  2:{ exists false, h. split; [|done]. apply Hstop; [|done]. eauto. }
  pose proof (t_rank _ _ _ ok parent_ c Hin) as Hrank.
  destruct (IH c) as (b & h' & Hb & Hres); [done| |lia|].
  { intros ->. by apply (detached_not_kid h kids rank c ok Hdet parent_). }
  exists b, h'. split; [|done]. intros [|fuel] Hf; [lia|]. cbn [request_region_loop].
  rewrite E. cbn [mbind option_bind]. destruct (Z.eqb_spec c 0) as [|_]; [done|].
  destruct (Z.eqb_spec c parent_) as [|_]; [done|]. cbn [negb]. rewrite Ht.
  cbn [mbind option_bind]. rewrite Hfree. apply Hb. lia.
Qed.

(** The resource that __request_region sets up. *)
Definition new_region (start_ n : Z) : resource :=
  {| start := start_; end_ := u32 (start_ + n - 1); flags := IORESOURCE_BUSY;
     parent := 0; sibling := 0; child := 0 |}.

Lemma request_region_spec h kids rank parent_ res start_ n :
  tree_ok h kids rank -> is_Some (h !! parent_) -> (res = 0 \/ h !! res = None) -> is_u32 start_ ->
  exists r h', (forall fuel, (rank parent_ < fuel)%nat ->
      __request_region fuel h parent_ res start_ n = Some (r, h')) /\
    (r = 0 /\ tree_ok h' kids rank /\ (forall q, q <> res -> h' !! q = h !! q) /\
       (h !! res = None -> h' !! res = None) \/
     r = res /\ res <> 0 /\ tree_ok (<[res := new_region start_ n]> h) kids rank /\
       detached (<[res := new_region start_ n]> h) kids res /\
       placed (<[res := new_region start_ n]> h) kids res h').
Proof.
  intros ok Hp Hres Hs. unfold __request_region. destruct (Z.eqb_spec res 0) as [->|H0].
  { exists 0, h. auto 10. }
  destruct Hres as [|Hnone]; [done|]. fold (new_region start_ n).
  destruct (tree_fresh h kids rank res (new_region start_ n) ok Hnone H0) as [ok1 Hdet1];
    [done|done|done|apply u32_range|]. set (h1 := <[res := new_region start_ n]> h) in *.
  assert (Hpr : res <> parent_) by (intros ->; destruct Hp; congruence).
  destruct (region_loop_spec h1 kids rank res ok1 Hdet1) with (m := S (rank parent_)) (parent_ := parent_)
    as (b & h' & E & Hb); [unfold h1; by rewrite lookup_insert_eq|unfold h1; by rewrite lookup_insert_ne|done|lia|].
  destruct b.
  - exists res, h'. split; [intros fuel Hf; by rewrite (E fuel Hf)|]. right. auto.
  - subst h'. exists 0, (delete res h1).
    split; [intros fuel Hf; by rewrite (E fuel Hf)|]. left. split; [done|].
    split; [by apply tree_delete|]. split; [|intros _; apply lookup_delete_eq].
    intros q Hq. unfold h1. by rewrite lookup_delete_ne, lookup_insert_ne.
Qed.

(** ** __check_region *)

(** Taking out again what was linked in leaves the children as they were. *)
Lemma unplace h kids rank res h' :
  tree_ok h kids rank -> detached h kids res -> placed h kids res h' ->
  exists h2 rank2, release_resource h' res = Some (0, h2) /\ tree_ok h2 kids rank2 /\
    detached h2 kids res.
Proof.
  intros ok Hdet (p & l1 & l2 & rank' & Hk & T & Hp & Hp0 & _).
  destruct (release_spec h' _ rank' res p T Hp Hp0) as (h2 & m1 & m2 & E & Hm & T2 & Hp2 & _).
  rewrite kset_eq in Hm. pose proof (kids_NoDup h' _ rank' T p) as Hnd. rewrite kset_eq in Hnd.
  assert (m1 = l1 /\ m2 = l2) as [-> ->].
  { assert (Hn1 : res ∉ l1 /\ res ∉ l2).
    { apply NoDup_app in Hnd as (_ & Hd & [Hn2 _]%NoDup_cons). split; [|done].
      intros Hin. apply (Hd res Hin). by left. }
    destruct Hn1 as [Hn1 Hn2]. clear -Hm Hn1 Hn2. revert m1 Hm.
    induction l1 as [|a l1 IH]; intros [|b m1] Hm; simplify_eq/=.
    - done.
    - exfalso. apply Hn2. apply elem_of_app. right. by left.
    - exfalso. apply Hn1. by left.
    - destruct (IH) with (m1 := m1) as [-> ->]; [|done|done].
      intros Hin. apply Hn1. by right. }
  exists h2, rank'. split; [done|]. split; [|split; [done|apply Hdet]].
  apply (tree_ext _ _ kids _) in T2; [done|]. intros q. unfold kset. case_decide; [by subst|done].
Qed.

Lemma check_region_spec h kids rank parent_ res start_ n :
  tree_ok h kids rank -> is_Some (h !! parent_) -> (res = 0 \/ h !! res = None) -> is_u32 start_ ->
  exists r h' rank', (forall fuel, (rank parent_ < fuel)%nat ->
      __check_region fuel h parent_ res start_ n = Some (r, h')) /\ tree_ok h' kids rank'.
Proof.
  intros ok Hp Hres Hs. unfold __check_region.
  destruct (request_region_spec h kids rank parent_ res start_ n ok Hp Hres Hs)
    as (r & h' & E & [(-> & T & _)|(-> & H0 & T & Hdet & Hpl)]).
  - exists (- EBUSY), h', rank. split; [|done]. intros fuel Hf. by rewrite (E fuel Hf).
  - destruct (unplace _ kids rank res h' T Hdet Hpl) as (h2 & rank2 & E2 & T2 & Hdet2).
    exists 0, (delete res h2), rank2. split; [|by apply tree_delete].
    intros fuel Hf. rewrite (E fuel Hf). cbn [mbind option_bind].
    destruct (Z.eqb_spec res 0) as [|_]; [done|]. by rewrite E2.
Qed.

(** ** __release_region *)

(** A busy region was found and is gone; or nothing happened. *)
Definition region_gone (h : store) (kids : Z -> list Z) (rank : Z -> nat) (start_ end__ : Z)
    (b : bool) (h' : store) : Prop :=
  if b then exists p res t l1 l2, kids p = l1 ++ res :: l2 /\ h !! res = Some t /\
      start t = start_ /\ end_ t = end__ /\ Z.land (flags t) IORESOURCE_BUSY <> 0 /\
      h' !! res = None /\ tree_ok h' (kset kids p (l1 ++ l2)) rank
  else h' = h.

(** Unlinking and freeing a child without children. *)
Lemma unlink_free h kids rank q l1 res l2 t :
  tree_ok h kids rank -> is_Some (h !! q) -> kids q = l1 ++ res :: l2 -> h !! res = Some t ->
  kids res = [] ->
  exists h1, slot_set h (slot_of q l1) (sibling t) = Some h1 /\
    tree_ok (delete res h1) (kset kids q (l1 ++ l2)) rank.
Proof.
  intros ok Hq Hk Ht Hleaf. rewrite (sibling_next h kids rank q l1 res l2 t ok Hq Hk Ht).
  destruct (walk_slot h kids rank q l1 (res :: l2) ok Hq Hk) as [Hs _].
  destruct (slot_set_spec h (slot_of q l1) (hd0 l2)) as (h1 & E1 & U1); [by rewrite Hs|].
  exists h1. split; [done|].
  destruct (write_parent_spec h1 res 0) as (h2 & E2 & U2);
    [by rewrite (updated_dom h h1 _ _ res U1), Ht|].
  assert (Hin : res ∈ kids q) by (rewrite Hk, elem_of_app, elem_of_cons; tauto).
  destruct (kid_in_store h kids rank ok q res Hin) as (_ & _ & _ & _ & Hne).
  destruct U1 as (S1 & P1 & R1 & F1 & _). destruct U2 as (S2 & P2 & R2 & F2 & _).
  assert (Hpar : par h2 res = Some 0) by (rewrite P2; unfold fset; by rewrite decide_True).
  assert (T : tree_ok h2 (kset kids q (l1 ++ l2)) rank).
  { apply (tree_remove h h2 kids rank q res l1 l2); try done.
    - intros k. by rewrite R2.
    - rewrite S2, S1. unfold fset. by rewrite decide_True.
    - intros s Hns. rewrite S2, S1. unfold fset. by rewrite decide_False.
    - intros c Hc. rewrite P2. unfold fset. rewrite decide_False by done. apply P1. }
  apply (tree_delete h2) with (old := res) in T; [|split; [done|by rewrite kset_ne]].
  unfold write_parent in E2. destruct (h1 !! res) as [n1|] eqn:E; [|done]. injection E2 as <-.
  by rewrite delete_insert_eq in T.
Qed.

Lemma release_walk h kids rank start_ end__ :
  tree_ok h kids rank ->
  (forall q n, h !! q = Some n -> Z.land (flags n) IORESOURCE_BUSY <> 0 -> kids q = []) ->
  forall m q l2 l1, is_Some (h !! q) -> (rank q < m)%nat -> kids q = l1 ++ l2 ->
  exists N b h', (forall fuel, (N <= fuel)%nat ->
      mjoin (loop fuel (release_region_body h start_ end__) (slot_of q l1)) = Some (b, h')) /\
    region_gone h kids rank start_ end__ b h'.
Proof.
  intros ok Hbusy. induction m as [|m IHm]; intros q; [lia|].
  induction l2 as [|c l2 IH]; intros l1 Hq Hm Hk;
    destruct (walk_slot h kids rank q l1 _ ok Hq Hk) as [Hs Hc].
  - exists 1%nat, false, h. split; [|done]. intros [|fuel] Hf; [lia|]. rewrite loop_S.
    unfold release_region_body. rewrite Hs, Hc. done.
  - destruct Hc as (Hc & Hc0 & t & Ht). rewrite Hc in Hs.
    assert (Hin : c ∈ kids q) by (rewrite Hk, elem_of_app, elem_of_cons; tauto).
    assert (Hbody : release_region_body h start_ end__ (slot_of q l1) =
      if (start t <=? start_) && (end__ <=? end_ t) then
        if Z.land (flags t) IORESOURCE_BUSY =? 0 then inl (ChildOf c)
        else if negb (start t =? start_) || negb (end_ t =? end__) then inr (Some (false, h))
        else inr (h ← slot_set h (slot_of q l1) (sibling t); Some (true, delete c h))
      else inl (SiblingOf c)).
    { unfold release_region_body at 1. rewrite Hs. destruct (Z.eqb_spec c 0) as [|_]; [done|].
      by rewrite Ht. }
    assert (Hgo : forall s, release_region_body h start_ end__ (slot_of q l1) = inl s ->
      (exists N b h', (forall fuel, (N <= fuel)%nat ->
        mjoin (loop fuel (release_region_body h start_ end__) s) = Some (b, h')) /\
        region_gone h kids rank start_ end__ b h') ->
      exists N b h', (forall fuel, (N <= fuel)%nat ->
        mjoin (loop fuel (release_region_body h start_ end__) (slot_of q l1)) = Some (b, h')) /\
        region_gone h kids rank start_ end__ b h').
    { intros s E (N & b & h' & H & G). exists (S N), b, h'. split; [|done].
      intros [|fuel] Hf; [lia|]. rewrite loop_S, E. apply H. lia. }
    assert (Hend : forall b h', release_region_body h start_ end__ (slot_of q l1) = inr (Some (b, h')) ->
      region_gone h kids rank start_ end__ b h' ->
      exists N b h', (forall fuel, (N <= fuel)%nat ->
        mjoin (loop fuel (release_region_body h start_ end__) (slot_of q l1)) = Some (b, h')) /\
        region_gone h kids rank start_ end__ b h').
    { intros b h' E G. exists 1%nat, b, h'. split; [|done]. intros [|fuel] Hf; [lia|].
      by rewrite loop_S, E. }
    destruct ((start t <=? start_) && (end__ <=? end_ t)) eqn:Ein.
    2:{ apply (Hgo _ Hbody). replace (SiblingOf c) with (slot_of q (l1 ++ [c]))
          by (unfold slot_of; by rewrite last_snoc). apply IH; [done|done|by rewrite <- app_assoc]. }
    destruct (Z.eqb_spec (Z.land (flags t) IORESOURCE_BUSY) 0) as [Hfree|Hb].
    { apply (Hgo _ Hbody). pose proof (t_rank _ _ _ ok q c Hin).
      apply (IHm c (kids c) []); [done|lia|done]. }
    destruct (Z.eqb_spec (start t) start_) as [Hst|]; cbn [negb orb] in Hbody;
      [|by apply (Hend false h Hbody)].
    destruct (Z.eqb_spec (end_ t) end__) as [Hen|]; cbn [negb orb] in Hbody;
      [|by apply (Hend false h Hbody)].
    destruct (unlink_free h kids rank q l1 c l2 t ok Hq Hk Ht (Hbusy c t Ht Hb)) as (h1 & E1 & T).
    rewrite E1 in Hbody. cbn [mbind option_bind] in Hbody. apply (Hend true (delete c h1) Hbody).
    exists q, c, t, l1, l2. do 5 (split; [done|]). split; [apply lookup_delete_eq|done].
Qed.

Lemma release_region_spec h kids rank parent_ start_ n :
  tree_ok h kids rank -> is_Some (h !! parent_) ->
  (forall q m, h !! q = Some m -> Z.land (flags m) IORESOURCE_BUSY <> 0 -> kids q = []) ->
  exists N b h', (forall fuel, (N <= fuel)%nat ->
      __release_region fuel h parent_ start_ n = Some (b, h')) /\
    region_gone h kids rank start_ (u32 (start_ + n - 1)) b h'.
Proof.
  intros ok Hp Hbusy. unfold __release_region.
  by apply (release_walk h kids rank start_ _ ok Hbusy (S (rank parent_)) parent_ (kids parent_) []);
    [|lia|].
Qed.
