(* ===== verification/ResourceInsert.v ===== *)
(** insert_resource and adjust_resource of kernel/resource.c: putting a resource above
    existing ones, and moving the bounds of one that is in the tree. *)
From stdpp Require Import base list gmap numbers option sorting.
From Stdlib Require Import ZArith Lia.
From S2P Require Import Prelude Resource ResourceTree ResourceAlloc ResourceRegion.

Local Open Scope Z_scope.
Local Arguments slot_get : simpl never.

(** Two ranges that overlap although neither contains the other. *)
Definition straddles (n t : resource) : Prop := overlap n t /\ ~ fits n t /\ ~ fits t n.

(** ** The loops *)

(** The range of a child is not empty. *)
Lemma kid_nonempty h kids rank q c t :
  tree_ok h kids rank -> c ∈ kids q -> h !! c = Some t -> start t <= end_ t.
Proof.
  intros ok Hc Ht. destruct (t_inside _ _ _ ok q c Hc) as (a & b & x & y & _ & Hx & _ & H & _).
  rewrite (rng_lookup _ _ _ Ht) in Hx. by injection Hx as <- <-.
Qed.

Lemma cover_walk h kids rank p n :
  tree_ok h kids rank -> is_Some (h !! p) ->
  forall tail next pre t, kids p = pre ++ next :: tail -> h !! next = Some t ->
  overlap n t -> ~ fits t n ->
  exists res, (forall fuel, (length tail < fuel)%nat ->
      mjoin (loop fuel (cover_body h n) next) = Some res) /\
    match res with
    | None => exists d td, d ∈ kids p /\ h !! d = Some td /\ straddles n td
    | Some x => exists m l2, next :: tail = m ++ x :: l2 /\
        (forall c tc, c ∈ m ++ [x] -> h !! c = Some tc -> fits n tc) /\
        (forall d td, d ∈ l2 -> h !! d = Some td -> end_ n < start td)
    end.
Proof.
  intros ok Hp. induction tail as [|d tail IH]; intros next pre t Hk Ht Ho Hnf.
  all: assert (Hin : next ∈ kids p) by (rewrite Hk, elem_of_app, elem_of_cons; tauto).
  all: pose proof (kid_nonempty h kids rank p next t ok Hin Ht) as Hne.
  all: pose proof (sibling_next h kids rank p pre next _ t ok Hp Hk Ht) as Hsib.
  all: destruct (decide (start t < start n \/ end_ n < end_ t)) as [Hout|Hinn].
  1,3: exists None; (split; [|exists next, t; unfold straddles, overlap, fits in *; split; [done|]; split; [done|]; lia]);
    intros [|fuel] Hf; [lia|]; rewrite loop_S; unfold cover_body; rewrite Ht;
    rewrite (proj2 (orb_true_iff _ _)); [done|]; rewrite !Z.ltb_lt; lia.
  all: assert (Hb : (start t <? start n) || (end_ n <? end_ t) = false)
    by (apply orb_false_iff; rewrite !Z.ltb_ge; lia).
  all: assert (Hfit : fits n t) by (unfold fits; lia).
  - exists (Some next). split.
    + intros [|fuel] Hf; [lia|]. rewrite loop_S. unfold cover_body. by rewrite Ht, Hb, Hsib.
    + exists [], []. split; [done|]. split; [|by intros d td ?%elem_of_nil].
      intros c tc ->%list_elem_of_singleton Htc. by simplify_eq.
  - assert (Hd : d ∈ kids p) by (rewrite Hk, elem_of_app, !elem_of_cons; tauto).
    destruct (kid_in_store h kids rank ok p d Hd) as ([td Htd] & _ & Hd0 & _).
    pose proof (kids_order h kids rank p pre next d (d :: tail) _ _ _ _ ok Hk
      ltac:(by left) (rng_lookup _ _ _ Ht) (rng_lookup _ _ _ Htd)) as Hlt.
    assert (Hk' : kids p = (pre ++ [next]) ++ d :: tail) by (by rewrite <- app_assoc).
    assert (Hstep : cover_body h n next = if end_ n <? start td then inr (Some (Some next)) else inl d).
    { unfold cover_body. rewrite Ht, Hb, Hsib. change (hd0 (d :: tail)) with d.
      destruct (Z.eqb_spec d 0) as [|_]; [done|].
      by rewrite Htd. }
    destruct (Z.ltb_spec (end_ n) (start td)) as [Hstop|Hgo].
    + exists (Some next). split.
      * intros [|fuel] Hf; [lia|]. by rewrite loop_S, Hstep.
      * exists [], (d :: tail). split; [done|]. split.
        -- intros c tc ->%list_elem_of_singleton Htc. by simplify_eq.
        -- intros e te [-> | He]%elem_of_cons Hte; [by simplify_eq|].
           pose proof (kids_order h kids rank p _ d e tail _ _ _ _ ok Hk' He
             (rng_lookup _ _ _ Htd) (rng_lookup _ _ _ Hte)).
           pose proof (kid_nonempty h kids rank p d td ok Hd Htd). lia.
    + destruct (IH d (pre ++ [next]) td) as (res & E & Hres); [done|done| |unfold fits; lia|].
      { pose proof (kid_nonempty h kids rank p d td ok Hd Htd). unfold overlap in *. lia. }
      exists res. split.
      * intros [|fuel] Hf; [lia|]. rewrite loop_S, Hstep. apply E. simpl in Hf. lia.
      * destruct res as [x|]; [|done]. destruct Hres as (m & l2 & Hm & H1 & H2).
        exists (next :: m), l2. split; [by rewrite Hm|]. split; [|done].
        intros c tc [-> | Hc]%elem_of_cons Htc; [by simplify_eq|]. by apply (H1 c).
Qed.

(** The adopted resources point to [new]; no list changes. *)
Lemma adopt_walk new l : forall h p fuel, seg h p l 0 -> (length l < fuel)%nat ->
  exists h', mjoin (loop fuel (adopt_body new) (h, p)) = Some h' /\
    updated h h' (slot_get h) (fun c => if decide (c ∈ l) then Some new else par h c).
Proof.
  induction l as [|a l IH]; intros h p fuel Hs Hf; (destruct fuel as [|fuel]; [lia|]); rewrite loop_S.
  - simpl in Hs. subst p. exists h. split; [done|].
    eapply updated_same; [apply updated_refl|done|]. intros c. case_decide as Hc; [|done].
    by apply elem_of_nil in Hc.
  - simpl in Hs. destruct Hs as (-> & Ha & x & Hx & Hs).
    destruct (write_parent_spec h a new) as (h1 & E1 & U1);
      [apply (slot_some h (SiblingOf a)); by rewrite Hx|].
    pose proof U1 as (S1 & P1 & _).
    destruct (IH h1 x fuel) as (h2 & E2 & U2);
      [apply (seg_frame h); [intros; apply S1|done]|simpl in Hf; lia|].
    exists h2. split.
    + cbn [adopt_body]. destruct (Z.eqb_spec a 0) as [|_]; [done|]. rewrite E1. cbn [mbind option_bind].
      rewrite S1, Hx. cbn [mbind option_bind]. exact E2.
    + eapply updated_same; [exact (updated_trans _ _ _ _ _ _ _ U1 U2)|done|].
      intros c. cbn beta. rewrite P1. unfold fset.
      destruct (decide (c ∈ l)), (decide (c ∈ a :: l)), (decide (c = a)); set_solver.
Qed.

Lemma before_walk h first x : forall l1 c fuel, seg h c (l1 ++ [x]) first -> first ∉ l1 ++ [x] ->
  (length l1 < fuel)%nat -> mjoin (loop fuel (before_body h first) c) = Some x.
Proof.
  induction l1 as [|a l1 IH]; intros c fuel Hs Hn Hf; (destruct fuel as [|fuel]; [lia|]);
    rewrite loop_S; simpl in Hs; destruct Hs as (-> & _ & y & Hy & Hs); unfold before_body at 1; rewrite Hy.
  - subst y. by rewrite Z.eqb_refl.
  - assert (y <> first).
    { intros ->. apply Hn. right. destruct l1; simpl in *; destruct Hs as (-> & _); by left. }
    destruct (Z.eqb_spec y first) as [|_]; [done|]. apply IH; [done| |simpl in Hf; lia].
    intros Hin. apply Hn. by right.
Qed.

(** ** Covering *)

(** [mid], from [first] to [next], is a part of the children of [p]. *)
Section cover.
Context (h : store) (kids : Z -> list Z) (rank : Z -> nat) (p new first next : Z) (l1 mid l2 : list Z).
Hypothesis ok : tree_ok h kids rank.
Hypothesis Hk : kids p = l1 ++ mid ++ l2.
Hypothesis Hp : is_Some (h !! p).
Hypothesis Hdet : detached h kids new.
Hypothesis Hne : new <> p.
Hypothesis Hfirst : head mid = Some first.
Hypothesis Hlast : last mid = Some next.

Let f4 : slot -> option Z :=
  fset (fset (fset (slot_get h) (SiblingOf new) (hd0 l2)) (ChildOf new) first) (SiblingOf next) 0.

Lemma cover_next : next ∈ mid /\ first ∈ mid /\ slot_get h (SiblingOf next) = Some (hd0 l2).
Proof.
  split; [apply last_Some in Hlast as [m ->]; rewrite elem_of_app; right; by left|].
  split; [destruct mid; simplify_eq/=; by left|].
  pose proof (t_linked _ _ _ ok p Hp) as Hl. rewrite Hk in Hl.
  assert (E : slot_get h (slot_of p (l1 ++ mid)) = Some (hd0 l2))
    by (apply slot_of_get; by rewrite <- app_assoc).
  unfold slot_of in E. rewrite last_app, Hlast in E. exact E.
Qed.

Lemma cover_apart : NoDup l1 /\ NoDup mid /\ (forall c, c ∈ l1 -> c ∉ mid) /\
  (forall c, c ∈ l1 \/ c ∈ mid -> c <> new) /\ (length l1 + length mid <= size h)%nat.
Proof.
  pose proof (kids_NoDup h kids rank ok p) as Hnd. pose proof (kids_length h kids rank ok p) as Hlen.
  pose proof (detached_not_kid h kids rank new ok Hdet p) as Hnk.
  rewrite Hk in *. apply NoDup_app in Hnd as (N1 & N2 & (N3 & _)%NoDup_app).
  rewrite !length_app in Hlen. rewrite !elem_of_app in Hnk. split; [done|]. split; [done|].
  split; [intros c H1 H2; apply (N2 c H1), elem_of_app; by left|]. split; [|lia].
  intros c Hc ->. tauto.
Qed.

(** The writes before the loops. *)
Lemma cover_links :
  exists h4, (forall K : store -> option store,
      (h ← write_parent h new p; s ← slot_get h (SiblingOf next); h ← slot_set h (SiblingOf new) s;
       h ← slot_set h (ChildOf new) first; h ← slot_set h (SiblingOf next) 0; K h) = K h4) /\
    updated h h4 f4 (fset (par h) new p).
Proof.
  destruct cover_next as (_ & _ & Hsn).
  assert (Hnew : is_Some (h !! new)).
  { destruct Hdet as [Hd _]. unfold par in Hd. by destruct (h !! new). }
  destruct (write_parent_spec h new p Hnew) as (h1 & -> & U1). pose proof U1 as (S1 & P1 & _ & _ & Z1).
  destruct (slot_set_spec h1 (SiblingOf new) (hd0 l2)) as (h2 & E2 & U2);
    [rewrite S1; by apply slot_some|]. pose proof U2 as (S2 & P2 & _ & _ & Z2).
  destruct (slot_set_spec h2 (ChildOf new) first) as (h3 & E3 & U3);
    [rewrite S2; unfold fset; case_decide; [done|]; rewrite S1; by apply slot_some|].
  pose proof U3 as (S3 & P3 & _ & _ & Z3).
  destruct (slot_set_spec h3 (SiblingOf next) 0) as (h4 & E4 & U4).
  { rewrite S3. unfold fset. case_decide; [done|]. rewrite S2. unfold fset. case_decide; [done|].
    by rewrite S1, Hsn. }
  exists h4. split.
  { intros K. cbn [mbind option_bind]. rewrite S1, Hsn. cbn [mbind option_bind]. rewrite E2.
    cbn [mbind option_bind]. rewrite E3. cbn [mbind option_bind]. by rewrite E4. }
  pose proof (updated_trans _ _ _ _ _ _ _ (updated_trans _ _ _ _ _ _ _
    (updated_trans _ _ _ _ _ _ _ U1 U2) U3) U4) as U. eapply updated_same; [exact U| |].
  - intros s. unfold f4, fset. case_decide; [done|]. rewrite S3. unfold fset. case_decide; [done|].
    rewrite S2. unfold fset. case_decide; [done|]. apply S1.
  - intros r. by rewrite P3, P2, P1.
Qed.

(** After them the adopted children are a list of their own. *)
Lemma cover_own h4 : updated h h4 f4 (fset (par h) new p) ->
  seg h4 first mid 0 /\ slot_get h4 (ChildOf p) = slot_get h (ChildOf p) /\
  (forall c, c ∈ l1 -> slot_get h4 (SiblingOf c) = slot_get h (SiblingOf c)).
Proof.
  intros (F4 & _). destruct cover_next as (Hnm & _ & _), cover_apart as (N1 & N2 & N3 & N4 & _).
  assert (Hkeep : forall c, c <> next -> c <> new -> slot_get h4 (SiblingOf c) = slot_get h (SiblingOf c)).
  { intros c H1 H2. rewrite F4. unfold f4, fset. by rewrite !decide_False by congruence. }
  split; [|split].
  - destruct (t_linked _ _ _ ok p Hp) as (q & _ & Hs). rewrite Hk in Hs.
    apply seg_app in Hs as (a & _ & Hs). apply seg_app in Hs as (b & Hs & _).
    assert (a = first) as -> by (destruct mid; simplify_eq/=; tauto).
    apply last_Some in Hlast as [m Em]. rewrite Em in *. apply NoDup_app in N2 as (_ & N2 & _).
    apply seg_app in Hs as (x & Hs1 & Hs2). simpl in Hs2. destruct Hs2 as (-> & Hx0 & _).
    apply seg_app. exists next. split.
    + apply (seg_frame h); [|done]. intros c Hc. apply Hkeep.
      * intros ->. apply (N2 next Hc). by left.
      * apply N4. right. apply elem_of_app. by left.
    + simpl. split; [done|]. split; [done|]. exists 0. split; [|done]. rewrite F4. unfold f4, fset.
      by rewrite decide_True.
  - rewrite F4. unfold f4, fset. by rewrite !decide_False by congruence.
  - intros c Hc. apply Hkeep; [|apply N4; by left]. intros ->. by apply (N3 next).
Qed.

(** The new resource takes the place of [first] in the list of [p]. *)
Lemma cover_put h5 : (length l1 <= S (size h5))%nat ->
  slot_get h5 (ChildOf p) = slot_get h (ChildOf p) ->
  (forall c, c ∈ l1 -> slot_get h5 (SiblingOf c) = slot_get h (SiblingOf c)) ->
  (c ← slot_get h5 (ChildOf p);
   if c =? first then slot_set h5 (ChildOf p) new
   else next ← mjoin (loop (S (S (size h5))) (before_body h5 first) c);
        slot_set h5 (SiblingOf next) new) = slot_set h5 (slot_of p l1) new.
Proof.
  intros Hlen Hc Hsame. destruct cover_next as (_ & Hfm & _), cover_apart as (_ & _ & N3 & _).
  destruct (t_linked _ _ _ ok p Hp) as (q & Hq & Hs). rewrite Hc, Hq. cbn [mbind option_bind].
  rewrite Hk in Hs. apply seg_app in Hs as (a & Hs1 & Hs2).
  assert (a = first) as -> by (destruct mid; simplify_eq/=; tauto).
  unfold slot_of. destruct (last l1) as [x|] eqn:El.
  - apply last_Some in El as [l' ->].
    assert (Hf : first ∉ l' ++ [x]) by (intros Hf; by apply (N3 first)).
    assert (q <> first).
    { intros ->. apply Hf. destruct l'; simpl in *; destruct Hs1 as (-> & _); by left. }
    destruct (Z.eqb_spec q first) as [|_]; [done|].
    rewrite (before_walk h5 first x l' q); [done| |done|rewrite length_app in Hlen; simpl in Hlen; lia].
    apply (seg_frame h); [|done]. intros c Hin. by apply Hsame.
  - apply last_None in El as ->. simpl in Hs1. subst q. by rewrite Z.eqb_refl.
Qed.

Lemma cover_spec :
  exists h', cover h p new first next = Some h' /\ updated h h' (fset f4 (slot_of p l1) new)
    (fun c => if decide (c ∈ mid) then Some new else fset (par h) new p c).
Proof.
  destruct cover_links as (h4 & E4 & U4), cover_apart as (_ & _ & _ & _ & Hlen).
  destruct (cover_own h4 U4) as (Hown & Hc4 & Hs4). pose proof U4 as (F4 & P4 & _ & _ & Z4).
  destruct (adopt_walk new mid h4 first (S (S (size h4))) Hown) as (h5 & E5 & U5); [lia|].
  pose proof U5 as (F5 & P5 & _ & _ & Z5).
  destruct (slot_set_spec h5 (slot_of p l1) new) as (h6 & E6 & U6).
  { apply slot_some. rewrite (updated_dom _ _ _ _ _ U5), (updated_dom _ _ _ _ _ U4).
    apply slot_some. pose proof (t_linked _ _ _ ok p Hp) as Hl. rewrite Hk in Hl.
    by rewrite (slot_of_get h p l1 (mid ++ l2)). }
  exists h6. split.
  - unfold cover. rewrite E4, E5. cbn [mbind option_bind]. rewrite cover_put; [done|lia| |].
    + by rewrite F5.
    + intros c Hc. rewrite F5. by apply Hs4.
  - eapply updated_same; [exact (updated_trans _ _ _ _ _ _ _ (updated_trans _ _ _ _ _ _ _ U4 U5) U6)| |].
    + intros s. unfold fset at 1 2. case_decide; [done|]. rewrite F5. apply F4.
    + intros r. rewrite P5. case_decide; [done|]. apply P4.
Qed.

(** The tree with [new] above [mid]. *)
Lemma cover_tree r n :
  h !! p = Some r -> h !! new = Some n -> fits r n ->
  (forall c t, c ∈ mid -> h !! c = Some t -> fits n t) ->
  (forall d t, d ∈ l1 -> h !! d = Some t -> end_ t < start n) ->
  (forall d t, d ∈ l2 -> h !! d = Some t -> end_ n < start t) ->
  exists h', cover h p new first next = Some h' /\
    tree_ok h' (kset (kset kids p (l1 ++ new :: l2)) new mid) (ins_rank rank p new) /\
    (forall k, rng h' k = rng h k) /\ (forall k, flags <$> h' !! k = flags <$> h !! k) /\
    par h' new = Some p.
Proof.
  intros Hr Hn (F1 & F2 & F3) Hm H1 H2. destruct cover_spec as (h' & E & U).
  destruct cover_next as (Hnm & _ & _), cover_apart as (N1 & N2 & N3 & N4 & _).
  pose proof U as (Us & Up & Ur & Uf & _). exists h'. split; [done|].
  assert (Hnl : forall c, c ∉ l1 -> SiblingOf c <> slot_of p l1).
  { intros c Hc. apply slot_of_ne; [done|]. intros c' Hc' [= ->]. done. }
  assert (Hcl : forall q, q <> p -> ChildOf q <> slot_of p l1) by (intros q Hq; apply slot_of_ne; congruence).
  assert (Hnm' : new ∉ mid) by (intros Hin; by apply (N4 new); [right|]).
  assert (Hn1 : new ∉ l1) by (intros Hin; by apply (N4 new); [left|]).
  assert (Hpn : par h' new = Some p).
  { rewrite Up, decide_False by done. unfold fset. by rewrite decide_True. }
  split; [|done]. apply (ins_tree h h' kids rank p new l1 mid l2); try done; try apply Hdet.
  - exists (start r), (end_ r), (start n), (end_ n). by rewrite (rng_lookup _ _ _ Hr), (rng_lookup _ _ _ Hn).
  - intros c Hc. assert (Hck : c ∈ kids p) by (rewrite Hk, !elem_of_app; tauto).
    destruct (kid_in_store h kids rank ok p c Hck) as ([t Ht] & _).
    exists (start n), (end_ n), (start t), (end_ t).
    rewrite (rng_lookup _ _ _ Ht), (rng_lookup _ _ _ Hn). by destruct (Hm c t Hc Ht) as (? & ? & ?).
  - intros c Hc x y z w Hx Hz. rewrite (rng_lookup h _ _ Hn) in Hz. injection Hz as <- _.
    unfold rng in Hx. destruct (h !! c) as [t|] eqn:Et; [|done]. injection Hx as _ <-. by apply (H1 c).
  - intros c Hc x y z w Hx Hz. rewrite (rng_lookup h _ _ Hn) in Hx. injection Hx as _ <-.
    unfold rng in Hz. destruct (h !! c) as [t|] eqn:Et; [|done]. injection Hz as <- _. by apply (H2 c).
  - rewrite Us. unfold fset. by rewrite decide_True.
  - rewrite Us. unfold f4, fset. rewrite decide_False by (by apply Hnl).
    rewrite decide_False by congruence. rewrite decide_False by done. by rewrite decide_True.
  - exists first. split.
    + rewrite Us. unfold f4, fset. rewrite decide_False by (by apply Hcl).
      rewrite decide_False by done. by rewrite decide_True.
    + destruct cover_links as (h4 & _ & U4). destruct (cover_own h4 U4) as (Hown & _).
      apply (seg_frame h4); [|done]. intros c Hc. destruct U4 as (F4 & _). rewrite Us, F4.
      unfold fset. rewrite decide_False; [done|]. apply Hnl. intros Hin. by apply (N3 c).
  - intros s S1 S2 S3 S4. rewrite Us. unfold f4, fset. rewrite !decide_False; try done. by apply S4.
  - intros c Hc. by rewrite Up, decide_True.
  - intros c Hcn Hcm. rewrite Up, decide_False by done. unfold fset. by rewrite decide_False.
Qed.
End cover.

(** ** insert_resource *)

(** [new] is a child of [p], which is [root] or below it, and above those children of
    [p] that it covers. *)
Definition inserted (h : store) (kids : Z -> list Z) (root new : Z) (h' : store) : Prop :=
  exists p l1 mid l2 rank', rtc (fun x c => c ∈ kids x) root p /\ kids p = l1 ++ mid ++ l2 /\
    tree_ok h' (kset (kset kids p (l1 ++ new :: l2)) new mid) rank' /\ par h' new = Some p /\ p <> 0 /\
    (forall k, rng h' k = rng h k) /\ (forall k, flags <$> h' !! k = flags <$> h !! k).

Lemma requested_inserted h kids rank root new r n h' :
  tree_ok h kids rank -> detached h kids new -> new <> root -> h !! root = Some r ->
  requested h kids root new r n 0 h' -> inserted h kids root new h'.
Proof.
  intros ok Hdet Hne Hr [(_ & _ & _ & l1 & l2 & rank' & H1 & H2 & H3 & H4 & H5 & _)|(? & _)]; [|done].
  exists root, l1, [], l2, rank'. split; [done|]. split; [done|]. split.
  - apply (tree_ext _ (kset kids root (l1 ++ new :: l2))); [|done]. intros q. unfold kset.
    destruct (decide (q = new)) as [->|]; [|done]. rewrite decide_False by done. apply Hdet.
  - split; [done|]. split; [|done]. intros ->. by rewrite (t_null _ _ _ ok) in Hr.
Qed.

(** Why an insertion below [parent_] is refused. *)
Definition refused (h : store) (parent_ : Z) (n : resource) : Prop :=
  (exists r, h !! parent_ = Some r /\ ~ fits r n) \/
  (exists d t, h !! d = Some t /\ straddles n t).

(** The conflict [c] does not contain the new resource: what it covers becomes its
    own, or a partial overlap is found. *)
Lemma insert_cover h kids rank parent_ new r n c t l1 l2 :
  tree_ok h kids rank -> detached h kids new -> new <> parent_ -> h !! parent_ = Some r ->
  h !! new = Some n -> fits r n -> kids parent_ = l1 ++ c :: l2 -> h !! c = Some t -> overlap n t ->
  ~ fits t n -> (forall d td, d ∈ l1 -> h !! d = Some td -> end_ td < start n) ->
  exists e h', (last ← mjoin (loop (S (S (size h))) (cover_body h n) c);
      match last with
      | None => Some (- EBUSY, h)
      | Some next => h ← cover h parent_ new c next; Some (0, h)
      end) = Some (e, h') /\
    (e = 0 /\ inserted h kids parent_ new h' \/ e = - EBUSY /\ h' = h /\ refused h parent_ n).
Proof.
  intros ok Hdet Hne Hr Hn Hfit Hk Ht Ho Hnf Hbefore.
  destruct (cover_walk h kids rank parent_ n ok (mk_is_Some _ _ Hr) l2 c l1 t Hk Ht Ho Hnf)
    as (res & Hres & Hwhat).
  pose proof (kids_length h kids rank ok parent_) as Hlen. rewrite Hk, length_app in Hlen. simpl in Hlen.
  rewrite Hres by lia. cbn [mbind option_bind]. destruct res as [x|].
  2:{ exists (- EBUSY), h. split; [done|]. right. do 2 (split; [done|]). right.
      destruct Hwhat as (d & td & _ & H). eauto. }
  destruct Hwhat as (mid & l3 & Em & Hmid & Hl3).
  replace (mid ++ x :: l3) with ((mid ++ [x]) ++ l3) in Em by (by rewrite <- app_assoc).
  destruct (cover_tree h kids rank parent_ new c x l1 (mid ++ [x]) l3 ok) with (r := r) (n := n)
    as (h' & -> & T & Hg & Hfl & Hpn); try done.
  - by rewrite Hk, Em.
  - by destruct mid; simplify_eq/=.
  - apply last_snoc.
  - exists 0, h'. split; [done|]. left. split; [done|]. exists parent_, l1, (mid ++ [x]), l3. eexists.
    split; [done|]. split; [by rewrite Hk, Em|]. split; [exact T|]. split; [done|].
    split; [|done]. intros ->. by rewrite (t_null _ _ _ ok) in Hr.
Qed.

Lemma insert_spec h kids rank new n :
  tree_ok h kids rank -> detached h kids new -> h !! new = Some n ->
  forall m parent_, is_Some (h !! parent_) -> new <> parent_ -> (rank parent_ < m)%nat ->
  exists e h', (forall fuel, (rank parent_ < fuel)%nat ->
      insert_resource fuel h parent_ new = Some (e, h')) /\
    (e = 0 /\ inserted h kids parent_ new h' \/ e = - EBUSY /\ h' = h /\ refused h parent_ n).
Proof.
  intros ok Hdet Hn. induction m as [|m IH]; intros parent_ [r Hr] Hne Hm; [lia|].
  destruct (request_spec h kids rank parent_ new r n ok Hdet Hne Hr Hn) as (c & h1 & E & Hreq).
  assert (Hunf : forall fuel, (rank parent_ < fuel)%nat -> exists fuel', fuel = S fuel' /\
    (rank parent_ <= fuel')%nat) by (intros [|fuel] Hf; [lia|exists fuel; split; [done|lia]]).
  destruct (decide (c = 0)) as [->|Hc0].
  { exists 0, h1. split.
    - intros fuel (f' & -> & _)%Hunf. simpl. by rewrite E.
    - left. split; [done|]. by apply (requested_inserted h kids rank parent_ new r n). }
  destruct Hreq as [(? & _)|(_ & -> & Hcase)]; [done|].
  destruct Hcase as [[-> Hnf]|(Hfit & Hin & (t & Ht & Ho) & l1 & l2 & Hk & Hbefore)].
  { exists (- EBUSY), h. split.
    - intros fuel (f' & -> & _)%Hunf. simpl. rewrite E. cbn [mbind option_bind].
      destruct (Z.eqb_spec parent_ 0); [done|]. by rewrite Z.eqb_refl.
    - right. split; [done|]. split; [done|]. left. eauto. }
  pose proof (t_rank _ _ _ ok parent_ c Hin) as Hrank.
  destruct (kid_in_store h kids rank ok parent_ c Hin) as (_ & _ & _ & Hp0 & Hcp).
  assert (Hcn : new <> c) by (intros <-; by apply (detached_not_kid h kids rank new ok Hdet parent_)).
  assert (Hstep : forall fuel, insert_resource (S fuel) h parent_ new =
    if (start t <=? start n) && (end_ n <=? end_ t) then insert_resource fuel h c new
    else last ← mjoin (loop (S (S (size h))) (cover_body h n) c);
         match last with
         | None => Some (- EBUSY, h)
         | Some next => h ← cover h parent_ new c next; Some (0, h)
         end).
  { intros fuel. cbn [insert_resource]. rewrite E. cbn [mbind option_bind].
    destruct (Z.eqb_spec c 0) as [|_]; [done|]. destruct (Z.eqb_spec c parent_) as [|_]; [done|].
    rewrite Ht, Hn. cbn [mbind option_bind]. done. }
  destruct ((start t <=? start n) && (end_ n <=? end_ t)) eqn:Ein.
  { apply andb_true_iff in Ein as [E1%Z.leb_le E2%Z.leb_le].
    destruct (IH c) as (e & h' & He & Hres); [done|done|lia|]. exists e, h'. split.
    - intros fuel (f' & -> & Hf)%Hunf. rewrite Hstep. apply He. lia.
    - destruct Hres as [(-> & p & m1 & m2 & m3 & rk & Hbelow & H)|(-> & -> & [(r' & Hr' & Hnf)|?])];
        [| |by right; unfold refused; auto].
      { left. split; [done|]. exists p, m1, m2, m3, rk. split; [by eapply rtc_l|done]. }
      exfalso. simplify_eq. apply Hnf. destruct Hfit as (_ & ? & _). done. }
  assert (Hnf : ~ fits t n).
  { intros (A & _ & B). apply Z.leb_le in A, B. by rewrite A, B in Ein. }
  destruct (insert_cover h kids rank parent_ new r n c t l1 l2) as (e & h' & Hcov & Hres); [done..|].
  exists e, h'. split; [|done]. intros fuel (f' & -> & _)%Hunf. by rewrite Hstep.
Qed.

(** ** adjust_resource *)

(** The new range of a resource between the siblings [l1] and [l2] keeps the order. *)
Definition adjustable (h : store) (kids : Z -> list Z) (res : Z) (p n : resource) (l1 l2 : list Z) : Prop :=
  fits p n /\ (forall c t, c ∈ kids res -> h !! c = Some t -> fits n t) /\
  (forall d t, d ∈ l1 -> h !! d = Some t -> end_ t < start n) /\
  (forall d t, d ∈ l2 -> h !! d = Some t -> end_ n < start t).

Section adjust.
Context (h : store) (kids : Z -> list Z) (rank : Z -> nat) (res q : Z) (r p : resource) (l1 l2 : list Z).
Context (a b : Z).
Hypothesis ok : tree_ok h kids rank.
Hypothesis Hr : h !! res = Some r.
Hypothesis Hq : parent r = q.
Hypothesis Hp : h !! q = Some p.
Hypothesis Hk : kids q = l1 ++ res :: l2.
Hypothesis Hab : is_u32 a /\ is_u32 b.

Let n := set_range r a b.
Let h' : store := <[res := n]> h.

Lemma adjust_frame :
  (forall s, slot_get h' s = slot_get h s) /\ (forall c, par h' c = par h c) /\
  (forall c, c <> res -> h' !! c = h !! c) /\ h' !! res = Some n.
Proof.
  assert (Ho : forall c, c <> res -> h' !! c = h !! c) by (intros c Hc; unfold h'; by rewrite lookup_insert_ne).
  assert (Hn : h' !! res = Some n) by (unfold h'; by rewrite lookup_insert_eq).
  split; [|split; [|done]].
  - intros [c|c]; unfold slot_get; (destruct (decide (c = res)) as [->|]; [by rewrite Hn, Hr|by rewrite Ho]).
  - intros c. unfold par. destruct (decide (c = res)) as [->|]; [by rewrite Hn, Hr|by rewrite Ho].
Qed.

Lemma adjust_before c d : c <> res -> d <> res -> before h c d -> before h' c d.
Proof.
  intros Hc Hd Hb x y z w. unfold rng. destruct adjust_frame as (_ & _ & Ho & _).
  rewrite !Ho by done. apply Hb.
Qed.

Lemma adjust_sorted l : res ∉ l -> StronglySorted (before h) l -> StronglySorted (before h') l.
Proof.
  intros Hres. induction 1 as [|c l Hs IH Hall]; [constructor|].
  apply not_elem_of_cons in Hres as [H1 H2]. constructor; [by apply IH|].
  rewrite Forall_forall in *. intros d Hd. apply adjust_before; [done| |by apply Hall].
  intros ->. done.
Qed.

Lemma adjust_tree : adjustable h kids res p n l1 l2 -> tree_ok h' kids rank.
Proof.
  intros (Hfit & Hkids & H1 & H2). destruct adjust_frame as (Fs & Fp & Fo & Fn).
  assert (Hres : res ∈ kids q) by (rewrite Hk, elem_of_app, elem_of_cons; tauto).
  destruct (kid_in_store h kids rank ok q res Hres) as (_ & _ & Hr0 & _ & Hrq).
  assert (Hdom : forall c, is_Some (h' !! c) <-> is_Some (h !! c)).
  { intros c. destruct (decide (c = res)) as [->|]; [by rewrite Fn, Hr|by rewrite Fo]. }
  split.
  - rewrite Fo by done. apply (t_null _ _ _ ok).
  - intros c (s & Hs & Hseg)%Hdom%(t_linked _ _ _ ok). exists s. rewrite Fs. split; [done|].
    apply (seg_frame h); [|done]. intros; apply Fs.
  - intros c Hc. apply (t_none _ _ _ ok). apply eq_None_not_Some. rewrite <- Hdom, Hc. by intros [].
  - intros c d Hd. rewrite Fp. by apply (t_parent _ _ _ ok).
  - intros c d Hd. rewrite Fp in Hd. by apply (t_listed _ _ _ ok).
  - intros c d Hd. pose proof (t_inside _ _ _ ok c d Hd) as (x & y & z & w & Hx & Hz & Hin).
    destruct (kid_in_store h kids rank ok c d Hd) as ([td Htd] & _ & _ & _ & Hcd).
    destruct (decide (d = res)) as [->|Hdr].
    { assert (c = q) as -> by (by apply (kids_disjoint h kids rank ok c q res)).
      exists (start p), (end_ p), (start n), (end_ n). unfold rng. rewrite Fn, Fo, Hp by done. done. }
    exists (if decide (c = res) then start n else x), (if decide (c = res) then end_ n else y), z, w.
    unfold rng in *. rewrite (Fo d) by done. destruct (decide (c = res)) as [->|Hcr].
    + rewrite Fn. destruct (Hkids d td Hd Htd) as (? & ? & ?). rewrite Htd in *. by simplify_eq/=.
    + by rewrite Fo.
  - intros c. destruct (decide (c = q)) as [->|Hcq].
    2:{ apply adjust_sorted; [|apply (t_sorted _ _ _ ok)]. intros Hin. apply Hcq.
        by apply (kids_disjoint h kids rank ok c q res). }
    pose proof (t_sorted _ _ _ ok q) as Hs. pose proof (kids_NoDup h kids rank ok q) as Hnd.
    rewrite Hk in *. apply NoDup_app in Hnd as (_ & N1 & (N2 & _)%NoDup_cons).
    apply StronglySorted_app in Hs as (S12 & S1 & (S2 & S3)%StronglySorted_inv).
    assert (Hn1 : res ∉ l1) by (intros Hin; apply (N1 res Hin); by left).
    apply StronglySorted_app. split; [|split; [by apply adjust_sorted|]].
    + intros d e Hd [-> | He]%elem_of_cons.
      * intros x y z w Hx Hz. unfold rng in *. rewrite Fn in Hz. rewrite Fo in Hx by set_solver.
        destruct (h !! d) as [td|] eqn:E; simplify_eq/=. by apply (H1 d).
      * apply adjust_before; [set_solver|set_solver|]. apply S12; [done|by right].
    + constructor; [by apply adjust_sorted|]. apply Forall_forall. intros e He x y z w Hx Hz.
      unfold rng in *. rewrite Fn in Hx. rewrite Fo in Hz by set_solver.
      destruct (h !! e) as [te|] eqn:E; simplify_eq/=. by apply (H2 e).
  - apply (t_rank _ _ _ ok).
  - intros c x y Hc. unfold rng in Hc. destruct (decide (c = res)) as [->|].
    + rewrite Fn in Hc. by simplify_eq/=.
    + rewrite Fo in Hc by done. by apply (t_u32 _ _ _ ok c).
Qed.

(** Siblings before and behind, from the nearest one. *)
Lemma adjust_before_all : (forall d t, last l1 = Some d -> h !! d = Some t -> end_ t < a) ->
  forall d t, d ∈ l1 -> h !! d = Some t -> end_ t < a.
Proof.
  intros Hlast d t Hd Ht. destruct (last l1) as [x|] eqn:El; [|apply last_None in El as ->; by apply elem_of_nil in Hd].
  pose proof El as [m Em]%last_Some. rewrite Em in *.
  assert (Hx : x ∈ kids q) by (rewrite Hk, !elem_of_app, list_elem_of_singleton; tauto).
  destruct (kid_in_store h kids rank ok q x Hx) as ([tx Htx] & _).
  pose proof (Hlast x tx eq_refl Htx). apply elem_of_app in Hd as [Hd | ->%list_elem_of_singleton];
    [|by simplify_eq].
  apply list_elem_of_split in Hd as (m1 & m2 & ->).
  assert (Hk' : kids q = m1 ++ d :: m2 ++ x :: res :: l2) by (rewrite Hk, <- !app_assoc; simpl; by rewrite <- ?app_assoc).
  pose proof (kids_order h kids rank q m1 d x _ _ _ _ _ ok Hk' ltac:(set_solver)
    (rng_lookup _ _ _ Ht) (rng_lookup _ _ _ Htx)).
  pose proof (kid_nonempty h kids rank q x tx ok Hx Htx). lia.
Qed.

Lemma adjust_behind_all : (forall d t, head l2 = Some d -> h !! d = Some t -> b < start t) ->
  forall d t, d ∈ l2 -> h !! d = Some t -> b < start t.
Proof.
  intros Hhead d t Hd Ht. destruct l2 as [|x l]; [by apply elem_of_nil in Hd|].
  assert (Hx : x ∈ kids q) by (rewrite Hk, elem_of_app, !elem_of_cons; tauto).
  destruct (kid_in_store h kids rank ok q x Hx) as ([tx Htx] & _).
  pose proof (Hhead x tx eq_refl Htx). apply elem_of_cons in Hd as [-> | Hd]; [by simplify_eq|].
  assert (Hk' : kids q = (l1 ++ [res]) ++ x :: l) by (by rewrite Hk, <- app_assoc).
  pose proof (kids_order h kids rank q _ x d l _ _ _ _ ok Hk' Hd
    (rng_lookup _ _ _ Htx) (rng_lookup _ _ _ Ht)).
  pose proof (kid_nonempty h kids rank q x tx ok Hx Htx). lia.
Qed.
End adjust.

Lemma child_out_walk h a b l : forall c fuel, seg h c l 0 -> (length l < fuel)%nat ->
  exists out : bool, mjoin (loop fuel (child_out_body h a b) c) = Some out /\
    (out = false <-> forall d t, d ∈ l -> h !! d = Some t -> a <= start t /\ end_ t <= b).
Proof.
  induction l as [|c l IH]; intros p fuel Hs Hf; (destruct fuel as [|fuel]; [lia|]); rewrite loop_S;
    simpl in Hs.
  - subst p. exists false. split; [done|]. split; [|done]. by intros _ d t ?%elem_of_nil.
  - destruct Hs as (-> & Hc & x & Hx & Hs). unfold child_out_body at 1.
    destruct (Z.eqb_spec c 0) as [|_]; [done|]. unfold slot_get in Hx.
    destruct (h !! c) as [t|] eqn:Ht; [|done]. simpl in Hx. injection Hx as Hx.
    destruct ((start t <? a) || (b <? end_ t)) eqn:E.
    + exists true. split; [done|]. split; [done|]. intros H.
      destruct (H c t (list_elem_of_here _ _) Ht).
      apply orb_true_iff in E as [?%Z.ltb_lt|?%Z.ltb_lt]; lia.
    + apply orb_false_iff in E as [E1%Z.ltb_ge E2%Z.ltb_ge]. rewrite Hx.
      destruct (IH x fuel Hs) as (out & -> & Hiff); [simpl in Hf; lia|]. exists out. split; [done|].
      rewrite Hiff. split.
      * intros H d td [-> | Hd]%elem_of_cons Htd; [by simplify_eq|eauto].
      * intros H d td Hd. apply H. by right.
Qed.

(** The child before [res]. *)
Lemma previous_kid h kids rank q p res l1 l2 :
  tree_ok h kids rank -> h !! q = Some p -> kids q = l1 ++ res :: l2 ->
  match last l1 with
  | None => child p = res
  | Some x => child p <> res /\
      mjoin (loop (S (S (size h))) (before_body h res) (child p)) = Some x
  end.
Proof.
  intros ok Hp Hk. destruct (t_linked _ _ _ ok q (mk_is_Some _ _ Hp)) as (c & Hc & Hs).
  unfold slot_get in Hc. rewrite Hp in Hc. injection Hc as Hc. rewrite Hc.
  rewrite Hk in Hs. apply seg_app in Hs as (m & Hs1 & Hs2). simpl in Hs2. destruct Hs2 as (-> & _).
  pose proof (kids_NoDup h kids rank ok q) as Hnd. pose proof (kids_length h kids rank ok q) as Hlen.
  rewrite Hk in Hnd, Hlen. apply NoDup_app in Hnd as (_ & Hd & _). rewrite length_app in Hlen.
  destruct (last l1) as [x|] eqn:El; [|apply last_None in El as ->; exact Hs1].
  apply last_Some in El as [m ->].
  assert (Hnot : res ∉ m ++ [x]) by (intros Hin; apply (Hd res Hin); by left). split.
  - intros ->. apply Hnot. destruct m; simpl in *; destruct Hs1 as (-> & _); by left.
  - apply (before_walk h res x m); [done|done|]. rewrite length_app in Hlen. simpl in Hlen. lia.
Qed.

(** The tests against the nearest siblings. *)
Lemma next_clash h kids rank q p res l1 l2 b :
  tree_ok h kids rank -> h !! q = Some p -> kids q = l1 ++ res :: l2 ->
  exists cl, (if hd0 l2 =? 0 then Some false else s ← h !! hd0 l2; Some (start s <=? b)) = Some cl /\
    (cl = false <-> forall d t, head l2 = Some d -> h !! d = Some t -> b < start t).
Proof.
  intros ok Hp Hk. destruct l2 as [|d l2]; [by exists false|]. change (hd0 (d :: l2)) with d.
  assert (Hd : d ∈ kids q) by (rewrite Hk, elem_of_app, !elem_of_cons; tauto).
  destruct (kid_in_store h kids rank ok q d Hd) as ([t Ht] & _ & Hd0 & _).
  destruct (Z.eqb_spec d 0) as [|_]; [done|]. rewrite Ht. eexists. split; [reflexivity|].
  rewrite Z.leb_gt. split; [intros H d' t' [= <-] ?; by simplify_eq|eauto].
Qed.

Lemma prev_clash h kids rank q p res l1 l2 a :
  tree_ok h kids rank -> h !! q = Some p -> kids q = l1 ++ res :: l2 ->
  exists cl, (if child p =? res then Some false
              else tmp ← mjoin (loop (S (S (size h))) (before_body h res) (child p));
                   t ← h !! tmp; Some (a <=? end_ t)) = Some cl /\
    (cl = false <-> forall d t, last l1 = Some d -> h !! d = Some t -> end_ t < a).
Proof.
  intros ok Hp Hk. pose proof (previous_kid h kids rank q p res l1 l2 ok Hp Hk) as Hprev.
  destruct (last l1) as [x|] eqn:El; [|rewrite Hprev, Z.eqb_refl; by exists false].
  destruct Hprev as [Hne ->]. destruct (Z.eqb_spec (child p) res) as [|_]; [done|].
  apply last_Some in El as [m ->].
  assert (Hx : x ∈ kids q) by (rewrite Hk, !elem_of_app, list_elem_of_singleton; tauto).
  destruct (kid_in_store h kids rank ok q x Hx) as ([t Ht] & _). cbn [mbind option_bind]. rewrite Ht.
  eexists. split; [reflexivity|]. rewrite Z.leb_gt. split; [intros H d' t' [= <-] ?; by simplify_eq|eauto].
Qed.

Lemma adjust_spec h kids rank res q r p l1 l2 a sz :
  tree_ok h kids rank -> h !! res = Some r -> parent r = q -> h !! q = Some p ->
  kids q = l1 ++ res :: l2 -> is_u32 a -> 1 <= sz -> a + sz <= 2 ^ 32 ->
  forall n, n = set_range r a (a + sz - 1) ->
  exists e h', adjust_resource h res a sz = Some (e, h') /\
    (e = 0 /\ adjustable h kids res p n l1 l2 /\ h' = <[res := n]> h /\ tree_ok h' kids rank \/
     e = - EBUSY /\ ~ adjustable h kids res p n l1 l2 /\ h' = h).
Proof.
  intros ok Hr Hq Hp Hk Ha Hsz Hfit n Hn.
  assert (Hb : is_u32 (a + sz - 1)) by (clear -Ha Hsz Hfit; width_lia).
  assert (Hno : ~ adjustable h kids res p n l1 l2 -> exists e h', Some (- EBUSY, h) = Some (e, h') /\
    (e = 0 /\ adjustable h kids res p n l1 l2 /\ h' = <[res := n]> h /\ tree_ok h' kids rank \/
     e = - EBUSY /\ ~ adjustable h kids res p n l1 l2 /\ h' = h)) by eauto 10.
  unfold adjust_resource. rewrite Hr. cbn [mbind option_bind]. rewrite Hq, Hp. cbn [mbind option_bind].
  rewrite (u32_small (a + sz - 1)) by done. set (b := a + sz - 1) in *.
  destruct ((a <? start p) || (end_ p <? b)) eqn:Eout.
  { apply Hno. intros ((? & _ & ?) & _). subst n. simpl in *.
    apply orb_true_iff in Eout as [?%Z.ltb_lt|?%Z.ltb_lt]; lia. }
  apply orb_false_iff in Eout as [Ho1%Z.ltb_ge Ho2%Z.ltb_ge].
  destruct (t_linked _ _ _ ok res (mk_is_Some _ _ Hr)) as (c & Hc & Hs).
  unfold slot_get in Hc. rewrite Hr in Hc. injection Hc as Hc.
  destruct (child_out_walk h a b (kids res) (child r) (S (S (size h)))) as (out & -> & Hout);
    [by rewrite Hc|pose proof (kids_length h kids rank ok res); lia|].
  cbn [mbind option_bind]. destruct out.
  { apply Hno. intros (_ & Hkids & _). enough (true = false) by done. apply Hout.
    intros d t Hd Ht. subst n. by destruct (Hkids d t Hd Ht) as (? & _ & ?). }
  destruct Hout as [Hout _]. specialize (Hout eq_refl).
  rewrite (sibling_next h kids rank q l1 res l2 r ok (mk_is_Some _ _ Hp) Hk Hr).
  destruct (next_clash h kids rank q p res l1 l2 b ok Hp Hk) as (cl & -> & Hnext).
  cbn [mbind option_bind]. destruct cl.
  { apply Hno. intros (_ & _ & _ & H2). enough (true = false) by done. apply Hnext.
    subst n. intros d t Hd. apply H2. destruct l2; simplify_eq/=. by left. }
  destruct (prev_clash h kids rank q p res l1 l2 a ok Hp Hk) as (cl & -> & Hprev).
  cbn [mbind option_bind]. destruct cl.
  { apply Hno. intros (_ & _ & H1 & _). enough (true = false) by done. apply Hprev.
    subst n. intros d t [m ->]%last_Some. apply H1. rewrite elem_of_app. right. by left. }
  assert (Hadj : adjustable h kids res p n l1 l2).
  { subst n. split; [unfold fits, b in *; simpl; lia|]. split; [|split].
    - intros d t Hd Ht. pose proof (kid_nonempty h kids rank res d t ok Hd Ht).
      destruct (Hout d t Hd Ht). unfold fits. simpl. lia.
    - apply (adjust_before_all h kids rank res q r p l1 l2 a b); try done. by apply Hprev.
    - apply (adjust_behind_all h kids rank res q r p l1 l2 a b); try done. by apply Hnext. }
  do 2 eexists. split; [reflexivity|]. subst n. left. split; [done|]. split; [done|]. split; [done|].
  by apply (adjust_tree h kids rank res q r p l1 l2 a b).
Qed.

(** ** The contract of insert_resource *)

(** C14: insert_resource.  It returns whatever the tree below the parent looks like.
    With 0 the new resource is a child of the parent or of a resource below it, above
    exactly those of its children that lie within the new range, in their old order, and
    nothing else has moved; with -EBUSY nothing was changed, and either the new range does not fit in
    the parent or some resource overlaps it although neither contains the other. *)
Theorem insert_resource_correct h kids rank parent_ new n :
  tree_ok h kids rank -> detached h kids new -> h !! new = Some n -> is_Some (h !! parent_) ->
  new <> parent_ ->
  exists e h', (forall fuel, (rank parent_ < fuel)%nat ->
      insert_resource fuel h parent_ new = Some (e, h')) /\
    (e = 0 /\ inserted h kids parent_ new h' \/ e = - EBUSY /\ h' = h /\ refused h parent_ n).
Proof. intros. by apply (insert_spec h kids rank new n) with (m := S (rank parent_)); [..|lia]. Qed.

(** A bridge from 8 to 63 above the two devices. *)
Definition bridge : resource :=
  {| start := 8; end_ := 63; flags := 0; parent := 0; sibling := 0; child := 0 |}.

Lemma insert_resource_witness :
  exists h', insert_resource 2 (<[4 := bridge]> sample_store) 1 4
      = Some (0, h') /\ par h' 2 = Some 4 /\ par h' 3 = Some 4 /\ par h' 4 = Some 1.
Proof.
  destruct (tree_set_range sample_store sample_kids sample_rank 4 (set_range bridge 0 0) 8 63 sample_tree) as [T D];
    [done|reflexivity|width_lia|width_lia|].
  destruct (insert_resource_correct _ sample_kids sample_rank 1 4 bridge T D eq_refl) as (e & h' & E & _);
    [by eexists|done|].
  specialize (E 2%nat ltac:(unfold sample_rank; simpl; lia)).
  exists h'. split; [|]; vm_compute in E; injection E as <- <-; [reflexivity|done].
Defined.
