(* ===== verification/ResourceCalls.v ===== *)
(** The calls of kernel/resource.c as steps on one store: what every sequence of them
    keeps true, and that each of them returns. *)
From stdpp Require Import base list gmap numbers option sorting.
From Stdlib Require Import ZArith Lia.
From S2P Require Import Prelude Bitops Resource ResourceTree ResourceAlloc ResourceRegion ResourceInsert.

Local Open Scope Z_scope.
Local Arguments slot_get : simpl never.

(** ** The calls *)

(** [SetUp] and [Discard] are the drivers' own: a struct resource that comes into
    being outside of every tree, and one that goes. *)
Inductive call :=
  | SetUp (new : Z) (n : resource)
  | Discard (old : Z)
  | Request (root new : Z)
  | Release (old : Z)
  | Allocate (root new size min max align : Z) (alignf : option align_fun)
  | Insert (parent_ new : Z)
  | Adjust (res start_ size : Z)
  | RequestRegion (parent_ res start_ n : Z)
  | CheckRegion (parent_ res start_ n : Z)
  | ReleaseRegion (parent_ start_ n : Z).

Definition run_call (fuel : nat) (h : store) (c : call) : option (Z * store) :=
  match c with
  | SetUp new n => Some (0, <[new := n]> h)
  | Discard old => Some (0, delete old h)
  | Request root new => request_resource h root new
  | Release old => release_resource h old
  | Allocate root new size min max align alignf => allocate_resource h root new size min max align alignf
  | Insert parent_ new => insert_resource fuel h parent_ new
  | Adjust res start_ size => adjust_resource h res start_ size
  | RequestRegion parent_ res start_ n => __request_region fuel h parent_ res start_ n
  | CheckRegion parent_ res start_ n => __check_region fuel h parent_ res start_ n
  | ReleaseRegion parent_ start_ n => '(b, h) ← __release_region fuel h parent_ start_ n; Some (Z.b2z b, h)
  end.

(** The call returns [r] with the store [h']. *)
Definition returns (h : store) (c : call) (r : Z) (h' : store) : Prop :=
  exists N, forall fuel, (N <= fuel)%nat -> run_call fuel h c = Some (r, h').

Lemma returns_det h c r h' r2 h2 : returns h c r h' -> returns h c r2 h2 -> r = r2 /\ h' = h2.
Proof.
  intros [N H1] [M H2]. specialize (H1 (N + M)%nat ltac:(lia)). specialize (H2 (N + M)%nat ltac:(lia)).
  by simplify_eq.
Qed.

(** ** What the callers have to respect *)

Definition in_store (h : store) (x : Z) : Prop := is_Some (h !! x).

(** A resource that is in no tree and has no children. *)
Definition idle (h : store) (x : Z) : Prop :=
  exists n, h !! x = Some n /\ parent n = 0 /\ child n = 0.

Definition in_tree (h : store) (x : Z) : Prop := exists n, h !! x = Some n /\ parent n <> 0.

(** The callbacks stay within the 32-bit addresses. *)
Definition align_u32 (alignf : option align_fun) : Prop :=
  forall f a b s al, alignf = Some f -> is_u32 (fst (f a b s al)) /\ is_u32 (snd (f a b s al)).

Definition may (h : store) (c : call) : Prop :=
  match c with
  | SetUp new n => h !! new = None /\ new <> 0 /\ parent n = 0 /\ child n = 0 /\
      is_u32 (start n) /\ is_u32 (end_ n)
  | Discard old => idle h old
  | Request root new | Insert root new => in_store h root /\ idle h new /\ new <> root
  | Release old => in_tree h old
  | Allocate root new _ _ max _ alignf => in_store h root /\ idle h new /\ new <> root /\ is_u32 max /\ align_u32 alignf
  | Adjust res start_ size => in_tree h res /\ is_u32 start_ /\ 1 <= size /\ start_ + size <= 2 ^ 32
  | RequestRegion parent_ res start_ _ | CheckRegion parent_ res start_ _ =>
      in_store h parent_ /\ (res = 0 \/ h !! res = None) /\ is_u32 start_
  | ReleaseRegion parent_ _ _ => in_store h parent_ /\
      (forall x n, h !! x = Some n -> Z.land (flags n) IORESOURCE_BUSY <> 0 -> child n = 0)
  end.

(** ioport_resource and iomem_resource, the roots that the kernel starts with. *)
Definition IO_SPACE_LIMIT : Z := 0xffffffff.
Definition IORESOURCE_IO : Z := 0x100.
Definition IORESOURCE_MEM : Z := 0x200.

Definition ioport_resource : resource :=
  {| start := 0; end_ := IO_SPACE_LIMIT; flags := IORESOURCE_IO; parent := 0; sibling := 0; child := 0 |}.
Definition iomem_resource : resource :=
  {| start := 0; end_ := 0xffffffff; flags := IORESOURCE_MEM; parent := 0; sibling := 0; child := 0 |}.

(** The stores that a sequence of such calls leads to. *)
Inductive reachable : store -> Prop :=
  | reach_init (io mem : Z) : io <> 0 -> mem <> 0 -> io <> mem ->
      reachable (<[io := ioport_resource]> (<[mem := iomem_resource]> ∅))
  | reach_step (h h' : store) (c : call) (r : Z) :
      reachable h -> may h c -> returns h c r h' -> reachable h'.

(** ** Every call keeps the tree *)

Lemma idle_detached h kids rank x :
  tree_ok h kids rank -> idle h x -> detached h kids x.
Proof.
  intros ok (n & Hn & Hp & Hc). split; [unfold par; rewrite Hn; simpl; by rewrite Hp|].
  destruct (t_linked _ _ _ ok x (mk_is_Some _ _ Hn)) as (q & Hq & Hs). unfold slot_get in Hq.
  rewrite Hn in Hq. injection Hq as Hq. destruct (kids x) as [|c l]; [done|].
  simpl in Hs. destruct Hs as (? & ? & _). congruence.
Qed.

Lemma ALIGN_u32 x a : is_u32 (ALIGN x a).
Proof. apply is_u32_land_l; [apply u32_range|]. pose proof (u32_range (Z.lnot (a - 1))) as H. apply H. Qed.

(** One turn of find_resource either moves on or ends with two 32-bit bounds. *)
Lemma find_turn h re size min max align alignf this ns t_end ne next :
  (if this =? 0 then Some (0, re, 0) else t ← h !! this; Some (end_ t, u32 (start t - 1), sibling t))
    = Some (t_end, ne, next) ->
  is_u32 ne -> is_u32 max -> align_u32 alignf ->
  (this <> 0 /\ find_body h re size min max align alignf (this, ns) = inl (next, u32 (t_end + 1))) \/
  exists e a b, find_body h re size min max align alignf (this, ns) = inr (Some (e, (a, b))) /\
    (e = 0 \/ e = - EBUSY) /\ is_u32 a /\ is_u32 b.
Proof.
  intros E Hne Hmax Hal. unfold find_body. rewrite E.
  set (ns' := ALIGN _ align). set (ne' := if max <? ne then max else ne).
  assert (Hns' : is_u32 ns') by apply ALIGN_u32.
  assert (Hne' : is_u32 ne') by (unfold ne'; by destruct (max <? ne)).
  destruct (match alignf with Some f => f ns' ne' size align | None => (ns', ne') end) as [a b] eqn:Ef.
  assert (Hab : is_u32 a /\ is_u32 b).
  { destruct alignf as [f|]; [|by simplify_eq]. pose proof (Hal f ns' ne' size align eq_refl) as H.
    by rewrite Ef in H. }
  destruct Hab. destruct (_ && _); [right; do 3 eexists; split; [reflexivity|]; split; [by left|]; split; [done|apply u32_range]|].
  destruct (Z.eqb_spec this 0); [|by left]. right. do 3 eexists. split; [reflexivity|].
  split; [by right|done].
Qed.

(** It ends, whatever it is asked for. *)
Lemma find_walk h re size min max align alignf l : forall this ns fuel,
  seg h this l 0 -> (forall c, c ∈ l -> in_store h c) -> is_u32 re -> is_u32 max ->
  align_u32 alignf -> (length l < fuel)%nat ->
  exists e a b, mjoin (loop fuel (find_body h re size min max align alignf) (this, ns)) = Some (e, (a, b)) /\
    (e = 0 \/ e = - EBUSY) /\ is_u32 a /\ is_u32 b.
Proof.
  induction l as [|c l IH]; intros this ns fuel Hs Hin Hre Hmax Hal Hf;
    (destruct fuel as [|fuel]; [lia|]); rewrite loop_S; simpl in Hs.
  - subst this. destruct (find_turn h re size min max align alignf 0 ns 0 re 0)
      as [(? & _)|(e & a & b & E & H)]; [done..|]. exists e, a, b. by rewrite E.
  - destruct Hs as (-> & Hc & x & Hx & Hs). destruct (Hin c) as [t Ht]; [by left|].
    unfold slot_get in Hx. rewrite Ht in Hx. injection Hx as Hx.
    destruct (find_turn h re size min max align alignf c ns (end_ t) (u32 (start t - 1)) x)
      as [(_ & E)|(e & a & b & E & H)]; [|apply u32_range|done|done| |].
    + destruct (Z.eqb_spec c 0); [done|]. rewrite Ht. cbn [mbind option_bind]. by rewrite Hx.
    + rewrite E. apply IH; [done| |done|done|done|simpl in Hf; lia]. intros d Hd. apply Hin. by right.
    + exists e, a, b. by rewrite E.
Qed.

Lemma find_total h kids rank root size min max align alignf :
  tree_ok h kids rank -> in_store h root -> is_u32 max -> align_u32 alignf ->
  exists e a b, find_resource h root size min max align alignf = Some (e, (a, b)) /\
    (e = 0 \/ e = - EBUSY) /\ is_u32 a /\ is_u32 b.
Proof.
  intros ok Hroot Hmax Hal. destruct (t_linked _ _ _ ok root Hroot) as (p & Hp & Hs).
  pose proof (kids_length h kids rank ok root) as Hlen.
  assert (Hin : forall c, c ∈ kids root -> in_store h c) by (intros c Hc; by apply (kid_in_store h kids rank ok root c)).
  destruct Hroot as [r Hr]. unfold slot_get in Hp. rewrite Hr in Hp. injection Hp as Hp.
  destruct (t_u32 _ _ _ ok root _ _ (rng_lookup _ _ _ Hr)) as [_ Hre].
  unfold find_resource. rewrite Hr. cbn [mbind option_bind]. rewrite Hp.
  destruct (kids root) as [|c l]; simpl in Hs, Hlen.
  - rewrite Hs. change (0 =? 0) with true. cbn [mbind option_bind].
    apply (find_walk h _ _ _ _ _ _ []); try done. simpl. lia.
  - pose proof Hs as (-> & Hc & x & Hx & Hs'). destruct (Z.eqb_spec c 0) as [|_]; [done|].
    destruct (Hin c) as [t Ht]; [by left|]. unfold slot_get in Hx. rewrite Ht in *.
    injection Hx as Hx. cbn [mbind option_bind]. rewrite Hx. destruct (start t =? 0); cbn [mbind option_bind].
    + apply (find_walk h _ _ _ _ _ _ l); try done; [|lia]. intros d Hd. apply Hin. by right.
    + apply (find_walk h _ _ _ _ _ _ (c :: l)); try done. simpl. lia.
Qed.

(** A store that is a tree. *)
Definition good (h : store) : Prop := exists kids rank, tree_ok h kids rank.

Lemma requested_good h kids rank root new r n c h' :
  tree_ok h kids rank -> requested h kids root new r n c h' -> good h'.
Proof.
  intros ok [(_ & _ & _ & l1 & l2 & rank' & _ & T & _)|(_ & -> & _)]; [|by exists kids, rank].
  by exists (kset kids root (l1 ++ new :: l2)), rank'.
Qed.

Lemma request_good h kids rank root new :
  tree_ok h kids rank -> in_store h root -> detached h kids new -> in_store h new -> new <> root ->
  exists c h', __request_resource h root new = Some (c, h') /\ good h'.
Proof.
  intros ok [r Hr] Hdet [n Hn] Hne.
  destruct (request_spec h kids rank root new r n ok Hdet Hne Hr Hn) as (c & h' & E & Hreq).
  exists c, h'. split; [done|]. by apply (requested_good h kids rank root new r n c).
Qed.

Lemma idle_in_store h x : idle h x -> in_store h x.
Proof. intros (n & Hn & _). by exists n. Qed.

(** One lemma for each call that is more than its specification. *)
Lemma allocate_good h kids rank root new size min max align alignf :
  tree_ok h kids rank -> may h (Allocate root new size min max align alignf) ->
  exists e h', allocate_resource h root new size min max align alignf = Some (e, h') /\ good h'.
Proof.
  intros ok (Hroot & Hidle & Hne & Hmax & Hal).
  destruct (find_total h kids rank root size min max align alignf ok Hroot Hmax Hal)
    as (e & a & b & E & He & Ha & Hb).
  pose proof (idle_detached h kids rank new ok Hidle) as Hdet. destruct (idle_in_store h new Hidle) as [n Hn].
  destruct (tree_set_range h kids rank new n a b ok Hdet Hn Ha Hb) as [ok1 Hdet1].
  unfold allocate_resource. rewrite E, Hn. cbn [mbind option_bind].
  destruct He as [-> | ->].
  - change (0 <=? 0) with true. cbv iota.
    destruct (request_good _ kids rank root new ok1) as (c & h' & -> & Hgood); [|done| |done|].
    + unfold in_store. by rewrite lookup_insert_ne.
    + unfold in_store. by rewrite lookup_insert_eq.
    + cbn [mbind option_bind]. eauto.
  - change (0 <=? - EBUSY) with false. cbv iota. do 2 eexists. split; [reflexivity|]. by exists kids, rank.
Qed.

Lemma adjust_good h kids rank res start_ size :
  tree_ok h kids rank -> may h (Adjust res start_ size) ->
  exists e h', adjust_resource h res start_ size = Some (e, h') /\ good h'.
Proof.
  intros ok ((r & Hr & Hp0) & Hs & H1 & H2).
  assert (Hres : res ∈ kids (parent r)).
  { apply (t_listed _ _ _ ok res); [|done]. unfold par. by rewrite Hr. }
  destruct (kid_in_store h kids rank ok _ _ Hres) as (_ & [p Hp] & _).
  apply list_elem_of_split in Hres as (l1 & l2 & Hk).
  destruct (adjust_spec h kids rank res _ r p l1 l2 start_ size ok Hr eq_refl Hp Hk Hs H1 H2 _ eq_refl)
    as (e & h' & E & Hcase). exists e, h'. split; [done|].
  destruct Hcase as [(_ & _ & _ & T)|(_ & _ & ->)]; by exists kids, rank.
Qed.

Lemma release_good h kids rank old :
  tree_ok h kids rank -> in_tree h old ->
  exists e h', release_resource h old = Some (e, h') /\ good h'.
Proof.
  intros ok (n & Hn & Hp0). destruct (release_spec h kids rank old (parent n) ok) as (h' & l1 & l2 & E & _ & T & _).
  - unfold par. by rewrite Hn.
  - done.
  - exists 0, h'. split; [done|]. by exists (kset kids (parent n) (l1 ++ l2)), rank.
Qed.

Lemma region_good h kids rank parent_ res start_ n :
  tree_ok h kids rank -> may h (RequestRegion parent_ res start_ n) ->
  exists r h', (forall fuel, (rank parent_ < fuel)%nat ->
    __request_region fuel h parent_ res start_ n = Some (r, h')) /\ good h'.
Proof.
  intros ok (Hp & Hres & Hs).
  destruct (request_region_spec h kids rank parent_ res start_ n ok Hp Hres Hs)
    as (r & h' & E & [(_ & T & _)|(_ & _ & _ & _ & (p & l1 & l2 & rank' & _ & T & _))]);
    exists r, h'; (split; [done|]); [by exists kids, rank|by exists (kset kids p (l1 ++ res :: l2)), rank'].
Qed.

Lemma release_region_good h kids rank parent_ start_ n :
  tree_ok h kids rank -> may h (ReleaseRegion parent_ start_ n) ->
  exists N b h', (forall fuel, (N <= fuel)%nat ->
    __release_region fuel h parent_ start_ n = Some (b, h')) /\ good h'.
Proof.
  intros ok (Hp & Hbusy).
  destruct (release_region_spec h kids rank parent_ start_ n ok Hp) as (N & b & h' & E & Hg).
  - intros q m Hm Hb. destruct (t_linked _ _ _ ok q (mk_is_Some _ _ Hm)) as (x & Hx & Hs).
    unfold slot_get in Hx. rewrite Hm in Hx. injection Hx as Hx. rewrite (Hbusy q m Hm Hb) in Hx.
    destruct (kids q); [done|]. simpl in Hs. destruct Hs as (? & ? & _). congruence.
  - exists N, b, h'. split; [done|]. unfold region_gone in Hg. destruct b; [|subst h'; by exists kids, rank].
    destruct Hg as (p & res & t & l1 & l2 & _ & _ & _ & _ & _ & _ & T). by exists (kset kids p (l1 ++ l2)), rank.
Qed.

Lemma insert_good h kids rank parent_ new :
  tree_ok h kids rank -> may h (Insert parent_ new) ->
  exists e h', (forall fuel, (rank parent_ < fuel)%nat ->
    insert_resource fuel h parent_ new = Some (e, h')) /\ good h'.
Proof.
  intros ok (Hp & Hidle & Hne). destruct (idle_in_store h new Hidle) as [n Hn].
  destruct (insert_spec h kids rank new n ok (idle_detached h kids rank new ok Hidle) Hn
    (S (rank parent_)) parent_ Hp Hne) as (e & h' & E & Hcase); [lia|].
  exists e, h'. split; [done|]. destruct Hcase as [(_ & p & l1 & mid & l2 & rank' & _ & _ & T & _)|(_ & -> & _)];
    [|by exists kids, rank]. by exists (kset (kset kids p (l1 ++ new :: l2)) new mid), rank'.
Qed.

(** A call that respects its precondition returns, and leaves a tree. *)
Lemma call_good h c : good h -> may h c -> exists r h', returns h c r h' /\ good h'.
Proof.
  intros (kids & rank & ok) Hmay.
  destruct c as [new n|old|root new|old|root new size min max align alignf|parent_ new|res start_ size
    |parent_ res start_ n|parent_ res start_ n|parent_ start_ n].
  - destruct Hmay as (H1 & H2 & H3 & H4 & H5 & H6). exists 0, (<[new := n]> h). split; [by exists 0%nat|].
    exists kids, rank. by apply tree_fresh.
  - exists 0, (delete old h). split; [by exists 0%nat|]. exists kids, rank. apply tree_delete; [done|].
    by apply (idle_detached h kids rank).
  - destruct Hmay as (H1 & H2 & H3).
    destruct (request_good h kids rank root new ok H1 (idle_detached h kids rank new ok H2)
      (idle_in_store h new H2) H3) as (c & h' & E & Hgood).
    exists (if c =? 0 then 0 else - EBUSY), h'. split; [|done]. exists 0%nat. intros fuel _.
    simpl. unfold request_resource. by rewrite E.
  - destruct (release_good h kids rank old ok Hmay) as (e & h' & E & Hgood). exists e, h'.
    split; [|done]. by exists 0%nat.
  - destruct (allocate_good h kids rank root new size min max align alignf ok Hmay) as (e & h' & E & Hgood).
    exists e, h'. split; [|done]. by exists 0%nat.
  - destruct (insert_good h kids rank parent_ new ok Hmay) as (e & h' & E & Hgood). exists e, h'.
    split; [|done]. exists (S (rank parent_)). intros fuel Hf. apply E. lia.
  - destruct (adjust_good h kids rank res start_ size ok Hmay) as (e & h' & E & Hgood). exists e, h'.
    split; [|done]. by exists 0%nat.
  - destruct (region_good h kids rank parent_ res start_ n ok Hmay) as (e & h' & E & Hgood). exists e, h'.
    split; [|done]. exists (S (rank parent_)). intros fuel Hf. apply E. lia.
  - destruct Hmay as (H1 & H2 & H3).
    destruct (check_region_spec h kids rank parent_ res start_ n ok H1 H2 H3) as (e & h' & rank' & E & T).
    exists e, h'. split; [|by exists kids, rank']. exists (S (rank parent_)). intros fuel Hf. apply E. lia.
  - destruct (release_region_good h kids rank parent_ start_ n ok Hmay) as (N & b & h' & E & Hgood).
    exists (Z.b2z b), h'. split; [|done]. exists N. intros fuel Hf. simpl. by rewrite E.
Qed.

(** ** Every sequence of calls *)

Lemma init_good io mem : io <> 0 -> mem <> 0 -> io <> mem ->
  good (<[io := ioport_resource]> (<[mem := iomem_resource]> ∅)).
Proof.
  intros H1 H2 H3. exists (fun _ => []), (fun _ => 0%nat).
  assert (Hu : is_u32 0 /\ is_u32 0xffffffff) by (split; width_lia). destruct Hu.
  apply tree_fresh; try done; [|rewrite lookup_insert_ne by done; apply lookup_empty].
  apply tree_fresh; try done; try apply lookup_empty. split; try done.
  - intros r Hr. rewrite lookup_empty in Hr. by destruct Hr.
  - by intros r c ?%elem_of_nil.
  - by intros r c ?%elem_of_nil.
  - constructor.
  - by intros r c ?%elem_of_nil.
Qed.

Lemma reachable_good h : reachable h -> good h.
Proof.
  induction 1 as [io mem H1 H2 H3|h h' c r _ IH Hmay Hret]; [by apply init_good|].
  destruct (call_good h c IH Hmay) as (r2 & h2 & Hret2 & Hgood).
  by destruct (returns_det _ _ _ _ _ _ Hret Hret2) as [_ ->].
Qed.

Lemma sorted_total {A} (R : A -> A -> Prop) l x y :
  StronglySorted R l -> x ∈ l -> y ∈ l -> x = y \/ R x y \/ R y x.
Proof.
  induction 1 as [|a l _ IH Hall]; intros Hx Hy; [by apply elem_of_nil in Hx|].
  rewrite Forall_forall in Hall. rewrite elem_of_cons in Hx, Hy.
  destruct Hx as [-> | Hx], Hy as [-> | Hy]; auto.
Qed.

(** C11: the resource tree.  After every sequence of requests, releases, allocations,
    insertions, adjustments and region calls that starts with the two roots of the
    kernel and in which each call is made as its callers must (a resource to be
    linked in is in no tree and has no children, one to be released or adjusted is in
    a tree, an adjusted range is not empty, and no busy resource has children when a
    region is released): a resource with a parent lies within its parent, is on the
    list of children of that parent, and overlaps no other child of it. *)
Theorem resource_tree_invariant h x n :
  reachable h -> h !! x = Some n -> parent n <> 0 ->
  (exists p l, h !! parent n = Some p /\ fits p n /\ linked h (parent n) l /\ x ∈ l) /\
  (forall y m, h !! y = Some m -> parent m = parent n -> y <> x -> ~ overlap n m).
Proof.
  intros (kids & rank & ok)%reachable_good Hn Hp.
  assert (Hkid : forall y m, h !! y = Some m -> parent m = parent n -> y ∈ kids (parent n)).
  { intros y m Hm E. apply (t_listed _ _ _ ok); [|done]. unfold par. rewrite Hm. simpl. by rewrite E. }
  pose proof (Hkid x n Hn eq_refl) as Hx. split.
  - destruct (kid_in_store h kids rank ok _ _ Hx) as (_ & [p Hpp] & _). exists p, (kids (parent n)).
    split; [done|]. split; [|split; [by apply (t_linked _ _ _ ok)|done]].
    destruct (t_inside _ _ _ ok _ _ Hx) as (a & b & u & v & Ha & Hu & H1 & H2 & H3).
    rewrite (rng_lookup _ _ _ Hpp) in Ha. rewrite (rng_lookup _ _ _ Hn) in Hu.
    injection Ha as <- <-. injection Hu as <- <-. done.
  - intros y m Hm Hpm Hyx [O1 O2].
    destruct (sorted_total _ _ x y (t_sorted _ _ _ ok (parent n)) Hx (Hkid y m Hm Hpm))
      as [->|[Hb|Hb]]; [done| |].
    + pose proof (Hb _ _ _ _ (rng_lookup _ _ _ Hn) (rng_lookup _ _ _ Hm)). lia.
    + pose proof (Hb _ _ _ _ (rng_lookup _ _ _ Hm) (rng_lookup _ _ _ Hn)). lia.
Qed.

(** C12: termination.  In every such store every call that its caller may make
    returns: with enough fuel the result no longer depends on it, none of the walks
    over the tree cycles, and no pointer to a missing resource is followed. *)
Theorem resource_calls_return h c :
  reachable h -> may h c -> exists r h', returns h c r h' /\ reachable h'.
Proof.
  intros Hr Hmay. destruct (call_good h c (reachable_good h Hr) Hmay) as (r & h' & Hret & _).
  exists r, h'. split; [done|]. by apply (reach_step h h' c r).
Qed.

(** ** A run: two regions of the port space *)

Definition boot_store : store := <[1 := ioport_resource]> (<[2 := iomem_resource]> ∅).

Lemma boot_reachable : reachable boot_store.
Proof. by apply (reach_init 1 2). Qed.

Definition after (h : store) (c : call) : store := default ∅ (snd <$> run_call 1 h c).

(** Ports 0x60 to 0x6f, then 0x80 to 0x87. *)
Definition first_region : call := RequestRegion 1 3 0x60 16.
Definition second_region : call := RequestRegion 1 4 0x80 8.

Lemma first_reachable : may boot_store first_region /\ reachable (after boot_store first_region).
Proof.
  assert (Hm : may boot_store first_region).
  { split; [by eexists|]. split; [by right|]. width_lia. }
  split; [done|]. apply (reach_step boot_store _ first_region 3 boot_reachable Hm).
  exists 1%nat. intros [|k] Hk; [lia|]. vm_compute. reflexivity.
Qed.

Lemma resource_calls_return_witness :
  exists h', returns (after boot_store first_region) second_region 4 h' /\ reachable h'.
Proof.
  destruct (resource_calls_return (after boot_store first_region) second_region)
    as (r & h' & [N H] & Hr).
  - apply first_reachable.
  - split; [by eexists|]. split; [by right|]. width_lia.
  - exists h'. split; [|done]. pose proof (H (S N) (Nat.le_succ_diag_r N)) as E.
    vm_compute in E. injection E as <- _. by exists N.
Defined.

Lemma resource_tree_invariant_witness :
  exists n, after boot_store first_region !! 3 = Some n /\ parent n = 1 /\
    exists p l, after boot_store first_region !! 1 = Some p /\ fits p n /\
      linked (after boot_store first_region) 1 l /\ 3 ∈ l.
Proof.
  exists (set_parent (new_region 0x60 16) 1). split; [vm_compute; reflexivity|]. split; [reflexivity|].
  destruct (resource_tree_invariant (after boot_store first_region) 3 _ (proj2 first_reachable)
    (eq_refl : _ = Some (set_parent (new_region 0x60 16) 1)))
    as [H _]; [done|exact H].
Defined.
