(* ===== verification/RtcLib.v ===== *)
(** drivers/rtc/rtc-lib.c and mktime of kernel/time.c: seconds since 1970 as a
    Gregorian date, and back. *)
From stdpp Require Import base list gmap numbers option.
From Stdlib Require Import ZArith Lia.
From S2P Require Import Prelude.

Local Open Scope Z_scope.

(** ** The code *)

Record rtc_time := {
  tm_sec : Z;
  tm_min : Z;
  tm_hour : Z;
  tm_mday : Z;
  tm_mon : Z;
  tm_year : Z;
  tm_wday : Z;
  tm_yday : Z;
  tm_isdst : Z
}.

Definition rtc_days_in_month : list Z := [31; 28; 31; 30; 31; 30; 31; 31; 30; 31; 30; 31].

Definition LEAPS_THRU_END_OF (y : Z) : Z := Z.quot y 4 - Z.quot y 100 + Z.quot y 400.

Definition LEAP_YEAR (year : Z) : bool :=
  (Z.rem year 4 =? 0) && negb (Z.rem year 100 =? 0) || (Z.rem year 400 =? 0).

(** [None] is a read behind the table. *)
Definition rtc_month_days (month year : Z) : option Z :=
  d ← array_get rtc_days_in_month month;
  Some (d + Z.b2z (LEAP_YEAR year && (month =? 1))).

(** One turn of the loop over the months. *)
Definition month_body (year : Z) (st : Z * Z) : (Z * Z) + option (Z * Z) :=
  let '(month, days) := st in
  if month <? 11 then
    match rtc_month_days month year with
    | None => inr None
    | Some md => let newdays := days - md in
                 if newdays <? 0 then inr (Some (month, days)) else inl (month + 1, newdays)
    end
  else inr (Some (month, days)).

(** [days * 86400] is an int product: from 2038 on it exceeds the int range, and the
    result relies on its wrapping. *)
Definition rtc_time_to_tm (time : Z) (tm : rtc_time) : option rtc_time :=
  let days := s32 (time / 86400) in
  let time := u32 (time - s32 (days * 86400)) in
  let wday := Z.rem (days + 4) 7 in
  let year := 1970 + Z.quot days 365 in
  let days := days - ((year - 1970) * 365 + LEAPS_THRU_END_OF (year - 1) - LEAPS_THRU_END_OF (1970 - 1)) in
  let '(year, days) :=
    if days <? 0 then (year - 1, days + (365 + Z.b2z (LEAP_YEAR (year - 1)))) else (year, days) in
  let yday := days + 1 in
  '(month, days) ← mjoin (loop 12 (month_body year) (0, days));
  let hour := s32 (time / 3600) in
  let time := u32 (time - hour * 3600) in
  let min := s32 (time / 60) in
  let sec := s32 (u32 (time - min * 60)) in
  Some {| tm_sec := sec; tm_min := min; tm_hour := hour; tm_mday := days + 1; tm_mon := month;
          tm_year := year - 1900; tm_wday := wday; tm_yday := yday; tm_isdst := tm_isdst tm |}.

Definition rtc_valid_tm (tm : rtc_time) : option Z :=
  if (tm_year tm <? 70) || (12 <=? tm_mon tm) || (tm_mday tm <? 1) then Some (- EINVAL)
  else
    md ← rtc_month_days (u32 (tm_mon tm)) (u32 (tm_year tm + 1900));
    if (md <? tm_mday tm) || (24 <=? tm_hour tm) || (60 <=? tm_min tm) || (60 <=? tm_sec tm)
    then Some (- EINVAL) else Some 0.

Definition mktime (year0 mon0 day hour min sec : Z) : Z :=
  let mon := u32 (mon0 - 2) in
  let '(mon, year) := if s32 mon <=? 0 then (u32 (mon + 12), u32 (year0 - 1)) else (mon, year0) in
  let days := u32 (year / 4 - year / 100 + year / 400 + u32 (367 * mon) / 12 + day) in
  u32 ((((days + year * 365 - 719499) * 24 + hour) * 60 + min) * 60 + sec).

(** The error and the value left in *time. *)
Definition rtc_tm_to_time (tm : rtc_time) : Z * Z :=
  (0, mktime (u32 (tm_year tm + 1900)) (u32 (tm_mon tm + 1)) (u32 (tm_mday tm))
        (u32 (tm_hour tm)) (u32 (tm_min tm)) (u32 (tm_sec tm))).

Definition zero_tm : rtc_time :=
  {| tm_sec := 0; tm_min := 0; tm_hour := 0; tm_mday := 0; tm_mon := 0; tm_year := 0; tm_wday := 0;
     tm_yday := 0; tm_isdst := 0 |}.

(** ** Years and months *)

Definition leap (y : Z) : Z := Z.b2z (LEAP_YEAR y).

(** The day, from 1970-01-01, on which a year starts. *)
Definition year_start (y : Z) : Z :=
  (y - 1970) * 365 + LEAPS_THRU_END_OF (y - 1) - LEAPS_THRU_END_OF (1970 - 1).

Lemma leap_range y : 0 <= leap y <= 1.
Proof. unfold leap. by destruct (LEAP_YEAR y). Qed.

Lemma leaps_step y : 1 <= y -> LEAPS_THRU_END_OF y = LEAPS_THRU_END_OF (y - 1) + leap y.
Proof.
  intros Hy. unfold leap, LEAP_YEAR, LEAPS_THRU_END_OF.
  destruct (Z.eqb_spec (Z.rem y 4) 0), (Z.eqb_spec (Z.rem y 100) 0), (Z.eqb_spec (Z.rem y 400) 0);
    cbn [negb andb orb Z.b2z]; div_lia.
Qed.

Lemma year_start_next y : 1 <= y -> year_start (y + 1) = year_start y + 365 + leap y.
Proof.
  intros Hy. unfold year_start. replace (y + 1 - 1) with y by lia. rewrite (leaps_step y Hy). lia.
Qed.

Lemma year_start_mono y y' : 1 <= y -> y < y' -> year_start y + 365 + leap y <= year_start y'.
Proof.
  intros Hy Hlt. rewrite <- year_start_next by done.
  assert (H : forall k, 0 <= k -> year_start (y + 1) <= year_start (y + 1 + k)).
  { apply natlike_ind; [by rewrite Z.add_0_r|]. intros k Hk IH.
    replace (y + 1 + Z.succ k) with (y + 1 + k + 1) by lia. rewrite (year_start_next (y + 1 + k)) by lia.
    pose proof (leap_range (y + 1 + k)). lia. }
  specialize (H (y' - (y + 1)) ltac:(lia)). by replace (y + 1 + (y' - (y + 1))) with y' in H by lia.
Qed.

(** A day has one year. *)
Lemma year_unique y y' r r' :
  1 <= y -> 1 <= y' -> 0 <= r < 365 + leap y -> 0 <= r' < 365 + leap y' ->
  year_start y + r = year_start y' + r' -> y = y' /\ r = r'.
Proof.
  intros Hy Hy' Hr Hr' E. destruct (Z.lt_trichotomy y y') as [H|[->|H]]; [|lia|].
  - pose proof (year_start_mono y y' Hy H). lia.
  - pose proof (year_start_mono y' y Hy' H). lia.
Qed.

(** The year that the division by 365 guesses is right or one too large. *)
Lemma year_guess d :
  0 <= d <= 49710 ->
  let y := 1970 + Z.quot d 365 in
  0 <= d - year_start y < 365 \/
  d - year_start y < 0 /\ 0 <= d - year_start (y - 1) < 365 + leap (y - 1).
Proof.
  intros Hd y. assert (Hy : 1970 <= y <= 2106) by (unfold y; div_lia).
  assert (Hrem : 0 <= d - (y - 1970) * 365 < 365) by (unfold y; div_lia).
  pose proof (year_start_next (y - 1) ltac:(lia)) as Hn. replace (y - 1 + 1) with y in Hn by lia.
  assert (HL : 0 <= year_start y - (y - 1970) * 365 <= 34)
    by (unfold year_start, LEAPS_THRU_END_OF; clear -Hy; div_lia).
  pose proof (leap_range (y - 1)). lia.
Qed.

(** The choice that rtc_time_to_tm makes. *)
Lemma year_pick d :
  0 <= d <= 49710 ->
  let year := 1970 + Z.quot d 365 in
  let days := d - ((year - 1970) * 365 + LEAPS_THRU_END_OF (year - 1) - LEAPS_THRU_END_OF (1970 - 1)) in
  exists y r, (if days <? 0 then (year - 1, days + (365 + Z.b2z (LEAP_YEAR (year - 1)))) else (year, days))
      = (y, r) /\
    1970 <= y <= 2106 /\ 0 <= r < 365 + leap y /\ d = year_start y + r.
Proof.
  intros Hd year days. fold (year_start year) in days. fold (leap (year - 1)).
  assert (Hy : 1970 <= year <= 2106) by (unfold year; clear -Hd; div_lia).
  pose proof (leap_range year). pose proof (year_guess d Hd) as Hg. fold year in Hg. cbv zeta in Hg.
  destruct (Z.ltb_spec days 0) as [Hlt|Hge].
  - destruct Hg as [|[_ Hg]]; [lia|]. assert (year <> 1970).
    { intros E. unfold days in Hlt. rewrite E in Hlt. change (year_start 1970) with 0 in Hlt. lia. }
    do 2 eexists. split; [reflexivity|].
    pose proof (year_start_next (year - 1) ltac:(lia)) as Hn. replace (year - 1 + 1) with year in Hn by lia.
    unfold days. lia.
  - do 2 eexists. split; [reflexivity|]. unfold days in *. lia.
Qed.

(** Days of the year before a month, and the length of a month. *)
Definition month_len (l m : Z) : Z :=
  default 0 (array_get rtc_days_in_month m) + (if m =? 1 then l else 0).
Definition month_start (l m : Z) : Z :=
  foldr Z.add 0 (take (Z.to_nat m) rtc_days_in_month) + (if 1 <? m then l else 0).

Lemma month_cases m : 0 <= m <= 11 -> m ∈ [0; 1; 2; 3; 4; 5; 6; 7; 8; 9; 10; 11].
Proof. intros Hm. rewrite !elem_of_cons. lia. Qed.

Lemma month_days_len m y :
  0 <= m <= 11 -> rtc_month_days m y = Some (month_len (leap y) m).
Proof.
  intros Hm%month_cases. unfold rtc_month_days, month_len, leap.
  repeat (apply elem_of_cons in Hm as [-> | Hm]; [destruct (LEAP_YEAR y); reflexivity|]).
  by apply elem_of_nil in Hm.
Qed.

Lemma month_start_next l m :
  0 <= m <= 10 -> month_start l (m + 1) = month_start l m + month_len l m.
Proof.
  intros Hm. assert (Hc : m ∈ [0; 1; 2; 3; 4; 5; 6; 7; 8; 9; 10]) by (rewrite !elem_of_cons; lia).
  repeat (apply elem_of_cons in Hc as [-> | Hc]; [unfold month_start, month_len; simpl; lia|]).
  by apply elem_of_nil in Hc.
Qed.

Lemma month_len_pos l m : 0 <= l <= 1 -> 0 <= m <= 11 -> 28 <= month_len l m <= 31.
Proof.
  intros Hl Hm%month_cases.
  repeat (apply elem_of_cons in Hm as [-> | Hm]; [unfold month_len; simpl; lia|]).
  by apply elem_of_nil in Hm.
Qed.

Lemma month_start_end l : month_start l 11 + month_len l 11 = 365 + l.
Proof. unfold month_start, month_len. simpl. lia. Qed.

(** The months behind the first [m] lie behind it. *)
Lemma month_start_mono l m m' :
  0 <= l <= 1 -> 0 <= m -> m < m' <= 11 -> month_start l m + month_len l m <= month_start l m'.
Proof.
  intros Hl Hm Hlt. rewrite <- month_start_next by lia.
  assert (H : forall k, 0 <= k -> m + 1 + k <= 11 -> month_start l (m + 1) <= month_start l (m + 1 + k)).
  { apply (natlike_ind (fun k => m + 1 + k <= 11 -> _)); [by rewrite Z.add_0_r|]. intros k Hk IH Hb.
    replace (m + 1 + Z.succ k) with (m + 1 + k + 1) by lia.
    rewrite (month_start_next l (m + 1 + k)) by lia.
    pose proof (month_len_pos l (m + 1 + k) Hl ltac:(lia)). lia. }
  specialize (H (m' - (m + 1)) ltac:(lia) ltac:(lia)).
  by replace (m + 1 + (m' - (m + 1))) with m' in H by lia.
Qed.

(** A day of the year has one month. *)
Lemma month_unique l m m' r r' :
  0 <= l <= 1 -> 0 <= m <= 11 -> 0 <= m' <= 11 -> 0 <= r < month_len l m -> 0 <= r' < month_len l m' ->
  month_start l m + r = month_start l m' + r' -> m = m' /\ r = r'.
Proof.
  intros Hl Hm Hm' Hr Hr' E. destruct (Z.lt_trichotomy m m') as [H|[->|H]]; [|lia|].
  - pose proof (month_start_mono l m m' Hl ltac:(lia) ltac:(lia)). lia.
  - pose proof (month_start_mono l m' m Hl ltac:(lia) ltac:(lia)). lia.
Qed.

(** The loop finds it. *)
Lemma month_loop y d :
  0 <= d < 365 + leap y ->
  exists m r, mjoin (loop 12 (month_body y) (0, d)) = Some (m, r) /\ 0 <= m <= 11 /\
    0 <= r < month_len (leap y) m /\ d = month_start (leap y) m + r.
Proof.
  intros Hd. pose proof (leap_range y) as Hl.
  assert (H : forall k m r, m + Z.of_nat k = 11 -> 0 <= m -> 0 <= r -> d = month_start (leap y) m + r ->
    exists m' r', mjoin (loop (S k) (month_body y) (m, r)) = Some (m', r') /\ 0 <= m' <= 11 /\
      0 <= r' < month_len (leap y) m' /\ d = month_start (leap y) m' + r').
  { induction k as [|k IH]; intros m r Hk Hm Hr E; rewrite loop_S; unfold month_body at 1.
    - assert (m = 11) as -> by lia. exists 11, r. split; [done|]. split; [lia|]. split; [|done].
      pose proof (month_start_end (leap y)). lia.
    - destruct (Z.ltb_spec m 11) as [_|]; [|lia]. rewrite month_days_len by lia.
      destruct (Z.ltb_spec (r - month_len (leap y) m) 0) as [Hlt|Hge].
      + exists m, r. split; [done|]. split; [lia|]. split; [lia|done].
      + apply IH; [lia|lia|done|]. rewrite month_start_next by lia. lia. }
  apply (H 11%nat 0 d); [lia|lia|lia|]. change (month_start (leap y) 0) with 0. lia.
Qed.

(** ** Dates *)

(** Seconds since 1970 of the [sod]-th second of the day [mday] of month [mon]. *)
Definition date_days (tm : rtc_time) : Z :=
  let y := tm_year tm + 1900 in year_start y + month_start (leap y) (tm_mon tm) + tm_mday tm - 1.
Definition date_seconds (tm : rtc_time) : Z :=
  ((date_days tm * 24 + tm_hour tm) * 60 + tm_min tm) * 60 + tm_sec tm.

(** A date from 1970 on, every field in its range. *)
Definition date_ok (tm : rtc_time) : Prop :=
  let y := tm_year tm + 1900 in
  1970 <= y <= 2106 /\ 0 <= tm_mon tm <= 11 /\ 1 <= tm_mday tm <= month_len (leap y) (tm_mon tm) /\
  0 <= tm_hour tm < 24 /\ 0 <= tm_min tm < 60 /\ 0 <= tm_sec tm < 60.

(** rtc_time_to_tm on every 32-bit time. *)
Lemma time_to_tm_spec t tm :
  is_u32 t ->
  exists tm', rtc_time_to_tm t tm = Some tm' /\ date_ok tm' /\ date_seconds tm' = t /\
    tm_wday tm' = (t / 86400 + 4) mod 7 /\
    tm_yday tm' = t / 86400 - year_start (tm_year tm' + 1900) + 1 /\ tm_isdst tm' = tm_isdst tm.
Proof.
  intros Ht. assert (Hd : 0 <= t / 86400 <= 49710) by (clear -Ht; width_lia; div_lia).
  unfold rtc_time_to_tm. set (d := t / 86400) in *.
  rewrite (s32_small d) by (clear -Hd; width_lia).
  assert (Htime : u32 (t - s32 (d * 86400)) = t mod 86400).
  { assert (E : u32 (t - s32 (d * 86400)) = u32 (t - d * 86400))
      by (unfold u32, s32, U32_MOD; clear; div_lia).
    rewrite E, u32_small by (clear -Ht; unfold d; width_lia; div_lia). unfold d. clear. div_lia. }
  rewrite Htime. set (tod := t mod 86400).
  assert (Htod : 0 <= tod < 86400) by (unfold tod; clear; div_lia).
  destruct (year_pick d Hd) as (y & r & Hpick & Hy & Hr & Hday). cbv zeta in Hpick |- *. rewrite Hpick.
  destruct (month_loop y r Hr) as (m & q & -> & Hm & Hq & Hyd). cbn [mbind option_bind].
  eexists. split; [reflexivity|]. unfold date_ok, date_seconds, date_days. cbn.
  replace (y - 1900 + 1900) with y by lia. split; [|split; [|split; [|split; [|done]]]].
  - split; [done|]. split; [done|]. split; [lia|]. clear -Htod. width_lia. div_lia.
  - assert (E : t = d * 86400 + tod) by (unfold d, tod; clear; div_lia).
    rewrite E, Hday, Hyd. clear -Htod. width_lia. div_lia.
  - clear -Hd. div_lia.
  - lia.
Qed.

(** One month, given as a number. *)
Ltac gauss_case :=
  match goal with |- context [?a <=? 0] => let b := eval vm_compute in (a <=? 0) in change (a <=? 0) with b end;
  cbv iota; unfold month_start; simpl take; simpl foldr;
  repeat match goal with
  | |- context [367 * ?k / 12] => let v := eval vm_compute in (367 * k / 12) in change (367 * k / 12) with v
  | |- context [1 <? ?m] => let b := eval vm_compute in (1 <? m) in change (1 <? m) with b
  end; cbv iota; lia.

(** Gauss's formula against the lengths of the months. *)
Lemma gauss_months y m :
  1970 <= y <= 2106 -> 0 <= m <= 11 ->
  let '(mon, year) := if m - 1 <=? 0 then (m + 11, y - 1) else (m - 1, y) in
  year / 4 - year / 100 + year / 400 + 367 * mon / 12 + year * 365 - 719499 =
  year_start y + month_start (leap y) m - 1.
Proof.
  intros Hy Hm%month_cases. pose proof (leaps_step y ltac:(lia)) as Hl.
  unfold year_start. unfold LEAPS_THRU_END_OF in *. rewrite !Z.quot_div_nonneg in * by lia.
  change ((1970 - 1) / 4 - (1970 - 1) / 100 + (1970 - 1) / 400) with 477.
  repeat (apply elem_of_cons in Hm as [-> | Hm]; [gauss_case|]). by apply elem_of_nil in Hm.
Qed.

Lemma mktime_spec y m day hour min sec :
  1970 <= y <= 2106 -> 0 <= m <= 11 -> 1 <= day <= 31 ->
  mktime y (m + 1) day hour min sec =
  u32 ((((year_start y + month_start (leap y) m + day - 1) * 24 + hour) * 60 + min) * 60 + sec).
Proof.
  intros Hy Hm Hd. pose proof (gauss_months y m Hy Hm) as H. unfold mktime.
  replace (s32 (u32 (m + 1 - 2))) with (m - 1) by (clear -Hm; width_lia; div_lia).
  replace (u32 (u32 (m + 1 - 2) + 12)) with (m + 11) by (clear -Hm; width_lia; div_lia).
  rewrite (u32_small (y - 1)) by (clear -Hy; width_lia).
  assert (Hu : forall mon year, 0 <= mon <= 22 -> 1969 <= year <= 2106 ->
    year / 4 - year / 100 + year / 400 + 367 * mon / 12 + year * 365 - 719499 =
      year_start y + month_start (leap y) m - 1 ->
    u32 ((((u32 (year / 4 - year / 100 + year / 400 + u32 (367 * mon) / 12 + day) + year * 365 - 719499)
      * 24 + hour) * 60 + min) * 60 + sec) =
    u32 ((((year_start y + month_start (leap y) m + day - 1) * 24 + hour) * 60 + min) * 60 + sec)).
  { intros mon year Hmon Hyear E. rewrite (u32_small (367 * mon)) by (clear -Hmon; width_lia).
    rewrite (u32_small (year / 4 - year / 100 + year / 400 + 367 * mon / 12 + day))
      by (clear -Hmon Hyear Hd; width_lia; div_lia). f_equal. lia. }
  destruct (Z.leb_spec (m - 1) 0) as [Hle|Hgt]; [apply Hu; [lia|lia|done]|].
  rewrite (u32_small (m + 1 - 2)) by (clear -Hm Hgt; width_lia). replace (m + 1 - 2) with (m - 1) by lia.
  apply Hu; [lia|lia|done].
Qed.

Lemma tm_to_time_spec tm : date_ok tm -> rtc_tm_to_time tm = (0, u32 (date_seconds tm)).
Proof.
  intros (Hy & Hm & Hd & Hh & Hmin & Hs). unfold rtc_tm_to_time.
  pose proof (month_len_pos _ _ (leap_range (tm_year tm + 1900)) Hm) as Hlen.
  rewrite !u32_small by (clear -Hy Hm Hd Hh Hmin Hs Hlen; width_lia).
  rewrite mktime_spec by lia. unfold date_seconds, date_days. done.
Qed.

(** A day of a month as a day of the year. *)
Lemma month_range l m d :
  0 <= l <= 1 -> 0 <= m <= 11 -> 1 <= d <= month_len l m -> 0 <= month_start l m + (d - 1) < 365 + l.
Proof.
  intros Hl Hm Hd. pose proof (month_start_end l) as He. split.
  - enough (0 <= month_start l m) by lia. clear -Hl Hm. apply month_cases in Hm.
    repeat (apply elem_of_cons in Hm as [-> | Hm]; [unfold month_start; simpl; lia|]). by apply elem_of_nil in Hm.
  - destruct (decide (m = 11)) as [->|]; [lia|].
    pose proof (month_start_mono l m 11 Hl ltac:(lia) ltac:(lia)).
    pose proof (month_len_pos l 11 Hl ltac:(lia)). lia.
Qed.

(** The seconds determine the date. *)
Lemma date_unique tm tm' :
  date_ok tm -> date_ok tm' -> date_seconds tm = date_seconds tm' ->
  tm_year tm = tm_year tm' /\ tm_mon tm = tm_mon tm' /\ tm_mday tm = tm_mday tm' /\
  tm_hour tm = tm_hour tm' /\ tm_min tm = tm_min tm' /\ tm_sec tm = tm_sec tm'.
Proof.
  intros (Hy & Hm & Hd & Hh & Hmin & Hs) (Hy' & Hm' & Hd' & Hh' & Hmin' & Hs') E.
  assert (Hparts : date_days tm = date_days tm' /\ tm_hour tm = tm_hour tm' /\
    tm_min tm = tm_min tm' /\ tm_sec tm = tm_sec tm') by (unfold date_seconds in E; lia).
  destruct Hparts as (Edays & Eh & Emin & Es). unfold date_days in Edays. cbv zeta in Edays.
  set (y := tm_year tm + 1900) in *. set (y' := tm_year tm' + 1900) in *.
  pose proof month_range as Hr.
  destruct (year_unique y y' (month_start (leap y) (tm_mon tm) + (tm_mday tm - 1))
    (month_start (leap y') (tm_mon tm') + (tm_mday tm' - 1))) as [Ey Er];
    [lia|lia|apply Hr; [apply leap_range|done|done]|apply Hr; [apply leap_range|done|done]|lia|].
  rewrite <- Ey in *. destruct (month_unique (leap y) (tm_mon tm) (tm_mon tm') (tm_mday tm - 1) (tm_mday tm' - 1))
    as [Em Emd]; [apply leap_range|done|done|lia|lia|done|]. lia.
Qed.

(** ** What the callers can rely on *)

Lemma date_ok_valid tm : date_ok tm -> rtc_valid_tm tm = Some 0.
Proof.
  intros (Hy & Hm & Hd & Hh & Hmin & Hs). unfold rtc_valid_tm.
  rewrite !u32_small by (clear -Hy Hm; width_lia). rewrite month_days_len by done. cbn [mbind option_bind].
  repeat (match goal with
    | |- context [?a <? ?b] => destruct (Z.ltb_spec a b); [lia|]
    | |- context [?a <=? ?b] => destruct (Z.leb_spec a b); [lia|]
    end; cbn [orb]). done.
Qed.

(** C37: rtc_time_to_tm is well typed.  From every 32-bit number of seconds it makes a
    date that rtc_valid_tm accepts: seconds and minutes below 60, hours below 24, a
    month from 0 to 11, a day that this month has in this year, a year from 1970 to
    2106, a weekday from 0 to 6 that moves on by one each day from Thursday
    1970-01-01, a day of the year from 1 to 366; tm_isdst stays as it was. *)
Theorem rtc_time_to_tm_valid t tm :
  is_u32 t ->
  exists tm', rtc_time_to_tm t tm = Some tm' /\ rtc_valid_tm tm' = Some 0 /\
    0 <= tm_sec tm' < 60 /\ 0 <= tm_min tm' < 60 /\ 0 <= tm_hour tm' < 24 /\
    0 <= tm_mon tm' <= 11 /\ 70 <= tm_year tm' <= 206 /\
    (exists n, rtc_month_days (tm_mon tm') (tm_year tm' + 1900) = Some n /\ 1 <= tm_mday tm' <= n) /\
    tm_wday tm' = (t / 86400 + 4) mod 7 /\ 1 <= tm_yday tm' <= 366 /\ tm_isdst tm' = tm_isdst tm.
Proof.
  intros Ht. destruct (time_to_tm_spec t tm Ht) as (tm' & E & Hok & Hsec & Hw & Hyd & Hdst).
  exists tm'. split; [done|]. split; [by apply date_ok_valid|].
  pose proof Hok as (Hy & Hm & Hd & Hh & Hmin & Hs). do 4 (split; [done|]). split; [lia|].
  split; [exists (month_len (leap (tm_year tm' + 1900)) (tm_mon tm')); split; [by apply month_days_len|done]|].
  split; [done|]. split; [|done]. rewrite Hyd.
  assert (Hdays : t / 86400 = date_days tm').
  { rewrite <- Hsec. unfold date_seconds. clear -Hh Hmin Hs. div_lia. }
  pose proof (month_range _ _ _ (leap_range (tm_year tm' + 1900)) Hm Hd).
  rewrite Hdays. unfold date_days. cbv zeta. pose proof (leap_range (tm_year tm' + 1900)). lia.
Qed.

(** The last second before the signed 32-bit clock wraps: 2038-01-19 03:14:07. *)
Lemma rtc_time_to_tm_valid_witness :
  exists tm', rtc_time_to_tm (2 ^ 31 - 1) zero_tm = Some tm' /\ rtc_valid_tm tm' = Some 0 /\
    tm_year tm' = 138 /\ tm_mon tm' = 0 /\ tm_mday tm' = 19.
Proof.
  destruct (rtc_time_to_tm_valid (2 ^ 31 - 1) zero_tm) as (tm' & E & Hv & _); [width_lia|].
  exists tm'. vm_compute in E. injection E as <-. done.
Defined.

(** C38: the conversions are inverse to each other.  Every 32-bit number of seconds
    comes back from its date; and every date whose fields are in range and whose
    seconds fit in 32 bits comes back from its seconds, with the weekday and the day of
    the year filled in. *)
Theorem rtc_time_roundtrip tm :
  (forall t, is_u32 t -> exists tm', rtc_time_to_tm t tm = Some tm' /\ rtc_tm_to_time tm' = (0, t)) /\
  (date_ok tm -> date_seconds tm < 2 ^ 32 ->
   exists t tm', rtc_tm_to_time tm = (0, t) /\ rtc_time_to_tm t tm = Some tm' /\
     tm' = {| tm_sec := tm_sec tm; tm_min := tm_min tm; tm_hour := tm_hour tm; tm_mday := tm_mday tm;
              tm_mon := tm_mon tm; tm_year := tm_year tm; tm_wday := tm_wday tm'; tm_yday := tm_yday tm';
              tm_isdst := tm_isdst tm |}).
Proof.
  split.
  - intros t Ht. destruct (time_to_tm_spec t tm Ht) as (tm' & E & Hok & Hsec & _). exists tm'.
    split; [done|]. rewrite tm_to_time_spec by done. rewrite Hsec. by rewrite u32_small.
  - intros Hok Hlt. exists (date_seconds tm).
    assert (Ht : is_u32 (date_seconds tm)).
    { split; [|exact Hlt]. destruct Hok as (Hy & Hm & Hd & Hh & Hmin & Hs).
      pose proof (month_range _ _ _ (leap_range (tm_year tm + 1900)) Hm Hd).
      assert (0 <= year_start (tm_year tm + 1900)).
      { destruct (decide (tm_year tm + 1900 = 1970)) as [->|]; [done|].
        pose proof (year_start_mono 1970 (tm_year tm + 1900) ltac:(lia) ltac:(lia)) as H1.
        change (year_start 1970) with 0 in H1. pose proof (leap_range 1970). lia. }
      unfold date_seconds, date_days. cbv zeta. lia. }
    destruct (time_to_tm_spec (date_seconds tm) tm Ht) as (tm' & E & Hok' & Hsec & _ & _ & Hdst).
    exists tm'. split; [rewrite tm_to_time_spec by done; by rewrite u32_small|]. split; [done|].
    destruct (date_unique tm' tm Hok' Hok Hsec) as (E1 & E2 & E3 & E4 & E5 & E6).
    destruct tm'; simpl in *. by subst.
Qed.

(** 2000-02-29 12:00:00. *)
Definition leap_day : rtc_time :=
  {| tm_sec := 0; tm_min := 0; tm_hour := 12; tm_mday := 29; tm_mon := 1; tm_year := 100; tm_wday := 0;
     tm_yday := 0; tm_isdst := 0 |}.

Lemma rtc_time_roundtrip_witness :
  exists tm', rtc_tm_to_time leap_day = (0, 951825600) /\ rtc_time_to_tm 951825600 leap_day = Some tm' /\
    tm_mday tm' = 29 /\ tm_wday tm' = 2 /\ tm_yday tm' = 60.
Proof.
  destruct (proj2 (rtc_time_roundtrip leap_day)) as (t & tm' & E1 & E2 & _).
  - vm_compute. intuition discriminate.
  - vm_compute. reflexivity.
  - vm_compute in E1. injection E1 as <-. exists tm'. split; [reflexivity|]. split; [exact E2|].
    vm_compute in E2. by injection E2 as <-.
Defined.

(** Rtc_valid_tm on every date of ints.  It rejects what it finds out of range
    and accepts the rest, which includes negative hours, minutes and seconds; and
    it reads outside of its table of months exactly when the month is negative and the
    year and the day passed the tests before it. *)
Theorem rtc_valid_tm_cases tm :
  is_s32 (tm_mon tm) -> is_s32 (tm_year tm) ->
  (rtc_valid_tm tm = None <-> 70 <= tm_year tm /\ tm_mon tm < 0 /\ 1 <= tm_mday tm) /\
  (rtc_valid_tm tm = Some 0 <-> 70 <= tm_year tm /\ 0 <= tm_mon tm < 12 /\ 1 <= tm_mday tm /\
     tm_mday tm <= month_len (leap (tm_year tm + 1900)) (tm_mon tm) /\
     tm_hour tm < 24 /\ tm_min tm < 60 /\ tm_sec tm < 60) /\
  (rtc_valid_tm tm = None \/ rtc_valid_tm tm = Some 0 \/ rtc_valid_tm tm = Some (- EINVAL)).
Proof.
  intros Hm Hy. unfold rtc_valid_tm.
  destruct (Z.ltb_spec (tm_year tm) 70); cbn [orb]; [split; [|split]; [split; [done|lia]|split; [done|lia]|auto]|].
  destruct (Z.leb_spec 12 (tm_mon tm)); cbn [orb]; [split; [|split]; [split; [done|lia]|split; [done|lia]|auto]|].
  destruct (Z.ltb_spec (tm_mday tm) 1); cbn [orb]; [split; [|split]; [split; [done|lia]|split; [done|lia]|auto]|].
  destruct (Z.lt_ge_cases (tm_mon tm) 0) as [Hneg|Hpos].
  - assert (E : rtc_month_days (u32 (tm_mon tm)) (u32 (tm_year tm + 1900)) = None).
    { assert (Hbig : 12 <= u32 (tm_mon tm)) by (clear -Hneg Hm; width_lia; div_lia).
      unfold rtc_month_days, array_get. rewrite bool_decide_true by lia.
      rewrite lookup_ge_None_2; [done|]. change (length rtc_days_in_month) with 12%nat. lia. }
    rewrite E. cbn [mbind option_bind]. split; [|split]; [split; [lia|done]|split; [done|lia]|auto].
  - rewrite !u32_small by (clear -Hy Hm Hpos H; width_lia). rewrite month_days_len by lia. cbn [mbind option_bind].
    repeat (match goal with
      | |- context [?a <? ?b] => destruct (Z.ltb_spec a b)
      | |- context [?a <=? ?b] => destruct (Z.leb_spec a b)
      end; cbn [orb]); (split; [|split]; [split; [done|lia]|split; [try done; lia|try done; lia]|auto]).
Qed.

(** A month of -1. *)
Lemma rtc_valid_tm_witness :
  rtc_valid_tm {| tm_sec := 0; tm_min := 0; tm_hour := 0; tm_mday := 1; tm_mon := -1; tm_year := 106;
                  tm_wday := 0; tm_yday := 0; tm_isdst := 0 |} = None.
Proof.
  set (tm := Build_rtc_time 0 0 0 1 (-1) 106 0 0 0).
  destruct (rtc_valid_tm_cases tm) as [H _]; [unfold tm; simpl; width_lia|unfold tm; simpl; width_lia|].
  apply H. unfold tm. simpl. lia.
Defined.
