(* ===== verification/RtcSh.v ===== *)
(** drivers/rtc/rtc-sh.c on the SH3, with the clock calls of drivers/rtc/interface.c.

    The device is an interface of two operations, the read and the write of an 8-bit
    register; what the driver relies on is stated as laws of the device.  Time passes
    while a register is read or written: the clock may advance at every access. *)
From stdpp Require Import base list gmap numbers option.
From Stdlib Require Import ZArith Lia.
From S2P Require Import Prelude Bitops RtcLib.

Local Open Scope Z_scope.

(** ** The device *)

Class RtcDevice (hw : Type) := {
  readb : hw -> Z -> Z * hw;
  writeb : hw -> Z -> Z -> hw
}.

(** RTC_REG(r) for registers of 16 bits. *)
Definition RTC_REG (r : Z) : Z := r * 2.
Definition R64CNT : Z := RTC_REG 0.
Definition RSECCNT : Z := RTC_REG 1.
Definition RMINCNT : Z := RTC_REG 2.
Definition RHRCNT : Z := RTC_REG 3.
Definition RWKCNT : Z := RTC_REG 4.
Definition RDAYCNT : Z := RTC_REG 5.
Definition RMONCNT : Z := RTC_REG 6.
Definition RYRCNT : Z := RTC_REG 7.
Definition RCR1 : Z := RTC_REG 14.
Definition RCR2 : Z := RTC_REG 15.

Definition RCR1_CF : Z := 0x80.
Definition RCR1_CIE : Z := 0x10.
Definition RCR1_AIE : Z := 0x08.
Definition RCR1_AF : Z := 0x01.
Definition RCR2_PEF : Z := 0x80.
Definition RCR2_PESMASK : Z := 0x70.
Definition RCR2_RTCEN : Z := 0x08.
Definition RCR2_RESET : Z := 0x02.
Definition RCR2_START : Z := 0x01.
Definition RTC_BIT_INVERTED : Z := 0.

(** include/linux/bcd.h; the macros, on arguments whose evaluation has no effect. *)
Definition BCD2BIN (val : Z) : Z := Z.land val 0x0f + Z.shiftr val 4 * 10.
Definition BIN2BCD (val : Z) : Z := Z.shiftl (Z.quot val 10) 4 + Z.rem val 10.

Section driver.
Context {hw : Type} `{dev : RtcDevice hw}.

(** ** Interrupts *)

(** rtc_update_irq (interface.c) adds the events to the mask that the readers of
    /dev/rtc collect: the result is the mask that it is given. *)
Definition RTC_IRQF : Z := 0x80.
Definition RTC_PF : Z := 0x40.
Definition RTC_AF : Z := 0x20.

Definition sh_rtc_interrupt (h : hw) : Z * hw :=
  let '(tmp, h) := readb h RCR1 in
  let events := if Z.land tmp RCR1_AF =? 0 then 0 else Z.lor RTC_AF RTC_IRQF in
  let tmp := Z.land tmp (not32 (Z.lor RCR1_CF RCR1_AF)) in
  (events, writeb h RCR1 (u8 tmp)).

Definition sh_rtc_periodic (h : hw) : Z * hw := (Z.lor RTC_PF RTC_IRQF, h).

Definition sh_rtc_setpie (h : hw) (enable : bool) : hw :=
  let '(tmp, h) := readb h RCR2 in
  let tmp :=
    if enable then Z.lor (Z.land tmp (not32 RCR2_PESMASK)) (Z.lor RCR2_PEF (Z.shiftl 2 4))
    else Z.land tmp (not32 (Z.lor RCR2_PESMASK RCR2_PEF)) in
  writeb h RCR2 (u8 tmp).

Definition sh_rtc_setaie (h : hw) (enable : bool) : hw :=
  let '(tmp, h) := readb h RCR1 in
  let tmp := if enable then Z.lor tmp RCR1_AIE else Z.land tmp (not32 RCR1_AIE) in
  writeb h RCR1 (u8 tmp).

(** The commands of include/linux/rtc.h that the driver knows. *)
Inductive rtc_cmd := RTC_PIE_OFF | RTC_PIE_ON | RTC_AIE_OFF | RTC_AIE_ON | RTC_OTHER.

Definition ENOIOCTLCMD : Z := 515.

Definition sh_rtc_ioctl (h : hw) (cmd : rtc_cmd) : Z * hw :=
  match cmd with
  | RTC_PIE_OFF => (0, sh_rtc_setpie h false)
  | RTC_PIE_ON => (0, sh_rtc_setpie h true)
  | RTC_AIE_OFF => (0, sh_rtc_setaie h false)
  | RTC_AIE_ON => (0, sh_rtc_setaie h true)
  | RTC_OTHER => (- ENOIOCTLCMD, h)
  end.

(** ** The clock *)

(** The order in which the operands of + in BCD2BIN are evaluated, which C leaves open. *)
Context (low_first : Z -> bool).

(** BCD2BIN(readb(r)): the macro evaluates its argument twice, so the register is read twice, once
    for each digit. *)
Definition BCD2BIN_readb (h : hw) (r : Z) : Z * hw :=
  let '(val1, h) := readb h r in
  let '(val2, h) := readb h r in
  let '(low, high) := if low_first r then (val1, val2) else (val2, val1) in
  (Z.land low 0x0f + Z.shiftr high 4 * 10, h).

(** The body of the do loop of sh_rtc_read_time: the date, the carry flag, and the two
    readings of R64CNT. *)
Definition read_pass (h : hw) (tm : rtc_time) : rtc_time * Z * Z * Z * hw :=
  let '(tmp, h) := readb h RCR1 in
  let tmp := Z.land tmp (not32 RCR1_CF) in
  let tmp := Z.lor tmp RCR1_CIE in
  let h := writeb h RCR1 (u8 tmp) in
  let '(sec128, h) := readb h R64CNT in
  let '(sec, h) := BCD2BIN_readb h RSECCNT in
  let '(min, h) := BCD2BIN_readb h RMINCNT in
  let '(hour, h) := BCD2BIN_readb h RHRCNT in
  let '(wday, h) := BCD2BIN_readb h RWKCNT in
  let '(mday, h) := BCD2BIN_readb h RDAYCNT in
  let '(mon, h) := BCD2BIN_readb h RMONCNT in
  let '(yr, h) := readb h RYRCNT in
  let yr100 := BCD2BIN (if yr =? 0x99 then 0x19 else 0x20) in
  let year := s32 (u32 (yr100 * 100 + BCD2BIN yr) - 1900) in
  let '(sec2, h) := readb h R64CNT in
  let '(rcr1, h) := readb h RCR1 in
  ({| tm_sec := sec; tm_min := min; tm_hour := hour; tm_mday := mday;
      tm_mon := mon; tm_year := year; tm_wday := wday; tm_yday := tm_yday tm;
      tm_isdst := tm_isdst tm |}, Z.land rcr1 RCR1_CF, sec128, sec2, h).

Definition read_body (st : rtc_time * hw) : (rtc_time * hw) + (Z * rtc_time * hw) :=
  let '(tm, h) := st in
  let '(tm, cf_bit, sec128, sec2, h) := read_pass h tm in
  if negb (cf_bit =? 0) || negb (Z.land (Z.lxor sec128 sec2) RTC_BIT_INVERTED =? 0)
  then inl (tm, h) else inr (0, tm, h).

(** [fuel] bounds the number of retries; an invalid date is only reported in the log. *)
Definition sh_rtc_read_time (fuel : nat) (h : hw) (tm : rtc_time) : option (Z * rtc_time * hw) :=
  loop fuel read_body (tm, h).

Definition sh_rtc_set_time (h : hw) (tm : rtc_time) : Z * hw :=
  let '(tmp, h) := readb h RCR2 in
  let h := writeb h RCR2 (u8 (Z.lor tmp RCR2_RESET)) in
  let h := writeb h RSECCNT (u8 (BIN2BCD (tm_sec tm))) in
  let h := writeb h RMINCNT (u8 (BIN2BCD (tm_min tm))) in
  let h := writeb h RHRCNT (u8 (BIN2BCD (tm_hour tm))) in
  let h := writeb h RWKCNT (u8 (BIN2BCD (tm_wday tm))) in
  let h := writeb h RDAYCNT (u8 (BIN2BCD (tm_mday tm))) in
  let h := writeb h RMONCNT (u8 (BIN2BCD (tm_mon tm))) in
  let year := Z.rem (tm_year tm) 100 in
  let h := writeb h RYRCNT (u8 (BIN2BCD year)) in
  let '(tmp, h) := readb h RCR2 in
  let tmp := Z.land tmp (not32 RCR2_RESET) in
  let tmp := Z.lor tmp (Z.lor RCR2_RTCEN RCR2_START) in
  (0, writeb h RCR2 (u8 tmp)).

(** ** drivers/rtc/interface.c *)

Record rtc_class_ops := {
  read_time : option (hw -> rtc_time -> option (Z * rtc_time * hw));
  set_time : option (hw -> rtc_time -> option (Z * hw))
}.

(** [locked] is the result of mutex_lock_interruptible, [ops] the driver or NULL. *)
Definition rtc_read_time (locked : Z) (ops : option rtc_class_ops) (h : hw) (tm : rtc_time)
    : option (Z * rtc_time * hw) :=
  if negb (locked =? 0) then Some (- EBUSY, tm, h)
  else match ops with
       | None => Some (- ENODEV, tm, h)
       | Some o => match read_time o with
                   | None => Some (- EINVAL, tm, h)
                   | Some f => f h zero_tm
                   end
       end.

Definition rtc_set_time (locked : Z) (ops : option rtc_class_ops) (h : hw) (tm : rtc_time)
    : option (Z * hw) :=
  err ← rtc_valid_tm tm;
  if negb (err =? 0) then Some (err, h)
  else if negb (locked =? 0) then Some (- EBUSY, h)
  else match ops with
       | None => Some (- ENODEV, h)
       | Some o => match set_time o with
                   | None => Some (- EINVAL, h)
                   | Some f => f h tm
                   end
       end.

(** For a driver without set_mmss. *)
Definition rtc_set_mmss (locked : Z) (ops : option rtc_class_ops) (h : hw) (secs : Z) (stack : rtc_time)
    : option (Z * hw) :=
  if negb (locked =? 0) then Some (- EBUSY, h)
  else match ops with
       | None => Some (- ENODEV, h)
       | Some o =>
           match read_time o, set_time o with
           | Some rd, Some st =>
               '(err, old, h) ← rd h stack;
               if err =? 0 then
                 new ← rtc_time_to_tm secs stack;
                 if negb (((tm_hour old =? 23) && (tm_min old =? 59)) ||
                          ((tm_hour new =? 23) && (tm_min new =? 59)))
                 then st h new else Some (err, h)
               else Some (err, h)
           | _, _ => Some (- EINVAL, h)
           end
       end.

Definition sh_rtc_ops (fuel : nat) : rtc_class_ops :=
  {| read_time := Some (sh_rtc_read_time fuel);
     set_time := Some (fun h tm => Some (sh_rtc_set_time h tm)) |}.
End driver.

(** ** What the driver relies on *)

Definition clock_regs : list Z := [RSECCNT; RMINCNT; RHRCNT; RWKCNT; RDAYCNT; RMONCNT; RYRCNT].

(** What a counter can be set to: two decimal digits in its range (the ranges that
    arch/sh/kernel/cpu/rtc.c checks; a counter has no more bits than they need). *)
Definition counter_range (r : Z) : Z * Z :=
  if r =? RSECCNT then (0, 59) else if r =? RMINCNT then (0, 59) else if r =? RHRCNT then (0, 23)
  else if r =? RWKCNT then (0, 6) else if r =? RDAYCNT then (1, 31) else if r =? RMONCNT then (1, 12)
  else (0, 99).
Definition settable (r v : Z) : Prop :=
  exists n, v = BIN2BCD n /\ (counter_range r).1 <= n <= (counter_range r).2.

(** The laws, after the hardware manual.  [reg] is the contents of a register at an instant and [ticks] the number
    of seconds that have ended by then.  The counters move only when a second ends; when this is
    during a read, what is read from a counter is not guaranteed, and the carry flag is set, which
    reads do not clear.  A counter takes what is written to it, in its range, when no
    second ends meanwhile. *)
Class RtcLaws (hw : Type) {dev : RtcDevice hw} := {
  reg : hw -> Z -> Z;
  ticks : hw -> Z;
  readb_u8 : forall h r, is_u8 (fst (readb h r));
  readb_time : forall h r, ticks h <= ticks (snd (readb h r));
  writeb_time : forall h r v, ticks h <= ticks (writeb h r v);
  readb_control : forall h r, r ∉ clock_regs -> fst (readb h r) = reg h r;
  readb_counter : forall h r, ticks (snd (readb h r)) = ticks h -> fst (readb h r) = reg h r;
  readb_still : forall h r c, ticks (snd (readb h r)) = ticks h -> c ∈ clock_regs ->
    reg (snd (readb h r)) c = reg h c;
  readb_carry : forall h r, ticks h < ticks (snd (readb h r)) ->
    Z.land (reg (snd (readb h r)) RCR1) RCR1_CF <> 0;
  readb_sticky : forall h r, Z.land (reg h RCR1) RCR1_CF <> 0 ->
    Z.land (reg (snd (readb h r)) RCR1) RCR1_CF <> 0;
  writeb_counter : forall h r v, ticks (writeb h r v) = ticks h -> r ∈ clock_regs -> settable r v ->
    reg (writeb h r v) r = v;
  writeb_still : forall h r v c, ticks (writeb h r v) = ticks h -> c ∈ clock_regs -> c <> r ->
    reg (writeb h r v) c = reg h c
}.

(** The date in the registers, by the rules of sh_rtc_read_time. *)
Definition decode (f : Z -> Z) (tm : rtc_time) : rtc_time :=
  {| tm_sec := BCD2BIN (f RSECCNT); tm_min := BCD2BIN (f RMINCNT); tm_hour := BCD2BIN (f RHRCNT);
     tm_mday := BCD2BIN (f RDAYCNT); tm_mon := BCD2BIN (f RMONCNT);
     tm_year := (if f RYRCNT =? 0x99 then 0 else 100) + BCD2BIN (f RYRCNT);
     tm_wday := BCD2BIN (f RWKCNT); tm_yday := tm_yday tm; tm_isdst := tm_isdst tm |}.

(** The registers for a date. *)
Definition encodes (f : Z -> Z) (tm : rtc_time) : Prop :=
  f RSECCNT = BIN2BCD (tm_sec tm) /\ f RMINCNT = BIN2BCD (tm_min tm) /\ f RHRCNT = BIN2BCD (tm_hour tm) /\
  f RWKCNT = BIN2BCD (tm_wday tm) /\ f RDAYCNT = BIN2BCD (tm_mday tm) /\
  f RMONCNT = BIN2BCD (tm_mon tm) /\ f RYRCNT = BIN2BCD (Z.rem (tm_year tm) 100).

(** Two decimal digits. *)
Lemma bcd_digits v : 0 <= v < 100 -> is_u8 (BIN2BCD v) /\ BCD2BIN (BIN2BCD v) = v.
Proof.
  intros Hv. unfold BIN2BCD, BCD2BIN. rewrite Z.quot_div_nonneg, Z.rem_mod_nonneg by lia.
  rewrite Z.shiftl_mul_pow2, Z.shiftr_div_pow2 by lia. change 0x0f with (Z.ones 4).
  rewrite Z.land_ones by lia. change (2 ^ 4) with 16. unfold is_u8, U8_MOD.
  change (2 ^ 8) with 256. split; div_lia.
Qed.

(** No two numbers have the same digits. *)
Lemma bcd_inj v w : 0 <= v < 100 -> 0 <= w < 100 -> BIN2BCD v = BIN2BCD w -> v = w.
Proof.
  intros Hv Hw E. rewrite <- (proj2 (bcd_digits v Hv)), E. by apply bcd_digits.
Qed.

Section clock.
Context {hw : Type} {dev : RtcDevice hw} {laws : RtcLaws hw}.

Definition carry (h : hw) : bool := negb (Z.land (reg h RCR1) RCR1_CF =? 0).

(** The counters are the same and no second has ended. *)
Definition same_clock (h h' : hw) : Prop :=
  ticks h' = ticks h /\ forall c, c ∈ clock_regs -> reg h' c = reg h c.

Lemma same_clock_trans h1 h2 h3 : same_clock h1 h2 -> same_clock h2 h3 -> same_clock h1 h3.
Proof. intros [T1 R1] [T2 R2]. split; [congruence|]. intros c Hc. by rewrite R2, R1. Qed.

Lemma readb_eq h r : readb h r = (fst (readb h r), snd (readb h r)).
Proof. by destruct (readb h r). Qed.

Lemma read_same h r : ticks (snd (readb h r)) = ticks h -> same_clock h (snd (readb h r)).
Proof. intros E. split; [done|]. intros c Hc. by apply readb_still. Qed.

Lemma read_no_carry h r : carry (snd (readb h r)) = false -> carry h = false /\ same_clock h (snd (readb h r)).
Proof.
  unfold carry. rewrite !negb_false_iff, !Z.eqb_eq. intros H. split.
  - destruct (Z.eq_dec (Z.land (reg h RCR1) RCR1_CF) 0) as [|Hn]; [done|]. by apply (readb_sticky h r) in Hn.
  - apply read_same. pose proof (readb_time h r) as Ht. destruct (Z.eq_dec (ticks (snd (readb h r))) (ticks h)); [done|].
    exfalso. apply (readb_carry h r); [lia|done].
Qed.

(** The device after a list of reads. *)
Definition after_reads (h : hw) (rs : list Z) : hw := foldl (fun h r => snd (readb h r)) h rs.

Lemma after_reads_app h rs rs' : after_reads h (rs ++ rs') = after_reads (after_reads h rs) rs'.
Proof. apply foldl_app. Qed.

Lemma reads_time rs : forall h, ticks h <= ticks (after_reads h rs).
Proof.
  induction rs as [|r rs IH]; intros h; [done|]. etransitivity; [apply (readb_time h r)|apply IH].
Qed.

(** Without a carry at the end the clock did not move at all. *)
Lemma reads_no_carry rs : forall h, carry (after_reads h rs) = false -> carry h = false /\ same_clock h (after_reads h rs).
Proof.
  induction rs as [|r rs IH]; intros h H; [done|]. destruct (IH (snd (readb h r)) H) as [H1 H2].
  destruct (read_no_carry h r H1) as [H3 H4]. split; [done|]. by eapply same_clock_trans.
Qed.

Lemma reads_same rs : forall h, ticks (after_reads h rs) = ticks h -> same_clock h (after_reads h rs).
Proof.
  induction rs as [|r rs IH]; intros h H; [done|].
  change (after_reads h (r :: rs)) with (after_reads (snd (readb h r)) rs) in *.
  pose proof (readb_time h r). pose proof (reads_time rs (snd (readb h r))).
  eapply same_clock_trans; [apply (read_same h r); lia|apply IH; lia].
Qed.

(** A counter that is read twice. *)
Lemma bcd_readb_spec lf h r :
  snd (BCD2BIN_readb lf h r) = after_reads h [r; r] /\
  (same_clock h (after_reads h [r; r]) -> r ∈ clock_regs -> fst (BCD2BIN_readb lf h r) = BCD2BIN (reg h r)).
Proof.
  unfold BCD2BIN_readb. rewrite (readb_eq h r), (readb_eq (snd (readb h r)) r). cbn [after_reads foldl].
  split; [by destruct (lf r)|]. intros [T _] Hr. pose proof (readb_time h r). pose proof (readb_time (snd (readb h r)) r).
  assert (E1 : ticks (snd (readb h r)) = ticks h) by lia.
  assert (Hv1 : fst (readb h r) = reg h r) by (by apply readb_counter).
  assert (Hv2 : fst (readb (snd (readb h r)) r) = reg h r).
  { rewrite readb_counter by lia. by apply readb_still. }
  rewrite Hv1, Hv2. by destruct (lf r).
Qed.

(** The year, from its two digits. *)
Lemma year_of_digits yr : is_u8 yr ->
  s32 (u32 (BCD2BIN (if yr =? 0x99 then 0x19 else 0x20) * 100 + BCD2BIN yr) - 1900) =
  (if yr =? 0x99 then 0 else 100) + BCD2BIN yr.
Proof.
  intros Hy. assert (Hb : 0 <= BCD2BIN yr <= 165).
  { unfold BCD2BIN. rewrite Z.shiftr_div_pow2 by lia. change 0x0f with (Z.ones 4).
    rewrite Z.land_ones by lia. change (2 ^ 4) with 16. unfold is_u8, U8_MOD in Hy.
    change (2 ^ 8) with 256 in Hy. div_lia. }
  destruct (yr =? 0x99); [change (BCD2BIN 0x19) with 19|change (BCD2BIN 0x20) with 20];
    clear Hy; generalize dependent (BCD2BIN yr); intros b Hb; rewrite u32_small by width_lia;
    rewrite s32_small by width_lia; lia.
Qed.

(** The reads of one pass up to the last one, which is of RCR1. *)
Definition pass_reads : list Z :=
  [R64CNT; RSECCNT; RSECCNT; RMINCNT; RMINCNT; RHRCNT; RHRCNT; RWKCNT; RWKCNT; RDAYCNT; RDAYCNT; RMONCNT; RMONCNT;
   RYRCNT; R64CNT].

Definition pass_start (h : hw) : hw :=
  writeb (snd (readb h RCR1)) RCR1 (u8 (Z.lor (Z.land (reg h RCR1) (not32 RCR1_CF)) RCR1_CIE)).

Definition pass_end (h : hw) : hw := after_reads (pass_start h) pass_reads.

(** The device after a pass. *)
Definition next_pass (h : hw) : hw := snd (readb (pass_end h) RCR1).

Lemma is_clock_reg k : k ∈ [1; 2; 3; 4; 5; 6; 7] -> RTC_REG k ∈ clock_regs.
Proof.
  intros Hk. unfold clock_regs. repeat (apply elem_of_cons in Hk as [-> | Hk]; [rewrite !elem_of_cons; auto 10|]).
  by apply elem_of_nil in Hk.
Qed.

Lemma control_reg r : r = RCR1 \/ r = RCR2 -> r ∉ clock_regs.
Proof. intros [-> | ->] H; vm_compute in H; repeat (apply elem_of_cons in H as [?|H]; [done|]); by apply elem_of_nil in H. Qed.

(** Two reads in a row. *)
Lemma bcd_step lf h rs r : BCD2BIN_readb lf (after_reads h rs) r =
  (fst (BCD2BIN_readb lf (after_reads h rs) r), after_reads h (rs ++ [r; r])).
Proof. rewrite after_reads_app, <- (proj1 (bcd_readb_spec lf _ r)). by destruct (BCD2BIN_readb lf _ r). Qed.

Lemma read_step h rs r : readb (after_reads h rs) r = (fst (readb (after_reads h rs) r), after_reads h (rs ++ [r])).
Proof. rewrite after_reads_app. apply readb_eq. Qed.

Lemma read_pass_spec lf h tm :
  exists tm' s1 s2, read_pass lf h tm =
      (tm', Z.land (reg (pass_end h) RCR1) RCR1_CF, s1, s2, next_pass h) /\
    tm_yday tm' = tm_yday tm /\ tm_isdst tm' = tm_isdst tm /\
    (carry (pass_end h) = false -> tm' = decode (reg (pass_end h)) tm).
Proof.
  set (p := pass_start h). assert (Hsplit : forall rs rs', pass_reads = rs ++ rs' -> carry (pass_end h) = false ->
    carry (after_reads p rs) = false /\ same_clock (after_reads p rs) (pass_end h)).
  { intros rs rs' E Hq. unfold pass_end in *. fold p in Hq |- *. rewrite E, after_reads_app in *. by apply reads_no_carry. }
  assert (Hbcd : forall rs r rs', pass_reads = rs ++ r :: r :: rs' -> r ∈ clock_regs -> carry (pass_end h) = false ->
    fst (BCD2BIN_readb lf (after_reads p rs) r) = BCD2BIN (reg (pass_end h) r)).
  { intros rs r rs' E Hr Hq. destruct (Hsplit (rs ++ [r; r]) rs' ltac:(by rewrite <- app_assoc) Hq) as [Hc _].
    rewrite after_reads_app in Hc. destruct (reads_no_carry _ _ Hc) as [_ Hs].
    rewrite (proj2 (bcd_readb_spec lf _ r) Hs Hr). f_equal. symmetry. by apply (Hsplit rs (r :: r :: rs')). }
  unfold read_pass. rewrite (readb_eq h RCR1), (readb_control h RCR1) by (apply control_reg; by left). fold (pass_start h). fold p.
  assert (Hb : forall rs r k, (let '(x, h) := BCD2BIN_readb lf (after_reads p rs) r in k x h) =
    k (fst (BCD2BIN_readb lf (after_reads p rs) r)) (after_reads p (rs ++ [r; r])) :> rtc_time * Z * Z * Z * hw)
    by (intros; by rewrite bcd_step at 1).
  assert (Hr : forall rs r k, (let '(x, h) := readb (after_reads p rs) r in k x h) =
    k (fst (readb (after_reads p rs) r)) (after_reads p (rs ++ [r])) :> rtc_time * Z * Z * Z * hw)
    by (intros; by rewrite read_step at 1).
  change p with (after_reads p []) at 1. rewrite Hr, 6!Hb, Hr. cbv zeta. rewrite !Hr. cbn [app].
  change (after_reads p [R64CNT; RSECCNT; RSECCNT; RMINCNT; RMINCNT; RHRCNT; RHRCNT; RWKCNT; RWKCNT; RDAYCNT; RDAYCNT; RMONCNT; RMONCNT;
   RYRCNT; R64CNT]) with (pass_end h).
  rewrite (readb_control (pass_end h) RCR1) by (apply control_reg; by left).
  do 3 eexists. split; [reflexivity|]. split; [done|]. split; [done|]. intros Hq. unfold decode.
  assert (Hyr : forall rs rs', pass_reads = rs ++ RYRCNT :: rs' -> fst (readb (after_reads p rs) RYRCNT) = reg (pass_end h) RYRCNT).
  { intros rs rs' E. destruct (Hsplit (rs ++ [RYRCNT]) rs' ltac:(by rewrite <- app_assoc) Hq) as [Hc _].
    rewrite after_reads_app in Hc. destruct (reads_no_carry _ _ Hc) as [_ [Ht _]].
    rewrite readb_counter by exact Ht. symmetry. apply (Hsplit rs (RYRCNT :: rs') E Hq). apply (is_clock_reg 7). rewrite !elem_of_cons. auto 10. }
  assert (Hc7 : forall k, k ∈ [1; 2; 3; 4; 5; 6; 7] -> RTC_REG k ∈ clock_regs) by apply is_clock_reg.
  rewrite year_of_digits by apply readb_u8. pose proof (Hyr (take 13 pass_reads) _ eq_refl) as E7.
  pose proof (Hbcd (take 1 pass_reads) RSECCNT _ eq_refl) as E1. pose proof (Hbcd (take 3 pass_reads) RMINCNT _ eq_refl) as E2.
  pose proof (Hbcd (take 5 pass_reads) RHRCNT _ eq_refl) as E3. pose proof (Hbcd (take 7 pass_reads) RWKCNT _ eq_refl) as E4.
  pose proof (Hbcd (take 9 pass_reads) RDAYCNT _ eq_refl) as E5. pose proof (Hbcd (take 11 pass_reads) RMONCNT _ eq_refl) as E6.
  cbn [take pass_reads] in E1, E2, E3, E4, E5, E6, E7.
  rewrite E1, E2, E3, E4, E5, E6, E7 by (done || (apply is_clock_reg; rewrite !elem_of_cons; auto 10)). done.
Qed.

Lemma decode_same f tm tm' :
  tm_yday tm' = tm_yday tm -> tm_isdst tm' = tm_isdst tm -> decode f tm' = decode f tm.
Proof. intros H1 H2. unfold decode. by rewrite H1, H2. Qed.

(** The loop ends with the first pass without a carry. *)
Lemma read_time_spec lf n : forall h tm, carry (pass_end (Nat.iter n next_pass h)) = false ->
  exists k, (k <= n)%nat /\ (forall j, (j < k)%nat -> carry (pass_end (Nat.iter j next_pass h)) = true) /\
    let hs := pass_end (Nat.iter k next_pass h) in carry hs = false /\
    forall fuel, (n < fuel)%nat ->
      sh_rtc_read_time lf fuel h tm = Some (0, decode (reg hs) tm, snd (readb hs RCR1)).
Proof.
  induction n as [|n IH]; intros h tm Hq;
    destruct (read_pass_spec lf h tm) as (tm' & s1 & s2 & E & Hy & Hd & Hdec);
    (destruct (carry (pass_end h)) eqn:Hc;
      [|exists 0%nat; split; [lia|]; split; [lia|]; split; [done|]; intros [|fuel] Hf; [lia|];
        unfold sh_rtc_read_time; rewrite loop_S; unfold read_body; rewrite E;
        unfold carry in Hc; apply negb_false_iff in Hc; rewrite Hc; unfold RTC_BIT_INVERTED;
        rewrite Z.land_0_r; simpl; by rewrite Hdec]).
  - simpl in Hq. congruence.
  - rewrite Nat.iter_succ_r in Hq. destruct (IH (next_pass h) tm' Hq) as (k & Hk & Hfst & Hs & Hres).
    exists (S k). split; [lia|]. split.
    { intros [|j] Hj; [done|]. rewrite Nat.iter_succ_r. apply Hfst. lia. }
    rewrite Nat.iter_succ_r. split; [done|].
    intros [|fuel] Hf; [lia|]. unfold sh_rtc_read_time. rewrite loop_S. unfold read_body at 1. rewrite E.
    unfold carry in Hc. rewrite Hc. cbn [orb].
    rewrite <- (decode_same _ tm tm' Hy Hd). apply Hres. lia.
Qed.

(** The clock over a pass in which no second ends. *)
Lemma start_time h : ticks h <= ticks (pass_start h).
Proof. etransitivity; [apply (readb_time h RCR1)|apply writeb_time]. Qed.

Lemma pass_time h : ticks h <= ticks (pass_end h) /\ ticks (pass_end h) <= ticks (next_pass h).
Proof.
  split; [etransitivity; [apply start_time|apply reads_time]|apply readb_time].
Qed.

Lemma pass_same h : ticks (pass_end h) = ticks h -> same_clock h (pass_end h).
Proof.
  intros E. pose proof (readb_time h RCR1) as T1. pose proof (reads_time pass_reads (pass_start h)) as T3. fold (pass_end h) in T3.
  pose proof (writeb_time (snd (readb h RCR1)) RCR1 (u8 (Z.lor (Z.land (reg h RCR1) (not32 RCR1_CF)) RCR1_CIE))) as T2.
  fold (pass_start h) in T2. eapply same_clock_trans; [apply (read_same h RCR1); lia|].
  apply (same_clock_trans _ (pass_start h)); [|apply reads_same; fold (pass_end h); lia]. split; [lia|].
  intros c Hc. apply writeb_still; [unfold pass_start in *; lia|done|]. intros ->. by apply (control_reg RCR1 (or_introl eq_refl)).
Qed.

Lemma next_same h : ticks (next_pass h) = ticks h -> same_clock h (next_pass h).
Proof.
  intros E. pose proof (pass_time h) as [T1 T2]. eapply same_clock_trans; [apply pass_same; lia|]. apply read_same.
  unfold next_pass in *. lia.
Qed.

Lemma passes_same k : forall h, ticks h <= ticks (Nat.iter k next_pass h) /\
  (ticks (Nat.iter k next_pass h) = ticks h -> same_clock h (Nat.iter k next_pass h)).
Proof.
  induction k as [|k IH]; intros h; [done|]. rewrite Nat.iter_succ_r. destruct (IH (next_pass h)) as [T S].
  pose proof (pass_time h) as [T1 T2]. split; [lia|]. intros E. eapply same_clock_trans; [apply next_same; lia|apply S; lia].
Qed.

(** ** Setting the clock *)

(** A date whose fields are in the ranges of the counters, as the driver writes them: tm_mon, which
    counts from 0, is written to a counter from 1 to 12. *)
Definition in_counters (tm : rtc_time) : Prop :=
  0 <= tm_sec tm < 60 /\ 0 <= tm_min tm < 60 /\ 0 <= tm_hour tm < 24 /\ 0 <= tm_wday tm < 7 /\
  1 <= tm_mday tm <= 31 /\ 1 <= tm_mon tm < 12 /\ 0 <= tm_year tm.

Lemma u8_digits v : 0 <= v < 100 -> u8 (BIN2BCD v) = BIN2BCD v.
Proof. intros Hv. destruct (bcd_digits v Hv) as [H _]. by apply Z.mod_small. Qed.

(** The writes of the counters, one after the other. *)
Definition after_writes (h : hw) (ws : list (Z * Z)) : hw := foldl (fun h w => writeb h w.1 w.2) h ws.

Lemma writes_time ws : forall h, ticks h <= ticks (after_writes h ws).
Proof. induction ws as [|w ws IH]; intros h; [done|]. etransitivity; [apply (writeb_time h w.1 w.2)|apply IH]. Qed.

(** When no second ends, every counter that is written once keeps what was written. *)
Lemma writes_spec ws : forall h, ticks (after_writes h ws) = ticks h -> NoDup ws.*1 ->
  (forall r v, (r, v) ∈ ws -> r ∈ clock_regs -> settable r v -> reg (after_writes h ws) r = v) /\
  (forall c, c ∈ clock_regs -> c ∉ ws.*1 -> reg (after_writes h ws) c = reg h c).
Proof.
  induction ws as [|[r0 v0] ws IH]; intros h Ht Hn; [by split; [intros r v ?%elem_of_nil|]|].
  change (after_writes h ((r0, v0) :: ws)) with (after_writes (writeb h r0 v0) ws) in *.
  pose proof (writeb_time h r0 v0) as T1. pose proof (writes_time ws (writeb h r0 v0)) as T2.
  assert (E1 : ticks (writeb h r0 v0) = ticks h) by (apply Z.le_antisymm; [rewrite <- Ht; exact T2|exact T1]).
  cbn [fmap list_fmap fst] in Hn. apply list.NoDup_cons in Hn as [Hn0 Hn]. rewrite <- E1 in Ht.
  destruct (IH (writeb h r0 v0) Ht Hn) as [IH1 IH2]. split.
  - intros r v [[= -> ->]|Hin]%elem_of_cons Hr Hs; [|by apply IH1].
    rewrite IH2 by done. by apply writeb_counter.
  - intros c Hc [Hne Hc']%not_elem_of_cons. rewrite IH2 by done. by apply writeb_still.
Qed.

Lemma set_time_writes h tm : in_counters tm -> exists v1 v2, snd (sh_rtc_set_time h tm) =
  writeb (snd (readb (after_writes (snd (readb h RCR2)) ((RCR2, v1) ::
    [(RSECCNT, BIN2BCD (tm_sec tm)); (RMINCNT, BIN2BCD (tm_min tm)); (RHRCNT, BIN2BCD (tm_hour tm));
     (RWKCNT, BIN2BCD (tm_wday tm)); (RDAYCNT, BIN2BCD (tm_mday tm)); (RMONCNT, BIN2BCD (tm_mon tm));
     (RYRCNT, BIN2BCD (Z.rem (tm_year tm) 100))])) RCR2)) RCR2 v2.
Proof.
  intros (H1 & H2 & H3 & H4 & H5 & H6 & H7).
  assert (Hy : 0 <= Z.rem (tm_year tm) 100 < 100) by (rewrite Z.rem_mod_nonneg by lia; div_lia).
  unfold sh_rtc_set_time. rewrite (readb_eq h RCR2). rewrite !u8_digits by lia.
  match goal with |- context [readb ?x RCR2] => match x with writeb _ RYRCNT _ => rewrite (readb_eq x RCR2) end end.
  do 2 eexists. reflexivity.
Qed.

Lemma set_time_spec h tm : in_counters tm -> let h' := snd (sh_rtc_set_time h tm) in
  ticks h' = ticks h -> encodes (reg h') tm.
Proof.
  intros Hin h' Ht. destruct (set_time_writes h tm Hin) as (v1 & v2 & E). fold h' in E.
  set (ws := (RCR2, v1) :: _) in E. set (h1 := snd (readb h RCR2)) in *. set (h2 := after_writes h1 ws) in *.
  pose proof (readb_time h RCR2) as T1. fold h1 in T1. pose proof (writes_time ws h1) as T2. fold h2 in T2.
  pose proof (readb_time h2 RCR2) as T3. pose proof (writeb_time (snd (readb h2 RCR2)) RCR2 v2) as T4. rewrite <- E in T4.
  assert (Hnd : NoDup ws.*1) by (apply (bool_decide_unpack _); vm_compute; exact I).
  destruct (writes_spec ws h1 ltac:(fold h2; lia) Hnd) as [Hw _]. fold h2 in Hw.
  assert (Hreg : forall c, c ∈ clock_regs -> reg h' c = reg h2 c).
  { intros c Hc. rewrite E. rewrite writeb_still; [apply readb_still; [lia|done]|rewrite <- E; lia|done|].
    intros ->. by apply (control_reg RCR2 (or_intror eq_refl)). }
  destruct Hin as (H1 & H2 & H3 & H4 & H5 & H6 & H7).
  assert (Hy : 0 <= Z.rem (tm_year tm) 100 < 100) by (rewrite Z.rem_mod_nonneg by lia; div_lia).
  assert (Hall : forall k v, k ∈ [1; 2; 3; 4; 5; 6; 7] -> (RTC_REG k, BIN2BCD v) ∈ ws ->
    (counter_range (RTC_REG k)).1 <= v <= (counter_range (RTC_REG k)).2 -> reg h' (RTC_REG k) = BIN2BCD v).
  { intros k v Hk Hv Hr. rewrite Hreg by (by apply is_clock_reg). apply Hw; [done|by apply is_clock_reg|]. by exists v. }
  unfold encodes, RSECCNT, RMINCNT, RHRCNT, RWKCNT, RDAYCNT, RMONCNT, RYRCNT in *.
  split_and!; (apply Hall; [rewrite !elem_of_cons; auto 10|unfold ws; rewrite !elem_of_cons; auto 12|vm_compute counter_range; simpl; lia]).
Qed.

(** Reading back what was set: the year is one of 1999 to 2098. *)
Lemma decode_encode f tm t0 :
  in_counters tm -> encodes f tm ->
  decode f t0 =
  {| tm_sec := tm_sec tm; tm_min := tm_min tm; tm_hour := tm_hour tm; tm_mday := tm_mday tm;
     tm_mon := tm_mon tm;
     tm_year := (if tm_year tm mod 100 =? 99 then 0 else 100) + tm_year tm mod 100;
     tm_wday := tm_wday tm; tm_yday := tm_yday t0; tm_isdst := tm_isdst t0 |}.
Proof.
  intros (H1 & H2 & H3 & H4 & H5 & H6 & H7) (E1 & E2 & E3 & E4 & E5 & E6 & E7).
  unfold decode. rewrite E1, E2, E3, E4, E5, E6, E7, Z.rem_mod_nonneg by lia.
  assert (Hy : 0 <= tm_year tm mod 100 < 100) by div_lia.
  rewrite !(fun v Hv => proj2 (bcd_digits v Hv)) by lia. f_equal. f_equal.
  change 0x99 with (BIN2BCD 99).
  destruct (Z.eqb_spec (BIN2BCD (tm_year tm mod 100)) (BIN2BCD 99)) as [E|E],
    (Z.eqb_spec (tm_year tm mod 100) 99) as [E'|E']; try done.
  - apply bcd_inj in E; [done|lia|lia].
  - by rewrite E' in E.
Qed.

Lemma decode_ext f g tm : (forall c, c ∈ clock_regs -> f c = g c) -> decode f tm = decode g tm.
Proof.
  intros H. unfold decode. rewrite (H RSECCNT), (H RMINCNT), (H RHRCNT), (H RWKCNT), (H RDAYCNT), (H RMONCNT), (H RYRCNT); [done|..];
    apply is_clock_reg; rewrite !elem_of_cons; auto 10.
Qed.

Lemma set_time_time h tm : ticks h <= ticks (snd (sh_rtc_set_time h tm)).
Proof.
  unfold sh_rtc_set_time. rewrite (readb_eq h RCR2).
  match goal with |- context [readb ?x RCR2] => match x with writeb _ RYRCNT _ => rewrite (readb_eq x RCR2) end end. cbn [snd].
  repeat first [etransitivity; [|apply writeb_time]|etransitivity; [|apply readb_time]]. apply Z.le_refl.
Qed.
End clock.

(** ** A board *)

(** Registers, the bits that they have, a plan of the accesses during which a second ends, and the number of
    seconds that have ended. *)
Record board := { cells : Z -> Z; ends : list bool; seconds : Z }.

Definition cell_set (f : Z -> Z) (r v : Z) : Z -> Z := fun r' => if r' =? r then v else f r'.

Definition width (r : Z) : Z :=
  if r =? RSECCNT then 0x7f else if r =? RMINCNT then 0x7f else if r =? RHRCNT then 0x3f
  else if r =? RWKCNT then 0x07 else if r =? RDAYCNT then 0x3f else if r =? RMONCNT then 0x1f else 0xff.

Definition tick (f : Z -> Z) : Z -> Z :=
  cell_set (cell_set f RSECCNT (BIN2BCD ((BCD2BIN (f RSECCNT) + 1) mod 60))) RCR1 (Z.lor (f RCR1) RCR1_CF).

(** The time of an access. *)
Definition elapse (h : board) : board :=
  match ends h with
  | true :: l => {| cells := tick (cells h); ends := l; seconds := seconds h + 1 |}
  | false :: l => {| cells := cells h; ends := l; seconds := seconds h |}
  | [] => h
  end.

#[export] Instance board_device : RtcDevice board := {
  readb h r := (u8 (cells h r), elapse h);
  writeb h r v := elapse {| cells := cell_set (cells h) r (Z.land v (width r)); ends := ends h; seconds := seconds h |}
}.

Lemma cf_after_tick v : Z.land (u8 (Z.lor v RCR1_CF)) RCR1_CF <> 0.
Proof.
  intros E. assert (H : Z.testbit (Z.land (u8 (Z.lor v RCR1_CF)) RCR1_CF) 7 = false) by (by rewrite E).
  unfold u8, U8_MOD in H. rewrite Z.land_spec, Z.mod_pow2_bits_low, Z.lor_spec in H by lia.
  change (Z.testbit RCR1_CF 7) with true in H. by rewrite orb_true_r in H.
Qed.

Lemma elapse_cases h : elapse h = {| cells := tick (cells h); ends := tail (ends h); seconds := seconds h + 1 |} \/
  cells (elapse h) = cells h /\ seconds (elapse h) = seconds h.
Proof. destruct h as [f [|[] l] n]; auto. Qed.

Lemma settable_fits r v : r ∈ clock_regs -> settable r v -> u8 (Z.land v (width r)) = v.
Proof.
  intros Hr (n & -> & Hn). assert (H : forallb (fun r => forallb (fun n => negb (((counter_range r).1 <=? n) && (n <=? (counter_range r).2)) ||
    (u8 (Z.land (BIN2BCD n) (width r)) =? BIN2BCD n)) (seqZ 0 100)) clock_regs = true) by (by vm_compute).
  assert (Hn' : 0 <= n < 100).
  { assert (Hc : forallb (fun r => (0 <=? (counter_range r).1) && ((counter_range r).2 <? 100)) clock_regs = true) by (by vm_compute).
    rewrite forallb_forall in Hc. apply list_elem_of_In, Hc in Hr. lia. }
  rewrite forallb_forall in H. apply list_elem_of_In, H in Hr. rewrite forallb_forall in Hr.
  specialize (Hr n ltac:(apply list_elem_of_In, elem_of_seqZ; lia)). lia.
Qed.

#[export] Instance board_laws : RtcLaws board.
Proof.
  apply (Build_RtcLaws board board_device (fun h r => u8 (cells h r)) seconds); simpl.
  - intros h r. apply Z.mod_pos_bound. done.
  - intros h _. destruct (elapse_cases h) as [-> |[_ ->]]; simpl; lia.
  - intros h r v. match goal with |- context [elapse ?x] => destruct (elapse_cases x) as [-> |[_ ->]]; simpl; lia end.
  - done.
  - done.
  - intros h _ c. destruct (elapse_cases h) as [-> |[-> _]]; simpl; [lia|done].
  - intros h _. destruct (elapse_cases h) as [-> |[-> ->]]; simpl; [|lia]. intros _. apply cf_after_tick.
  - intros h _. destruct (elapse_cases h) as [-> |[-> _]]; simpl; [|done]. intros _. apply cf_after_tick.
  - intros h r v. match goal with |- context [elapse ?x] => destruct (elapse_cases x) as [-> |[-> _]]; simpl; [lia|] end.
    intros _ Hr Hv. unfold cell_set. rewrite Z.eqb_refl. by apply settable_fits.
  - intros h r v c. match goal with |- context [elapse ?x] => destruct (elapse_cases x) as [-> |[-> _]]; simpl; [lia|] end.
    intros _ _ Hne. unfold cell_set. by rewrite (proj2 (Z.eqb_neq _ _) Hne).
Defined.

(** ** The clock calls *)

(** C39: the clock of the SH3, on every device with the laws [RtcLaws] and with either order of evaluation in BCD2BIN.
    A date in the ranges of the counters (in February or later, because the month is written as tm_mon) is in them after sh_rtc_set_time when no second ends during the call.
    sh_rtc_read_time returns with the first pass whose carry flag is clear at the end, and then all the
    fields, each read twice, are those of one instant, however the clock moved before.  When no second ends from
    the beginning of sh_rtc_set_time to that instant, the date that was set is read back,
    but for the century, which is always taken to be 1999 to 2098. *)
Theorem sh_rtc_clock {hw} {dev : RtcDevice hw} {laws : RtcLaws hw} low_first (h : hw) tm t0 n :
  in_counters tm ->
  let h1 := snd (sh_rtc_set_time h tm) in
  (ticks h1 = ticks h -> encodes (reg h1) tm) /\
  (forall hr, carry (pass_end (Nat.iter n next_pass hr)) = false ->
   exists k, (k <= n)%nat /\ (forall j, (j < k)%nat -> carry (pass_end (Nat.iter j next_pass hr)) = true) /\
     let hs := pass_end (Nat.iter k next_pass hr) in carry hs = false /\
     forall fuel, (n < fuel)%nat ->
       sh_rtc_read_time low_first fuel hr t0 = Some (0, decode (reg hs) t0, snd (readb hs RCR1))) /\
  (carry (pass_end (Nat.iter n next_pass h1)) = false -> ticks (pass_end (Nat.iter n next_pass h1)) = ticks h ->
   exists h2, forall fuel, (n < fuel)%nat -> sh_rtc_read_time low_first fuel h1 t0 =
     Some (0, {| tm_sec := tm_sec tm; tm_min := tm_min tm; tm_hour := tm_hour tm; tm_mday := tm_mday tm;
                 tm_mon := tm_mon tm;
                 tm_year := (if tm_year tm mod 100 =? 99 then 0 else 100) + tm_year tm mod 100;
                 tm_wday := tm_wday tm; tm_yday := tm_yday t0; tm_isdst := tm_isdst t0 |}, h2)).
Proof.
  intros Hd h1. split; [by apply set_time_spec|]. split; [intros hr; apply read_time_spec|]. intros Hc Ht.
  destruct (read_time_spec low_first n h1 t0 Hc) as (k & Hk & _ & Hs & Hres).
  set (hs := pass_end (Nat.iter k next_pass h1)) in *. exists (snd (readb hs RCR1)). intros fuel Hf.
  assert (Hmono : ticks hs <= ticks (pass_end (Nat.iter n next_pass h1))).
  { unfold hs. replace n with ((n - k) + k)%nat by lia. rewrite Nat.iter_add. set (x := Nat.iter k next_pass h1).
    destruct (n - k)%nat as [|m]; [done|]. rewrite Nat.iter_succ_r. pose proof (pass_time x). pose proof (passes_same m (next_pass x)) as [T _].
    pose proof (pass_time (Nat.iter m next_pass (next_pass x))). lia. }
  pose proof (set_time_time h tm) as T0. fold h1 in T0. pose proof (passes_same k h1) as [T1 S1].
  pose proof (pass_time (Nat.iter k next_pass h1)) as [T2 _]. fold hs in T2.
  rewrite (Hres fuel Hf). do 3 f_equal. rewrite <- (decode_encode (reg h1) tm t0 Hd) by (apply set_time_spec; [done|fold h1; lia]).
  apply decode_ext. intros c Hcl. destruct (S1 ltac:(lia)) as [_ R1]. destruct (pass_same (Nat.iter k next_pass h1)) as [_ R2]; [fold hs; lia|].
  fold hs in R2. by rewrite R2, R1.
Qed.

(** 2000-02-29 12:00:00, and the same with a second that ends during the first pass. *)
Definition late_board : board := snd (sh_rtc_set_time {| cells := fun _ => 0; ends := []; seconds := 0 |} leap_day).
Definition busy_board : board :=
  {| cells := cells late_board; ends := [false; false; false; true]; seconds := 0 |}.

Lemma sh_rtc_clock_witness :
  (exists tm' h', sh_rtc_read_time (fun _ => true) 2 busy_board zero_tm = Some (0, tm', h') /\
    tm_sec tm' = 1 /\ tm_mday tm' = 29 /\ tm_year tm' = 100) /\
  (exists tm' h', sh_rtc_read_time (fun _ => false) 1 late_board zero_tm = Some (0, tm', h') /\
    tm_mday tm' = tm_mday leap_day /\ tm_mon tm' = tm_mon leap_day /\ tm_hour tm' = tm_hour leap_day).
Proof.
  assert (Hin : in_counters leap_day) by (unfold in_counters; vm_compute; intuition discriminate). split.
  - destruct (sh_rtc_clock (fun _ => true) busy_board leap_day zero_tm 1 Hin) as (_ & H & _).
    destruct (H busy_board) as (k & Hk & _ & Hc & Hr); [vm_compute; reflexivity|].
    specialize (Hr 2%nat (Nat.lt_succ_diag_r 1)). do 2 eexists. split; [exact Hr|]. clear Hr.
    destruct k as [|[|k]]; [vm_compute in Hc; discriminate Hc| |lia].
    split; [|split]; vm_compute; reflexivity.
  - destruct (sh_rtc_clock (fun _ => false) {| cells := fun _ => 0; ends := []; seconds := 0 |} leap_day zero_tm 0 Hin) as (_ & _ & H).
    destruct H as [h2 H]; [vm_compute; reflexivity|vm_compute; reflexivity|]. do 2 eexists.
    split; [exact (H 1%nat (Nat.lt_succ_diag_r 0))|]. split; [|split]; reflexivity.
Defined.

(** ** Opening the device *)

(** The interrupt lines of the driver, and the calls of free_irq on a line that it does
    not hold. *)
Record lines := { held : list Z; bad_frees : Z }.

Definition take_irq (s : lines) (irq : Z) : lines := {| held := irq :: held s; bad_frees := bad_frees s |}.

Definition free_irq (s : lines) (irq : Z) : lines :=
  if decide (irq ∈ held s) then {| held := filter (fun x => x <> irq) (held s); bad_frees := bad_frees s |}
  else {| held := held s; bad_frees := bad_frees s + 1 |}.

Record sh_rtc := { periodic_irq : Z; carry_irq : Z; alarm_irq : Z; regbase : Z; rtc_dev : Z }.

(** [request_irq] gives the result for a line: 0, or the error. *)
Definition sh_rtc_open {hw} {dev : RtcDevice hw} (request_irq : Z -> Z) (rtc : sh_rtc) (h : hw) (s : lines)
    : Z * hw * lines :=
  let '(tmp, h) := readb h RCR1 in
  let tmp := Z.lor (Z.land tmp (not32 RCR1_CF)) RCR1_CIE in
  let h := writeb h RCR1 (u8 tmp) in
  let ret := request_irq (periodic_irq rtc) in
  if negb (ret =? 0) then (ret, h, s)
  else
    let s := take_irq s (periodic_irq rtc) in
    let ret := request_irq (carry_irq rtc) in
    if negb (ret =? 0) then
      let s := free_irq s (periodic_irq rtc) in
      (* err_bad_carry *)
      (ret, h, free_irq s (periodic_irq rtc))
    else
      let s := take_irq s (carry_irq rtc) in
      let ret := request_irq (alarm_irq rtc) in
      if negb (ret =? 0) then
        (* err_bad_alarm *)
        let s := free_irq s (carry_irq rtc) in
        (ret, h, free_irq s (periodic_irq rtc))
      else (0, h, take_irq s (alarm_irq rtc)).

Definition sh_rtc_release {hw} {dev : RtcDevice hw} (rtc : sh_rtc) (h : hw) (s : lines) : hw * lines :=
  let h := sh_rtc_setpie h false in
  (h, free_irq (free_irq (free_irq s (periodic_irq rtc)) (carry_irq rtc)) (alarm_irq rtc)).

(** ** Finding the device *)

(** What the calls of sh_rtc_probe return. *)
Record probe_env := {
  kzalloc_ok : bool;
  platform_get_irq : Z -> Z;
  platform_get_resource : option (Z * Z);
  request_mem_region : bool;
  rtc_device_register : Z
}.

(** [region] is the range in the resource tree, [region_mem] the struct resource that
    request_mem_region allocated for it, [rtc_mem] the struct sh_rtc. *)
Record probe_state := { drvdata : option sh_rtc; region : bool; region_mem : bool; rtc_mem : bool }.

Definition IS_ERR (ptr : Z) : bool := u32 (-1000) <? ptr.

(** [rtc] is the address of the struct, which IS_ERR is applied to.  The lines are
    unsigned: no result of platform_get_irq is less than 0. *)
Definition sh_rtc_probe (env : probe_env) (rtc : Z) : Z * probe_state :=
  let free rm := {| drvdata := None; region := false; region_mem := rm; rtc_mem := false |} in
  if negb (kzalloc_ok env) then (- ENOMEM, free false)
  else
    let periodic := u32 (platform_get_irq env 0) in
    if periodic <? 0 then (- ENOENT, free false)
    else
      let carry_ := u32 (platform_get_irq env 1) in
      if carry_ <? 0 then (- ENOENT, free false)
      else
        let alarm := u32 (platform_get_irq env 2) in
        if alarm <? 0 then (- ENOENT, free false)
        else
          match platform_get_resource env with
          | None => (- ENOENT, free false)
          | Some (start_, _) =>
              if negb (request_mem_region env) then (- EBUSY, free false)
              else if start_ =? 0 then (- EINVAL, free true)
              else
                let d := rtc_device_register env in
                if IS_ERR rtc then (s32 d, free true)
                else (0, {| drvdata := Some {| periodic_irq := periodic; carry_irq := carry_;
                                               alarm_irq := alarm; regbase := start_; rtc_dev := d |};
                            region := true; region_mem := true; rtc_mem := true |})
          end.

(** [None] when rtc_device_unregister is given an error value. *)
Definition sh_rtc_remove {hw} {dev : RtcDevice hw} (h : hw) (p : probe_state) : option (hw * probe_state) :=
  match drvdata p with
  | None => None
  | Some rtc =>
      if negb (rtc_dev rtc =? 0) && IS_ERR (rtc_dev rtc) then None
      else Some (sh_rtc_setaie (sh_rtc_setpie h false) false,
        {| drvdata := None; region := false; region_mem := region_mem p; rtc_mem := false |})
  end.

Lemma free_held s irq : irq ∉ held s -> free_irq (take_irq s irq) irq = s.
Proof.
  intros H. unfold free_irq, take_irq. cbn [held]. rewrite decide_True by (by left).
  destruct s as [l b]. cbn [held bad_frees] in *. f_equal. rewrite filter_cons_False by (intros ?; done).
  induction l as [|x l IH]; [done|]. apply not_elem_of_cons in H as [H1 H2].
  rewrite filter_cons_True by congruence. by rewrite IH.
Qed.

(** Lines that were taken later do not matter. *)
Lemma free_skip s a b : a <> b -> a ∈ held s -> free_irq (take_irq s b) a = take_irq (free_irq s a) b.
Proof.
  intros Hab Ha. unfold free_irq. rewrite decide_True by (by right). rewrite decide_True by done.
  unfold take_irq. cbn [held bad_frees]. by rewrite filter_cons_True by congruence.
Qed.

Lemma release_lines {hw} {dev : RtcDevice hw} (rtc : sh_rtc) (h : hw) s :
  periodic_irq rtc <> carry_irq rtc /\ periodic_irq rtc <> alarm_irq rtc /\ carry_irq rtc <> alarm_irq rtc ->
  (forall x, x ∈ held s -> x <> periodic_irq rtc /\ x <> carry_irq rtc /\ x <> alarm_irq rtc) ->
  snd (sh_rtc_release rtc h
    (take_irq (take_irq (take_irq s (periodic_irq rtc)) (carry_irq rtc)) (alarm_irq rtc))) = s.
Proof.
  intros (Hp & Ha & Hc) Hs.
  unfold sh_rtc_release. cbn [snd].
  assert (Np : periodic_irq rtc ∉ held s) by (intros H%Hs; tauto).
  assert (Nc : carry_irq rtc ∉ held s) by (intros H%Hs; tauto).
  assert (Na : alarm_irq rtc ∉ held s) by (intros H%Hs; tauto).
  rewrite (free_skip _ (periodic_irq rtc) (alarm_irq rtc)) by (first [done|cbn; right; by left]).
  rewrite (free_skip _ (periodic_irq rtc) (carry_irq rtc)) by (first [done|cbn; by left]).
  rewrite (free_held s (periodic_irq rtc)) by done.
  rewrite (free_skip _ (carry_irq rtc) (alarm_irq rtc)) by (first [done|cbn; by left]).
  by rewrite (free_held s (carry_irq rtc)), (free_held s (alarm_irq rtc)).
Qed.

(** C40: opening and probing.  sh_rtc_open takes all three lines or none, and
    sh_rtc_release gives them back; but when the carry line is refused, the periodic
    line is freed twice.  sh_rtc_probe tests the wrong pointer: when the registration of
    the clock fails it still returns 0 with the error value as its device, and removing
    the driver then passes that value to rtc_device_unregister. *)
Theorem sh_rtc_open_probe {hw} {dev : RtcDevice hw} (request_irq : Z -> Z) rtc (h : hw) s env ptr :
  periodic_irq rtc <> carry_irq rtc /\ periodic_irq rtc <> alarm_irq rtc /\ carry_irq rtc <> alarm_irq rtc ->
  (forall x, x ∈ held s -> x <> periodic_irq rtc /\ x <> carry_irq rtc /\ x <> alarm_irq rtc) ->
  (exists h', let p := request_irq (periodic_irq rtc) in let c := request_irq (carry_irq rtc) in
   let a := request_irq (alarm_irq rtc) in
   exists r s', sh_rtc_open request_irq rtc h s = (r, h', s') /\
     (p <> 0 -> r = p /\ s' = s) /\
     (p = 0 -> c <> 0 -> r = c /\ s' = {| held := held s; bad_frees := bad_frees s + 1 |}) /\
     (p = 0 -> c = 0 -> a <> 0 -> r = a /\ s' = s) /\
     (p = 0 -> c = 0 -> a = 0 -> r = 0 /\
        held s' = alarm_irq rtc :: carry_irq rtc :: periodic_irq rtc :: held s /\
        snd (sh_rtc_release rtc h' s') = s)) /\
  (kzalloc_ok env = true -> request_mem_region env = true -> IS_ERR ptr = false ->
   (exists a b, platform_get_resource env = Some (a, b) /\ a <> 0) ->
   IS_ERR (rtc_device_register env) = true ->
   exists p, sh_rtc_probe env ptr = (0, p) /\ sh_rtc_remove h p = None).
Proof.
  intros Hnd Hs. pose proof Hnd as (Hpc & _).
  assert (Hne : periodic_irq rtc ∉ held s /\ carry_irq rtc ∉ held s) by (split; intros H%Hs; tauto).
  destruct Hne as [Hp0 Hc0]. split.
  - unfold sh_rtc_open. destruct (readb h RCR1) as [tmp h1]. eexists. cbv zeta.
    destruct (Z.eqb_spec (request_irq (periodic_irq rtc)) 0) as [Ep|Ep]; cbn [negb].
    2:{ do 2 eexists. split; [reflexivity|]. split; [done|]. split; [done|]. split; done. }
    destruct (Z.eqb_spec (request_irq (carry_irq rtc)) 0) as [Ec|Ec]; cbn [negb].
    2:{ do 2 eexists. split; [reflexivity|]. rewrite free_held by done. split; [done|].
        split; [|split; done]. intros _ _. split; [done|]. unfold free_irq. by rewrite decide_False. }
    destruct (Z.eqb_spec (request_irq (alarm_irq rtc)) 0) as [Ea|Ea]; cbn [negb].
    2:{ do 2 eexists. split; [reflexivity|]. split; [done|]. split; [done|]. split; [|done].
        intros _ _ _. split; [done|]. rewrite free_held; [by apply free_held|].
        intros [H|H]%elem_of_cons; [|done]. congruence. }
    do 2 eexists. split; [reflexivity|]. do 3 (split; [done|]). intros _ _ _. split; [done|].
    split; [done|]. by apply release_lines.
  - intros H1 H2 H3 (a & b & H4 & H5) H6. unfold sh_rtc_probe. rewrite H1, H2, H3, H4. cbn [negb].
    assert (Hu : forall x, (u32 x <? 0) = false) by (intros x; apply Z.ltb_ge; apply u32_range).
    rewrite !Hu. destruct (Z.eqb_spec a 0) as [|_]; [done|]. eexists. split; [reflexivity|].
    unfold sh_rtc_remove. cbn. rewrite H6. destruct (Z.eqb_spec (rtc_device_register env) 0) as [E|_]; [|done].
    rewrite E in H6. by vm_compute in H6.
Qed.

(** The carry line is taken by another driver. *)
Lemma sh_rtc_open_probe_witness :
  exists h', sh_rtc_open (fun irq => if irq =? 21 then - EBUSY else 0)
      {| periodic_irq := 20; carry_irq := 21; alarm_irq := 22; regbase := 0xfffffec0; rtc_dev := 1 |}
      late_board {| held := []; bad_frees := 0 |} = (- EBUSY, h', {| held := []; bad_frees := 1 |}).
Proof.
  set (rtc := {| periodic_irq := 20; carry_irq := 21; alarm_irq := 22; regbase := 0xfffffec0; rtc_dev := 1 |}).
  set (env := {| kzalloc_ok := true; platform_get_irq := fun n => 20 + n; platform_get_resource := None;
                 request_mem_region := true; rtc_device_register := 1 |}).
  destruct (sh_rtc_open_probe (fun irq => if irq =? 21 then - EBUSY else 0) rtc late_board
    {| held := []; bad_frees := 0 |} env 1) as [(h' & r & s' & E & _ & H & _) _].
  - unfold rtc. simpl. lia.
  - intros x Hx. by apply elem_of_nil in Hx.
  - destruct H as [-> ->]; [reflexivity|discriminate|]. exists h'. exact E.
Defined.
