(* ===== verification/Div64.v ===== *)
(** 64-bit integers, and their division by 32-bit ones: lib/div64.c and the macro
    do_div of include/asm-generic/div64.h. *)
From stdpp Require Import base list gmap option numbers.
From Stdlib Require Import ZArith Lia.
From S2P Require Import Prelude.

Local Open Scope Z_scope.

(** ** long long *)

Definition U64_MOD : Z := 2 ^ 64.
Definition u64 (x : Z) : Z := x mod U64_MOD.
Definition s64 (x : Z) : Z := (x + 2 ^ 63) mod U64_MOD - 2 ^ 63.
Definition is_u64 (x : Z) : Prop := 0 <= x < U64_MOD.

Lemma u64_small x : is_u64 x -> u64 x = x.
Proof. intros. by apply Z.mod_small. Qed.

Lemma u64_range x : is_u64 (u64 x).
Proof. by apply Z.mod_pos_bound. Qed.

Lemma s64_positive x : is_u64 x -> (0 <? s64 x) = (0 <? x) && (x <? 2 ^ 63).
Proof.
  intros Hx. unfold s64, is_u64, U64_MOD in *. change (2 ^ 64) with (2 * 2 ^ 63) in *.
  set (m := 2 ^ 63) in *. assert (Hm : 0 < m) by done. clearbody m.
  destruct (Z.ltb_spec x m) as [H|H].
  - rewrite Z.mod_small by lia. rewrite andb_true_r. destruct (Z.ltb_spec 0 x), (Z.ltb_spec 0 (x + m - m)); lia.
  - replace (x + m) with (x - m + 1 * (2 * m)) by lia. rewrite Z.mod_add, Z.mod_small by lia.
    rewrite andb_false_r. apply Z.ltb_ge. lia.
Qed.

(** ** The code *)

(** while ((int64_t)b > 0 && b < rem) *)
Definition grow_body (rem : Z) (st : Z * Z) : (Z * Z) + (Z * Z) :=
  let '(b, d) := st in
  if (0 <? s64 b) && (b <? rem) then inl (u64 (b + b), u64 (d + d)) else inr (b, d).

(** do { ... } while (d) *)
Definition divide_body (st : Z * Z * Z * Z) : (Z * Z * Z * Z) + (Z * Z) :=
  let '(rem, res, b, d) := st in
  let '(rem, res) := if b <=? rem then (u64 (rem - b), u64 (res + d)) else (rem, res) in
  let b := Z.shiftr b 1 in
  let d := Z.shiftr d 1 in
  if d =? 0 then inr (rem, res) else inl (rem, res, b, d).

(** The remainder and the new dividend; b and d have 64 bits, so 65 turns are enough. *)
Definition __div64_32 (n base : Z) : option (Z * Z) :=
  let rem := n in
  let high := u32 (Z.shiftr rem 32) in
  let '(rem, res) :=
    if base <=? high then
      let high := high / base in
      (u64 (rem - Z.shiftl (u32 (high * base)) 32), Z.shiftl high 32)
    else (rem, 0) in
  '(b, d) ← loop 65 (grow_body rem) (base, 1);
  loop 65 divide_body (rem, res, b, d).

Definition do_div (n base : Z) : option (Z * Z) :=
  if Z.shiftr n 32 =? 0 then Some (u32 n mod base, u32 n / base) else __div64_32 n base.

(** ** Proofs *)

Section division.
Context (base : Z).
Hypothesis Hbase : 0 < base < 2 ^ 32.

(** The divisor and the bit it stands for. *)
Definition scaled (k b d : Z) : Prop := 0 <= k /\ b = base * 2 ^ k /\ d = 2 ^ k /\ b < 2 ^ 64.

Lemma scaled_bound k b d : scaled k b d -> 2 ^ k <= b /\ k < 64.
Proof.
  intros (Hk & -> & -> & Hb). assert (0 < 2 ^ k) by (by apply Z.pow_pos_nonneg). split; [nia|].
  apply (Z.pow_lt_mono_r_iff 2); [lia|lia|]. nia.
Qed.

Lemma grow_spec rem : is_u64 rem ->
  exists k b d, loop 65 (grow_body rem) (base, 1) = Some (b, d) /\ scaled k b d /\ rem < 2 * b.
Proof.
  intros Hrem.
  destruct (loop_total (grow_body rem) (fun '(b, d) => exists k, scaled k b d)
    (fun '(b, d) => (exists k, scaled k b d) /\ rem < 2 * b)
    (fun '(b, d) => Z.to_nat (64 - Z.log2 d))) with (fuel := 65%nat) (s := (base, 1))
    as ([b d] & E & (k & Hk) & Hr).
  - intros [b d] (k & Hk). pose proof (scaled_bound k b d Hk) as [Hb Hk64].
    pose proof Hk as (Hk0 & Eb & Ed & Hlt). assert (Hp : 0 < 2 ^ k) by (by apply Z.pow_pos_nonneg).
    unfold grow_body. rewrite s64_positive by (unfold is_u64, U64_MOD; lia).
    destruct (Z.ltb_spec 0 b) as [_|]; [|lia]. destruct (Z.ltb_spec b (2 ^ 63)) as [Hb63|Hb63]; cbn [andb].
    2:{ split; [by exists k|]. unfold is_u64, U64_MOD in Hrem. change (2 ^ 64) with (2 * 2 ^ 63) in Hrem. lia. }
    destruct (Z.ltb_spec b rem) as [Hbr|Hbr]; [|split; [by exists k|lia]].
    assert (Hs : scaled (k + 1) (b + b) (d + d)).
    { split; [lia|]. rewrite Z.pow_add_r by lia. change (2 ^ 1) with 2. change (2 ^ 64) with (2 * 2 ^ 63). lia. }
    pose proof (scaled_bound _ _ _ Hs) as [Hb' _]. pose proof Hs as (_ & _ & Ed' & Hlt').
    rewrite (u64_small (b + b)) by (unfold is_u64, U64_MOD; lia).
    rewrite (u64_small (d + d)) by (unfold is_u64, U64_MOD; lia). split; [by exists (k + 1)|].
    rewrite Ed', Ed, !Z.log2_pow2 by lia. lia.
  - exists 0. unfold scaled. change (2 ^ 0) with 1. change (2 ^ 64) with (2 ^ 32 * 2 ^ 32). nia.
  - simpl. lia.
  - exists k, b, d. done.
Qed.

Lemma divide_spec n rem res k b d :
  is_u64 n -> scaled k b d -> 0 <= rem < 2 * b -> 0 <= res -> n = res * base + rem ->
  loop 65 divide_body (rem, res, b, d) = Some (n mod base, n / base).
Proof.
  intros Hn Hs Hrem Hres E.
  destruct (loop_total divide_body
    (fun '(rem, res, b, d) => (exists k, scaled k b d) /\ 0 <= rem < 2 * b /\ 0 <= res /\ n = res * base + rem)
    (fun '(rem, res) => 0 <= rem < base /\ n = res * base + rem)
    (fun '(rem, res, b, d) => Z.to_nat (Z.log2 d))) with (fuel := 65%nat) (s := (rem, res, b, d))
    as ([r q] & -> & Hr & Eq).
  - clear E Hs Hrem Hres rem res k b d. intros [[[rem res] b] d] ((k & Hs) & Hrem & Hres & E). pose proof Hs as (Hk & Eb & Ed & Hlt).
    assert (Hstep : exists rem' res',
      (if b <=? rem then (u64 (rem - b), u64 (res + d)) else (rem, res)) = (rem', res') /\
      0 <= rem' < b /\ 0 <= res' /\ n = res' * base + rem').
    { destruct (Z.leb_spec b rem) as [Hle|Hgt]; [|exists rem, res; split; [done|]; lia].
      assert (Hp : 0 < 2 ^ k) by (by apply Z.pow_pos_nonneg). exists (rem - b), (res + d).
      unfold is_u64 in Hn. assert (res + d <= n) by nia.
      rewrite !u64_small by (unfold is_u64, U64_MOD in *; lia). split; [done|]. nia. }
    destruct Hstep as (rem' & res' & Ei & Hr & Hq & E'). unfold divide_body. rewrite Ei.
    destruct (Z.eq_dec k 0) as [->|Hk0].
    + rewrite Ed. change (Z.shiftr (2 ^ 0) 1 =? 0) with true. cbv iota. change (2 ^ 0) with 1 in Eb. lia.
    + assert (Htwo : 2 ^ k = 2 ^ (k - 1) * 2)
        by (replace k with (k - 1 + 1) at 1 by lia; rewrite Z.pow_add_r by lia; lia).
      assert (Hhalf : forall x, Z.shiftr (x * 2 ^ k) 1 = x * 2 ^ (k - 1)).
      { intros x. rewrite Z.shiftr_div_pow2 by lia. change (2 ^ 1) with 2. rewrite Htwo.
        rewrite Z.mul_assoc. by apply Z.div_mul. }
      assert (Hd : Z.shiftr d 1 = 2 ^ (k - 1)) by (rewrite Ed, <- (Z.mul_1_l (2 ^ k)), Hhalf; lia).
      assert (Hb : Z.shiftr b 1 = base * 2 ^ (k - 1)) by (by rewrite Eb, Hhalf).
      assert (Hp : 0 < 2 ^ (k - 1)) by (apply Z.pow_pos_nonneg; lia).
      assert (Hdbl : b = 2 * (base * 2 ^ (k - 1))) by (rewrite Eb, Htwo; lia).
      rewrite Hd. destruct (Z.eqb_spec (2 ^ (k - 1)) 0) as [|_]; [lia|]. split.
      * rewrite Hb. split; [exists (k - 1); unfold scaled; lia|]. lia.
      * rewrite Ed, !Z.log2_pow2 by lia. lia.
  - split; [by exists k|]. lia.
  - pose proof (scaled_bound _ _ _ Hs). destruct Hs as (Hk & _ & -> & _). rewrite Z.log2_pow2 by done. lia.
  - f_equal. f_equal; [apply Z.mod_unique with q; lia|apply Z.div_unique with r; lia].
Qed.

Lemma div64_spec n : is_u64 n -> __div64_32 n base = Some (n mod base, n / base).
Proof.
  intros Hn. pose proof Hn as Hn'. unfold is_u64, U64_MOD in Hn'. unfold __div64_32.
  assert (Hhigh : u32 (Z.shiftr n 32) = n / 2 ^ 32).
  { rewrite Z.shiftr_div_pow2 by lia. apply u32_small. unfold is_u32, U32_MOD.
    change (2 ^ 64) with (2 ^ 32 * 2 ^ 32) in Hn'. split; [apply Z.div_pos; lia|].
    apply Z.div_lt_upper_bound; lia. }
  rewrite Hhigh. set (hi := n / 2 ^ 32) in *.
  assert (Hdiv : 2 ^ 32 * hi <= n < 2 ^ 32 * hi + 2 ^ 32) by (unfold hi; clear; div_lia).
  assert (Hred : exists rem res,
    (if base <=? hi then (u64 (n - Z.shiftl (u32 (hi / base * base)) 32), Z.shiftl (hi / base) 32)
     else (n, 0)) = (rem, res) /\ is_u64 rem /\ 0 <= res /\ n = res * base + rem).
  { destruct (Z.leb_spec base hi) as [Hle|_]; [|exists n, 0; split; [done|]; split; [done|]; lia].
    assert (Hq : 0 <= hi / base * base <= hi).
    { pose proof (Z.mul_div_le hi base ltac:(lia)). pose proof (Z.div_pos hi base ltac:(lia) ltac:(lia)). nia. }
    assert (Hu : is_u32 hi) by (rewrite <- Hhigh; apply u32_range).
    rewrite (u32_small (hi / base * base)) by (unfold is_u32 in *; lia).
    rewrite !Z.shiftl_mul_pow2 by lia.
    assert (Hr : is_u64 (n - hi / base * base * 2 ^ 32)) by (unfold is_u64, U64_MOD; lia).
    rewrite (u64_small _ Hr). do 2 eexists. split; [reflexivity|]. split; [done|]. nia. }
  destruct Hred as (rem & res & -> & Hrem & Hres & E).
  destruct (grow_spec rem Hrem) as (k & b & d & -> & Hs & Hlt). cbn [mbind option_bind].
  unfold is_u64 in Hrem. apply (divide_spec n rem res k b d); done || lia.
Qed.
End division.

Lemma do_div_spec n base : is_u64 n -> 0 < base < 2 ^ 32 ->
  do_div n base = Some (n mod base, n / base).
Proof.
  intros Hn Hb. unfold do_div.
  destruct (Z.eqb_spec (Z.shiftr n 32) 0) as [E|_]; [|by apply div64_spec].
  rewrite Z.shiftr_div_pow2 in E by lia. unfold is_u64 in Hn.
  rewrite u32_small; [done|]. unfold is_u32, U32_MOD. split; [lia|]. apply Z.div_small_iff in E; lia.
Qed.

(** 64-bit division.  For every 64-bit dividend and every divisor from 1 to
    2^32 - 1, do_div and __div64_32 leave the quotient in the dividend and return the
    remainder; both loops of __div64_32 end within 65 turns although the doubled
    divisor may use all 64 bits. *)
Theorem div64_correct n base :
  is_u64 n -> 0 < base < 2 ^ 32 ->
  __div64_32 n base = Some (n mod base, n / base) /\ do_div n base = Some (n mod base, n / base).
Proof. intros Hn Hb. split; [by apply div64_spec|by apply do_div_spec]. Qed.

Lemma div64_witness : __div64_32 (2 ^ 64 - 1) 3 = Some (0, 6148914691236517205).
Proof.
  destruct (div64_correct (2 ^ 64 - 1) 3) as [H _]; [unfold is_u64, U64_MOD; lia|lia|]. rewrite H. reflexivity.
Defined.
