(* ===== verification/Ctype.v ===== *)
(** Characters and strings: lib/ctype.c with include/linux/ctype.h, and the conversions
    from text to numbers of lib/vsprintf.c.

    A character is its code, 0 to 255.  A pointer into a string that ends with NUL is the
    list of the characters from there on, without the NUL; reading at its end gives 0. *)
From stdpp Require Import base list gmap option numbers.
From Stdlib Require Import ZArith Lia.
From S2P Require Import Prelude Div64.

Local Open Scope Z_scope.

(** ** The table *)

Definition _U : Z := 0x01.
Definition _L : Z := 0x02.
Definition _D : Z := 0x04.
Definition _C : Z := 0x08.
Definition _P : Z := 0x10.
Definition _S : Z := 0x20.
Definition _X : Z := 0x40.
Definition _SP : Z := 0x80.

Definition _ctype : list Z :=
  let _CS := Z.lor _C _S in let _UX := Z.lor _U _X in let _LX := Z.lor _L _X in
  let _SS := Z.lor _S _SP in
  [_C;_C;_C;_C;_C;_C;_C;_C;
   _C;_CS;_CS;_CS;_CS;_CS;_C;_C;
   _C;_C;_C;_C;_C;_C;_C;_C;
   _C;_C;_C;_C;_C;_C;_C;_C;
   _SS;_P;_P;_P;_P;_P;_P;_P;
   _P;_P;_P;_P;_P;_P;_P;_P;
   _D;_D;_D;_D;_D;_D;_D;_D;
   _D;_D;_P;_P;_P;_P;_P;_P;
   _P;_UX;_UX;_UX;_UX;_UX;_UX;_U;
   _U;_U;_U;_U;_U;_U;_U;_U;
   _U;_U;_U;_U;_U;_U;_U;_U;
   _U;_U;_U;_P;_P;_P;_P;_P;
   _P;_LX;_LX;_LX;_LX;_LX;_LX;_L;
   _L;_L;_L;_L;_L;_L;_L;_L;
   _L;_L;_L;_L;_L;_L;_L;_L;
   _L;_L;_L;_P;_P;_P;_P;_C;
   0;0;0;0;0;0;0;0;0;0;0;0;0;0;0;0;
   0;0;0;0;0;0;0;0;0;0;0;0;0;0;0;0;
   _SS;_P;_P;_P;_P;_P;_P;_P;_P;_P;_P;_P;_P;_P;_P;_P;
   _P;_P;_P;_P;_P;_P;_P;_P;_P;_P;_P;_P;_P;_P;_P;_P;
   _U;_U;_U;_U;_U;_U;_U;_U;_U;_U;_U;_U;_U;_U;_U;_U;
   _U;_U;_U;_U;_U;_U;_U;_P;_U;_U;_U;_U;_U;_U;_U;_L;
   _L;_L;_L;_L;_L;_L;_L;_L;_L;_L;_L;_L;_L;_L;_L;_L;
   _L;_L;_L;_L;_L;_L;_L;_P;_L;_L;_L;_L;_L;_L;_L;_L].

(** The index is an unsigned char, so the default is never used. *)
Definition __ismask (c : Z) : Z := default 0 (array_get _ctype (u8 c)).

Definition isdigit (c : Z) : bool := negb (Z.land (__ismask c) _D =? 0).
Definition islower (c : Z) : bool := negb (Z.land (__ismask c) _L =? 0).
Definition isspace (c : Z) : bool := negb (Z.land (__ismask c) _S =? 0).
Definition isxdigit (c : Z) : bool := negb (Z.land (__ismask c) (Z.lor _D _X) =? 0).

Definition toupper (c : Z) : Z := if islower c then u8 (c - (97 - 65)) else c.

(** ** Numbers from text *)

(** *cp and cp[1] *)
Definition char0 (cp : list Z) : Z := default 0 (head cp).
Definition char1 (cp : list Z) : Z := char0 (tail cp).

Definition digit_value (c : Z) : Z := if isdigit c then c - 48 else toupper c - 65 + 10.

(** The base and the start of the digits, the same in simple_strtoul and simple_strtoull. *)
Definition strto_base (cp : list Z) (base : Z) : list Z * Z :=
  if base =? 0 then
    if char0 cp =? 48 then
      let cp := tail cp in
      if (toupper (char0 cp) =? 88) && isxdigit (char1 cp) then (tail cp, 16) else (cp, 8)
    else (cp, 10)
  else if (base =? 16) && (char0 cp =? 48) && (toupper (char1 cp) =? 88) then (tail (tail cp), base)
  else (cp, base).

(** The loop over the digits; [wrap] brings the result to its width. *)
Fixpoint strto_digits (wrap : Z -> Z) (base : Z) (cp : list Z) (result : Z) : Z * list Z :=
  match cp with
  | c :: cp' =>
      if isxdigit c && (digit_value c <? base)
      then strto_digits wrap base cp' (wrap (result * base + digit_value c))
      else (result, cp)
  | [] => (result, [])
  end.

(** The value and *endp. *)
Definition simple_strtoul (cp : list Z) (base : Z) : Z * list Z :=
  let '(cp, base) := strto_base cp base in strto_digits u32 base cp 0.

Definition simple_strtol (cp : list Z) (base : Z) : Z * list Z :=
  if char0 cp =? 45 then let '(r, e) := simple_strtoul (tail cp) base in (s32 (- r), e)
  else let '(r, e) := simple_strtoul cp base in (s32 r, e).

Definition simple_strtoull (cp : list Z) (base : Z) : Z * list Z :=
  let '(cp, base) := strto_base cp base in strto_digits u64 base cp 0.

Definition simple_strtoll (cp : list Z) (base : Z) : Z * list Z :=
  if char0 cp =? 45 then let '(r, e) := simple_strtoull (tail cp) base in (s64 (- r), e)
  else let '(r, e) := simple_strtoull cp base in (s64 r, e).

Fixpoint skip_atoi_loop (s : list Z) (i : Z) : Z * list Z :=
  match s with
  | c :: s' => if isdigit c then skip_atoi_loop s' (s32 (i * 10 + c - 48)) else (i, s)
  | [] => (i, [])
  end.

Definition skip_atoi (s : list Z) : Z * list Z := skip_atoi_loop s 0.

(** ** The classes as intervals *)

Lemma for_chars (P : Z -> bool) :
  forallb P (seqZ 0 256) = true -> forall c, is_u8 c -> P c = true.
Proof.
  intros H c Hc. rewrite forallb_forall in H. apply H. apply list_elem_of_In, elem_of_seqZ.
  unfold is_u8, U8_MOD in Hc. change (2 ^ 8) with 256 in Hc. lia.
Qed.

Lemma isdigit_spec c : is_u8 c -> isdigit c = (48 <=? c) && (c <=? 57).
Proof.
  intros Hc. apply eqb_prop. revert c Hc.
  apply (for_chars (fun c => eqb (isdigit c) ((48 <=? c) && (c <=? 57)))). by vm_compute.
Qed.

Lemma isxdigit_spec c : is_u8 c ->
  isxdigit c = (48 <=? c) && (c <=? 57) || (65 <=? c) && (c <=? 70) || (97 <=? c) && (c <=? 102).
Proof.
  intros Hc. apply eqb_prop. revert c Hc.
  apply (for_chars (fun c => eqb (isxdigit c)
    ((48 <=? c) && (c <=? 57) || (65 <=? c) && (c <=? 70) || (97 <=? c) && (c <=? 102)))). by vm_compute.
Qed.

Lemma isspace_spec c : is_u8 c -> isspace c = (9 <=? c) && (c <=? 13) || (c =? 32) || (c =? 160).
Proof.
  intros Hc. apply eqb_prop. revert c Hc.
  apply (for_chars (fun c => eqb (isspace c) ((9 <=? c) && (c <=? 13) || (c =? 32) || (c =? 160)))).
  by vm_compute.
Qed.

(** ** Digits *)

(** The number that a list of digits stands for, after [acc]. *)
Definition digits_value (base : Z) (acc : Z) (l : list Z) : Z := foldl (fun a d => a * base + d) acc l.

(** [c] is a character for the digit [d]. *)
Definition shows (c d : Z) : Prop := isxdigit c = true /\ digit_value c = d.

(** Reading digits up to something that is none; the result wraps. *)
Lemma strto_digits_spec m base wrap l rest :
  0 < m -> (forall x, wrap x = x mod m) ->
  (match rest with [] => True | c :: _ => isxdigit c && (digit_value c <? base) = false end) ->
  forall ds acc, Forall2 shows l ds -> Forall (fun d => d < base) ds ->
  strto_digits wrap base (l ++ rest) (acc mod m) = (digits_value base acc ds mod m, rest).
Proof.
  intros Hm Hw Hrest. induction l as [|c l IH]; intros ds acc Hl Hds.
  - apply Forall2_nil_inv_l in Hl as ->. simpl. destruct rest as [|c rest]; [done|]. simpl. by rewrite Hrest.
  - inversion Hl as [|? d ? ds' [Hx Hv] Hl' Ec Eds]. clear Hl. subst ds. inversion Hds as [|? ? Hd Hds' E1]. clear Hds. simpl. rewrite Hx, Hv.
    rewrite (proj2 (Z.ltb_lt _ _) Hd). cbn [andb]. rewrite Hw.
    rewrite <- Zplus_mod_idemp_l, Zmult_mod_idemp_l, Zplus_mod_idemp_l. by apply IH.
Qed.
