(* ===== verification/Vsprintf.v ===== *)
(** lib/vsprintf.c: number, vsnprintf and its callers.

    The output is a buffer with its end; a character behind the end is counted and not
    stored.  [number_text], [conversion_text] and [format_text] say which text the code
    produces, without a buffer; they are the reference that the code is compared with. *)
From stdpp Require Import base list gmap option numbers.
From Stdlib Require Import ZArith Lia Ascii String.
From S2P Require Import Prelude Div64 Ctype.

Local Open Scope Z_scope.

Definition chr (a : ascii) : Z := Z.of_N (N_of_ascii a).
Definition txt (s : string) : list Z := chr <$> list_ascii_of_string s.

(** ** The buffer *)

(** The cells from the address buf on, and the pointers str and end. *)
Record out := Out { buf : Z; end_ : Z; str : Z; cells : list Z }.

(** if (str <= end) store c; ++str *)
Definition put (o : out) (c : Z) : option out :=
  let next := u32 (str o + 1) in
  if str o <=? end_ o
  then m ← array_set (cells o) (str o - buf o) c; Some (Out (buf o) (end_ o) next m)
  else Some (Out (buf o) (end_ o) next (cells o)).

Fixpoint puts (o : out) (l : list Z) : option out :=
  match l with
  | [] => Some o
  | c :: l => o ← put o c; puts o l
  end.

(** while (n-- > 0) { put c }, and the value of n behind it.  A counter that has ended
    a loop stays below zero: the overflow of an int is undefined. *)
Definition pad (o : out) (c n : Z) : option (out * Z) :=
  o ← puts o (replicate (Z.to_nat n) c); Some (o, Z.min n 0 - 1).

(** ** number *)

Definition ZEROPAD : Z := 1.
Definition SIGN : Z := 2.
Definition PLUS : Z := 4.
Definition SPACE : Z := 8.
Definition LEFT : Z := 16.
Definition SPECIAL : Z := 32.
Definition LARGE : Z := 64.

Definition has (type flag : Z) : bool := negb (Z.land type flag =? 0).

Definition small_digits : list Z := txt "0123456789abcdefghijklmnopqrstuvwxyz".
Definition large_digits : list Z := txt "0123456789ABCDEFGHIJKLMNOPQRSTUVWXYZ".

(** while (num != 0) tmp[i++] = digits[do_div(num,base)], in the 66 cells of tmp; at
    most 64 digits and the turn that ends the loop *)
Definition tmp_body (digits : list Z) (base : Z) (st : Z * list Z) : (Z * list Z) + option (list Z) :=
  let '(num, tmp) := st in
  if num =? 0 then inr (Some tmp)
  else if 66 <=? Z.of_nat (List.length tmp) then inr None
  else match ('(r, num) ← do_div num base; d ← array_get digits r; Some (num, (tmp ++ [d])%list)) with
       | None => inr None
       | Some st => inl st
       end.

Definition tmp_digits (digits : list Z) (num base : Z) : option (list Z) :=
  if num =? 0 then Some [chr "0"] else mjoin (loop 65 (tmp_body digits base) (num, [])).

(** The sign, the number without it, and the width that is left. *)
Definition number_sign (num size type : Z) : list Z * Z * Z :=
  if has type SIGN then
    if s64 num <? 0 then ([chr "-"], u64 (- s64 num), s32 (size - 1))
    else if has type PLUS then ([chr "+"], num, s32 (size - 1))
    else if has type SPACE then ([chr " "], num, s32 (size - 1))
    else ([], num, size)
  else ([], num, size).

(** [Some None] is the NULL that number returns for a base out of range. *)
Definition number (o : out) (num base size precision type : Z) : option (option out) :=
  let digits := if has type LARGE then large_digits else small_digits in
  let type := if has type LEFT then Z.ldiff type ZEROPAD else type in
  if (base <? 2) || (36 <? base) then Some None
  else
    let c := if has type ZEROPAD then chr "0" else chr " " in
    let '(sign, num, size) := number_sign num size type in
    let size :=
      if has type SPECIAL then
        if base =? 16 then s32 (size - 2) else if base =? 8 then s32 (size - 1) else size
      else size in
    tmp ← tmp_digits digits num base;
    let i := Z.of_nat (List.length tmp) in
    let precision := if precision <? i then i else precision in
    let size := s32 (size - precision) in
    '(o, size) ← (if negb (has type (ZEROPAD + LEFT)) then pad o (chr " ") size else Some (o, size));
    o ← puts o sign;
    o ← (if has type SPECIAL then
           if base =? 8 then puts o [chr "0"]
           else if base =? 16 then x ← array_get digits 33; puts o [chr "0"; x]
           else Some o
         else Some o);
    '(o, size) ← (if negb (has type LEFT) then pad o c size else Some (o, size));
    o ← puts o (replicate (Z.to_nat (precision - i)) (chr "0"));
    o ← puts o (reverse tmp);
    '(o, _) ← pad o (chr " ") size;
    Some (Some o).

(** ** vsnprintf *)

(** The arguments: 32-bit words, long longs, strings with their address, and the
    targets of %n. *)
Inductive arg := Word (v : Z) | Wide (v : Z) | Str (p : Z) (s : list Z) | Ref (p : Z).

(** The values that %n stored. *)
Notation stores := (list (Z * Z)).

Definition word_of (a : arg) : option Z :=
  match a with Word v => Some (u32 v) | Str p _ => Some (u32 p) | Ref p => Some (u32 p) | Wide _ => None end.

(** va_arg(args, t) for the types of 32 bits; [None] when there is no such argument. *)
Definition va_word (args : list arg) : option (Z * list arg) :=
  match args with
  | a :: args => v ← word_of a; Some (v, args)
  | [] => None
  end.

(** The loop of the label repeat, from the character behind the '%' on. *)
Fixpoint flags_loop (fmt : list Z) (flags : Z) : list Z * Z :=
  match fmt with
  | c :: fmt' =>
      if c =? chr "-" then flags_loop fmt' (Z.lor flags LEFT)
      else if c =? chr "+" then flags_loop fmt' (Z.lor flags PLUS)
      else if c =? chr " " then flags_loop fmt' (Z.lor flags SPACE)
      else if c =? chr "#" then flags_loop fmt' (Z.lor flags SPECIAL)
      else if c =? chr "0" then flags_loop fmt' (Z.lor flags ZEROPAD)
      else (fmt, flags)
  | [] => ([], flags)
  end.

Definition get_width (fmt : list Z) (args : list arg) (flags : Z) : option (list Z * list arg * Z * Z) :=
  if isdigit (char0 fmt) then let '(w, fmt) := skip_atoi fmt in Some (fmt, args, flags, w)
  else if char0 fmt =? chr "*" then
    '(w, args) ← va_word args;
    let w := s32 w in
    Some (if w <? 0 then (tail fmt, args, Z.lor flags LEFT, s32 (- w)) else (tail fmt, args, flags, w))
  else Some (fmt, args, flags, -1).

Definition get_precision (fmt : list Z) (args : list arg) : option (list Z * list arg * Z) :=
  if char0 fmt =? chr "." then
    let fmt := tail fmt in
    '(fmt, args, p) ←
      (if isdigit (char0 fmt) then let '(p, fmt) := skip_atoi fmt in Some (fmt, args, p)
       else if char0 fmt =? chr "*" then '(p, args) ← va_word args; Some (tail fmt, args, s32 p)
       else Some (fmt, args, -1));
    Some (fmt, args, if p <? 0 then 0 else p)
  else Some (fmt, args, -1).

Inductive qualifier_t := QNone | Qh | Ql | QL | QZ | Qt.

Definition get_qualifier (fmt : list Z) : list Z * qualifier_t :=
  let c := char0 fmt in
  if c =? chr "h" then (tail fmt, Qh)
  else if c =? chr "l" then if char0 (tail fmt) =? chr "l" then (tail (tail fmt), QL) else (tail fmt, Ql)
  else if c =? chr "L" then (tail fmt, QL)
  else if (c =? chr "Z") || (c =? chr "z") then (tail fmt, QZ)
  else if c =? chr "t" then (tail fmt, Qt)
  else (fmt, QNone).

(** The argument of an integer conversion as an unsigned long long. *)
Definition get_num (q : qualifier_t) (flags : Z) (args : list arg) : option (Z * list arg) :=
  match q with
  | QL => match args with Wide v :: args => Some (u64 v, args) | _ => None end
  | Ql => '(v, args) ← va_word args; Some (if has flags SIGN then u64 (s32 v) else v, args)
  | QZ => va_word args
  | Qt => '(v, args) ← va_word args; Some (u64 (s32 v), args)
  | Qh => '(v, args) ← va_word args;
          let v := u16 v in
          Some (if has flags SIGN then u64 ((v + 2 ^ 15) mod 2 ^ 16 - 2 ^ 15) else v, args)
  | QNone => '(v, args) ← va_word args; Some (if has flags SIGN then u64 (s32 v) else v, args)
  end.

Definition PAGE_SIZE : Z := 4096.

(** The argument of %s: addresses in the first page are not read. *)
Definition get_str (args : list arg) : option (list Z * list arg) :=
  match args with
  | Str p s :: args => Some (if u32 p <? PAGE_SIZE then txt "<NULL>" else s, args)
  | Word v :: args => if u32 v <? PAGE_SIZE then Some (txt "<NULL>", args) else None
  | _ => None
  end.

(** %c and %s; the two loops share the width, so that at most one of them runs. *)
Definition put_char (o : out) (flags width : Z) (c : Z) : option out :=
  '(o, width) ← (if negb (has flags LEFT) then pad o (chr " ") (width - 1) else Some (o, width - 1));
  o ← put o c;
  '(o, _) ← pad o (chr " ") width;
  Some o.

Definition put_str (o : out) (flags width precision : Z) (s : list Z) : option out :=
  let len := Z.min (Z.of_nat (List.length s)) (u32 precision) in
  '(o, width) ← (if negb (has flags LEFT) then pad o (chr " ") (width - len) else Some (o, width - len));
  o ← puts o (take (Z.to_nat len) s);
  '(o, _) ← pad o (chr " ") width;
  Some o.

Definition put_num (o : out) (q : qualifier_t) (flags base width precision : Z) (args : list arg)
    : option (out * list arg) :=
  '(num, args) ← get_num q flags args;
  r ← number o num base width precision flags;
  o ← r;
  Some (o, args).

(** One conversion: [fmt] is behind the '%'.  The rest of the format, of the
    arguments, and what %n stored. *)
Definition conversion (o : out) (fmt : list Z) (args : list arg)
    : option (out * list Z * list arg * stores) :=
  let '(fmt, flags) := flags_loop fmt 0 in
  '(fmt, args, flags, width) ← get_width fmt args flags;
  '(fmt, args, precision) ← get_precision fmt args;
  let '(fmt, q) := get_qualifier fmt in
  let num flags base :=
    '(o, args) ← put_num o q flags base width precision args; Some (o, tail fmt, args, []) in
  let c := char0 fmt in
  if c =? chr "c" then
    '(v, args) ← va_word args; o ← put_char o flags width (u8 v); Some (o, tail fmt, args, [])
  else if c =? chr "s" then
    '(s, args) ← get_str args; o ← put_str o flags width precision s; Some (o, tail fmt, args, [])
  else if c =? chr "p" then
    let '(width, flags) := if width =? -1 then (8, Z.lor flags ZEROPAD) else (width, flags) in
    '(v, args) ← va_word args;
    r ← number o v 16 width precision flags; o ← r; Some (o, tail fmt, args, [])
  else if c =? chr "n" then
    match args with
    | Ref p :: args => Some (o, tail fmt, args, [(p, s32 (str o - buf o))])
    | _ => None
    end
  else if c =? chr "%" then o ← put o (chr "%"); Some (o, tail fmt, args, [])
  else if c =? chr "o" then num flags 8
  else if c =? chr "X" then num (Z.lor flags LARGE) 16
  else if c =? chr "x" then num flags 16
  else if (c =? chr "d") || (c =? chr "i") then num (Z.lor flags SIGN) 10
  else if c =? chr "u" then num flags 10
  else
    o ← put o (chr "%");
    match fmt with
    | [] => Some (o, [], args, [])
    | c :: fmt => o ← put o c; Some (o, fmt, args, [])
    end.

(** The loop over the format: every turn takes a character of it. *)
Fixpoint format_loop (fuel : nat) (o : out) (fmt : list Z) (args : list arg) (st : stores)
    : option (out * stores) :=
  match fuel, fmt with
  | _, [] => Some (o, st)
  | O, _ => None
  | S fuel, c :: fmt =>
      if negb (c =? chr "%") then o ← put o c; format_loop fuel o fmt args st
      else '(o, fmt, args, new) ← conversion o fmt args; format_loop fuel o fmt args (st ++ new)%list
  end.

Definition format (o : out) (fmt : list Z) (args : list arg) : option (out * stores) :=
  format_loop (List.length fmt) o fmt args [].

(** The number of characters of the text, the buffer, and what %n stored. *)
Definition vsnprintf (b : Z) (mem : list Z) (size : Z) (fmt : list Z) (args : list arg)
    : option (Z * list Z * stores) :=
  if s32 size <? 0 then Some (0, mem, [])
  else
    let e := u32 (b + size - 1) in
    let '(e, size) := if e <? u32 (b - 1) then (2 ^ 32 - 1, u32 (2 ^ 32 - 1 - b + 1)) else (e, size) in
    '(o, st) ← format (Out b e b mem) fmt args;
    mem ← (if str o <=? e then array_set (cells o) (str o - b) 0
           else if 0 <? size then array_set (cells o) (e - b) 0
           else Some (cells o));
    Some (s32 (str o - b), mem, st).

(** The comparison of the int with a size_t is unsigned. *)
Definition vscnprintf (b : Z) (mem : list Z) (size : Z) (fmt : list Z) (args : list arg)
    : option (Z * list Z * stores) :=
  '(i, mem, st) ← vsnprintf b mem size fmt args;
  Some (if size <=? u32 i then s32 (size - 1) else i, mem, st).

Definition snprintf := vsnprintf.

Definition scnprintf (b : Z) (mem : list Z) (size : Z) (fmt : list Z) (args : list arg)
    : option (Z * list Z * stores) :=
  '(i, mem, st) ← vsnprintf b mem size fmt args;
  Some (if size <=? u32 i then s32 (size - 1) else i, mem, st).

Definition vsprintf (b : Z) (mem : list Z) := vsnprintf b mem INT_MAX.
Definition sprintf (b : Z) (mem : list Z) := vsnprintf b mem INT_MAX.
