(* ===== verification/VsprintfText.v ===== *)
(** The text that lib/vsprintf.c produces: the reference definitions, and the proof that
    the code writes this text to its buffer, cut at the end of the buffer. *)
From stdpp Require Import base list gmap option numbers.
From Stdlib Require Import ZArith Lia Ascii String.
From S2P Require Import Prelude Div64 Ctype Vsprintf.

Local Open Scope Z_scope.

(** ** The reference *)

(** The digits of a number below 2^64, the least significant one first. *)
Fixpoint digits_rev (fuel : nat) (base num : Z) : list Z :=
  match fuel with
  | O => []
  | S fuel => if num =? 0 then [] else num mod base :: digits_rev fuel base (num / base)
  end.

Definition digits_of (base num : Z) : list Z :=
  if num =? 0 then [0] else reverse (digits_rev 64 base num).

Definition digit_char (large : bool) (d : Z) : Z :=
  d + (if d <? 10 then 48 else if large then 55 else 87).

Definition sign_text (num type : Z) : list Z :=
  if has type SIGN then
    if s64 num <? 0 then [chr "-"] else if has type PLUS then [chr "+"]
    else if has type SPACE then [chr " "] else []
  else [].

Definition prefix_text (base type : Z) : list Z :=
  if has type SPECIAL then
    if base =? 8 then [chr "0"]
    else if base =? 16 then [chr "0"; if has type LARGE then chr "X" else chr "x"] else []
  else [].

Definition magnitude (num type : Z) : Z := if has type SIGN then Z.abs (s64 num) else num.

(** At least [precision] digits. *)
Definition digits_text (num base precision type : Z) : list Z :=
  let digits := digit_char (has type LARGE) <$> digits_of base (magnitude num type) in
  replicate (Z.to_nat (precision - Z.of_nat (List.length digits))) (chr "0") ++ digits.

(** Sign, prefix and digits, brought to the width. *)
Definition number_text (num base size precision type : Z) : list Z :=
  let front := (sign_text num type ++ prefix_text base type)%list in
  let digits := digits_text num base precision type in
  let fill := Z.to_nat (s32 (size - Z.of_nat (List.length (front ++ digits)))) in
  if has type LEFT then front ++ digits ++ replicate fill (chr " ")
  else if has type ZEROPAD then front ++ replicate fill (chr "0") ++ digits
  else replicate fill (chr " ") ++ front ++ digits.

Definition char_text (flags width c : Z) : list Z :=
  let fill := replicate (Z.to_nat (width - 1)) (chr " ") in
  if has flags LEFT then c :: fill else fill ++ [c].

(** At most [precision] characters of the string. *)
Definition str_text (flags width precision : Z) (s : list Z) : list Z :=
  let s := take (Z.to_nat (u32 precision)) s in
  let fill := replicate (Z.to_nat (width - Z.of_nat (List.length s))) (chr " ") in
  if has flags LEFT then s ++ fill else fill ++ s.

(** The flags and the base of an integer conversion. *)
Definition int_conversion (c : Z) : option (Z * Z) :=
  if c =? chr "o" then Some (0, 8)
  else if c =? chr "X" then Some (LARGE, 16)
  else if c =? chr "x" then Some (0, 16)
  else if (c =? chr "d") || (c =? chr "i") then Some (SIGN, 10)
  else if c =? chr "u" then Some (0, 10)
  else None.

(** The text of a conversion, behind [n] characters. *)
Definition conversion_text (n : Z) (fmt : list Z) (args : list arg)
    : option (list Z * list Z * list arg * stores) :=
  let '(fmt, flags) := flags_loop fmt 0 in
  '(fmt, args, flags, width) ← get_width fmt args flags;
  '(fmt, args, precision) ← get_precision fmt args;
  let '(fmt, q) := get_qualifier fmt in
  let c := char0 fmt in
  if c =? chr "c" then '(v, args) ← va_word args; Some (char_text flags width (u8 v), tail fmt, args, [])
  else if c =? chr "s" then '(s, args) ← get_str args; Some (str_text flags width precision s, tail fmt, args, [])
  else if c =? chr "p" then
    '(v, args) ← va_word args;
    Some (if width =? -1 then number_text v 16 8 precision (Z.lor flags ZEROPAD)
          else number_text v 16 width precision flags, tail fmt, args, [])
  else if c =? chr "n" then
    match args with Ref p :: args => Some ([], tail fmt, args, [(p, s32 n)]) | _ => None end
  else if c =? chr "%" then Some ([chr "%"], tail fmt, args, [])
  else match int_conversion c with
       | Some (f, base) =>
           '(v, args) ← get_num q (Z.lor flags f) args;
           Some (number_text v base width precision (Z.lor flags f), tail fmt, args, [])
       | None => Some (chr "%" :: take 1 fmt, tail fmt, args, [])
       end.

Fixpoint format_text (fuel : nat) (n : Z) (fmt : list Z) (args : list arg) : option (list Z * stores) :=
  match fuel, fmt with
  | _, [] => Some ([], [])
  | O, _ => None
  | S fuel, c :: fmt =>
      if negb (c =? chr "%") then '(t, st) ← format_text fuel (n + 1) fmt args; Some (c :: t, st)
      else '(t1, fmt, args, st1) ← conversion_text n fmt args;
           '(t2, st2) ← format_text fuel (n + Z.of_nat (List.length t1)) fmt args;
           Some (t1 ++ t2, st1 ++ st2)%list
  end.

(** The whole text of a format with its arguments, and what %n stores. *)
Definition text (fmt : list Z) (args : list arg) : option (list Z * stores) :=
  format_text (List.length fmt) 0 fmt args.

(** ** The buffer *)

Lemma puts_app o l1 l2 : puts o (l1 ++ l2) = o ← puts o l1; puts o l2.
Proof.
  revert o. induction l1 as [|c l1 IH]; intros o; [done|]. simpl. destruct (put o c); [|done]. simpl. apply IH.
Qed.

Lemma pad_puts {A} o c n (k : out -> Z -> option A) :
  ('(o, m) ← pad o c n; k o m) = (o ← puts o (replicate (Z.to_nat n) c); k o (Z.min n 0 - 1)).
Proof. unfold pad. by destruct (puts o _). Qed.

Lemma puts_nil {A} o (k : out -> option A) : (o ← puts o []; k o) = k o.
Proof. done. Qed.

Lemma puts_puts {A} o l1 l2 (k : out -> option A) :
  (o ← puts o l1; o ← puts o l2; k o) = o ← puts o (l1 ++ l2); k o.
Proof. rewrite puts_app. by destruct (puts o l1). Qed.

(** Both sides put the same pieces: take them off one by one. *)
Ltac put_steps :=
  repeat match goal with
  | _ => progress cbn [negb andb orb mbind option_bind replicate]
  | |- context [puts ?o (?l1 ++ ?l2)] => rewrite (puts_app o l1 l2)
  | |- context [puts ?o []] => change (puts o []) with (Some o)
  | |- context [pad ?o ?c ?n] => unfold pad
  | H : Z.to_nat ?n = 0%nat |- context [Z.to_nat ?n] => rewrite H
  | |- context [mbind _ (puts ?o ?l)] => destruct (puts o l)
  | |- context [option_bind _ _ _ (puts ?o ?l)] => destruct (puts o l)
  | |- _ => reflexivity
  end.

(** ** Digits *)

Lemma digits_rev_value base num fuel :
  2 <= base -> 0 <= num < 2 ^ Z.of_nat fuel ->
  digits_value base 0 (reverse (digits_rev fuel base num)) = num /\
  Forall (fun d => 0 <= d < base) (digits_rev fuel base num).
Proof.
  intros Hb. revert num. induction fuel as [|fuel IH]; intros num Hn; [simpl in *; split; [lia|done]|].
  simpl. destruct (Z.eqb_spec num 0) as [->|Hz]; [done|].
  assert (Hd : 0 <= num / base < 2 ^ Z.of_nat fuel).
  { split; [apply Z.div_pos; lia|]. apply Z.div_lt_upper_bound; [lia|].
    rewrite Nat2Z.inj_succ, Z.pow_succ_r in Hn by lia. nia. }
  destruct (IH _ Hd) as [Hv Hf]. split.
  - rewrite reverse_cons. unfold digits_value in *. rewrite foldl_app, Hv. simpl.
    rewrite (Z.div_mod num base) at 3 by lia. lia.
  - constructor; [apply Z.mod_pos_bound; lia|done].
Qed.

Lemma digits_of_value base num :
  2 <= base -> is_u64 num ->
  digits_value base 0 (digits_of base num) = num /\ Forall (fun d => 0 <= d < base) (digits_of base num).
Proof.
  intros Hb Hn. unfold digits_of. destruct (Z.eqb_spec num 0) as [->|Hz].
  - split; [done|]. constructor; [lia|done].
  - destruct (digits_rev_value base num 64 Hb Hn) as [Hv Hf]. split; [done|]. by apply Forall_reverse.
Qed.

Lemma digits_rev_length fuel base num : (List.length (digits_rev fuel base num) <= fuel)%nat.
Proof. revert num. induction fuel as [|fuel IH]; intros num; simpl; [lia|]. case_match; simpl; [lia|]. specialize (IH (num / base)). lia. Qed.

Lemma digit_table (large : bool) d : 0 <= d < 36 ->
  array_get (if large then large_digits else small_digits) d = Some (digit_char large d).
Proof.
  intros Hd.
  assert (H : forallb (fun d => bool_decide (array_get (if large then large_digits else small_digits) d = Some (digit_char large d))) (seqZ 0 36) = true)
    by (by destruct large; vm_compute).
  rewrite forallb_forall in H. apply (bool_decide_unpack _), Is_true_true, H. apply list_elem_of_In, elem_of_seqZ. lia.
Qed.

Lemma tmp_loop (large : bool) base : 2 <= base <= 36 -> forall fuel num tmp,
  is_u64 num -> num < 2 ^ Z.of_nat fuel -> (List.length tmp + fuel <= 66)%nat ->
  loop (S fuel) (tmp_body (if large then large_digits else small_digits) base) (num, tmp) =
    Some (Some (tmp ++ (digit_char large <$> digits_rev fuel base num)))%list.
Proof.
  intros Hb. induction fuel as [|fuel IH]; intros num tmp Hu Hn Hl; rewrite loop_S; unfold tmp_body.
  { unfold is_u64 in Hu. change (2 ^ Z.of_nat 0) with 1 in Hn. assert (num = 0) as -> by lia. simpl. by rewrite app_nil_r. }
  simpl digits_rev. destruct (Z.eqb_spec num 0) as [->|Hz]; [by rewrite app_nil_r|].
  destruct (Z.leb_spec 66 (Z.of_nat (List.length tmp))) as [|_]; [lia|].
  assert (Hdiv : do_div num base = Some (num mod base, num / base)) by (apply do_div_spec; done || lia).
  rewrite Hdiv. cbn [mbind option_bind].
  assert (Hm : 0 <= num mod base < base) by (apply Z.mod_pos_bound; lia).
  rewrite digit_table by lia. cbn [mbind option_bind].
  assert (Hd : 0 <= num / base /\ num / base < 2 ^ Z.of_nat fuel /\ num / base <= num).
  { unfold is_u64 in Hu. split; [apply Z.div_pos; lia|]. split; [apply Z.div_lt_upper_bound; [lia|]|apply Z.div_le_upper_bound; nia].
    rewrite Nat2Z.inj_succ, Z.pow_succ_r in Hn by lia. nia. }
  rewrite IH; [by rewrite <- app_assoc|unfold is_u64 in *; lia|lia|].
  rewrite length_app. simpl. lia.
Qed.

Lemma tmp_digits_spec (large : bool) base num : 2 <= base <= 36 -> is_u64 num ->
  tmp_digits (if large then large_digits else small_digits) num base =
    Some (reverse (digit_char large <$> digits_of base num)).
Proof.
  intros Hb Hn. unfold tmp_digits, digits_of. destruct (Z.eqb_spec num 0) as [->|Hz]; [done|].
  rewrite (tmp_loop large base Hb 64 num []); [|done|apply Hn|simpl; lia].
  cbn [mjoin option_join]. by rewrite fmap_reverse, reverse_involutive.
Qed.

(** ** number *)

Lemma has_lor type a b : has type (Z.lor a b) = has type a || has type b.
Proof.
  unfold has. rewrite Z.land_lor_distr_r. rewrite <- negb_andb. f_equal.
  destruct (Z.eqb_spec (Z.lor (Z.land type a) (Z.land type b)) 0) as [E|E].
  - apply Z.lor_eq_0_iff in E as [-> ->]. done.
  - destruct (Z.eqb_spec (Z.land type a) 0) as [Ea|]; [|done].
    destruct (Z.eqb_spec (Z.land type b) 0) as [Eb|]; [|done]. rewrite Ea, Eb in E. done.
Qed.

Lemma has_ldiff type a b : Z.ldiff b a = b -> has (Z.ldiff type a) b = has type b.
Proof.
  intros E. unfold has. f_equal. f_equal. rewrite <- E at 2. apply Z.bits_inj'. intros n Hn.
  rewrite !Z.land_spec, !Z.ldiff_spec. destruct (Z.testbit type n), (Z.testbit b n), (Z.testbit a n) ; done.
Qed.

Lemma has_ldiff_same type a : has (Z.ldiff type a) a = false.
Proof.
  unfold has. apply negb_false_iff, Z.eqb_eq. apply Z.bits_inj'. intros n Hn.
  rewrite Z.land_spec, Z.ldiff_spec, Z.bits_0. destruct (Z.testbit type n), (Z.testbit a n); done.
Qed.

Lemma s32_sub_s32 a b : s32 (s32 a - b) = s32 (a - b).
Proof.
  unfold s32. f_equal. replace ((a + 2 ^ 31) mod U32_MOD - 2 ^ 31 - b + 2 ^ 31) with ((a + 2 ^ 31) mod U32_MOD - b) by lia.
  rewrite Zminus_mod_idemp_l. f_equal. lia.
Qed.

(** The type without the ZEROPAD that LEFT overrides. *)
Definition number_type (type : Z) : Z := if has type LEFT then Z.ldiff type ZEROPAD else type.

Lemma number_type_has type f : Z.ldiff f ZEROPAD = f -> has (number_type type) f = has type f.
Proof. intros E. unfold number_type. destruct (has type LEFT); [by apply has_ldiff|done]. Qed.

Lemma number_sign_spec num size type :
  number_sign num size (number_type type) =
    (sign_text num type, if has type SIGN then if s64 num <? 0 then u64 (- s64 num) else num else num,
     match sign_text num type with [] => size | _ => s32 (size - 1) end).
Proof.
  unfold number_sign, sign_text. rewrite !number_type_has by done.
  destruct (has type SIGN); [|done]. destruct (s64 num <? 0); [done|].
  destruct (has type PLUS); [done|]. by destruct (has type SPACE).
Qed.

Lemma magnitude_spec num type : is_u64 num ->
  (if has type SIGN then if s64 num <? 0 then u64 (- s64 num) else num else num) = magnitude num type /\
  is_u64 (magnitude num type).
Proof.
  intros Hn. unfold magnitude. destruct (has type SIGN); [|done].
  assert (Hs : - 2 ^ 63 <= s64 num < 2 ^ 63 /\ (0 <= s64 num -> s64 num = num)).
  { unfold s64, is_u64, U64_MOD in *. split; [pose proof (Z.mod_pos_bound (num + 2 ^ 63) (2 ^ 64)); lia|].
    intros H0. destruct (Z.ltb_spec num (2 ^ 63)); [rewrite Z.mod_small by lia; lia|].
    replace (num + 2 ^ 63) with (num - 2 ^ 63 + 1 * 2 ^ 64) in H0 by lia.
    rewrite Z.mod_add, Z.mod_small in H0 by lia. lia. }
  destruct Hs as [Hs Hp]. unfold is_u64, U64_MOD in *. destruct (Z.ltb_spec (s64 num) 0).
  - rewrite Z.abs_neq by lia. split; [apply u64_small; unfold is_u64, U64_MOD|]; lia.
  - rewrite Z.abs_eq by lia. rewrite Hp by lia. done.
Qed.

(** The width that is left behind sign, prefix and digits. *)
Lemma number_fill num base size precision type :
  let size1 := match sign_text num type with [] => size | _ => s32 (size - 1) end in
  let size2 := if has type SPECIAL then
      if base =? 16 then s32 (size1 - 2) else if base =? 8 then s32 (size1 - 1) else size1 else size1 in
  s32 (size2 - precision) =
    s32 (size - Z.of_nat (List.length (sign_text num type ++ prefix_text base type)) - precision).
Proof.
  cbv zeta. assert (Hsign : exists k, List.length (sign_text num type) = k /\ forall x,
    s32 (match sign_text num type with [] => size | _ => s32 (size - 1) end - x) = s32 (size - Z.of_nat k - x)).
  { unfold sign_text. eexists; split; [reflexivity|]. intros x. repeat case_match; simpl in *; simplify_eq;
      rewrite ?s32_sub_s32; f_equal; lia. }
  destruct Hsign as (k & Hk & Hs). rewrite length_app, Hk. unfold prefix_text. destruct (has type SPECIAL).
  - destruct (Z.eqb_spec base 16) as [->|]; [|destruct (Z.eqb_spec base 8) as [->|]].
    + simpl. rewrite s32_sub_s32. replace (_ - 2 - precision) with (match sign_text num type with [] => size | _ => s32 (size - 1) end - (2 + precision)) by lia.
      rewrite Hs. f_equal. lia.
    + simpl. rewrite s32_sub_s32. replace (_ - 1 - precision) with (match sign_text num type with [] => size | _ => s32 (size - 1) end - (1 + precision)) by lia.
      rewrite Hs. f_equal. lia.
    + rewrite Hs. simpl. f_equal. lia.
  - rewrite Hs. simpl. f_equal. lia.
Qed.

Lemma prefix_digit type :
  array_get (if has type LARGE then large_digits else small_digits) 33 =
    Some (if has type LARGE then chr "X" else chr "x").
Proof. by destruct (has type LARGE). Qed.

Lemma zeropad_left type : has (number_type type) (ZEROPAD + LEFT) = has type ZEROPAD || has type LEFT.
Proof.
  change (ZEROPAD + LEFT) with (Z.lor ZEROPAD LEFT). rewrite has_lor, (number_type_has type LEFT) by done.
  unfold number_type. destruct (has type LEFT); [by rewrite !orb_true_r|done].
Qed.

Lemma zeropad_char type :
  has type LEFT = false -> has (number_type type) ZEROPAD = has type ZEROPAD.
Proof. unfold number_type. by intros ->. Qed.

(** The code of number writes the text of the reference. *)
Lemma number_spec o num base size precision type :
  is_u64 num -> 2 <= base <= 36 ->
  number o num base size precision type =
    (o ← puts o (number_text num base size precision type); Some (Some o)).
Proof.
  intros Hn Hb. destruct (magnitude_spec num type Hn) as [Hm Hmu]. unfold number.
  destruct (Z.ltb_spec base 2); [lia|]. destruct (Z.ltb_spec 36 base); [lia|]. cbn [orb].
  fold (number_type type). rewrite number_sign_spec, Hm.
  rewrite (number_type_has type SPECIAL), (number_type_has type LEFT) by done.
  rewrite zeropad_left, prefix_digit, (tmp_digits_spec (has type LARGE)) by done. cbn [mbind option_bind].
  rewrite number_fill, reverse_involutive, length_reverse. unfold number_text, digits_text.
  set (digits := digit_char (has type LARGE) <$> digits_of base (magnitude num type)).
  set (n := Z.of_nat (List.length digits)).
  set (prec := if precision <? n then n else precision).
  assert (Hz : Z.to_nat (prec - n) = Z.to_nat (precision - n)) by (unfold prec; destruct (Z.ltb_spec precision n); lia).
  rewrite Hz. set (zeros := replicate (Z.to_nat (precision - n)) (chr "0")).
  rewrite (length_app (_ ++ _) (zeros ++ digits)), Nat2Z.inj_add, Z.sub_add_distr.
  replace (Z.of_nat (List.length (zeros ++ digits))) with prec.
  2:{ unfold zeros, prec. rewrite length_app, length_replicate. fold n. destruct (Z.ltb_spec precision n); lia. }
  set (fill := s32 _). assert (Hneg : Z.to_nat (Z.min fill 0 - 1) = 0%nat) by lia.
  assert (Hneg' : Z.to_nat (Z.min (Z.min fill 0 - 1) 0 - 1) = 0%nat) by lia.
  unfold prefix_text. destruct (has type LEFT) eqn:Hleft.
  - rewrite orb_true_r. destruct (has type SPECIAL); [|put_steps].
    destruct (base =? 8); [put_steps|]. destruct (base =? 16); put_steps.
  - rewrite (zeropad_char _ Hleft). destruct (has type ZEROPAD); (destruct (has type SPECIAL); [|put_steps]);
      (destruct (base =? 8); [put_steps|]); destruct (base =? 16); put_steps.
Qed.

(** ** The conversions *)

Lemma put_char_spec o flags width c : put_char o flags width c = puts o (char_text flags width c).
Proof.
  unfold put_char, char_text. assert (Hneg : Z.to_nat (Z.min (width - 1) 0 - 1) = 0%nat) by lia.
  destruct (has flags LEFT).
  - change (c :: ?l) with ([c] ++ l). rewrite puts_app. simpl. destruct (put o c); [|done]. put_steps.
  - cbn [negb]. unfold pad. rewrite puts_app. destruct (puts o _) as [o1|]; [|done]. simpl.
    destruct (put o1 c); [|done]. put_steps.
Qed.

Lemma put_str_spec o flags width precision s :
  put_str o flags width precision s = puts o (str_text flags width precision s).
Proof.
  unfold put_str, str_text. pose proof (u32_range precision) as Hp. unfold is_u32 in Hp.
  assert (Hs : take (Z.to_nat (Z.min (Z.of_nat (List.length s)) (u32 precision))) s = take (Z.to_nat (u32 precision)) s).
  { destruct (Z.min_spec (Z.of_nat (List.length s)) (u32 precision)) as [[H ->]|[H ->]]; [|done].
    rewrite !take_ge; [done|lia|lia]. }
  rewrite Hs. replace (Z.of_nat (List.length (take _ s))) with (Z.min (Z.of_nat (List.length s)) (u32 precision))
    by (rewrite length_take; lia).
  set (w := width - _). assert (Hneg : Z.to_nat (Z.min w 0 - 1) = 0%nat) by lia.
  destruct (has flags LEFT); put_steps.
Qed.

Lemma get_num_u64 q flags args v args' : get_num q flags args = Some (v, args') -> is_u64 v.
Proof.
  assert (H32 : forall x y a, va_word a = Some (x, y) -> is_u64 x).
  { intros x y [|a l]; [done|]. simpl. intros E. destruct (word_of a) as [w|] eqn:Ew; [|done]. simplify_eq/=.
    assert (is_u32 x) by (destruct a; simplify_eq/=; apply u32_range). unfold is_u64, U64_MOD, is_u32, U32_MOD in *. lia. }
  unfold get_num. destruct q; intros E.
  all: try (destruct (va_word args) as [[x y]|] eqn:Ew; simplify_eq/=; specialize (H32 _ _ _ Ew)).
  all: try (destruct (has flags SIGN); [apply u64_range|done]); try apply u64_range; try done.
  - destruct (has flags SIGN); [apply u64_range|]. unfold u16, U16_MOD, is_u64, U64_MOD.
    pose proof (Z.mod_pos_bound x (2 ^ 16)). lia.
  - destruct args as [|[]]; simplify_eq. apply u64_range.
Qed.

Lemma put_num_spec o q flags base width precision args : 2 <= base <= 36 ->
  put_num o q flags base width precision args =
    ('(v, args) ← get_num q flags args; o ← puts o (number_text v base width precision flags); Some (o, args)).
Proof.
  intros Hb. unfold put_num. destruct (get_num q flags args) as [[v args']|] eqn:E; [|done].
  cbn [mbind option_bind]. rewrite number_spec by (done || by eapply get_num_u64). by destruct (puts o _).
Qed.

Definition at_count (o : out) (n : Z) : Prop := str o = u32 (buf o + n).

Lemma at_count_store o n : at_count o n -> s32 (str o - buf o) = s32 n.
Proof.
  unfold at_count. intros ->. unfold s32, u32. f_equal. replace ((buf o + n) mod U32_MOD - buf o + 2 ^ 31) with ((buf o + n) mod U32_MOD + (2 ^ 31 - buf o)) by lia.
  rewrite Zplus_mod_idemp_l. f_equal. lia.
Qed.

Lemma puts_count l o o' n : at_count o n -> puts o l = Some o' -> at_count o' (n + Z.of_nat (List.length l)).
Proof.
  revert o n. induction l as [|c l IH]; intros o n Hn E; simpl in E.
  - simplify_eq. by rewrite Z.add_0_r.
  - destruct (put o c) as [o1|] eqn:Ep; [|done]. simpl in E.
    replace (n + Z.of_nat (List.length (c :: l))) with (n + 1 + Z.of_nat (List.length l)) by (simpl; lia).
    apply (IH o1); [|done]. unfold at_count in *. unfold put in Ep.
    assert (Hs : str o1 = u32 (str o + 1) /\ buf o1 = buf o).
    { destruct (str o <=? end_ o); [destruct (array_set _ _ _)|]; simplify_eq/=; done. }
    destruct Hs as [-> ->]. rewrite Hn, u32_add_l. f_equal. lia.
Qed.

Lemma conversion_spec o n fmt args : at_count o n ->
  conversion o fmt args =
    ('(t, fmt, args, st) ← conversion_text n fmt args; o ← puts o t; Some (o, fmt, args, st)).
Proof.
  intros Hn. unfold conversion, conversion_text. destruct (flags_loop fmt 0) as [fmt1 flags].
  destruct (get_width fmt1 args flags) as [[[[fmt2 args2] flags2] width]|]; [|done]. cbn [mbind option_bind].
  destruct (get_precision fmt2 args2) as [[[fmt3 args3] precision]|]; [|done]. cbn [mbind option_bind].
  destruct (get_qualifier fmt3) as [fmt4 q]. set (c := char0 fmt4).
  destruct (c =? chr "c").
  { destruct (va_word args3) as [[v args4]|]; [|done]. cbn [mbind option_bind]. by rewrite put_char_spec. }
  destruct (c =? chr "s").
  { destruct (get_str args3) as [[s args4]|]; [|done]. cbn [mbind option_bind]. by rewrite put_str_spec. }
  destruct (c =? chr "p").
  { destruct (width =? -1); (destruct (va_word args3) as [[v args4]|] eqn:E; [|done]); cbn [mbind option_bind];
      (rewrite number_spec; [by destruct (puts o _)|exact (get_num_u64 QZ 0 _ _ _ E)|lia]). }
  destruct (c =? chr "n").
  { destruct args3 as [|[]]; try done. cbn [mbind option_bind puts]. by rewrite (at_count_store o n). }
  destruct (c =? chr "%"). { cbn [mbind option_bind puts]. by destruct (put o _). }
  unfold int_conversion. destruct (c =? chr "o"), (c =? chr "X"), (c =? chr "x"), ((c =? chr "d") || (c =? chr "i")), (c =? chr "u").
  all: rewrite ?put_num_spec by lia; rewrite ?Z.lor_0_r.
  all: try (destruct (get_num q _ args3) as [[v args4]|]; [|done]; cbn [mbind option_bind]; by destruct (puts o _)).
  cbn [mbind option_bind puts]. destruct (put o _) as [o1|]; [|by destruct fmt4]. cbn [mbind option_bind].
  destruct fmt4 as [|d fmt4]; [done|]. simpl. by destruct (put o1 d).
Qed.

Lemma format_loop_spec fuel : forall o n fmt args st, at_count o n ->
  format_loop fuel o fmt args st =
    ('(t, st') ← format_text fuel n fmt args; o ← puts o t; Some (o, st ++ st')%list).
Proof.
  induction fuel as [|fuel IH]; intros o n [|c fmt] args st Hn; try (simpl; by rewrite app_nil_r); [done|].
  cbn [format_loop format_text]. destruct (negb (c =? chr "%")).
  - destruct (put o c) as [o1|] eqn:Ep; cbn [mbind option_bind].
    + assert (Hn1 : at_count o1 (n + 1)) by (apply (puts_count [c] o); [done|]; simpl; by rewrite Ep).
      rewrite (IH o1 _ fmt args st Hn1). destruct (format_text fuel (n + 1) fmt args) as [[t st']|]; [|done].
      cbn [mbind option_bind puts]. by rewrite Ep.
    + destruct (format_text fuel (n + 1) fmt args) as [[t st']|]; [|done]. cbn [mbind option_bind puts]. by rewrite Ep.
  - rewrite (conversion_spec o n) by done. destruct (conversion_text n fmt args) as [[[[t1 fmt1] args1] st1]|]; [|done].
    cbn [mbind option_bind]. destruct (puts o t1) as [o1|] eqn:Ep; cbn [mbind option_bind].
    + rewrite (IH o1 (n + Z.of_nat (List.length t1))) by (by apply (puts_count t1 o)).
      destruct (format_text fuel _ fmt1 args1) as [[t2 st2]|]; [|done]. cbn [mbind option_bind].
      rewrite puts_app, Ep, app_assoc. done.
    + destruct (format_text fuel _ fmt1 args1) as [[t2 st2]|]; [|done]. cbn [mbind option_bind].
      by rewrite puts_app, Ep.
Qed.

Lemma format_spec o fmt args : str o = buf o -> is_u32 (buf o) ->
  format o fmt args = ('(t, st) ← text fmt args; o ← puts o t; Some (o, st)).
Proof.
  intros Hs Hb. unfold format, text. apply format_loop_spec. unfold at_count. rewrite Z.add_0_r, u32_small; done.
Qed.

(** ** The buffer behind a call *)

(** [size] cells of the memory take the text, cut to fit, and its NUL. *)
Definition placed (size : Z) (t mem : list Z) : list Z :=
  if size <=? 0 then mem
  else let w := Nat.min (Z.to_nat (size - 1)) (List.length t) in take w t ++ 0 :: drop (S w) mem.

Lemma placed_length size t mem :
  (0 < size -> Z.min size (Z.of_nat (List.length t) + 1) <= Z.of_nat (List.length mem)) ->
  List.length (placed size t mem) = List.length mem.
Proof.
  intros H. unfold placed. destruct (Z.leb_spec size 0); [done|]. rewrite length_app, length_take. simpl. rewrite length_drop. lia.
Qed.

Lemma puts_buffer b e cap l : e + 1 = b + Z.of_nat cap -> forall k mem,
  0 <= b -> b + Z.of_nat (k + List.length l) < 2 ^ 32 ->
  (let w := Nat.min (List.length l) (cap - k) in (0 < w -> k + w <= List.length mem)%nat) ->
  puts (Out b e (b + Z.of_nat k) mem) l =
    let w := Nat.min (List.length l) (cap - k) in
    Some (Out b e (b + Z.of_nat (k + List.length l)) (take k mem ++ take w l ++ drop (k + w) mem)).
Proof.
  intros He. cbv zeta. induction l as [|c l IH]; intros k mem Hb Hl Hw.
  - simpl. rewrite !Nat.add_0_r, take_drop. done.
  - simpl in Hl, Hw. cbn [puts]. unfold put. cbn [str end_ buf cells].
    rewrite u32_small by (unfold is_u32, U32_MOD; lia).
    replace (b + Z.of_nat k + 1) with (b + Z.of_nat (S k)) by lia.
    destruct (Z.leb_spec (b + Z.of_nat k) e) as [Hle|Hgt].
    + replace (cap - k)%nat with (S (cap - S k)) in * by lia. simpl in Hw. specialize (Hw ltac:(lia)).
      rewrite array_set_Some by lia. cbn [mbind option_bind].
      replace (Z.to_nat (b + Z.of_nat k - b)) with k by lia.
      rewrite IH by (rewrite ?length_insert; lia). f_equal. simpl. f_equal; [lia|].
      rewrite (insert_take_drop mem k c) by lia.
      replace (S k) with (List.length (take k mem ++ [c])) at 1 by (rewrite length_app, length_take; simpl; lia).
      change (c :: drop (S k) mem) with ([c] ++ drop (S k) mem). rewrite (app_assoc (take k mem)).
      rewrite take_app_length.
      replace (S k + Nat.min (List.length l) (cap - S k))%nat with (List.length (take k mem ++ [c]) + Nat.min (List.length l) (cap - S k))%nat at 1
        by (rewrite length_app, length_take; simpl; lia).
      rewrite drop_app_add, drop_drop, <- app_assoc. simpl. by rewrite <- plus_n_Sm.
    + replace (cap - k)%nat with 0%nat by lia. rewrite Nat.min_0_r. cbn [mbind option_bind].
      rewrite IH; [|lia|lia|]; replace (cap - S k)%nat with 0%nat by lia; rewrite Nat.min_0_r; [|lia].
      f_equal. simpl. f_equal; [lia|]. rewrite !Nat.add_0_r. by rewrite !take_drop.
Qed.

(** The buffer is cut where the addresses end. *)
Definition room (b size : Z) : Z := Z.min size (2 ^ 32 - b).

Lemma vsnprintf_bounds b size : 0 < b < 2 ^ 32 -> 0 <= size <= INT_MAX ->
  let e := u32 (b + size - 1) in
  (if e <? u32 (b - 1) then (2 ^ 32 - 1, u32 (2 ^ 32 - 1 - b + 1)) else (e, size)) =
  (b + room b size - 1, room b size).
Proof.
  intros Hb Hs. cbv zeta. unfold room. rewrite (u32_small (b - 1)) by width_lia.
  destruct (Z.ltb_spec (b + size) (2 ^ 32 + 1)) as [H|H].
  - rewrite u32_small by width_lia. destruct (Z.ltb_spec (b + size - 1) (b - 1)); [lia|]. f_equal; lia.
  - replace (u32 (b + size - 1)) with (b + size - 1 - 2 ^ 32).
    2:{ unfold u32, U32_MOD. apply Z.mod_unique with 1; width_lia. }
    destruct (Z.ltb_spec (b + size - 1 - 2 ^ 32) (b - 1)) as [_|]; [|width_lia].
    rewrite u32_small by width_lia. f_equal; lia.
Qed.

(** Inserting the NUL behind the text or at the end of the buffer. *)
Lemma placed_nul cap t mem : let w := Nat.min (List.length t) cap in
  (Nat.min cap (S (List.length t)) <= List.length mem)%nat -> (0 < cap)%nat ->
  <[Nat.min (List.length t) (cap - 1) := 0]> (take w t ++ drop w mem) = placed (Z.of_nat cap) t mem.
Proof.
  cbv zeta. intros Hmem Hcap. unfold placed. destruct (Z.leb_spec (Z.of_nat cap) 0); [lia|].
  replace (Z.to_nat (Z.of_nat cap - 1)) with (cap - 1)%nat by lia. set (n := List.length t) in *.
  rewrite (Nat.min_comm (cap - 1)). set (v := Nat.min n (cap - 1)).
  apply list_eq. intros i. destruct (decide (i = v)) as [->|Hi].
  - rewrite list_lookup_insert_eq. 2:{ rewrite length_app, length_take, length_drop. lia. }
    rewrite lookup_app_r by (rewrite length_take; lia). rewrite length_take.
    by replace (v - Nat.min v (List.length t))%nat with 0%nat by lia.
  - rewrite list_lookup_insert_ne by done. destruct (decide (i < v)%nat) as [Hlt|Hge].
    + rewrite !lookup_app_l by (rewrite length_take; lia). by rewrite !lookup_take_lt by lia.
    + rewrite !lookup_app_r by (rewrite length_take; lia). rewrite !length_take, lookup_drop.
      replace (Nat.min v (List.length t)) with v by lia. destruct (i - v)%nat as [|j] eqn:E; [lia|]. simpl.
      rewrite lookup_drop. f_equal. lia.
Qed.

Lemma vsnprintf_spec b mem size fmt args t st :
  0 < b < 2 ^ 32 -> 0 <= size <= INT_MAX -> text fmt args = Some (t, st) ->
  b + Z.of_nat (List.length t) < 2 ^ 32 ->
  (0 < size -> Z.min (room b size) (Z.of_nat (List.length t) + 1) <= Z.of_nat (List.length mem)) ->
  vsnprintf b mem size fmt args = Some (s32 (Z.of_nat (List.length t)), placed (room b size) t mem, st).
Proof.
  intros Hb Hs Ht Hfit Hmem. unfold vsnprintf. rewrite s32_small by width_lia.
  destruct (Z.ltb_spec size 0); [lia|]. cbv zeta. rewrite vsnprintf_bounds by done.
  rewrite format_spec by (done || unfold is_u32, U32_MOD; simpl; lia). rewrite Ht. cbn [mbind option_bind].
  assert (Hr : 0 <= room b size /\ (0 < size -> 0 < room b size)) by (unfold room; lia). destruct Hr as [Hr Hr0].
  set (cap := Z.to_nat (room b size)). replace (room b size) with (Z.of_nat cap) in * by lia.
  pose proof (puts_buffer b (b + Z.of_nat cap - 1) cap t ltac:(lia) 0 mem ltac:(lia) ltac:(simpl; lia)) as Hp.
  cbv zeta in Hp. rewrite Nat.sub_0_r in Hp. simpl in Hp. rewrite Z.add_0_r in Hp.
  assert (Hsz : (0 < cap)%nat -> 0 < size) by (unfold room in *; lia).
  rewrite Hp by lia. cbn [mbind option_bind str cells]. clear Hp.
  replace (b + Z.of_nat (List.length t) - b) with (Z.of_nat (List.length t)) by lia.
  set (w := Nat.min (List.length t) cap).
  assert (Hlen : (0 < cap -> List.length (take w t ++ drop w mem) = List.length mem)%nat)
    by (intros; rewrite length_app, length_take, length_drop; lia).
  destruct (Z.leb_spec (b + Z.of_nat (List.length t)) (b + Z.of_nat cap - 1)) as [Hle|Hgt].
  - rewrite array_set_Some by lia. cbn [mbind option_bind]. rewrite <- placed_nul by lia. do 4 f_equal. lia.
  - destruct (Z.ltb_spec 0 (Z.of_nat cap)) as [Hc|Hc].
    + rewrite array_set_Some by lia. cbn [mbind option_bind]. rewrite <- placed_nul by lia. do 4 f_equal. lia.
    + cbn [mbind option_bind]. unfold placed. destruct (Z.leb_spec (Z.of_nat cap) 0) as [_|]; [|lia].
      replace w with 0%nat by lia. done.
Qed.

Lemma scnprintf_spec b mem size fmt args t st :
  0 < b < 2 ^ 32 -> 0 <= size <= INT_MAX -> text fmt args = Some (t, st) ->
  Z.of_nat (List.length t) <= INT_MAX -> b + Z.of_nat (List.length t) < 2 ^ 32 ->
  (0 < size -> Z.min (room b size) (Z.of_nat (List.length t) + 1) <= Z.of_nat (List.length mem)) ->
  scnprintf b mem size fmt args =
    Some (Z.min (Z.of_nat (List.length t)) (size - 1), placed (room b size) t mem, st).
Proof.
  intros Hb Hs Ht Hlen Hfit Hmem. unfold scnprintf. rewrite (vsnprintf_spec b mem size fmt args t st) by done.
  cbn [mbind option_bind]. rewrite s32_small by width_lia. rewrite u32_small by width_lia.
  destruct (Z.leb_spec size (Z.of_nat (List.length t))); [rewrite s32_small by width_lia|]; do 3 f_equal; lia.
Qed.

(** C30: The printf family.  The text depends on the format and the arguments alone.  For
    a buffer that is not NULL, whatever its size up to INT_MAX, the calls store as much of the
    text as fits and a NUL, change nothing outside of size bytes (nothing at all for size
    0), and cut the buffer where the address space ends; snprintf returns the length of the
    whole text, scnprintf the number of characters stored (but -1 for size 0, where its
    comment promises 0); sprintf needs room for a text of less than INT_MAX
    characters and its NUL.  A negative
    size returns 0.  With a NULL buffer and size 0, the call that asks for the
    length writes to address 0: for every non-empty text it goes out of bounds. *)
Theorem printf_family b mem size fmt args t st :
  text fmt args = Some (t, st) -> Z.of_nat (List.length t) <= INT_MAX ->
  0 < b -> b + Z.of_nat (List.length t) < 2 ^ 32 ->
  (0 <= size <= INT_MAX ->
   (0 < size -> Z.min (room b size) (Z.of_nat (List.length t) + 1) <= Z.of_nat (List.length mem)) ->
   snprintf b mem size fmt args = Some (Z.of_nat (List.length t), placed (room b size) t mem, st) /\
   vscnprintf b mem size fmt args =
     Some (Z.min (Z.of_nat (List.length t)) (size - 1), placed (room b size) t mem, st) /\
   scnprintf b mem size fmt args = vscnprintf b mem size fmt args /\
   List.length (placed (room b size) t mem) = List.length mem /\
   forall i, (Z.to_nat size <= i)%nat -> placed (room b size) t mem !! i = mem !! i) /\
  (Z.of_nat (List.length t) < INT_MAX -> Z.of_nat (List.length t) + 1 <= Z.of_nat (List.length mem) ->
   sprintf b mem fmt args =
     Some (Z.of_nat (List.length t), (t ++ 0 :: drop (S (List.length t)) mem)%list, st)) /\
  (INT_MAX < size < 2 ^ 32 -> snprintf b mem size fmt args = Some (0, mem, [])) /\
  (t <> [] -> snprintf 0 [] 0 fmt args = None).
Proof.
  intros Ht Hlen Hb Hfit. split_and!.
  - intros Hs Hmem. pose proof (scnprintf_spec b mem size fmt args t st ltac:(lia) Hs Ht Hlen Hfit Hmem) as Hsc.
    split_and!; [|exact Hsc|done| |].
    + unfold snprintf. rewrite (vsnprintf_spec b mem size fmt args t st) by (done || lia). by rewrite s32_small by width_lia.
    + apply placed_length. intros. apply Hmem. unfold room in *. lia.
    + intros i Hi. unfold placed. destruct (Z.leb_spec (room b size) 0); [done|].
      assert (room b size <= size) by (unfold room; lia).
      rewrite lookup_app_r by (rewrite length_take; lia). rewrite length_take.
      destruct (i - _)%nat as [|j] eqn:E; [lia|]. simpl. rewrite lookup_drop. f_equal. lia.
  - intros Hmax Hmem. unfold sprintf. rewrite (vsnprintf_spec b mem INT_MAX fmt args t st); [|lia|width_lia|done|lia|lia].
    rewrite s32_small by width_lia. do 3 f_equal. unfold placed.
    destruct (Z.leb_spec (room b INT_MAX) 0) as [H|H]; [unfold room in H; width_lia|].
    replace (Nat.min _ _) with (List.length t) by (unfold room; width_lia).
    by rewrite take_ge.
  - intros Hs. unfold snprintf, vsnprintf. replace (s32 size <? 0) with true; [done|]. symmetry. apply Z.ltb_lt.
    unfold s32. replace ((size + 2 ^ 31) mod U32_MOD) with (size + 2 ^ 31 - 2 ^ 32); [width_lia|].
    apply Z.mod_unique with 1; width_lia.
  - intros Hne. unfold snprintf, vsnprintf. change (s32 0 <? 0) with false. cbv iota.
    change (u32 (0 + 0 - 1)) with (2 ^ 32 - 1). change (u32 (0 - 1)) with (2 ^ 32 - 1). rewrite Z.ltb_irrefl. cbv iota zeta.
    rewrite format_spec by done. rewrite Ht. destruct t as [|c t]; [done|]. reflexivity.
Qed.

Lemma printf_family_witness :
  snprintf 0x80000000 (replicate 20 7) 8 (txt "a %s%c%5.3d|%-#6x|") [Str 0x80001000 (txt "bc"); Word 100; Word (-5); Word 255] =
    Some (18, (txt "a bcd -" ++ 0 :: replicate 12 7)%list, []).
Proof.
  destruct (printf_family 0x80000000 (replicate 20 7) 8 (txt "a %s%c%5.3d|%-#6x|")
    [Str 0x80001000 (txt "bc"); Word 100; Word (-5); Word 255] (txt "a bcd -005|0xff  |") []) as [H _];
    [by_eval..|]. destruct H as [H _]; [by_eval|intros _; by_eval|]. rewrite H. by_eval.
Defined.
