(* ===== verification/NumberRead.v ===== *)
(** Numbers that lib/vsprintf.c writes are read back by the conversions of the same file. *)
From stdpp Require Import base list gmap option numbers.
From Stdlib Require Import ZArith Lia Ascii String.
From S2P Require Import Prelude Div64 Ctype Vsprintf VsprintfText.

Local Open Scope Z_scope.

(** ** Where a number ends *)

(** The first character of [rest] continues no number of this base. *)
Definition ends_number (base : Z) (rest : list Z) : Prop :=
  match rest with
  | [] => True
  | c :: _ => isxdigit c && (digit_value c <? base) = false /\ toupper c <> 88
  end.

Lemma ends_lower base base' rest : base' <= base -> ends_number base rest -> ends_number base' rest.
Proof.
  intros Hb. destruct rest as [|c rest]; [done|]. intros [H Hx]. split; [|done].
  apply andb_false_iff in H as [H|H]; apply andb_false_iff; [by left|right]. apply Z.ltb_ge in H. apply Z.ltb_ge. lia.
Qed.

Lemma digit_char_shows large d : 0 <= d < 16 ->
  shows (digit_char large d) d /\ toupper (digit_char large d) <> 88 /\ digit_char large d <> 45 /\
  (digit_char large d = 48 <-> d = 0).
Proof.
  intros Hd. assert (H : forallb (fun d => isxdigit (digit_char large d) && (digit_value (digit_char large d) =? d)
    && negb (toupper (digit_char large d) =? 88) && negb (digit_char large d =? 45)
    && Bool.eqb (digit_char large d =? 48) (d =? 0)) (seqZ 0 16) = true)
    by (by destruct large; vm_compute).
  rewrite forallb_forall in H. specialize (H d). destruct (andb_prop _ _ (H ltac:(apply list_elem_of_In, elem_of_seqZ; lia))) as [H' H5].
  apply andb_prop in H' as [H' H4]. apply andb_prop in H' as [H' H3]. apply andb_prop in H' as [H1 H2].
  apply negb_true_iff, Z.eqb_neq in H4. apply negb_true_iff, Z.eqb_neq in H3. apply Z.eqb_eq in H2. apply eqb_prop in H5.
  split; [split; done|]. split; [done|]. split; [done|]. destruct (Z.eqb_spec (digit_char large d) 48), (Z.eqb_spec d 0); done || tauto.
Qed.

(** ** Reading digits *)

Section reading.
Context (m : Z) (wrap : Z -> Z) (Hm : 0 < m) (Hwrap : forall x, wrap x = x mod m).

(** simple_strtoul and simple_strtoull differ in the width only. *)
Definition strto (cp : list Z) (base : Z) : Z * list Z :=
  let '(cp, base) := strto_base cp base in strto_digits wrap base cp 0.

Lemma digits_value_zeros base k ds : digits_value base 0 (replicate k 0 ++ ds) = digits_value base 0 ds.
Proof. induction k as [|k IH]; [done|]. apply IH. Qed.

Lemma shown large ds : Forall (fun d => 0 <= d < 16) ds -> Forall2 shows (digit_char large <$> ds) ds.
Proof.
  induction 1 as [|d ds Hd _ IH]; [constructor|]. simpl. constructor; [apply digit_char_shows; lia|done].
Qed.

Lemma below base b' ds : base <= b' -> Forall (fun d => 0 <= d < base) ds -> Forall (fun d => 0 <= d < b') ds.
Proof. intros Hb. apply Forall_impl. lia. Qed.

Lemma zeros_shown large k : replicate k (chr "0") = digit_char large <$> replicate k 0.
Proof. by rewrite fmap_replicate. Qed.

Lemma strto_digits_text large base ds rest :
  2 <= base <= 16 -> Forall (fun d => 0 <= d < base) ds -> ends_number base rest ->
  strto_digits wrap base ((digit_char large <$> ds) ++ rest) 0 = (digits_value base 0 ds mod m, rest).
Proof.
  intros Hb Hds Hr. rewrite <- (Z.mod_0_l m) at 1 by lia.
  apply (strto_digits_spec m base wrap); [done|done| | |].
  - destruct rest; [done|]. apply Hr.
  - apply shown. by apply (below base 16); [lia|].
  - revert Hds. apply Forall_impl. lia.
Qed.

(** Digits are not taken for a prefix. *)
Lemma char1_no_x large ds rest base :
  Forall (fun d => 0 <= d < 16) ds -> ds <> [] -> ends_number base rest ->
  toupper (char1 ((digit_char large <$> ds) ++ rest)) <> 88.
Proof.
  intros Hds Hne Hr. destruct ds as [|d [|d2 ds]]; [done| |].
  - unfold char1, char0. simpl. destruct rest as [|c rest]; [by vm_compute|]. apply Hr.
  - inversion Hds as [|? ? _ Hds']. inversion Hds' as [|? ? Hd2 _]. by apply digit_char_shows.
Qed.

Lemma strto_explicit large base ds rest :
  2 <= base <= 16 -> Forall (fun d => 0 <= d < base) ds -> ds <> [] -> ends_number base rest ->
  strto ((digit_char large <$> ds) ++ rest) base = (digits_value base 0 ds mod m, rest).
Proof.
  intros Hb Hds Hne Hr. unfold strto, strto_base. destruct (Z.eqb_spec base 0); [lia|].
  rewrite (proj2 (Z.eqb_neq _ 88)) by (by apply (char1_no_x large ds rest base); [apply (below base); [lia|]|..]).
  rewrite andb_false_r. by apply strto_digits_text.
Qed.

(** Base 0: hexadecimal behind 0x, octal behind 0, decimal otherwise. *)
Lemma strto_hex (large : bool) ds rest :
  Forall (fun d => 0 <= d < 16) ds -> ds <> [] -> ends_number 16 rest ->
  strto (chr "0" :: (if large then chr "X" else chr "x") :: (digit_char large <$> ds) ++ rest) 0 =
    (digits_value 16 0 ds mod m, rest).
Proof.
  intros Hds Hne Hr. unfold strto, strto_base. destruct ds as [|d ds]; [done|].
  inversion Hds as [|? ? Hd _]. pose proof (proj1 (digit_char_shows large d Hd)) as [Hx _].
  pose proof (strto_digits_text large 16 (d :: ds) rest ltac:(lia) Hds Hr) as Hread.
  assert (Hl : isxdigit (char0 ((digit_char large <$> d :: ds) ++ rest)) = true) by done.
  set (cs := (digit_char large <$> d :: ds) ++ rest) in *. clearbody cs.
  assert (E : (toupper (char0 (tail (chr "0" :: (if large then chr "X" else chr "x") :: cs))) =? 88) = true)
    by (by destruct large). change (char0 (chr "0" :: _) =? 48) with true. change (0 =? 0) with true. cbv iota zeta.
  rewrite E. unfold char1. cbn [tail]. rewrite Hl. cbn [andb]. exact Hread.
Qed.

Lemma strto_octal large ds rest :
  Forall (fun d => 0 <= d < 8) ds -> ends_number 8 rest ->
  strto (chr "0" :: (digit_char large <$> ds) ++ rest) 0 = (digits_value 8 0 ds mod m, rest).
Proof.
  intros Hds Hr. unfold strto, strto_base. simpl char0. change (chr "0" =? 48) with true. cbn [tail Z.eqb].
  rewrite (proj2 (Z.eqb_neq _ 88)).
  - cbn [andb]. apply (strto_digits_text large 8); [lia|done|done].
  - destruct ds as [|d ds].
    + simpl. destruct rest as [|c rest]; [by vm_compute|]. apply Hr.
    + inversion Hds as [|? ? Hd _]. apply digit_char_shows. lia.
Qed.

Lemma strto_decimal large ds rest :
  Forall (fun d => 0 <= d < 10) ds -> ends_number 10 rest ->
  (exists d ds', ds = d :: ds' /\ (d <> 0)) ->
  strto ((digit_char large <$> ds) ++ rest) 0 = (digits_value 10 0 ds mod m, rest).
Proof.
  intros Hds Hr (d & ds' & -> & Hd0). inversion Hds as [|? ? Hd _]. unfold strto, strto_base.
  change (char0 ((digit_char large <$> d :: ds') ++ rest)) with (digit_char large d).
  replace (digit_char large d =? 48) with false.
  - change (0 =? 0) with true. cbv iota. by apply (strto_digits_text large 10 (d :: ds')); [lia|..].
  - symmetry. apply Z.eqb_neq. intros E. apply Hd0. apply (digit_char_shows large d); [lia|done].
Qed.
End reading.

(** ** The digits of a number *)

Lemma digits_of_digits base num : 2 <= base -> is_u64 num ->
  Forall (fun d => 0 <= d < base) (digits_of base num) /\ digits_of base num <> [] /\
  digits_value base 0 (digits_of base num) = num.
Proof.
  intros Hb Hn. destruct (digits_of_value base num Hb Hn) as [Hv Hf]. split_and!; [done| |done].
  unfold digits_of. destruct (Z.eqb_spec num 0) as [|Hz]; [done|]. intros E.
  unfold digits_of in Hv. rewrite (proj2 (Z.eqb_neq num 0) Hz), E in Hv. done.
Qed.

Lemma digits_rev_last fuel base num : 2 <= base -> 0 < num < 2 ^ Z.of_nat fuel ->
  exists d ds, reverse (digits_rev fuel base num) = d :: ds /\ d <> 0.
Proof.
  intros Hb. revert num. induction fuel as [|fuel IH]; intros num Hn; [change (2 ^ Z.of_nat 0) with 1 in Hn; lia|].
  simpl. destruct (Z.eqb_spec num 0); [lia|]. rewrite reverse_cons.
  destruct (Z.eq_dec (num / base) 0) as [E|E].
  - rewrite E. exists (num mod base), []. split; [by destruct fuel|]. intros E'.
    pose proof (Z.div_mod num base ltac:(lia)). nia.
  - assert (Hd : 0 < num / base < 2 ^ Z.of_nat fuel).
    { pose proof (Z.div_pos num base). split; [lia|]. apply Z.div_lt_upper_bound; [lia|].
      rewrite Nat2Z.inj_succ, Z.pow_succ_r in Hn by lia. nia. }
    destruct (IH _ Hd) as (d & ds & -> & Hd0). exists d, (ds ++ [num mod base]). done.
Qed.

Lemma digits_of_head base num : 2 <= base -> is_u64 num -> num <> 0 ->
  exists d ds, digits_of base num = d :: ds /\ d <> 0.
Proof.
  intros Hb Hn Hz. unfold digits_of. rewrite (proj2 (Z.eqb_neq num 0) Hz).
  apply digits_rev_last; [done|]. unfold is_u64, U64_MOD in Hn. change (2 ^ Z.of_nat 64) with (2 ^ 64). lia.
Qed.

(** ** The text of a number *)

Lemma digits_rev_S fuel base num :
  digits_rev (S fuel) base num = if num =? 0 then [] else num mod base :: digits_rev fuel base (num / base).
Proof. done. Qed.

Lemma digits_of_length base num : (1 <= List.length (digits_of base num) <= 64)%nat \/ digits_of base num = [].
Proof.
  unfold digits_of. destruct (num =? 0); [simpl; lia|]. pose proof (digits_rev_length 64 base num) as H.
  rewrite <- length_reverse in H. destruct (reverse _); [by right|left; simpl in *; lia].
Qed.

(** Nothing is put in front of the sign. *)
Definition flush_left (size type : Z) : Prop := has type LEFT = true \/ has type ZEROPAD = true \/ size <= 0.

Lemma sign_text_length num type : (List.length (sign_text num type) <= 1)%nat.
Proof. unfold sign_text. repeat case_match; simpl; lia. Qed.

Lemma prefix_text_length base type : (List.length (prefix_text base type) <= 2)%nat.
Proof. unfold prefix_text. repeat case_match; simpl; lia. Qed.

Lemma number_text_shape num base size precision type :
  -1 <= size <= INT_MAX -> precision <= INT_MAX - 3 -> flush_left size type ->
  exists k j, number_text num base size precision type =
    (sign_text num type ++ prefix_text base type ++
     (digit_char (has type LARGE) <$> replicate k 0 ++ digits_of base (magnitude num type)) ++
     replicate j (chr " "))%list /\
    (precision <= 1 -> has type LEFT = true \/ size <= 0 -> k = 0%nat) /\
    (size <= 0 \/ has type LEFT = false -> j = 0%nat).
Proof.
  intros Hs Hp Hf. unfold number_text, digits_text.
  set (ds := digit_char _ <$> digits_of _ _). set (z := Z.to_nat (precision - _)). set (fill := Z.to_nat (s32 _)).
  assert (Hds : (List.length ds <= 64)%nat).
  { unfold ds. rewrite length_fmap. destruct (digits_of_length base (magnitude num type)) as [H|E]; [lia|]. rewrite E. simpl. lia. }
  assert (Hz0 : precision <= 1 -> z = 0%nat).
  { intros Hp1. unfold z, ds. rewrite length_fmap. destruct (digits_of_length base (magnitude num type)) as [H|E]; [lia|].
    exfalso. revert E. unfold digits_of. destruct (Z.eqb_spec (magnitude num type) 0) as [|Hz]; [done|].
    rewrite (digits_rev_S 63), (proj2 (Z.eqb_neq _ 0) Hz), reverse_cons. by destruct (reverse _). }
  pose proof (sign_text_length num type). pose proof (prefix_text_length base type).
  assert (Hfill : size <= 0 -> fill = 0%nat).
  { intros Hsz. unfold fill. rewrite !length_app, length_replicate. rewrite s32_small by (unfold z; width_lia). lia. }
  destruct (has type LEFT) eqn:Hl.
  - exists z, fill. rewrite fmap_app, <- zeros_shown, <- !app_assoc. split; [done|]. split; [intros; by apply Hz0|].
    intros [|]; [by apply Hfill|done].
  - destruct (has type ZEROPAD) eqn:Hzp.
    + exists (fill + z)%nat, 0%nat. rewrite fmap_app, <- zeros_shown, replicate_add, !app_nil_r, <- !app_assoc. split; [done|].
      split; [|done]. intros H1 [|H2]; [done|]. rewrite (Hfill H2), (Hz0 H1). done.
    + destruct Hf as [Hf|[Hf|Hf]]; [congruence|congruence|]. exists z, 0%nat.
      rewrite fmap_app, <- zeros_shown, (Hfill Hf), !app_nil_r, <- !app_assoc. split; [done|]. split; [intros; by apply Hz0|done].
Qed.

Lemma ends_blanks base j rest : ends_number base rest -> ends_number base (replicate j (chr " ") ++ rest).
Proof. intros H. destruct j as [|j]; [done|]. simpl. split; [|by vm_compute]. by change (isxdigit (chr " ")) with false. Qed.

Lemma zeros_digits k base num : 2 <= base -> is_u64 num ->
  let ds := (replicate k 0 ++ digits_of base num)%list in
  Forall (fun d => 0 <= d < base) ds /\ ds <> [] /\ digits_value base 0 ds = num.
Proof.
  intros Hb Hn. destruct (digits_of_digits base num Hb Hn) as (Hf & Hne & Hv). cbv zeta. rewrite digits_value_zeros.
  split_and!; [|by destruct k|done]. apply Forall_app. split; [|done]. apply Forall_replicate. lia.
Qed.

(** ** Signs *)

Lemma s32_u64 x : s32 (u64 x) = s32 x.
Proof.
  unfold s32, u64. f_equal. change U64_MOD with (2 ^ 32 * U32_MOD). apply Z.add_cancel_r with 0. rewrite !Z.add_0_r.
  rewrite <- (Zplus_mod_idemp_l (x mod _)), <- (Zplus_mod_idemp_l x). f_equal. f_equal. symmetry.
  rewrite <- (Znumtheory.Zmod_div_mod U32_MOD (2 ^ 32 * U32_MOD)); [done|done|done|]. by exists (2 ^ 32).
Qed.

Lemma s32_mod x y : x mod U32_MOD = y mod U32_MOD -> s32 x = s32 y.
Proof. intros E. unfold s32. f_equal. by rewrite <- (Zplus_mod_idemp_l x), E, Zplus_mod_idemp_l. Qed.

Lemma s64_mod x y : x mod U64_MOD = y mod U64_MOD -> s64 x = s64 y.
Proof. intros E. unfold s64. f_equal. by rewrite <- (Zplus_mod_idemp_l x), E, Zplus_mod_idemp_l. Qed.

Lemma s64_idemp x : s64 (s64 x) = s64 x.
Proof. apply s64_mod. unfold s64. by rewrite Zminus_mod_idemp_l, Z.add_simpl_r. Qed.

Lemma s64_s32 x : s32 (s64 x) = s32 x.
Proof.
  rewrite <- (s32_u64 (s64 x)), <- (s32_u64 x). f_equal. unfold u64, s64. by rewrite Zminus_mod_idemp_l, Z.add_simpl_r.
Qed.

Lemma opp_mod_idemp x m : 0 < m -> (- (x mod m)) mod m = (- x) mod m.
Proof. intros. rewrite <- (Z.sub_0_l (x mod m)), <- (Z.sub_0_l x). apply Zminus_mod_idemp_r. Qed.

(** The sign that strtol reads. *)
Definition strto_signed (norm wrap : Z -> Z) (cp : list Z) (base : Z) : Z * list Z :=
  if char0 cp =? 45 then let '(r, e) := strto wrap (tail cp) base in (norm (- r), e)
  else let '(r, e) := strto wrap cp base in (norm r, e).

Section signed.
Context (m : Z) (wrap norm : Z -> Z) (Hm : 0 < m) (Hwrap : forall x, wrap x = x mod m).
Context (Hnorm : forall x y, x mod m = y mod m -> norm x = norm y).

Lemma strto_signed_spec num type base body rest value :
  has type SIGN = true -> has type PLUS = false -> has type SPACE = false -> char0 (body ++ rest) <> 45 ->
  strto wrap (body ++ rest) base = (Z.abs (s64 num) mod m, rest) -> norm (s64 num) = value ->
  strto_signed norm wrap (sign_text num type ++ body ++ rest) base = (value, rest).
Proof.
  intros Hsg Hp Hsp Hd Hr <-. unfold sign_text. rewrite Hsg, Hp, Hsp. set (l := (body ++ rest)%list) in *. clearbody l.
  destruct (Z.ltb_spec (s64 num) 0).
  - unfold strto_signed. simpl (_ ++ _)%list at 1. change (char0 (chr "-" :: _) =? 45) with true. cbv iota.
    change (tail ([chr "-"] ++ ?l)) with l. rewrite Hr. f_equal. apply Hnorm. rewrite opp_mod_idemp by done. f_equal. lia.
  - unfold strto_signed. change ([] ++ l)%list with l.
    rewrite (proj2 (Z.eqb_neq _ 45) Hd), Hr. f_equal. apply Hnorm. rewrite Z.mod_mod by lia. f_equal. lia.
Qed.
End signed.

(** Both widths at once. *)
Lemma unsigned_both l b num e : is_u64 num ->
  (forall m wrap, 0 < m -> (forall x, wrap x = x mod m) -> strto wrap l b = (num mod m, e)) ->
  simple_strtoull l b = (num, e) /\ simple_strtoul l b = (u32 num, e).
Proof.
  intros Hn H. change simple_strtoull with (strto u64). change simple_strtoul with (strto u32).
  rewrite (H U64_MOD u64), (H U32_MOD u32) by done. by rewrite (u64_small num Hn : num mod U64_MOD = num).
Qed.

Lemma signed_both num type b body e :
  has type SIGN = true -> has type PLUS = false -> has type SPACE = false -> char0 (body ++ e) <> 45 ->
  (forall m wrap, 0 < m -> (forall x, wrap x = x mod m) -> strto wrap (body ++ e) b = (Z.abs (s64 num) mod m, e)) ->
  let l := (sign_text num type ++ body ++ e)%list in
  simple_strtoll l b = (s64 num, e) /\ simple_strtol l b = (s32 num, e).
Proof.
  intros Hsg Hpl Hsp Hd H. change simple_strtoll with (strto_signed s64 u64). change simple_strtol with (strto_signed s32 u32).
  split.
  - apply (strto_signed_spec U64_MOD); try done; [intros; by apply s64_mod|by apply H|apply s64_idemp].
  - apply (strto_signed_spec U32_MOD); try done; [intros; by apply s32_mod|by apply H|apply s64_s32].
Qed.

(** ** The round trip *)

Lemma strto_decimal_of m wrap large num e : 0 < m -> (forall x, wrap x = x mod m) ->
  is_u64 num -> ends_number 10 e ->
  strto wrap ((digit_char large <$> replicate 0 0 ++ digits_of 10 num) ++ e) 0 =
    (digits_value 10 0 (replicate 0 0 ++ digits_of 10 num) mod m, e).
Proof.
  intros Hm Hw Hn He. simpl replicate. simpl ([] ++ _)%list. destruct (Z.eq_dec num 0) as [->|E].
  - apply (strto_octal m wrap Hm Hw large [] e); [constructor|]. by apply ends_lower with 10.
  - apply (strto_decimal m wrap); try done; [by apply digits_of_digits|]. by apply digits_of_head.
Qed.

(** What the readers make of the text [t] of a number in front of [rest]; [e] is where
    they stop. *)
Definition reads_back (num base size precision type : Z) (t rest e : list Z) : Prop :=
  (has type SPECIAL = false -> has type SIGN = false ->
    simple_strtoull (t ++ rest) base = (num, e) /\ simple_strtoul (t ++ rest) base = (u32 num, e)) /\
  (has type SPECIAL = false -> has type SIGN = true ->
    simple_strtoll (t ++ rest) base = (s64 num, e) /\ simple_strtol (t ++ rest) base = (s32 num, e)) /\
  (has type SPECIAL = true -> has type SIGN = false -> base = 8 \/ base = 16 ->
    simple_strtoull (t ++ rest) 0 = (num, e) /\ simple_strtoul (t ++ rest) 0 = (u32 num, e)) /\
  (has type SPECIAL = false -> has type SIGN = true -> base = 10 -> precision <= 1 ->
    has type LEFT = true \/ size <= 0 ->
    simple_strtoll (t ++ rest) 0 = (s64 num, e) /\ simple_strtol (t ++ rest) 0 = (s32 num, e)) /\
  (has type SPECIAL = false -> has type SIGN = false -> base = 10 -> precision <= 1 ->
    has type LEFT = true \/ size <= 0 ->
    simple_strtoull (t ++ rest) 0 = (num, e) /\ simple_strtoul (t ++ rest) 0 = (u32 num, e)) /\
  (has type SPECIAL = true -> has type SIGN = true -> base = 8 \/ base = 16 ->
    simple_strtoll (t ++ rest) 0 = (s64 num, e) /\ simple_strtol (t ++ rest) 0 = (s32 num, e)).

Lemma number_text_reads num base size precision type rest :
  is_u64 num -> 2 <= base <= 16 -> -1 <= size <= INT_MAX -> precision <= INT_MAX - 3 ->
  flush_left size type -> has type PLUS = false -> has type SPACE = false -> ends_number base rest ->
  exists j, (size <= 0 -> j = 0%nat) /\
    reads_back num base size precision type (number_text num base size precision type)
    rest (replicate j (chr " ") ++ rest).
Proof.
  intros Hn Hb Hs Hp Hf Hpl Hsp Hr.
  destruct (number_text_shape num base size precision type Hs Hp Hf) as (k & j & Et & Hk & Hj).
  exists j. split; [by auto|].
  destruct (magnitude_spec num type Hn) as [_ Hmag].
  destruct (zeros_digits k base (magnitude num type) ltac:(lia) Hmag) as (Hds & Hne & Hv).
  pose proof (ends_blanks base j rest Hr) as He. rewrite Et. unfold reads_back. rewrite <- !app_assoc.
  set (ds := replicate k 0 ++ digits_of base (magnitude num type)) in *.
  set (e := replicate j (chr " ") ++ rest) in *.
  assert (Hfirst : char0 ((digit_char (has type LARGE) <$> ds) ++ e) <> 45).
  { destruct ds as [|d ds']; [done|]. inversion Hds as [|? ? Hd _]. simpl. apply digit_char_shows. lia. }
  unfold magnitude in Hv. unfold prefix_text. split_and!; intros Hspec Hsig; rewrite Hspec; rewrite Hsig in Hv.
  - unfold sign_text. rewrite Hsig. apply unsigned_both; [done|]. intros m wrap Hm Hw.
    rewrite <- Hv. by apply (strto_explicit m wrap).
  - apply (signed_both _ _ _ (digit_char (has type LARGE) <$> ds)); try done. intros m wrap Hm Hw. rewrite <- Hv. by apply (strto_explicit m wrap).
  - intros Hbase. unfold sign_text. rewrite Hsig. apply unsigned_both; [done|]. intros m wrap Hm Hw. rewrite <- Hv.
    destruct Hbase as [->| ->]; [by apply (strto_octal m wrap)|by apply (strto_hex m wrap)].
  - intros -> Hp1 Hl. apply (signed_both _ _ _ (digit_char (has type LARGE) <$> ds)); try done. intros m wrap Hm Hw. rewrite <- Hv.
    unfold ds. rewrite (Hk Hp1 Hl). unfold magnitude in *. rewrite Hsig in *. by apply strto_decimal_of.
  - intros -> Hp1 Hl. unfold sign_text. rewrite Hsig. apply unsigned_both; [done|]. intros m wrap Hm Hw. rewrite <- Hv.
    unfold ds. rewrite (Hk Hp1 Hl). unfold magnitude in *. rewrite Hsig in *. by apply strto_decimal_of.
  - intros [->| ->].
    + apply (signed_both _ _ _ (chr "0" :: (digit_char (has type LARGE) <$> ds))); try done.
      intros m wrap Hm Hw. rewrite <- Hv. by apply (strto_octal m wrap).
    + apply (signed_both _ _ _ (chr "0" :: (if has type LARGE then chr "X" else chr "x") :: (digit_char (has type LARGE) <$> ds))); try done.
      intros m wrap Hm Hw. rewrite <- Hv. by apply (strto_hex m wrap).
Qed.



(** The conversion of a size_t ignores that %zd is signed. *)
Example zd_unsigned : text (txt "%zd") [Word (-1)] = Some (txt "4294967295", []).
Proof. by vm_compute. Qed.

(** ** %d *)

Definition decimal (v : Z) : list Z := number_text (u64 v) 10 (-1) (-1) SIGN.
Arguments decimal : simpl never.

Lemma decimal_reads v rest : is_s32 v -> ends_number 10 rest ->
  simple_strtol (decimal v ++ rest) 0 = (v, rest) /\ simple_strtol (decimal v ++ rest) 10 = (v, rest).
Proof.
  intros Hv Hr. destruct (number_text_reads (u64 v) 10 (-1) (-1) SIGN rest) as (j & Hj & (_ & H10 & _ & H0 & _));
    [apply u64_range|lia|width_lia|width_lia|right; right; lia|done|done|done|].
  rewrite (Hj ltac:(lia)) in H10, H0.
  destruct H10 as [_ H10]; [done|done|]. destruct H0 as [_ H0]; [done|done|done|lia|right; lia|].
  rewrite s32_u64, (s32_small v Hv) in H10, H0. done.
Qed.

(** ** %llu *)

Definition udecimal (v : Z) : list Z := number_text v 10 (-1) (-1) 0.
Arguments udecimal : simpl never.

Lemma udecimal_reads v rest : is_u64 v -> ends_number 10 rest ->
  simple_strtoull (udecimal v ++ rest) 0 = (v, rest) /\ simple_strtoul (udecimal v ++ rest) 10 = (u32 v, rest).
Proof.
  intros Hv Hr. destruct (number_text_reads v 10 (-1) (-1) 0 rest) as (j & Hj & (H10 & _ & _ & _ & H0 & _));
    [done|lia|width_lia|width_lia|right; right; lia|done|done|done|].
  rewrite (Hj ltac:(lia)) in H10, H0. split; [apply H0; try done; lia|by apply H10].
Qed.
