(* ===== verification/Vsscanf.v ===== *)
(** lib/vsprintf.c: vsscanf and sscanf.

    The input and the format are what is left of the two strings.  The targets of the
    conversions are cells for one number, or buffers of characters with their bounds. *)
From stdpp Require Import base list gmap option numbers.
From Stdlib Require Import ZArith Lia Ascii String.
From S2P Require Import Prelude Div64 Ctype Vsprintf VsprintfText NumberRead.

Local Open Scope Z_scope.

(** ** The code *)

(** What a pointer among the arguments leads to; [Number] keeps the value that was stored. *)
Inductive target := Number (v : Z) | Buffer (mem : list Z).

Fixpoint skip_spaces (s : list Z) : list Z :=
  match s with c :: s' => if isspace c then skip_spaces s' else s | [] => [] end.

(** while (!isspace( *s) && *s) s++ *)
Fixpoint skip_word (s : list Z) : list Z :=
  match s with c :: s' => if isspace c || (c =? 0) then s else skip_word s' | [] => [] end.

Inductive scan_qualifier := SNone | SH | Sh | Sl | SL | SZ.

Definition get_scan_qualifier (fmt : list Z) : list Z * scan_qualifier :=
  let c := char0 fmt in
  if c =? chr "h" then if char1 fmt =? chr "h" then (tail (tail fmt), SH) else (tail fmt, Sh)
  else if c =? chr "l" then if char1 fmt =? chr "l" then (tail (tail fmt), SL) else (tail fmt, Sl)
  else if c =? chr "L" then (tail fmt, SL)
  else if (c =? chr "Z") || (c =? chr "z") then (tail fmt, SZ)
  else (fmt, SNone).

(** do { *s++ = *str++; } while (--field_width > 0 && *str), from the cell [i] on *)
Fixpoint scan_chars (str : list Z) (width i : Z) (mem : list Z) : option (list Z * list Z) :=
  match str with
  | c :: str =>
      mem ← array_set mem i c;
      if (0 <? width - 1) && negb (char0 str =? 0) then scan_chars str (width - 1) (i + 1) mem else Some (str, mem)
  | [] => None
  end.

(** while ( *str && !isspace( *str) && field_width--) *s++ = *str++; *s = 0 *)
Fixpoint scan_word (str : list Z) (width i : Z) (mem : list Z) : option (list Z * list Z) :=
  match str with
  | c :: str' =>
      if (c =? 0) || isspace c || (width =? 0) then mem ← array_set mem i 0; Some (str, mem)
      else mem ← array_set mem i c; scan_word str' (s32 (width - 1)) (i + 1) mem
  | [] => mem ← array_set mem i 0; Some ([], mem)
  end.

(** The base and the sign of the integer conversions. *)
Definition scan_int (c : Z) : option (Z * bool) :=
  if c =? chr "o" then Some (8, false)
  else if (c =? chr "x") || (c =? chr "X") then Some (16, false)
  else if c =? chr "i" then Some (0, true)
  else if c =? chr "d" then Some (10, true)
  else if c =? chr "u" then Some (10, false)
  else None.

Definition not_a_number (str : list Z) (base : Z) (is_sign : bool) : bool :=
  let digit := if is_sign && (char0 str =? chr "-") then char1 str else char0 str in
  (digit =? 0) || ((base =? 16) && negb (isxdigit digit)) || ((base =? 10) && negb (isdigit digit)) ||
  ((base =? 8) && (negb (isdigit digit) || (chr "7" <? digit))) || ((base =? 0) && negb (isdigit digit)).

Definition signed (w : Z) (x : Z) : Z := (x + 2 ^ (w - 1)) mod 2 ^ w - 2 ^ (w - 1).

(** The value as it is stored, and the input behind it. *)
Definition scan_number (q : scan_qualifier) (is_sign : bool) (str : list Z) (base : Z) : Z * list Z :=
  match q with
  | SH => if is_sign then let '(v, e) := simple_strtol str base in (signed 8 v, e)
          else let '(v, e) := simple_strtoul str base in (u8 v, e)
  | Sh => if is_sign then let '(v, e) := simple_strtol str base in (signed 16 v, e)
          else let '(v, e) := simple_strtoul str base in (u16 v, e)
  | SL => if is_sign then simple_strtoll str base else simple_strtoull str base
  | SZ => simple_strtoul str base
  | Sl | SNone => if is_sign then simple_strtol str base else simple_strtoul str base
  end.

(** The targets in order, those that were used first; the next one to use is the head of [args]. *)
Record scan := Scan { s_fmt : list Z; s_str : list Z; s_num : Z; s_args : list target; s_done : list target }.

Definition finish (s : scan) : Z * list target := (s_num s, (s_done s ++ s_args s)%list).

(** The switch of the conversion, behind the qualifier: [inl] goes on with the loop, [inr] ends it. *)
Definition scan_convert (buflen : Z) (s : scan) (width : Z) (q : scan_qualifier) : option (scan + scan) :=
  let c := char0 (s_fmt s) in
  let fmt := tail (s_fmt s) in
  let str := s_str s in
  if c =? chr "c" then
    match s_args s with
    | Buffer mem :: args =>
        '(str, mem) ← scan_chars str (if width =? -1 then 1 else width) 0 mem;
        Some (inl (Scan fmt str (s_num s + 1) args (s_done s ++ [Buffer mem])))
    | _ => None
    end
  else if c =? chr "s" then
    match s_args s with
    | Buffer mem :: args =>
        '(str, mem) ← scan_word (skip_spaces str) (if width =? -1 then INT_MAX else width) 0 mem;
        Some (inl (Scan fmt str (s_num s + 1) args (s_done s ++ [Buffer mem])))
    | _ => None
    end
  else if c =? chr "n" then
    match s_args s with
    | Number _ :: args =>
        Some (inl (Scan fmt str (s_num s) args (s_done s ++ [Number (buflen - Z.of_nat (List.length str))])))
    | _ => None
    end
  else if c =? chr "%" then
    let s' := Scan fmt (tail str) (s_num s) (s_args s) (s_done s) in
    Some (if char0 str =? chr "%" then inl s' else inr s')
  else
    match scan_int c with
    | None => Some (inr (Scan fmt str (s_num s) (s_args s) (s_done s)))
    | Some (base, is_sign) =>
        let str := skip_spaces str in
        if not_a_number str base is_sign then Some (inr (Scan fmt str (s_num s) (s_args s) (s_done s)))
        else
          match s_args s with
          | Number _ :: args =>
              let '(v, next) := scan_number q is_sign str base in
              Some (inl (Scan fmt next (s_num s + 1) args (s_done s ++ [Number v])))
          | _ => None
          end
    end.

(** One turn of the loop. *)
Definition scan_turn (buflen : Z) (s : scan) : option (scan + scan) :=
  let '(fmt, str) :=
    if isspace (char0 (s_fmt s)) then (skip_spaces (s_fmt s), skip_spaces (s_str s)) else (s_fmt s, s_str s) in
  let at_ fmt str := Scan fmt str (s_num s) (s_args s) (s_done s) in
  if negb (char0 fmt =? chr "%") && negb (char0 fmt =? 0) then
    Some (if char0 fmt =? char0 str then inl (at_ (tail fmt) (tail str)) else inr (at_ (tail fmt) (tail str)))
  else if char0 fmt =? 0 then Some (inr (at_ fmt str))
  else
    let fmt := tail fmt in
    if char0 fmt =? chr "*" then Some (inl (at_ (skip_word fmt) (skip_word str)))
    else
      let '(width, fmt) := if isdigit (char0 fmt) then skip_atoi fmt else (-1, fmt) in
      let '(fmt, q) := get_scan_qualifier fmt in
      if (char0 fmt =? 0) || (char0 str =? 0) then Some (inr (at_ fmt str))
      else scan_convert buflen (at_ fmt str) width q.

Fixpoint scan_loop (fuel : nat) (buflen : Z) (s : scan) : option (Z * list target) :=
  match fuel with
  | O => None
  | S fuel =>
      if (char0 (s_fmt s) =? 0) || (char0 (s_str s) =? 0) then Some (finish s)
      else r ← scan_turn buflen s;
           match r with inl s => scan_loop fuel buflen s | inr s => Some (finish s) end
  end.

(** Every turn takes a character of the format. *)
Definition vsscanf (buf fmt : list Z) (args : list target) : option (Z * list target) :=
  scan_loop (S (List.length fmt)) (Z.of_nat (List.length buf)) (Scan fmt buf 0 args []).

Definition sscanf := vsscanf.

(** ** Integer conversions and their values *)

Inductive conv := Cd | Cu | Cx | CX | Co.

Definition conv_letter (k : conv) : Z :=
  match k with Cd => chr "d" | Cu => chr "u" | Cx => chr "x" | CX => chr "X" | Co => chr "o" end.
Definition conv_base (k : conv) : Z := match k with Cd | Cu => 10 | Cx | CX => 16 | Co => 8 end.
Definition conv_signed (k : conv) : bool := match k with Cd => true | _ => false end.
Definition conv_flags (k : conv) : Z := match k with Cd => SIGN | CX => LARGE | _ => 0 end.
Definition conv_ok (k : conv) (v : Z) : Prop := match k with Cd => is_s32 v | _ => is_u32 v end.
Definition conv_text (k : conv) (v : Z) : list Z := number_text (u64 v) (conv_base k) (-1) (-1) (conv_flags k).

(** The character between two numbers: it is not part of one, no white space and no percent sign. *)
Definition separates (c : Z) : Prop :=
  ends_number 16 [c] /\ isspace c = false /\ c <> 0 /\ c <> chr "%".

(** A format of integer conversions, and the text that it gives for the values. *)
Fixpoint items_fmt (sep : Z) (l : list (conv * Z)) : list Z :=
  match l with
  | [] => []
  | (k, _) :: l => chr "%" :: conv_letter k :: match l with [] => [] | _ => sep :: items_fmt sep l end
  end.

Fixpoint items_out (sep : Z) (l : list (conv * Z)) : list Z :=
  match l with
  | [] => []
  | (k, v) :: l => conv_text k v ++ match l with [] => [] | _ => sep :: items_out sep l end
  end.

Lemma conv_u64 k v : conv_ok k v -> is_u64 (u64 v).
Proof. intros _. apply u64_range. Qed.

Lemma conv_digits k v : conv_ok k v ->
  exists ds, conv_text k v = (sign_text (u64 v) (conv_flags k) ++ (digit_char (has (conv_flags k) LARGE) <$> ds))%list /\
    ds <> [] /\ Forall (fun d => 0 <= d < conv_base k) ds /\
    (sign_text (u64 v) (conv_flags k) = [] \/ conv_signed k = true /\ sign_text (u64 v) (conv_flags k) = [chr "-"]).
Proof.
  intros Hv. unfold conv_text.
  destruct (number_text_shape (u64 v) (conv_base k) (-1) (-1) (conv_flags k)) as (z & j & E & Hz & Hj); [width_lia|width_lia|right; right; lia|].
  rewrite (Hz ltac:(lia) ltac:(right; lia)), (Hj ltac:(left; lia)) in E.
  destruct (magnitude_spec (u64 v) (conv_flags k) (u64_range v)) as [_ Hm].
  destruct (digits_of_digits (conv_base k) _ ltac:(by destruct k) Hm) as (Hf & Hne & _).
  exists (digits_of (conv_base k) (magnitude (u64 v) (conv_flags k))). split; [|split; [done|split; [done|]]].
  - rewrite E. replace (prefix_text (conv_base k) (conv_flags k)) with (@nil Z) by (by destruct k). simpl. by rewrite app_nil_r.
  - destruct k; try by left. unfold sign_text. simpl. change (has SIGN SIGN) with true. change (has SIGN PLUS) with false.
    change (has SIGN SPACE) with false. cbv iota. destruct (s64 (u64 v) <? 0); [right|left]; done.
Qed.

Lemma scan_digit large d : 0 <= d < 16 -> let c := digit_char large d in
  c <> 0 /\ isspace c = false /\ c <> 45 /\ isxdigit c = true /\ (d < 10 -> isdigit c = true) /\ (d < 8 -> c <= 55).
Proof.
  intros Hd. cbv zeta. assert (H : forallb (fun d => let c := digit_char large d in
    negb (c =? 0) && negb (isspace c) && negb (c =? 45) && isxdigit c && ((10 <=? d) || isdigit c) && ((8 <=? d) || (c <=? 55))) (seqZ 0 16) = true)
    by (by destruct large; vm_compute).
  rewrite forallb_forall in H. specialize (H d ltac:(apply list_elem_of_In, elem_of_seqZ; lia)). cbv zeta in H.
  repeat match goal with H : (_ && _)%bool = true |- _ => apply andb_prop in H as [H ?] end.
  repeat match goal with
  | H : negb _ = true |- _ => apply negb_true_iff in H
  | H : (_ =? _) = false |- _ => apply Z.eqb_neq in H end.
  split_and!; try done; intros Hlt;
    match goal with H : ((?n <=? d) || ?b)%bool = true |- _ => destruct (Z.leb_spec n d); [lia|cbn [orb] in H] end;
    try done; lia.
Qed.

(** The reader finds the number. *)
Lemma conv_reads k v rest : conv_ok k v -> ends_number 16 rest ->
  scan_number SNone (conv_signed k) (conv_text k v ++ rest) (conv_base k) = (v, rest) /\
  not_a_number (conv_text k v ++ rest) (conv_base k) (conv_signed k) = false /\
  exists c l, conv_text k v = c :: l /\ c <> 0 /\ isspace c = false.
Proof.
  intros Hv Hr. split; [|split].
  - destruct (number_text_reads (u64 v) (conv_base k) (-1) (-1) (conv_flags k) rest) as (j & Hj & (H1 & H2 & _));
      [apply u64_range|by destruct k|width_lia|width_lia|right; right; lia|by destruct k|by destruct k|
       apply (ends_lower 16); [by destruct k|done]|].
    rewrite (Hj ltac:(lia)) in H1, H2. unfold scan_number, conv_text. destruct k; cbn [conv_ok conv_signed conv_base conv_flags] in *.
    1: destruct H2 as [_ H2]; [done|done|]; rewrite s32_u64, (s32_small v Hv) in H2; exact H2.
    all: destruct H1 as [_ H1]; [done|done|]; rewrite (u64_small v) in H1 by (unfold is_u32, U32_MOD, is_u64, U64_MOD in *; lia);
      rewrite (u32_small v Hv) in H1; rewrite (u64_small v) by (unfold is_u32, U32_MOD, is_u64, U64_MOD in *; lia); exact H1.
  - destruct (conv_digits k v Hv) as (ds & -> & Hne & Hf & Hs). rewrite <- app_assoc. destruct ds as [|d ds]; [done|].
    inversion Hf as [|? ? Hd _]. unfold not_a_number.
    destruct (scan_digit (has (conv_flags k) LARGE) d) as (D1 & D2 & D3 & D4 & D5 & D6); [destruct k; simpl in *; lia|].
    set (c := digit_char (has (conv_flags k) LARGE) d) in *.
    change ((digit_char (has (conv_flags k) LARGE) <$> d :: ds) ++ rest) with (c :: (digit_char (has (conv_flags k) LARGE) <$> ds) ++ rest).
    set (tl := (digit_char (has (conv_flags k) LARGE) <$> ds) ++ rest). set (sg := sign_text _ _) in *.
    assert (Hdig : (if conv_signed k && (char0 (sg ++ c :: tl) =? chr "-") then char1 (sg ++ c :: tl) else char0 (sg ++ c :: tl)) = c).
    { destruct Hs as [-> |[-> ->]]; [|done]. change (char0 ([] ++ c :: tl)) with c.
      rewrite (proj2 (Z.eqb_neq c (chr "-")) D3), andb_false_r. done. }
    rewrite Hdig, (proj2 (Z.eqb_neq c 0) D1), D4.
    destruct k; simpl conv_base in *; cbn [Z.eqb andb orb negb Pos.eqb]; rewrite ?D5 by lia; try done.
    destruct (Z.ltb_spec (chr "7") c) as [H7|H7]; [|done]. specialize (D6 ltac:(lia)). change (chr "7") with 55 in H7. lia.
  - destruct (conv_digits k v Hv) as (ds & -> & Hne & Hf & Hs). destruct ds as [|d ds]; [done|]. inversion Hf as [|? ? Hd _].
    destruct (scan_digit (has (conv_flags k) LARGE) d) as (D1 & D2 & _); [destruct k; simpl in *; lia|].
    destruct Hs as [-> |[_ ->]]; (do 2 eexists; split; [reflexivity|]); done.
Qed.

(** ** Writing with the format *)

Lemma conv_conversion k n fmt v args : conv_ok k v ->
  conversion_text n (conv_letter k :: fmt) (Word v :: args) = Some (conv_text k v, fmt, args, []).
Proof.
  intros Hv. assert (E : conversion_text n (conv_letter k :: fmt) (Word v :: args) =
    Some (number_text (match k with Cd => u64 (s32 (u32 v)) | _ => u32 v end) (conv_base k) (-1) (-1) (conv_flags k), fmt, args, []))
    by (destruct k; reflexivity).
  rewrite E. clear E. unfold conv_text. destruct k.
  1: rewrite (s32_mod (u32 v) v (u32_idemp v)), (s32_small v Hv); reflexivity.
  all: rewrite (u32_small v Hv), (u64_small v) by (unfold conv_ok, is_u32, U32_MOD, is_u64, U64_MOD in *; lia); reflexivity.
Qed.

Lemma items_format sep l : separates sep -> Forall (fun x => conv_ok x.1 x.2) l -> forall fuel n,
  (List.length (items_fmt sep l) <= fuel)%nat ->
  format_text fuel n (items_fmt sep l) ((fun x => Word x.2) <$> l) = Some (items_out sep l, []).
Proof.
  intros (_ & _ & _ & Hp). induction 1 as [|[k v] l Hv Hf IH]; intros fuel n Hfuel; [by destruct fuel|].
  cbn [fst snd] in Hv. rewrite fmap_cons. cbn [fst snd items_fmt items_out] in *.
  destruct fuel as [|fuel]; [cbn [items_fmt List.length] in Hfuel; lia|].
  cbn [format_text]. change (negb (chr "%" =? chr "%")) with false. cbv iota. rewrite conv_conversion by done. cbn [mbind option_bind].
  destruct l as [|y l].
  - destruct fuel; cbn [format_text mbind option_bind fmap list_fmap]; by rewrite !app_nil_r.
  - set (l' := y :: l) in *.
    assert (Hfuel' : (S (S (S (List.length (items_fmt sep l')))) <= S fuel)%nat) by exact Hfuel. clear Hfuel. rename Hfuel' into Hfuel. destruct fuel as [|fuel]; [cbn [items_fmt List.length] in Hfuel; lia|]. cbn [format_text].
    rewrite (proj2 (Z.eqb_neq sep (chr "%")) Hp). cbn [negb]. rewrite IH by lia. done.
Qed.

(** ** Reading with the format *)

Lemma items_head_char sep l : separates sep -> Forall (fun x => conv_ok x.1 x.2) l -> l <> [] -> char0 (items_out sep l) <> 0.
Proof.
  intros Hs Hf Hne. destruct l as [|[k v] l]; [done|]. inversion Hf as [|? ? Hv _]. cbn [items_out].
  destruct (conv_reads k v [] Hv I) as (_ & _ & c & t & -> & Hc & _). exact Hc.
Qed.

Lemma scan_item k v fmt rest buflen num args dn w : conv_ok k v -> ends_number 16 rest ->
  scan_turn buflen (Scan (chr "%" :: conv_letter k :: fmt) (conv_text k v ++ rest) num (Number w :: args) dn) =
    Some (inl (Scan fmt rest (num + 1) args (dn ++ [Number v]))).
Proof.
  intros Hv Hr. destruct (conv_reads k v rest Hv Hr) as (H1 & H2 & c & t & E & Hc & Hsp).
  assert (Hskip : skip_spaces (conv_text k v ++ rest) = conv_text k v ++ rest) by (rewrite E; simpl; by rewrite Hsp).
  unfold scan_turn. cbn [s_fmt s_str s_num s_args s_done]. change (isspace (char0 (chr "%" :: _))) with false. cbv iota beta.
  change (negb (char0 (chr "%" :: _) =? chr "%")) with false. cbn [andb]. change (char0 (chr "%" :: _) =? 0) with false. cbv iota.
  change (tail (chr "%" :: ?l)) with l.
  assert (Hl : (char0 (conv_letter k :: fmt) =? chr "*") = false /\ isdigit (char0 (conv_letter k :: fmt)) = false /\
    get_scan_qualifier (conv_letter k :: fmt) = (conv_letter k :: fmt, SNone) /\ (char0 (conv_letter k :: fmt) =? 0) = false)
    by (destruct k; split_and!; reflexivity).
  destruct Hl as (-> & -> & -> & ->).
  assert (Hc0 : (char0 (conv_text k v ++ rest) =? 0) = false) by (rewrite E; by apply Z.eqb_neq).
  rewrite Hc0. cbn [orb]. unfold scan_convert. cbn [s_fmt s_str s_num s_args s_done].
  change (char0 (conv_letter k :: fmt)) with (conv_letter k). change (tail (conv_letter k :: fmt)) with fmt.
  assert (Hk : (conv_letter k =? chr "c") = false /\ (conv_letter k =? chr "s") = false /\ (conv_letter k =? chr "n") = false /\
    (conv_letter k =? chr "%") = false /\ scan_int (conv_letter k) = Some (conv_base k, conv_signed k))
    by (destruct k; split_and!; reflexivity).
  destruct Hk as (-> & -> & -> & -> & ->). rewrite Hskip, H2, H1. done.
Qed.

Lemma scan_separator sep fmt str buflen num args dn : separates sep ->
  scan_turn buflen (Scan (sep :: fmt) (sep :: str) num args dn) = Some (inl (Scan fmt str num args dn)).
Proof.
  intros (_ & Hsp & H0 & Hp). unfold scan_turn. cbn [s_fmt s_str s_num s_args s_done].
  change (char0 (sep :: ?l)) with sep. rewrite Hsp. cbv iota beta. change (char0 (sep :: ?l)) with sep.
  rewrite (proj2 (Z.eqb_neq sep (chr "%")) Hp), (proj2 (Z.eqb_neq sep 0) H0), Z.eqb_refl. done.
Qed.

Lemma items_scan sep l : separates sep -> Forall (fun x => conv_ok x.1 x.2) l -> forall fuel buflen num dn,
  (List.length (items_fmt sep l) < fuel)%nat ->
  scan_loop fuel buflen (Scan (items_fmt sep l) (items_out sep l) num ((fun _ => Number 0) <$> l) dn) =
    Some (num + Z.of_nat (List.length l), dn ++ ((fun x => Number x.2) <$> l))%list.
Proof.
  intros Hsep. pose proof Hsep as (He & Hspace & H0 & _). induction 1 as [|[k v] l Hv Hf IH]; intros fuel buflen num dn Hfuel.
  { destruct fuel as [|fuel]; [cbn [items_fmt List.length] in Hfuel; lia|]. simpl. by rewrite Z.add_0_r. }
  cbn [fst snd] in Hv. destruct fuel as [|fuel]; [cbn [items_fmt List.length] in Hfuel; lia|]. rewrite !fmap_cons. cbn [fst snd].
  assert (Hne : char0 (items_out sep ((k, v) :: l)) <> 0) by (apply items_head_char; [done|by constructor|done]).
  cbn [scan_loop s_fmt s_str]. rewrite (proj2 (Z.eqb_neq _ 0) Hne). cbn [items_fmt].
  change (char0 (chr "%" :: _) =? 0) with false. cbn [orb]. cbn [items_out].
  rewrite scan_item; [|done|by destruct l; [|exact He]]. cbn [mbind option_bind].
  destruct l as [|y l].
  - destruct fuel as [|fuel]; [cbn [items_fmt List.length] in Hfuel; lia|]. cbn [scan_loop s_fmt s_str].
    change (char0 [] =? 0) with true. cbn [orb]. unfold finish. cbn [s_num s_done s_args fmap list_fmap]. by rewrite app_nil_r.
  - set (l' := y :: l) in *.
    change (List.length (items_fmt sep ((k, v) :: l'))) with (S (S (S (List.length (items_fmt sep l'))))) in Hfuel. destruct fuel as [|fuel]; [cbn [items_fmt List.length] in Hfuel; lia|]. cbn [scan_loop s_fmt s_str].
    change (char0 (sep :: ?x)) with sep. rewrite (proj2 (Z.eqb_neq sep 0) H0). cbn [orb]. rewrite scan_separator by done.
    cbn [mbind option_bind]. rewrite IH by lia. f_equal. f_equal; [|by rewrite <- app_assoc].
    change (List.length ((k, v) :: l')) with (S (List.length l')). lia.
Qed.

(** A word with a width: that many characters at most, and a NUL. *)
Lemma scan_word_bounded str : forall w i mem, 0 <= w <= INT_MAX -> 0 <= i -> i + w < Z.of_nat (List.length mem) ->
  exists str' mem', scan_word str w i mem = Some (str', mem') /\ List.length mem' = List.length mem.
Proof.
  induction str as [|c str IH]; intros w i mem Hw Hi Hfit; simpl.
  - rewrite array_set_Some by lia. do 2 eexists. split; [reflexivity|]. by rewrite length_insert.
  - destruct (Z.eqb_spec w 0) as [|Hw0]; [rewrite orb_true_r|rewrite orb_false_r; destruct (_ || _)].
    1,2: rewrite array_set_Some by lia; do 2 eexists; (split; [reflexivity|]); by rewrite length_insert.
    rewrite array_set_Some by lia. cbn [mbind option_bind]. rewrite s32_small by width_lia.
    destruct (IH (w - 1) (i + 1) (<[Z.to_nat i:=c]> mem)) as (s' & m' & -> & Hl); rewrite ?length_insert in *; [lia|lia|lia|].
    by exists s', m'.
Qed.

(** C32: sprintf and sscanf agree.  For every list of %d, %u, %x, %X and %o conversions with a
    separator between them and every list of values of their ranges: the text that sprintf
    gives is read by sscanf with the same format, which stores exactly the values and returns
    their number.  A word with a width below the size of its buffer stays in the buffer, with its
    NUL, whatever the input.  A negative number is not read with %zd: 0 is stored, and counted. *)
Theorem sscanf_roundtrip sep l :
  separates sep -> Forall (fun x => conv_ok x.1 x.2) l ->
  let fmt := items_fmt sep l in
  exists t, text fmt ((fun x => Word x.2) <$> l) = Some (t, []) /\
    sscanf t fmt ((fun _ => Number 0) <$> l) = Some (Z.of_nat (List.length l), (fun x => Number x.2) <$> l) /\
    (forall str w mem, 0 <= w <= INT_MAX -> w < Z.of_nat (List.length mem) ->
       exists str' mem', scan_word str w 0 mem = Some (str', mem') /\ List.length mem' = List.length mem) /\
    sscanf (txt "-5") (txt "%zd") [Number 9] = Some (1, [Number 0]).
Proof.
  intros Hsep Hf fmt. exists (items_out sep l). split; [by apply items_format|].
  split; [|split; [intros; by apply scan_word_bounded; lia|by vm_compute]].
  unfold fmt, sscanf, vsscanf. by rewrite items_scan by (done || lia).
Qed.

Lemma sscanf_witness : exists t, text (txt "%d,%x,%o") [Word (-7); Word 255; Word 8] = Some (t, []) /\
  sscanf t (txt "%d,%x,%o") [Number 0; Number 0; Number 0] = Some (3, [Number (-7); Number 255; Number 8]).
Proof.
  destruct (sscanf_roundtrip (chr ",") [(Cd, -7); (Cx, 255); (Co, 8)]) as (t & H1 & H2 & _ & _);
    [repeat split; by_eval|repeat constructor; by_eval|]. exists t. split; [exact H1|exact H2].
Defined.
