(* ===== verification/Cmdline.v ===== *)
(** lib/cmdline.c: integers of the kernel command line. *)
From stdpp Require Import base list gmap option numbers.
From Stdlib Require Import ZArith Lia Ascii String.
From S2P Require Import Prelude Div64 Ctype Vsprintf VsprintfText NumberRead.

Local Open Scope Z_scope.

(** ** The code *)

(** [None] is the NULL pointer.  Two pointers into the same string are equal when the
    same characters follow them. *)
Definition get_option (str : option (list Z)) (pint : Z) : Z * option (list Z) * Z :=
  match str with
  | None => (0, str, pint)
  | Some cur =>
      if char0 cur =? 0 then (0, str, pint)
      else
        let '(pint, str) := simple_strtol cur 0 in
        if bool_decide (cur = str) then (0, Some str, pint)
        else if char0 str =? chr "," then (2, Some (tail str), pint)
        else (1, Some str, pint)
  end.

Definition get_options_body (nints : Z) (st : Z * option (list Z) * list Z)
    : (Z * option (list Z) * list Z) + option (Z * option (list Z) * list Z) :=
  let '(i, str, ints) := st in
  if negb (i <? nints) then inr (Some st)
  else match (pint ← array_get ints i;
              let '(res, str, pint) := get_option str pint in
              ints ← array_set ints i pint; Some (res, str, ints)) with
       | None => inr None
       | Some (res, str, ints) =>
           if res =? 0 then inr (Some (i, str, ints))
           else if res =? 1 then inr (Some (i + 1, str, ints))
           else inl (i + 1, str, ints)
       end.

(** The pointer that is returned, and the array; one turn for every cell and the last. *)
Definition get_options (str : option (list Z)) (nints : Z) (ints : list Z) : option (option (list Z) * list Z) :=
  '(i, str, ints) ← mjoin (loop (S (Z.to_nat nints)) (get_options_body nints) (1, str, ints));
  ints ← array_set ints 0 (i - 1);
  Some (str, ints).

Definition memparse (ptr : list Z) : Z * list Z :=
  let '(ret, retptr) := simple_strtoull ptr 0 in
  let c := char0 retptr in
  if (c =? chr "G") || (c =? chr "g") then (u64 (Z.shiftl (u64 (Z.shiftl (u64 (Z.shiftl ret 10)) 10)) 10), tail retptr)
  else if (c =? chr "M") || (c =? chr "m") then (u64 (Z.shiftl (u64 (Z.shiftl ret 10)) 10), tail retptr)
  else if (c =? chr "K") || (c =? chr "k") then (u64 (Z.shiftl ret 10), tail retptr)
  else (ret, retptr).

(** ** get_option *)

(** Characters that neither start nor continue a number. *)
Definition no_number (rest : list Z) : Prop := ends_number 16 rest /\ char0 rest <> 45.

Lemma decimal_nonempty v : exists c l, decimal v = c :: l /\ c <> 0 /\ c <> 44.
Proof.
  destruct (number_text_shape (u64 v) 10 (-1) (-1) SIGN) as (k & j & E & _); [width_lia|width_lia|right; right; lia|].
  unfold decimal. rewrite E. unfold sign_text. change (has SIGN SIGN) with true. change (has SIGN PLUS) with false.
  change (has SIGN SPACE) with false. change (prefix_text 10 SIGN) with (@nil Z).
  destruct (s64 (u64 v) <? 0); [by do 2 eexists|].
  destruct (magnitude_spec (u64 v) SIGN (u64_range v)) as [_ Hm].
  destruct (zeros_digits k 10 _ ltac:(lia) Hm) as (Hf & Hne & _).
  destruct (replicate k 0 ++ digits_of 10 (magnitude (u64 v) SIGN)) as [|d ds]; [done|].
  inversion Hf as [|? ? Hd _]. do 2 eexists. simpl. split; [reflexivity|].
  unfold digit_char. destruct (d <? 10); destruct (has SIGN LARGE); lia.
Qed.

(** A number in front of something that does not continue it. *)
Lemma get_option_decimal v rest old : is_s32 v -> ends_number 10 rest ->
  get_option (Some (decimal v ++ rest)) old =
    if char0 rest =? chr "," then (2, Some (tail rest), v) else (1, Some rest, v).
Proof.
  intros Hv Hr. destruct (decimal_nonempty v) as (c & l & E & Hc & _).
  pose proof (proj1 (decimal_reads v rest Hv Hr)) as Hread. rewrite E in *. simpl app in *. unfold get_option.
  change (char0 (c :: l ++ rest)) with c. rewrite (proj2 (Z.eqb_neq c 0) Hc), Hread.
  rewrite bool_decide_false; [done|]. intros Eq. apply (f_equal List.length) in Eq. simpl in Eq. rewrite length_app in Eq. lia.
Qed.

(** No number: nothing is consumed, and the target becomes 0. *)
Lemma get_option_none cur old : no_number cur -> cur <> [] -> char0 cur <> 0 ->
  get_option (Some cur) old = (0, Some cur, 0).
Proof.
  intros [He Hm] Hne H0. unfold get_option. rewrite (proj2 (Z.eqb_neq _ 0) H0).
  unfold simple_strtol. rewrite (proj2 (Z.eqb_neq _ 45) Hm).
  assert (E : simple_strtoul cur 0 = (0, cur)).
  { destruct cur as [|c cur]; [done|]. destruct He as [Hx _]. unfold simple_strtoul, strto_base.
    change (0 =? 0) with true. cbv iota. destruct (Z.eqb_spec (char0 (c :: cur)) 48) as [E|E].
    - unfold char0 in E. simpl in E. subst c. done.
    - simpl. apply andb_false_iff in Hx as [->|Hx]; [done|].
      replace (digit_value c <? 10) with false; [by rewrite andb_false_r|].
      symmetry. apply Z.ltb_ge in Hx. apply Z.ltb_ge. lia. }
  rewrite E. by rewrite bool_decide_true by done.
Qed.

(** What is behind a number is an end of the string. *)
Lemma tail_suffix (l : list Z) : tail l `suffix_of` l.
Proof. destruct l as [|c l]; [done|]. by apply suffix_cons_r. Qed.

Lemma strto_digits_suffix wrap base cp : forall acc, (strto_digits wrap base cp acc).2 `suffix_of` cp.
Proof.
  induction cp as [|c cp IH]; intros acc; [done|]. simpl. destruct (_ && _); [|done]. apply suffix_cons_r, IH.
Qed.

Lemma strto_base_suffix cp base : (strto_base cp base).1 `suffix_of` cp.
Proof.
  unfold strto_base. assert (tail (tail cp) `suffix_of` cp) by (etransitivity; apply tail_suffix).
  repeat case_match; simpl; done || apply tail_suffix.
Qed.

Lemma strtol_suffix cp base : (simple_strtol cp base).2 `suffix_of` cp.
Proof.
  assert (Hu : forall l, (simple_strtoul l base).2 `suffix_of` l).
  { intros l. unfold simple_strtoul. pose proof (strto_base_suffix l base) as H. destruct (strto_base l base) as [l' b'].
    etransitivity; [apply strto_digits_suffix|exact H]. }
  unfold simple_strtol. destruct (char0 cp =? 45).
  - pose proof (Hu (tail cp)) as H. destruct (simple_strtoul _ _). simpl in *. etransitivity; [exact H|apply tail_suffix].
  - pose proof (Hu cp) as H. by destruct (simple_strtoul _ _).
Qed.

(** A number that was found takes characters of the string. *)
Lemma get_option_consumes cur old res str v :
  get_option (Some cur) old = (res, str, v) ->
  res = 0 \/ exists s, str = Some s /\ (List.length s < List.length cur)%nat.
Proof.
  unfold get_option. destruct (char0 cur =? 0); [intros; simplify_eq; by left|].
  pose proof (strtol_suffix cur 0) as Hs. destruct (simple_strtol cur 0) as [x e]. simpl in Hs.
  case_bool_decide as Hne; [intros; simplify_eq; by left|]. intros E. right.
  assert (Hlt : (List.length e < List.length cur)%nat).
  { destruct Hs as [k ->]. rewrite length_app. destruct k; [done|]. simpl. lia. }
  destruct (char0 e =? chr ","); simplify_eq; eexists; (split; [done|]); [|done].
  pose proof (suffix_length _ _ (tail_suffix e)). lia.
Qed.

(** ** get_options *)

(** The numbers with commas between them, in front of [rest]. *)
Fixpoint options_text (vs : list Z) (rest : list Z) : list Z :=
  match vs with
  | [] => rest
  | v :: vs => decimal v ++ match vs with [] => rest | _ => chr "," :: options_text vs rest end
  end.

Lemma array_cell (a : list Z) (i : nat) : (i < List.length a)%nat -> exists v, array_get a (Z.of_nat i) = Some v.
Proof.
  intros Hi. destruct (array_get_Some a (Z.of_nat i)) as [v Hv]; [lia|]. by exists v.
Qed.

Lemma insert_next (a vs : list Z) i v k : (i < List.length a)%nat ->
  take (S i) (<[i := v]> a) ++ take k vs ++ drop (S i + k) (<[i := v]> a) =
  take i a ++ take (S k) (v :: vs) ++ drop (i + S k) a.
Proof.
  intros Hi. rewrite (take_S_r _ _ v) by (by apply list_lookup_insert_eq). rewrite take_insert_ge by lia.
  rewrite drop_insert_lt by lia. rewrite <- app_assoc. simpl. by rewrite Nat.add_succ_r.
Qed.

Lemma options_loop nints rest : ends_number 10 rest -> char0 rest <> chr "," ->
  forall vs, Forall is_s32 vs -> vs <> [] -> forall fuel i ints,
  nints <= Z.of_nat (List.length ints) -> nints - Z.of_nat i < Z.of_nat fuel ->
  let k := Nat.min (List.length vs) (Z.to_nat nints - i) in
  loop fuel (get_options_body nints) (Z.of_nat i, Some (options_text vs rest), ints) =
    Some (Some (Z.of_nat (i + k), Some (options_text (drop k vs) rest), take i ints ++ take k vs ++ drop (i + k) ints))
  \/ fuel = O.
Proof.
  intros Hr Hc vs Hvs. induction Hvs as [|v vs Hv Hvs IH]; intros Hne fuel i ints Hn Hf; [done|].
  destruct fuel as [|fuel]; [by right|left]. rewrite loop_S. unfold get_options_body at 1.
  destruct (Z.ltb_spec (Z.of_nat i) nints) as [Hi|Hi]; cbn [negb].
  2:{ replace (Z.to_nat nints - i)%nat with 0%nat by lia. rewrite Nat.min_0_r, Nat.add_0_r. cbn [drop take app]. by rewrite take_drop. }
  destruct (array_cell ints i) as [old Hold]; [lia|]. rewrite Hold. cbn [mbind option_bind].
  replace (Z.to_nat nints - i)%nat with (S (Z.to_nat nints - S i)) by lia. cbn [List.length Nat.min].
  destruct vs as [|v2 vs].
  - change (options_text [v] rest) with (decimal v ++ rest)%list. rewrite get_option_decimal by done. rewrite (proj2 (Z.eqb_neq _ _) Hc).
    rewrite array_set_Some by lia. cbn [mbind option_bind]. rewrite Nat2Z.id. change (1 =? 0) with false. change (1 =? 1) with true.
    cbv iota. simpl. do 3 f_equal; [f_equal; lia|]. rewrite Nat.add_1_r. by apply insert_take_drop; lia.
  - change (options_text (v :: v2 :: vs) rest) with (decimal v ++ chr "," :: options_text (v2 :: vs) rest)%list.
    rewrite get_option_decimal; [|done|done]. change (char0 (chr "," :: _) =? chr ",") with true. cbv iota.
    rewrite array_set_Some by lia. cbn [mbind option_bind tail]. rewrite Nat2Z.id. change (2 =? 0) with false. change (2 =? 1) with false.
    cbv iota. replace (Z.of_nat i + 1) with (Z.of_nat (S i)) by lia.
    destruct (IH ltac:(done) fuel (S i) (<[i:=v]> ints)) as [E|E]; [rewrite length_insert; lia|lia| |lia].
    etransitivity; [exact E|]. do 2 f_equal. f_equal; [f_equal; lia|]. apply insert_next. lia.
Qed.

(** For every string, the array is written in bounds. *)
Lemma get_options_total nints : forall fuel i str ints,
  nints <= Z.of_nat (List.length ints) -> nints - i < Z.of_nat fuel -> 1 <= i -> (0 < fuel)%nat -> (i <= nints \/ i = 1) ->
  exists i' str' ints', loop fuel (get_options_body nints) (i, str, ints) = Some (Some (i', str', ints')) /\
    List.length ints' = List.length ints /\ i <= i' /\ (i' <= nints \/ i' = 1).
Proof.
  induction fuel as [|fuel IH]; intros i str ints Hn Hf Hi Hpos Hb; [lia|]. rewrite loop_S. unfold get_options_body at 1.
  destruct (Z.ltb_spec i nints) as [Hlt|Hge]; cbn [negb]; [|exists i, str, ints; split_and!; done || lia].
  destruct (array_get_Some ints i) as [old ->]; [lia|]. cbn [mbind option_bind].
  destruct (get_option str old) as [[res str'] pint]. rewrite array_set_Some by lia. cbn [mbind option_bind].
  destruct (res =? 0); [|destruct (res =? 1)].
  1,2: do 3 eexists; split; [reflexivity|]; rewrite length_insert; lia.
  destruct (IH (i + 1) str' (<[Z.to_nat i:=pint]> ints)) as (i' & s' & a' & -> & Hl & Hle & Hb'); rewrite ?length_insert in *; try lia.
  exists i', s', a'. split_and!; [done|lia|lia|lia].
Qed.

(** ** memparse *)

(** The powers of two of the suffixes. *)
Definition suffix_bits (c : Z) : option Z :=
  if (c =? chr "G") || (c =? chr "g") then Some 30
  else if (c =? chr "M") || (c =? chr "m") then Some 20
  else if (c =? chr "K") || (c =? chr "k") then Some 10
  else None.

Lemma u64_shiftl x a b : 0 <= a -> 0 <= b -> u64 (Z.shiftl (u64 (Z.shiftl x a)) b) = u64 (x * 2 ^ (a + b)).
Proof.
  intros Ha Hb. unfold u64. rewrite !Z.shiftl_mul_pow2 by done. rewrite Zmult_mod_idemp_l. f_equal.
  rewrite Z.pow_add_r by done. lia.
Qed.

(** Sizes with a suffix: the product wraps at 2^64. *)
Lemma memparse_correct v rest : is_u64 v -> ends_number 10 rest ->
  memparse (udecimal v ++ rest) =
    match suffix_bits (char0 rest) with
    | Some bits => (u64 (v * 2 ^ bits), tail rest)
    | None => (v, rest)
    end.
Proof.
  intros Hv Hr. unfold memparse. rewrite (proj1 (udecimal_reads v rest Hv Hr)). unfold suffix_bits.
  destruct ((char0 rest =? chr "G") || (char0 rest =? chr "g")).
  { rewrite (u64_shiftl (u64 _) 10 10) by lia. f_equal. unfold u64.
    rewrite Z.shiftl_mul_pow2, Zmult_mod_idemp_l by lia. f_equal. lia. }
  destruct ((char0 rest =? chr "M") || (char0 rest =? chr "m")); [by rewrite (u64_shiftl v 10 10) by lia|].
  destruct ((char0 rest =? chr "K") || (char0 rest =? chr "k")); [by rewrite Z.shiftl_mul_pow2 by lia|done].
Qed.

(** Integers of the command line.  For every string and every array with a first cell, of
    at least nints cells, get_options stays in bounds and returns, with the count of
    the numbers stored, less than nints (or 0), in the first cell.  The text of a list of
    ints with commas is read back: as many as the array holds are in order behind the count,
    the other cells keep their values, and the pointer is at the first number that found no
    room or, if there is none, at the text behind the last. *)
Theorem get_options_correct nints ints :
  nints <= Z.of_nat (List.length ints) -> ints <> [] ->
  (forall str, exists str' ints' n, get_options str nints ints = Some (str', ints') /\
     List.length ints' = List.length ints /\ head ints' = Some n /\ 0 <= n <= Z.max 0 (nints - 1)) /\
  (forall vs rest, Forall is_s32 vs -> vs <> [] -> ends_number 10 rest -> char0 rest <> chr "," ->
     let k := Nat.min (List.length vs) (Z.to_nat nints - 1) in
     get_options (Some (options_text vs rest)) nints ints =
       Some (Some (options_text (drop k vs) rest), (Z.of_nat k :: take k vs ++ drop (S k) ints)%list)).
Proof.
  intros Hn Hne. destruct ints as [|x ints]; [done|]. split.
  - intros str. unfold get_options.
    destruct (get_options_total nints (S (Z.to_nat nints)) 1 str (x :: ints)) as (i & s' & a' & -> & Hl & Hi & Hb); try lia.
    cbn [mjoin option_join mbind option_bind]. rewrite array_set_Some by (simpl in Hl; lia).
    destruct a' as [|y a']; [done|]. simpl. do 3 eexists. split; [reflexivity|]. simpl in *. split_and!; [done|done|lia|lia].
  - intros vs rest Hvs Hnv Hr Hc. cbv zeta. unfold get_options.
    destruct (options_loop nints rest Hr Hc vs Hvs Hnv (S (Z.to_nat nints)) 1 (x :: ints)) as [E|E]; [done|lia| |done].
    change (Z.of_nat 1) with 1 in E. rewrite E. cbn [mjoin option_join mbind option_bind]. rewrite array_set_Some by (simpl; lia). cbn [mbind option_bind].
    do 2 f_equal. simpl. f_equal. lia.
Qed.

Lemma get_options_witness :
  get_options (Some (txt "3,-17,99 x")) 3 [0; 0; 0; 5] = Some (Some (txt "99 x"), [2; 3; -17; 5]).
Proof.
  destruct (get_options_correct 3 [0; 0; 0; 5]) as [_ H]; [simpl; lia|done|].
  change (txt "3,-17,99 x") with (options_text [3; -17; 99] (txt " x")).
  rewrite (H [3; -17; 99] (txt " x")); [by vm_compute| |done|by vm_compute|by vm_compute].
  repeat constructor; by_eval.
Defined.
