(* ===== verification/BitmapText.v ===== *)
(** lib/bitmap.c: bitmaps as text, in hexadecimal words and in lists of ranges.

    The printing functions write through scnprintf into a buffer at the address [b];
    the readers take the text from user space, where a read can fault
    (bitmap_parse), or from a string (bitmap_parselist). *)
From stdpp Require Import base list gmap option numbers.
From Stdlib Require Import ZArith Lia Ascii String.
From S2P Require Import Prelude Div64 Ctype Vsprintf Bitops Bitmap.

Local Open Scope Z_scope.

Definition EOVERFLOW : Z := 75.

(** scnprintf(buf + len, size, ...): its result and the whole buffer. *)
Definition scnprintf_at (b : Z) (mem : list Z) (len size : Z) (fmt : list Z) (args : list arg)
    : option (Z * list Z) :=
  if bool_decide (0 <= len <= Z.of_nat (List.length mem)) then
    '(i, m, _) ← scnprintf (u32 (b + len)) (drop (Z.to_nat len) mem) size fmt args;
    Some (i, (take (Z.to_nat len) mem ++ m)%list)
  else None.

(** ** Hexadecimal words *)

Definition CHUNKSZ : Z := 32.
Definition ALIGN_int (x a : Z) : Z := Z.land (x + a - 1) (Z.lnot (a - 1)).
Definition nbits_to_hold_value (val : Z) : Z := fls val.
Definition unhex (c : Z) : Z := if isdigit c then c - chr "0" else toupper c - chr "A" + 10.

(** [lit] is the address of the strings "" and ",". *)
Definition scnprintf_body (lit b buflen : Z) (maskp : list Z) (st : Z * Z * list Z * Z * list Z)
    : (Z * Z * list Z * Z * list Z) + option (Z * list Z) :=
  let '(i, chunksz, sep, len, mem) := st in
  if negb (0 <=? i) then inr (Some (len, mem))
  else
    let chunkmask := u32 (Z.shiftl 1 chunksz - 1) in
    match (w ← array_get maskp (i / BITS_PER_LONG);
           let val := Z.land (shr32 w (i mod BITS_PER_LONG)) chunkmask in
           '(n, mem) ← scnprintf_at b mem len (u32 (buflen - len)) (txt "%s%0*lx")
                         [Str lit sep; Word ((chunksz + 3) / 4); Word val];
           Some (s32 (len + n), mem)) with
    | None => inr None
    | Some (len, mem) => inl (i - CHUNKSZ, CHUNKSZ, [chr ","], len, mem)
    end.

Definition bitmap_scnprintf (lit b : Z) (mem : list Z) (buflen : Z) (maskp : list Z) (nmaskbits : Z)
    : option (Z * list Z) :=
  let chunksz := Z.land nmaskbits (CHUNKSZ - 1) in
  let chunksz := if chunksz =? 0 then CHUNKSZ else chunksz in
  let i := ALIGN_int nmaskbits CHUNKSZ - CHUNKSZ in
  mjoin (loop (Z.to_nat (i / CHUNKSZ + 2)) (scnprintf_body lit b buflen maskp) (i, chunksz, [], 0, mem)).

(** get_user(c, ubuf++): an int from a char, which is signed. *)
Definition s8 (x : Z) : Z := (x + 128) mod U8_MOD - 128.

(** The state of the loops: the user text that is left, ubuflen, c, chunk, ndigits, totaldigits. *)
Record reader := Reader { ubuf : list (option Z); ubuflen : Z; cur : Z; chunk : Z; ndigits : Z; totaldigits : Z }.

(** while (ubuflen): a turn; the error, or the state behind the loop. *)
Definition chunk_body (r : reader) : reader + (Z + reader) :=
  if ubuflen r =? 0 then inr (inr r)
  else
    let old_c := cur r in
    match ubuf r with
    | Some c :: rest =>
        let c := s8 c in
        let r := Reader rest (ubuflen r - 1) c (chunk r) (ndigits r) (totaldigits r) in
        if isspace c then inl r
        else if negb (totaldigits r =? 0) && negb (c =? 0) && isspace old_c then inr (inl (- EINVAL))
        else if (c =? 0) || (c =? chr ",") then inr (inr r)
        else if negb (isxdigit c) then inr (inl (- EINVAL))
        else if negb (Z.land (chunk r) (not32 (shl32 1 (CHUNKSZ - 4) - 1)) =? 0) then inr (inl (- EOVERFLOW))
        else inl (Reader rest (ubuflen r) c (Z.lor (shl32 (chunk r) 4) (unhex c)) (ndigits r + 1) (totaldigits r + 1))
    | _ => inr (inl (- EFAULT))
    end.

(** The do loop, over the reader, the mask, nchunks and nbits; the result and the mask. *)
Definition parse_body (nmaskbits : Z) (st : reader * list Z * Z * Z)
    : (reader * list Z * Z * Z) + option (Z * list Z) :=
  let '(r, maskp, nchunks, nbits) := st in
  let again r maskp nchunks nbits :=
    if negb (ubuflen r =? 0) && (cur r =? chr ",") then inl (r, maskp, nchunks, nbits) else inr (Some (0, maskp)) in
  let r := Reader (ubuf r) (ubuflen r) (cur r) 0 0 (totaldigits r) in
  match loop (S (Z.to_nat (ubuflen r))) chunk_body r with
  | None => inr None
  | Some (inl e) => inr (Some (e, maskp))
  | Some (inr r) =>
      if ndigits r =? 0 then inr (Some (- EINVAL, maskp))
      else if (nchunks =? 0) && (chunk r =? 0) then again r maskp nchunks nbits
      else
        match (maskp ← __bitmap_shift_left maskp None CHUNKSZ nmaskbits;
               w ← array_get maskp 0;
               array_set maskp 0 (Z.lor w (chunk r))) with
        | None => inr None
        | Some maskp =>
            let nchunks := nchunks + 1 in
            let nbits := nbits + (if nchunks =? 1 then nbits_to_hold_value (chunk r) else CHUNKSZ) in
            if nmaskbits <? nbits then inr (Some (- EOVERFLOW, maskp))
            else again r maskp nchunks nbits
        end
  end.

Definition bitmap_parse (ubuf : list (option Z)) (ubuflen : Z) (maskp : list Z) (nmaskbits : Z) : option (Z * list Z) :=
  maskp ← bitmap_zero maskp nmaskbits;
  mjoin (loop (S (Z.to_nat ubuflen)) (parse_body nmaskbits) (Reader ubuf ubuflen 0 0 0 0, maskp, 0, 0)).

(** ** Lists of ranges *)

Definition bscnl_emit (b : Z) (mem : list Z) (buflen rbot rtop len : Z) : option (Z * list Z) :=
  '(len, mem) ←
    (if 0 <? len then '(n, mem) ← scnprintf_at b mem len (u32 (buflen - len)) (txt ",") []; Some (s32 (len + n), mem)
     else Some (len, mem));
  if rbot =? rtop then
    '(n, mem) ← scnprintf_at b mem len (u32 (buflen - len)) (txt "%d") [Word rbot]; Some (s32 (len + n), mem)
  else
    '(n, mem) ← scnprintf_at b mem len (u32 (buflen - len)) (txt "%d-%d") [Word rbot; Word rtop]; Some (s32 (len + n), mem).

Definition listprintf_body (b buflen : Z) (maskp : list Z) (nmaskbits : Z) (st : Z * Z * Z * list Z)
    : (Z * Z * Z * list Z) + option (Z * list Z) :=
  let '(cur, rbot, len, mem) := st in
  if negb (cur <? nmaskbits) then inr (Some (len, mem))
  else
    let rtop := cur in
    match find_next_bit maskp nmaskbits (cur + 1) with
    | None => inr None
    | Some cur =>
        if (nmaskbits <=? cur) || (rtop + 1 <? cur) then
          match bscnl_emit b mem buflen rbot rtop len with
          | None => inr None
          | Some (len, mem) => inl (cur, cur, len, mem)
          end
        else inl (cur, rbot, len, mem)
    end.

(** Every turn moves on to another bit. *)
Definition bitmap_scnlistprintf (b : Z) (mem : list Z) (buflen : Z) (maskp : list Z) (nmaskbits : Z)
    : option (Z * list Z) :=
  cur ← find_first_bit maskp nmaskbits;
  mjoin (loop (S (Z.to_nat nmaskbits)) (listprintf_body b buflen maskp nmaskbits) (cur, cur, 0, mem)).

Definition set_bit (nr : Z) (addr : list Z) : option (list Z) :=
  w ← array_get addr (Z.shiftr nr 5);
  array_set addr (Z.shiftr nr 5) (Z.lor w (shl32 1 (Z.land nr 0x1f))).

Definition BASEDEC : Z := 10.

Definition parselist_body (nmaskbits : Z) (st : list Z * list Z) : (list Z * list Z) + option (Z * list Z) :=
  let '(bp, maskp) := st in
  if negb (isdigit (char0 bp)) then inr (Some (- EINVAL, maskp))
  else
    let '(a, bp) := simple_strtoul bp BASEDEC in
    let second :=
      if char0 bp =? chr "-" then
        let bp := tail bp in
        if negb (isdigit (char0 bp)) then None else Some (simple_strtoul bp BASEDEC)
      else Some (a, bp) in
    match second with
    | None => inr (Some (- EINVAL, maskp))
    | Some (b, bp) =>
        if negb (a <=? b) then inr (Some (- EINVAL, maskp))
        else if u32 nmaskbits <=? b then inr (Some (- ERANGE, maskp))
        else match for_each (fun a maskp => set_bit a maskp) (seqZ a (b - a + 1)) maskp with
             | None => inr None
             | Some maskp =>
                 let bp := if char0 bp =? chr "," then tail bp else bp in
                 if negb (char0 bp =? 0) && negb (char0 bp =? 10) then inl (bp, maskp)
                 else inr (Some (0, maskp))
             end
    end.

(** Every turn takes a digit. *)
Definition bitmap_parselist (bp : list Z) (maskp : list Z) (nmaskbits : Z) : option (Z * list Z) :=
  maskp ← bitmap_zero maskp nmaskbits;
  mjoin (loop (S (List.length bp)) (parselist_body nmaskbits) (bp, maskp)).
