(* ===== verification/BitmapPrint.v ===== *)
(** The texts that bitmap_scnprintf and bitmap_scnlistprintf print. *)
From stdpp Require Import base list gmap option numbers.
From Stdlib Require Import ZArith Lia Ascii String.
From S2P Require Import Prelude Div64 Ctype Vsprintf VsprintfText NumberRead Bitops Bitmap BitmapText.

Local Open Scope Z_scope.

(** ** Printing piece by piece

    A buffer of [buflen] bytes into which several calls of scnprintf have put [T]; before
    the first call it is untouched. *)

Section buffer.
Context (b buflen : Z) (mem0 : list Z).
Hypothesis Hb : 0 < b.
Hypothesis Hlen : 1 <= buflen <= INT_MAX.
Hypothesis Hmem : buflen <= Z.of_nat (List.length mem0).

Definition printed (T : list Z) : list Z := match T with [] => mem0 | _ => placed buflen T mem0 end.

(** The value of len. *)
Definition stored (T : list Z) : Z := Z.min (Z.of_nat (List.length T)) (buflen - 1).

Lemma printed_length T : List.length (printed T) = List.length mem0.
Proof. destruct T; [done|]. apply placed_length. lia. Qed.

Lemma placed_append T t : t <> [] ->
  let n := Z.to_nat (stored T) in
  take n (printed T) ++ placed (buflen - stored T) t (drop n (printed T)) = printed (T ++ t).
Proof using All.
  intros Ht. cbv zeta. unfold stored. set (n := Z.to_nat (Z.min _ _)).
  assert (E : printed (T ++ t) = placed buflen (T ++ t) mem0) by (destruct T, t; done). rewrite E. clear E.
  unfold placed at 2. destruct (Z.leb_spec buflen 0); [lia|].
  unfold placed at 1. destruct (Z.leb_spec (buflen - Z.min (Z.of_nat (List.length T)) (buflen - 1)) 0); [lia|].
  assert (Hn : n = Nat.min (List.length T) (Z.to_nat (buflen - 1))) by lia.
  assert (Hp : take n (printed T) = take n T /\ forall k, (n < k)%nat -> drop k (printed T) = drop k mem0).
  { destruct T as [|c T]; [simpl in Hn; rewrite Hn; done|]. unfold printed, placed.
    destruct (Z.leb_spec buflen 0); [lia|]. rewrite (Nat.min_comm (Z.to_nat _)), <- Hn. split.
    - rewrite take_app_le by (rewrite length_take; lia). by rewrite take_take, Nat.min_id.
    - intros k Hk. rewrite drop_app_ge by (rewrite length_take; lia). rewrite length_take.
      destruct (k - _)%nat as [|j] eqn:E; [lia|]. simpl. rewrite drop_drop. f_equal. lia. }
  destruct Hp as [-> Hd]. rewrite drop_drop, Hd by lia. rewrite length_app, app_assoc.
  set (w := Nat.min (Z.to_nat (buflen - _ - 1)) (List.length t)).
  replace (Nat.min (Z.to_nat (buflen - 1)) (List.length T + List.length t))%nat with (n + w)%nat by lia.
  f_equal; [|f_equal; f_equal; lia]. destruct (decide (List.length T <= Z.to_nat (buflen - 1))%nat) as [Hle|Hgt].
  - rewrite take_ge by lia. replace n with (List.length T) by lia. by rewrite take_app_add.
  - replace w with 0%nat by lia. rewrite Nat.add_0_r. simpl. rewrite app_nil_r. by rewrite take_app_le by lia.
Qed.

(** A further piece of text. *)
Lemma scnprintf_append T fmt args t :
  text fmt args = Some (t, []) -> t <> [] -> b + buflen + Z.of_nat (List.length t) < 2 ^ 32 ->
  Z.of_nat (List.length t) <= INT_MAX ->
  exists n, scnprintf_at b (printed T) (stored T) (u32 (buflen - stored T)) fmt args = Some (n, printed (T ++ t)) /\
    s32 (stored T + n) = stored (T ++ t).
Proof using All.
  intros Ht Hne Hfit Hmax. assert (Hs : 0 <= stored T <= buflen - 1) by (unfold stored; lia).
  unfold scnprintf_at. rewrite printed_length, bool_decide_true by lia.
  rewrite (u32_small (b + stored T)), (u32_small (buflen - stored T)) by width_lia.
  assert (Hroom : room (b + stored T) (buflen - stored T) = buflen - stored T) by (unfold room; lia).
  rewrite (scnprintf_spec _ _ _ _ _ t []); [|width_lia|lia|done|done|lia|rewrite Hroom, length_drop, printed_length; lia].
  cbn [mbind option_bind]. rewrite Hroom. rewrite (placed_append T t Hne). eexists. split; [reflexivity|].
  unfold stored in *. rewrite length_app. rewrite s32_small by width_lia. lia.
Qed.
End buffer.

(** ** The formats of the printing functions *)

Lemma format_text_conv fuel n fmt args t1 fmt' args' st1 :
  conversion_text n fmt args = Some (t1, fmt', args', st1) ->
  format_text (S fuel) n (chr "%" :: fmt) args =
    ('(t2, st2) ← format_text fuel (n + Z.of_nat (List.length t1)) fmt' args'; Some (t1 ++ t2, st1 ++ st2)%list).
Proof. intros E. cbn [format_text]. change (negb (chr "%" =? chr "%")) with false. cbv iota. by rewrite E. Qed.

Lemma conv_s n fmt p s args : PAGE_SIZE <= p < 2 ^ 32 -> Z.of_nat (List.length s) < 2 ^ 32 ->
  conversion_text n (chr "s" :: fmt) (Str p s :: args) = Some (s, fmt, args, []).
Proof.
  intros Hp Hs. assert (E : conversion_text n (chr "s" :: fmt) (Str p s :: args) =
    Some (str_text 0 (-1) (-1) (if u32 p <? PAGE_SIZE then txt "<NULL>" else s), fmt, args, [])) by reflexivity.
  rewrite E, u32_small by (unfold PAGE_SIZE in *; width_lia). destruct (Z.ltb_spec p PAGE_SIZE); [lia|]. unfold str_text.
  change (u32 (-1)) with (2 ^ 32 - 1). rewrite take_ge by lia. change (has 0 LEFT) with false. cbv iota.
  by replace (Z.to_nat (-1 - Z.of_nat (List.length s))) with 0%nat by lia.
Qed.

Lemma conv_0starlx n fmt w v args : 0 <= w <= INT_MAX -> is_u32 v ->
  conversion_text n (chr "0" :: chr "*" :: chr "l" :: chr "x" :: fmt) (Word w :: Word v :: args) =
    Some (number_text v 16 w (-1) ZEROPAD, fmt, args, []).
Proof.
  intros Hw Hv. unfold conversion_text. change (flags_loop _ 0) with (chr "*" :: chr "l" :: chr "x" :: fmt, ZEROPAD).
  cbv iota beta. change (get_width _ _ ZEROPAD) with (let w := s32 (u32 w) in
    Some (if w <? 0 then (chr "l" :: chr "x" :: fmt, Word v :: args, Z.lor ZEROPAD LEFT, s32 (- w))
          else (chr "l" :: chr "x" :: fmt, Word v :: args, ZEROPAD, w))).
  cbv zeta. rewrite (u32_small w) by width_lia. rewrite (s32_small w) by width_lia. destruct (Z.ltb_spec w 0); [lia|].
  cbn [mbind option_bind]. rewrite <- (u32_small v Hv) at 2. reflexivity.
Qed.

Lemma conv_d n fmt v args : is_s32 v ->
  conversion_text n (chr "d" :: fmt) (Word v :: args) = Some (decimal v, fmt, args, []).
Proof.
  intros Hv. assert (E : conversion_text n (chr "d" :: fmt) (Word v :: args) =
    Some (number_text (u64 (s32 (u32 v))) 10 (-1) (-1) SIGN, fmt, args, [])) by reflexivity.
  rewrite E. rewrite (s32_mod (u32 v) v (u32_idemp v)), (s32_small v Hv). reflexivity.
Qed.

Lemma chunk_format lit sep w v :
  PAGE_SIZE <= lit < 2 ^ 32 -> (List.length sep <= 1)%nat -> 0 <= w <= INT_MAX -> is_u32 v ->
  text (txt "%s%0*lx") [Str lit sep; Word w; Word v] = Some ((sep ++ number_text v 16 w (-1) ZEROPAD)%list, []).
Proof.
  intros Hl Hs Hw Hv. unfold text.
  change (txt "%s%0*lx") with (chr "%" :: chr "s" :: chr "%" :: chr "0" :: chr "*" :: chr "l" :: chr "x" :: [])%list.
  cbn [List.length]. erewrite format_text_conv by (apply conv_s; [done|lia]).
  erewrite format_text_conv by (by apply conv_0starlx). cbn [format_text mbind option_bind app]. by rewrite app_nil_r.
Qed.

Lemma comma_format : text (txt ",") [] = Some ([chr ","], []).
Proof. by vm_compute. Qed.

Lemma single_format v : is_s32 v -> text (txt "%d") [Word v] = Some (decimal v, []).
Proof.
  intros Hv. unfold text. change (txt "%d") with (chr "%" :: chr "d" :: [])%list. cbn [List.length].
  erewrite format_text_conv by (by apply conv_d). cbn [format_text mbind option_bind app]. by rewrite app_nil_r.
Qed.

Lemma range_format v w : is_s32 v -> is_s32 w ->
  text (txt "%d-%d") [Word v; Word w] = Some ((decimal v ++ chr "-" :: decimal w)%list, []).
Proof.
  intros Hv Hw. unfold text. change (txt "%d-%d") with (chr "%" :: chr "d" :: chr "-" :: chr "%" :: chr "d" :: [])%list.
  cbn [List.length]. erewrite format_text_conv by (by apply conv_d).
  set (n := 0 + _). cbn [format_text]. change (negb (chr "-" =? chr "%")) with true. cbv iota.
  change (negb (chr "%" =? chr "%")) with false. cbv iota. rewrite (conv_d (n + 1) [] w [] Hw).
  cbn [mbind option_bind app]. by rewrite app_nil_r.
Qed.

(** ** bitmap_scnprintf *)

Definition hex (w v : Z) : list Z := number_text v 16 w (-1) ZEROPAD.

(** Words k to 0: the width and the value of each; [csz] bits of the first. *)
Fixpoint chunks (maskp : list Z) (k : nat) (csz : Z) : list (Z * Z) :=
  ((csz + 3) / 4, Z.land (maskp !!! k) (2 ^ csz - 1)) :: match k with O => [] | S k => chunks maskp k 32 end.

Fixpoint words_text (sep : list Z) (l : list (Z * Z)) : list Z :=
  match l with [] => [] | (w, v) :: l => sep ++ hex w v ++ words_text [chr ","] l end.

(** The size of the highest chunk of a bitmap, and its text. *)
Definition top_size (bits : Z) : Z := if bits mod 32 =? 0 then 32 else bits mod 32.
Definition mask_text (maskp : list Z) (bits : Z) : list Z :=
  words_text [] (chunks maskp (Z.to_nat (BITS_TO_LONGS bits - 1)) (top_size bits)).

Lemma digits_of_nonempty base num : digits_of base num <> [].
Proof.
  unfold digits_of. destruct (Z.eqb_spec num 0) as [|Hz]; [done|].
  rewrite (digits_rev_S 63), (proj2 (Z.eqb_neq _ 0) Hz), reverse_cons. by destruct (reverse _).
Qed.

Lemma number_text_size num base size precision type :
  -1 <= size <= INT_MAX -> precision <= 64 ->
  (1 <= List.length (number_text num base size precision type))%nat /\
  Z.of_nat (List.length (number_text num base size precision type)) <= Z.max 0 size + 67.
Proof.
  intros Hs Hp. unfold number_text, digits_text. set (ds := digit_char _ <$> digits_of _ _).
  assert (Hds : (1 <= List.length ds <= 64)%nat).
  { unfold ds. rewrite length_fmap. pose proof (digits_of_nonempty base (magnitude num type)).
    destruct (digits_of_length base (magnitude num type)); done. }
  set (z := Z.to_nat (precision - _)). pose proof (sign_text_length num type). pose proof (prefix_text_length base type).
  rewrite !length_app, length_replicate. set (n := (_ + _)%nat). rewrite (s32_small (size - _)) by width_lia.
  repeat case_match; rewrite !length_app, ?length_replicate; lia.
Qed.

Section scnprintf.
Context (lit b buflen : Z) (mem0 maskp : list Z).
Hypothesis Hlit : PAGE_SIZE <= lit < 2 ^ 32.
Hypothesis Hb : 0 < b.
Hypothesis Hlen : 1 <= buflen <= INT_MAX.
Hypothesis Hmem : buflen <= Z.of_nat (List.length mem0).
Hypothesis Hfit : b + buflen + 256 <= 2 ^ 32.
Hypothesis Hok : words_ok maskp.

Lemma scnprintf_turn (k : nat) csz sep T :
  (k < List.length maskp)%nat -> 1 <= csz <= 32 -> (List.length sep <= 1)%nat ->
  let T' := (T ++ sep ++ hex ((csz + 3) / 4) (Z.land (maskp !!! k) (2 ^ csz - 1)))%list in
  scnprintf_body lit b buflen maskp (32 * Z.of_nat k, csz, sep, stored buflen T, printed buflen mem0 T) =
    inl (32 * Z.of_nat k - 32, 32, [chr ","], stored buflen T', printed buflen mem0 T').
Proof using All.
  intros Hk Hcsz Hsep. cbv zeta. unfold scnprintf_body. destruct (Z.leb_spec 0 (32 * Z.of_nat k)) as [_|]; [cbn [negb]|lia].
  assert (Hpow : 1 < 2 ^ csz <= 2 ^ 32) by (split; [apply Z.pow_gt_1; lia|apply Z.pow_le_mono_r; lia]).
  rewrite Z.shiftl_1_l, (u32_small (2 ^ csz - 1)) by (unfold is_u32, U32_MOD; lia).
  unfold BITS_PER_LONG, CHUNKSZ. replace (32 * Z.of_nat k / 32) with (Z.of_nat k) by div_lia.
  replace (32 * Z.of_nat k mod 32) with 0 by div_lia.
  destruct (lookup_lt_is_Some_2 maskp k Hk) as [w Hw]. rewrite (list_lookup_total_correct _ _ _ Hw).
  assert (Hg : array_get maskp (Z.of_nat k) = Some w) by (unfold array_get; rewrite bool_decide_true, Nat2Z.id by lia; done).
  rewrite Hg. cbn [mbind option_bind]. change (shr32 w 0) with (Z.shiftr w 0). rewrite Z.shiftr_0_r.
  assert (Hv : is_u32 (Z.land w (2 ^ csz - 1))) by (apply is_u32_land_l; [by eapply words_ok_lookup|lia]).
  assert (Hwid : 0 <= (csz + 3) / 4 <= 8) by (clear -Hcsz; div_lia).
  set (v := Z.land w (2 ^ csz - 1)) in *. set (wd := (csz + 3) / 4) in *.
  destruct (number_text_size v 16 wd (-1) ZEROPAD) as [Hl1 Hl2]; [width_lia|lia|]. fold (hex wd v) in Hl1, Hl2.
  destruct (scnprintf_append b buflen mem0 Hb Hlen Hmem T (txt "%s%0*lx") [Str lit sep; Word wd; Word v] (sep ++ hex wd v))
    as (n & E & Es); [apply chunk_format; [done|done|width_lia|done]| | | |].
  - intros Hn. apply (f_equal List.length) in Hn. rewrite length_app in Hn. simpl in Hn. lia.
  - rewrite length_app. lia.
  - rewrite length_app. width_lia.
  - rewrite E. cbn [mbind option_bind]. by rewrite Es.
Qed.

Lemma scnprintf_loop k : forall csz sep T fuel,
  (k < List.length maskp)%nat -> 1 <= csz <= 32 -> (List.length sep <= 1)%nat -> (k + 1 < fuel)%nat ->
  let T' := (T ++ words_text sep (chunks maskp k csz))%list in
  loop fuel (scnprintf_body lit b buflen maskp)
    (32 * Z.of_nat k, csz, sep, stored buflen T, printed buflen mem0 T) =
  Some (Some (stored buflen T', printed buflen mem0 T')).
Proof using All.
  induction k as [|k IH]; intros csz sep T fuel Hk Hcsz Hsep Hf; cbv zeta; (destruct fuel as [|fuel]; [lia|]);
    rewrite loop_S, scnprintf_turn by done.
  - destruct fuel as [|fuel]; [lia|]. rewrite loop_S. unfold scnprintf_body. simpl chunks. simpl words_text.
    by rewrite app_nil_r.
  - replace (32 * Z.of_nat (S k) - 32) with (32 * Z.of_nat k) by lia.
    rewrite IH by (simpl; lia). simpl chunks. simpl words_text. by rewrite <- !app_assoc.
Qed.

(** The whole text is printed, cut to the size of the buffer. *)
Lemma bitmap_scnprintf_spec bits :
  0 < bits <= nbits maskp -> bits <= INT_MAX - 31 ->
  bitmap_scnprintf lit b mem0 buflen maskp bits =
    Some (stored buflen (mask_text maskp bits), printed buflen mem0 (mask_text maskp bits)).
Proof using All.
  intros Hbits Hmax. unfold bitmap_scnprintf, ALIGN_int, CHUNKSZ. change (32 - 1) with (Z.ones 5).
  rewrite Z.land_ones by lia. change (2 ^ 5) with 32. rewrite <- Z.ldiff_land, Z.ldiff_ones_r by lia.
  rewrite Z.shiftl_mul_pow2, Z.shiftr_div_pow2 by lia. change (2 ^ 5) with 32.
  assert (Hk : exists k : nat, (bits + 32 - 1) / 32 * 32 - 32 = 32 * Z.of_nat k /\ BITS_TO_LONGS bits - 1 = Z.of_nat k /\
    (k < List.length maskp)%nat).
  { exists (Z.to_nat ((bits + 31) / 32 - 1)). unfold BITS_TO_LONGS, BITS_PER_LONG, nbits in *.
    replace (bits + 32 - 1) with (bits + 31) by lia. clear -Hbits. div_lia. }
  destruct Hk as (k & -> & Ek & Hk). unfold mask_text. rewrite Ek, Nat2Z.id.
  change (if bits mod 32 =? 0 then 32 else bits mod 32) with (top_size bits).
  assert (Htop : 1 <= top_size bits <= 32).
  { unfold top_size. destruct (Z.eqb_spec (bits mod 32) 0); [lia|]. clear -n; div_lia. }
  replace (32 * Z.of_nat k / 32) with (Z.of_nat k) by div_lia.
  pose proof (scnprintf_loop k (top_size bits) [] [] (Z.to_nat (Z.of_nat k + 2)) Hk Htop ltac:(simpl; lia) ltac:(lia)) as E.
  change (printed buflen mem0 []) with mem0 in E. replace (stored buflen []) with 0 in E by (unfold stored; simpl; lia).
  by rewrite E.
Qed.
End scnprintf.

(** ** bitmap_scnlistprintf *)

Definition range_text (r : Z * Z) : list Z :=
  if r.1 =? r.2 then decimal r.1 else (decimal r.1 ++ chr "-" :: decimal r.2)%list.

Fixpoint ranges_text (first : bool) (rs : list (Z * Z)) : list Z :=
  match rs with
  | [] => []
  | r :: rs => (if first then [] else [chr ","]) ++ range_text r ++ ranges_text false rs
  end.

(** The ranges are the maximal runs of set bits from [lo] on, in order. *)
Fixpoint runs (f : Z -> bool) (bits lo : Z) (rs : list (Z * Z)) : Prop :=
  match rs with
  | [] => forall i, lo <= i < bits -> f i = false
  | (a, b) :: rs =>
      lo <= a /\ a <= b < bits /\ (forall i, lo <= i < a -> f i = false) /\ (forall i, a <= i <= b -> f i = true) /\
      (b + 1 < bits -> f (b + 1) = false) /\ runs f bits (b + 1) rs
  end.

Lemma runs_weaken f bits lo lo' rs :
  lo' <= lo -> (forall i, lo' <= i < lo -> f i = false) -> runs f bits lo rs -> runs f bits lo' rs.
Proof.
  intros Hlo Hf. destruct rs as [|[a b] rs]; simpl.
  - intros H i Hi. destruct (Z.lt_ge_cases i lo); [apply Hf|apply H]; lia.
  - intros (H1 & H2 & H3 & H4). split; [lia|]. split; [done|]. split; [|done].
    intros i Hi. destruct (Z.lt_ge_cases i lo); [apply Hf|apply H3]; lia.
Qed.

Lemma runs_bits f bits rs : forall lo, runs f bits lo rs -> forall i, lo <= i < bits ->
  f i = existsb (fun r => (r.1 <=? i) && (i <=? r.2)) rs.
Proof.
  induction rs as [|[a b] rs IH]; intros lo H i Hi; simpl in *; [by apply H|].
  destruct H as (H1 & H2 & H3 & H4 & H5 & H6). destruct (Z.leb_spec a i), (Z.leb_spec i b); cbn [andb orb].
  - apply H4. lia.
  - apply (IH (b + 1)); [done|lia].
  - rewrite H3 by lia. symmetry. apply not_true_iff_false. rewrite existsb_exists. intros ([c d] & Hin & Hc).
    apply andb_prop in Hc as [Hc _]. apply Z.leb_le in Hc. simpl in Hc.
    assert (Hge : forall l lo, runs f bits lo l -> In (c, d) l -> lo <= c).
    { clear. induction l as [|[x y] l IHl]; intros lo Hr Hl; [done|]. simpl in Hr. destruct Hr as (R1 & R2 & _ & _ & _ & R6).
      destruct Hl as [E|Hl]; [by simplify_eq|]. specialize (IHl _ R6 Hl). lia. }
    specialize (Hge rs (b + 1) H6 Hin). lia.
  - lia.
Qed.

Lemma decimal_size v : (1 <= List.length (decimal v) <= 67)%nat.
Proof. destruct (number_text_size (u64 v) 10 (-1) (-1) SIGN); [width_lia|lia|]. unfold decimal. lia. Qed.

Section listprintf.
Context (b buflen : Z) (mem0 maskp : list Z) (bits : Z).
Hypothesis Hb : 0 < b.
Hypothesis Hlen : 2 <= buflen <= INT_MAX.
Hypothesis Hmem : buflen <= Z.of_nat (List.length mem0).
Hypothesis Hfit : b + buflen + 256 <= 2 ^ 32.
Hypothesis Hok : words_ok maskp.
Hypothesis Hbits : 0 <= bits <= nbits maskp.
Hypothesis Hmax : bits <= INT_MAX.
Hypothesis Hmax' : nbits maskp + 32 <= UINT_MAX.

Definition is_nil {A} (l : list A) : bool := match l with [] => true | _ => false end.

Lemma emit_spec T r : 0 <= r.1 <= r.2 -> r.2 <= INT_MAX ->
  let T' := (T ++ (if is_nil T then [] else [chr ","]) ++ range_text r)%list in
  bscnl_emit b (printed buflen mem0 T) buflen r.1 r.2 (stored buflen T) =
    Some (stored buflen T', printed buflen mem0 T') /\ is_nil T' = false.
Proof using Hb Hlen Hmem Hfit.
  destruct r as [rbot rtop]. cbn [fst snd]. intros Hr Htop. pose proof (decimal_size rbot). pose proof (decimal_size rtop).
  assert (Hrange : range_text (rbot, rtop) <> [] /\ (List.length (range_text (rbot, rtop)) <= 135)%nat).
  { unfold range_text. cbn [fst snd]. destruct (rbot =? rtop).
    - split; [|lia]. intros E. rewrite E in *. cbn [List.length] in *. lia.
    - rewrite length_app. cbn [List.length]. split; [|lia]. intros E. by apply app_eq_nil in E as [_ E]. }
  destruct Hrange as [Hne Hsz]. cbv zeta. split.
  2:{ destruct T; [|done]. change (is_nil (range_text (rbot, rtop)) = false). revert Hne. by destruct (range_text (rbot, rtop)). }
  set (sep := if is_nil T then [] else [chr ","]). unfold bscnl_emit.
  assert (Hsep : (if 0 <? stored buflen T then
      '(n, mem) ← scnprintf_at b (printed buflen mem0 T) (stored buflen T) (u32 (buflen - stored buflen T)) (txt ",") [];
      Some (s32 (stored buflen T + n), mem) else Some (stored buflen T, printed buflen mem0 T)) =
    Some (stored buflen (T ++ sep), printed buflen mem0 (T ++ sep))).
  { unfold sep. destruct T as [|c T].
    { replace (stored buflen []) with 0 by (unfold stored; simpl; lia). simpl. unfold stored. simpl. do 2 f_equal. lia. }
    simpl is_nil. cbv iota.
    destruct (Z.ltb_spec 0 (stored buflen (c :: T))) as [_|Hs]; [|unfold stored in Hs; simpl in Hs; lia].
    destruct (scnprintf_append b buflen mem0 Hb ltac:(lia) Hmem (c :: T) (txt ",") [] [chr ","]) as (n & -> & Es);
      [done|done|simpl; lia|simpl; width_lia|]. cbn [mbind option_bind]. by rewrite Es. }
  rewrite Hsep. cbn [mbind option_bind]. rewrite app_assoc. unfold range_text in *. cbn [fst snd] in *.
  destruct (rbot =? rtop).
  - destruct (scnprintf_append b buflen mem0 Hb ltac:(lia) Hmem (T ++ sep) (txt "%d") [Word rbot] (decimal rbot)) as (n & -> & Es);
      [apply single_format; width_lia|done|lia|width_lia|]. cbn [mbind option_bind]. by rewrite Es.
  - destruct (scnprintf_append b buflen mem0 Hb ltac:(lia) Hmem (T ++ sep) (txt "%d-%d") [Word rbot; Word rtop]
      (decimal rbot ++ chr "-" :: decimal rtop)) as (n & -> & Es);
      [apply range_format; width_lia|done|lia|width_lia|]. cbn [mbind option_bind]. by rewrite Es.
Qed.

Lemma listprintf_loop fuel : forall cur rbot T,
  bits - cur < Z.of_nat fuel -> 0 <= rbot <= cur -> cur <= bits -> (cur < bits -> btest maskp cur = true) ->
  (forall i, rbot <= i < cur -> btest maskp i = true) -> (cur = bits -> rbot = cur) ->
  exists rs, runs (btest maskp) bits rbot rs /\
    let T' := (T ++ ranges_text (is_nil T) rs)%list in
    loop fuel (listprintf_body b buflen maskp bits) (cur, rbot, stored buflen T, printed buflen mem0 T) =
      Some (Some (stored buflen T', printed buflen mem0 T')).
Proof using All.
  induction fuel as [|fuel IH]; intros cur rbot T Hf Hr Hc Hset Hrun Hend; [lia|]. rewrite loop_S. unfold listprintf_body at 1.
  destruct (Z.ltb_spec cur bits) as [Hlt|Hge]; cbn [negb].
  2:{ exists []. split; [intros i Hi; lia|]. simpl. by rewrite app_nil_r. }
  destruct (find_next_bit_first maskp bits (cur + 1) Hok ltac:(lia) Hmax') as (r & -> & A & B & C & D); [width_lia|].
  assert (Hrb : cur + 1 <= r <= bits) by (destruct (Z.lt_ge_cases (cur + 1) bits); lia).
  destruct ((bits <=? r) || (cur + 1 <? r)) eqn:Egap.
  - assert (Hgap : bits <= r \/ cur + 1 < r).
    { apply orb_prop in Egap as [H|H]; [left; by apply Z.leb_le|right; by apply Z.ltb_lt]. }
    destruct (emit_spec T (rbot, cur) ltac:(simpl; lia) ltac:(simpl; width_lia)) as [E Hnil]. cbn [fst snd] in E. rewrite E. clear E.
    match goal with |- context [loop fuel _ (r, r, stored buflen ?T', _)] => set (T1 := T') in * end.
    destruct (IH r r T1) as (rs & Hrs & E); [lia|lia|lia|intros; apply C; lia|intros; lia|done|].
    rewrite Hnil in E. exists ((rbot, cur) :: rs). split.
    + simpl. split; [lia|]. split; [lia|]. split; [intros; lia|]. split; [|split].
      * intros i Hi. destruct (Z.eq_dec i cur) as [->|]; [by apply Hset|apply Hrun; lia].
      * intros; apply D; lia.
      * apply (runs_weaken _ _ r); [lia|intros; apply D; lia|done].
    + rewrite E. unfold T1. simpl ranges_text. by rewrite <- !app_assoc.
  - apply orb_false_elim in Egap as [H1 H2]. apply Z.leb_gt in H1. apply Z.ltb_ge in H2.
    assert (r = cur + 1) as -> by lia. apply IH; [lia|lia|lia|intros; apply C; lia| |lia].
    intros i Hi. destruct (Z.eq_dec i cur) as [->|]; [by apply Hset|apply Hrun; lia].
Qed.

Lemma bitmap_scnlistprintf_spec :
  exists rs, runs (btest maskp) bits 0 rs /\
    bitmap_scnlistprintf b mem0 buflen maskp bits =
      Some (stored buflen (ranges_text true rs), printed buflen mem0 (ranges_text true rs)).
Proof using All.
  unfold bitmap_scnlistprintf, find_first_bit.
  destruct (find_next_bit_first maskp bits 0 Hok ltac:(lia) Hmax') as (r & -> & A & B & C & D); [done|].
  cbn [mbind option_bind]. assert (Hr : 0 <= r <= bits) by lia.
  destruct (listprintf_loop (S (Z.to_nat bits)) r r []) as (rs & Hrs & E); [lia|lia|lia|intros; apply C; lia|intros; lia|done|].
  exists rs. split; [apply (runs_weaken _ _ r); [lia|intros; apply D; lia|done]|].
  simpl in E. replace (stored buflen []) with 0 in E by (unfold stored; simpl; lia). by rewrite E.
Qed.
End listprintf.
