(* ===== verification/BitmapParse.v ===== *)
(** Reading bitmaps from text: bitmap_parselist and bitmap_parse, and that what was
    printed is read back. *)
From stdpp Require Import base list gmap option numbers.
From Stdlib Require Import ZArith Lia Ascii String.
From S2P Require Import Prelude Div64 Ctype Vsprintf VsprintfText NumberRead Bitops Bitmap BitmapText BitmapPrint.

Local Open Scope Z_scope.

(** ** Lists of ranges *)

(** A list as bitmap_parselist takes it; numbers of more than 32 bits can be written down. *)
Definition item_text (r : Z * Z) : list Z :=
  if r.1 =? r.2 then udecimal r.1 else (udecimal r.1 ++ chr "-" :: udecimal r.2)%list.

Fixpoint items_text (rs : list (Z * Z)) : list Z :=
  match rs with
  | [] => []
  | r :: rs => item_text r ++ match rs with [] => [] | _ => chr "," :: items_text rs end
  end.

(** What the ranges mean: numbers wrap at 2^32, the first bad range ends the reading. *)
Fixpoint items_result (bits : Z) (rs : list (Z * Z)) : Z :=
  match rs with
  | [] => 0
  | r :: rs => if u32 r.2 <? u32 r.1 then - EINVAL else if bits <=? u32 r.2 then - ERANGE else items_result bits rs
  end.

Fixpoint items_bits (bits : Z) (rs : list (Z * Z)) (i : Z) : bool :=
  match rs with
  | [] => false
  | r :: rs => if (u32 r.2 <? u32 r.1) || (bits <=? u32 r.2) then false
               else (u32 r.1 <=? i) && (i <=? u32 r.2) || items_bits bits rs i
  end.

Lemma udecimal_digits v : is_u64 v ->
  exists ds, udecimal v = digit_char false <$> ds /\ ds <> [] /\ Forall (fun d => 0 <= d < 10) ds.
Proof.
  intros Hv. destruct (number_text_shape v 10 (-1) (-1) 0) as (k & j & E & Hk & Hj); [width_lia|width_lia|right; right; lia|].
  rewrite (Hj ltac:(left; lia)), (Hk ltac:(lia) ltac:(right; lia)) in E. exists (digits_of 10 v).
  destruct (digits_of_digits 10 v ltac:(lia) Hv) as (Hf & Hne & _). split; [|done]. unfold udecimal. rewrite E.
  change (magnitude v 0) with v. change (sign_text v 0) with (@nil Z). change (prefix_text 10 0) with (@nil Z). simpl. by rewrite app_nil_r.
Qed.

Lemma digit_char_decimal d : 0 <= d < 10 -> isdigit (digit_char false d) = true /\ digit_char false d = 48 + d.
Proof.
  intros Hd. unfold digit_char. destruct (Z.ltb_spec d 10); [|lia]. split; [|lia].
  rewrite isdigit_spec by width_lia. apply andb_true_intro. split; apply Z.leb_le; lia.
Qed.

Lemma udecimal_head v rest : is_u64 v -> exists c l, udecimal v ++ rest = c :: l /\ isdigit c = true /\ 48 <= c <= 57.
Proof.
  intros Hv. destruct (udecimal_digits v Hv) as ([|d ds] & -> & Hne & Hf); [done|]. inversion Hf as [|? ? Hd _].
  destruct (digit_char_decimal d Hd) as [H1 H2]. do 2 eexists. split; [reflexivity|]. rewrite H2 in *. split; [done|lia].
Qed.

Lemma set_bit_same nr addr : set_bit nr addr = __set_bit nr addr.
Proof.
  unfold set_bit, __set_bit, BITOP_WORD, BITOP_MASK, BITS_PER_LONG. rewrite Z.shiftr_div_pow2 by lia.
  change 0x1f with (Z.ones 5). rewrite Z.land_ones by lia. reflexivity.
Qed.

Lemma set_range_spec ws a n : words_ok ws -> 0 <= a -> 0 <= n -> a + n <= nbits ws ->
  exists d, for_each (fun a maskp => set_bit a maskp) (seqZ a n) ws = Some d /\ words_ok d /\ List.length d = List.length ws /\
    (forall i, 0 <= i -> btest d i = (a <=? i) && (i <? a + n) || btest ws i).
Proof.
  intros Hok Ha Hn Hfit.
  destruct (for_up (fun a maskp => set_bit a maskp) (fun k d => words_ok d /\ List.length d = List.length ws /\
    (forall i, 0 <= i -> btest d i = (a <=? i) && (i <? k) || btest ws i)) a n ws) as (d & E & H); [done| | |by exists d].
  - split; [done|]. split; [done|]. intros i Hi. destruct (Z.leb_spec a i), (Z.ltb_spec i a); done || lia.
  - intros k d Hk (H1 & H2 & H3). rewrite set_bit_same.
    destruct (__set_bit_spec d k H1) as (d' & E & D1 & D2 & D3); [unfold nbits in *; lia|]. exists d'. split; [done|].
    split; [done|]. split; [congruence|]. intros i Hi. rewrite D3, H3 by done.
    destruct (Z.eqb_spec i k), (Z.leb_spec a i), (Z.ltb_spec i k), (Z.ltb_spec i (k + 1)); done || lia.
Qed.

Lemma list_ends c l base : c = 44 \/ c = 45 \/ c = 10 \/ c = 0 -> ends_number base (c :: l).
Proof. intros [-> |[-> |[-> | ->]]]; split; done || by vm_compute. Qed.

(** One range, in front of something that is neither a digit nor a minus. *)
Lemma parselist_item r rest bits maskp :
  is_u64 r.1 -> is_u64 r.2 -> ends_number 10 rest -> char0 rest <> 45 -> is_u32 bits ->
  parselist_body bits (item_text r ++ rest, maskp) =
    if u32 r.2 <? u32 r.1 then inr (Some (- EINVAL, maskp))
    else if bits <=? u32 r.2 then inr (Some (- ERANGE, maskp))
    else match for_each (fun a maskp => set_bit a maskp) (seqZ (u32 r.1) (u32 r.2 - u32 r.1 + 1)) maskp with
         | None => inr None
         | Some maskp =>
             let bp := if char0 rest =? chr "," then tail rest else rest in
             if negb (char0 bp =? 0) && negb (char0 bp =? 10) then inl (bp, maskp) else inr (Some (0, maskp))
         end.
Proof.
  destruct r as [a b]. cbn [fst snd]. intros Ha Hb Hr Hm Hbits. unfold parselist_body, item_text, BASEDEC. cbn [fst snd].
  rewrite (u32_small bits Hbits).
  assert (Hle : forall x y, negb (x <=? y) = (y <? x)) by (intros; by rewrite Z.leb_antisym, negb_involutive).
  destruct (Z.eqb_spec a b) as [<-|Hne].
  - destruct (udecimal_head a rest Ha) as (c & l & E & Hd & _). rewrite (proj2 (udecimal_reads a rest Ha Hr)), E.
    change (char0 (c :: l)) with c. rewrite Hd. cbn [negb]. rewrite (proj2 (Z.eqb_neq (char0 rest) (chr "-")) Hm). by rewrite Hle.
  - rewrite <- app_assoc. destruct (udecimal_head a ((chr "-" :: udecimal b) ++ rest) Ha) as (c & l & E & Hd & _).
    rewrite (proj2 (udecimal_reads a ((chr "-" :: udecimal b) ++ rest) Ha ltac:(apply list_ends; auto))), E.
    change (char0 (c :: l)) with c. rewrite Hd. cbn [negb].
    change (char0 ((chr "-" :: udecimal b) ++ rest) =? chr "-") with true. cbv iota.
    change (tail ((chr "-" :: udecimal b) ++ rest)) with (udecimal b ++ rest).
    destruct (udecimal_head b rest Hb) as (c2 & l2 & E2 & Hd2 & _). rewrite (proj2 (udecimal_reads b rest Hb Hr)), E2.
    change (char0 (c2 :: l2)) with c2. rewrite Hd2. cbn [negb]. by rewrite Hle.
Qed.

Section parselist.
Context (bits : Z) (rest : list Z).
Hypothesis Hbits : 0 < bits <= INT_MAX.
Hypothesis Hrest : rest = [] \/ char0 rest = 10 \/ char0 rest = 0.

Lemma rest_ends : ends_number 10 rest /\ char0 rest <> 45 /\ char0 rest <> 44 /\
  negb (char0 rest =? 0) && negb (char0 rest =? 10) = false.
Proof using Hrest.
  destruct Hrest as [->|[E|E]]; [done| |]; (destruct rest as [|c l]; [done|]); unfold char0 in *; simpl in *; subst c;
    (split; [apply list_ends; auto|done]).
Qed.

Lemma items_head rs tl : rs <> [] -> Forall (fun r => is_u64 r.1 /\ is_u64 r.2) rs ->
  48 <= char0 (items_text rs ++ tl) <= 57.
Proof.
  intros Hne Hf. destruct rs as [|r rs]; [done|]. inversion Hf as [|? ? [H1 H2] _]. simpl items_text.
  assert (E : exists l, (item_text r ++ match rs with [] => [] | _ => chr "," :: items_text rs end) ++ tl = udecimal r.1 ++ l).
  { unfold item_text. destruct (r.1 =? r.2); rewrite <- ?app_assoc; by eexists. }
  destruct E as [tl' ->]. destruct (udecimal_head r.1 tl' H1) as (c & l' & -> & _ & Hc). exact Hc.
Qed.

Lemma parselist_loop rs : rs <> [] -> Forall (fun r => is_u64 r.1 /\ is_u64 r.2) rs -> forall fuel maskp,
  (List.length rs <= fuel)%nat -> words_ok maskp -> bits <= nbits maskp ->
  exists d, loop fuel (parselist_body bits) (items_text rs ++ rest, maskp) = Some (Some (items_result bits rs, d)) /\
    words_ok d /\ List.length d = List.length maskp /\
    forall i, 0 <= i -> btest d i = items_bits bits rs i || btest maskp i.
Proof using All.
  destruct rest_ends as (Re & Rm & Rc & Rstop).
  induction rs as [|r rs IH]; intros Hne Hf fuel maskp Hfuel Hok Hsz; [done|]. inversion Hf as [|? ? [H1 H2] Hf'].
  destruct fuel as [|fuel]; [simpl in Hfuel; lia|]. rewrite loop_S.
  set (tl := (match rs with [] => [] | _ => chr "," :: items_text rs end ++ rest)).
  assert (Etl : items_text (r :: rs) ++ rest = item_text r ++ tl) by (simpl; by rewrite <- app_assoc).
  assert (Htl : ends_number 10 tl /\ char0 tl <> 45).
  { unfold tl. destruct rs; [done|]. split; [apply list_ends; auto|done]. }
  rewrite Etl, parselist_item by (done || tauto || (unfold is_u32, U32_MOD; width_lia)). clear Etl.
  simpl items_result. simpl items_bits.
  destruct (Z.ltb_spec (u32 r.2) (u32 r.1)) as [Hlt|Hle]; cbn [orb]; [exists maskp; done|].
  destruct (Z.leb_spec bits (u32 r.2)) as [Hbig|Hfit]; [exists maskp; done|].
  pose proof (u32_range r.1) as Hr1. unfold is_u32 in Hr1.
  destruct (set_range_spec maskp (u32 r.1) (u32 r.2 - u32 r.1 + 1)) as (d & -> & D1 & D2 & D3); [done|lia|lia|lia|].
  assert (D3' : forall i, 0 <= i -> btest d i = (u32 r.1 <=? i) && (i <=? u32 r.2) || btest maskp i).
  { intros i Hi. rewrite D3 by done. do 2 f_equal. destruct (Z.ltb_spec i (u32 r.1 + (u32 r.2 - u32 r.1 + 1))), (Z.leb_spec i (u32 r.2)); done || lia. }
  destruct rs as [|r2 rs].
  - simpl in tl. subst tl. rewrite (proj2 (Z.eqb_neq (char0 rest) (chr ",")) Rc). cbv zeta. rewrite Rstop. exists d. split_and!; [done|done|done|].
    intros i Hi. rewrite D3' by done. by rewrite orb_false_r.
  - change tl with (chr "," :: (items_text (r2 :: rs) ++ rest)). change (char0 (chr "," :: _) =? chr ",") with true. cbv iota zeta.
    change (tail (chr "," :: ?l)) with l. pose proof (items_head (r2 :: rs) rest ltac:(done) Hf') as Hh.
    rewrite (proj2 (Z.eqb_neq _ 0)), (proj2 (Z.eqb_neq _ 10)) by lia. cbn [negb andb].
    destruct (IH ltac:(done) Hf' fuel d) as (d' & E & E1 & E2 & E3); [simpl in *; lia|done|unfold nbits in *; lia|].
    exists d'. split_and!; [exact E|done|congruence|]. intros i Hi. rewrite E3, D3' by done.
    rewrite orb_assoc. f_equal. apply orb_comm.
Qed.
End parselist.

Lemma items_length rs : Forall (fun r => is_u64 r.1 /\ is_u64 r.2) rs -> (List.length rs <= List.length (items_text rs))%nat.
Proof.
  induction 1 as [|r rs [H1 H2] Hf IH]; [done|]. simpl. rewrite length_app.
  assert (1 <= List.length (item_text r))%nat.
  { destruct (udecimal_head r.1 [] H1) as (c & l & E & _). rewrite app_nil_r in E. unfold item_text. rewrite E.
    destruct (r.1 =? r.2); simpl; lia. }
  destruct rs; simpl in *; lia.
Qed.

Lemma bitmap_parselist_spec rs rest maskp bits :
  rs <> [] -> Forall (fun r => is_u64 r.1 /\ is_u64 r.2) rs -> rest = [] \/ char0 rest = 10 \/ char0 rest = 0 ->
  words_ok maskp -> 0 < bits <= nbits maskp -> bits <= INT_MAX ->
  exists d, bitmap_parselist (items_text rs ++ rest) maskp bits = Some (items_result bits rs, d) /\
    words_ok d /\ List.length d = List.length maskp /\ (forall i, 0 <= i < bits -> btest d i = items_bits bits rs i).
Proof.
  intros Hne Hf Hr Hok Hb Hmax. unfold bitmap_parselist.
  destruct (bitmap_zero_spec maskp bits Hok Hb) as (z & -> & Z1 & Z2 & Z3). cbn [mbind option_bind].
  pose proof (items_length rs Hf) as Hl.
  destruct (parselist_loop bits rest ltac:(lia) Hr rs Hne Hf (S (List.length (items_text rs ++ rest))) z) as (d & -> & D1 & D2 & D3);
    [rewrite length_app; lia|done|unfold nbits in *; lia|].
  exists d. split; [done|]. split; [done|]. split; [congruence|]. intros i Hi. rewrite D3, Z3 by lia. by rewrite orb_false_r.
Qed.

(** Ranges that fit are all taken. *)
Lemma items_fit bits rs : bits <= INT_MAX -> Forall (fun r => 0 <= r.1 <= r.2 /\ r.2 < bits) rs ->
  items_result bits rs = 0 /\ (forall i, items_bits bits rs i = existsb (fun r => (r.1 <=? i) && (i <=? r.2)) rs).
Proof.
  intros Hmax. induction 1 as [|r rs Hr Hf [IH1 IH2]]; [done|]. simpl.
  rewrite !u32_small by width_lia. destruct (Z.ltb_spec r.2 r.1); [lia|]. destruct (Z.leb_spec bits r.2); [lia|].
  cbn [orb]. split; [done|]. intros i. by rewrite IH2.
Qed.

Lemma decimal_nonneg v : 0 <= v <= INT_MAX -> decimal v = udecimal v.
Proof.
  intros Hv. unfold decimal, udecimal. rewrite u64_small by (unfold is_u64, U64_MOD; width_lia).
  assert (Es : s64 v = v) by (unfold s64, U64_MOD; rewrite Z.mod_small by width_lia; lia).
  unfold number_text, digits_text, sign_text, magnitude. change (has SIGN SIGN) with true. change (has 0 SIGN) with false.
  change (has SIGN PLUS) with false. change (has SIGN SPACE) with false. cbv iota. rewrite Es, Z.abs_eq by lia.
  destruct (Z.ltb_spec v 0); [lia|]. done.
Qed.

Lemma ranges_items rs : Forall (fun r => 0 <= r.1 <= r.2 /\ r.2 <= INT_MAX) rs -> ranges_text true rs = items_text rs.
Proof.
  assert (Hone : forall r, 0 <= r.1 <= r.2 /\ r.2 <= INT_MAX -> range_text r = item_text r).
  { intros r Hr. unfold range_text, item_text. rewrite !decimal_nonneg by lia. done. }
  induction 1 as [|r rs Hr Hf IH]; [done|]. simpl. rewrite (Hone r Hr). f_equal.
  destruct rs as [|r2 rs]; [done|]. rewrite <- IH. done.
Qed.

Lemma runs_ranges f bits rs : forall lo, 0 <= lo -> runs f bits lo rs -> Forall (fun r => 0 <= r.1 <= r.2 /\ r.2 < bits) rs.
Proof.
  induction rs as [|[a b] rs IH]; intros lo Hlo H; [constructor|]. simpl in H. destruct H as (H1 & H2 & _ & _ & _ & H6).
  constructor; [simpl; lia|]. apply (IH (b + 1)); [lia|done].
Qed.
