(* ===== verification/BitmapHex.v ===== *)
(** Reading hexadecimal bitmaps: bitmap_parse. *)
From stdpp Require Import base list gmap option numbers.
From Stdlib Require Import ZArith Lia Ascii String.
From S2P Require Import Prelude Div64 Ctype Vsprintf VsprintfText NumberRead Bitops Bitmap BitmapText BitmapPrint BitmapParse.

Local Open Scope Z_scope.

(** ** Digits and chunks *)

(** A chunk is the list of its digits, from 0 to 15, at least one. *)
Definition chunk_ok (ds : list Z) : Prop := ds <> [] /\ Forall (fun d => 0 <= d < 16) ds.

Definition chunk_value (ds : list Z) : Z := digits_value 16 0 ds.

(** The number that the chunks stand for, each of them 32 bits of it. *)
Definition chunks_value (V : Z) (cs : list (list Z)) : Z := foldl (fun V ds => V * 2 ^ 32 + chunk_value ds) V cs.

Fixpoint chunks_text (large : bool) (cs : list (list Z)) : list Z :=
  match cs with
  | [] => []
  | ds :: cs => (digit_char large <$> ds) ++ match cs with [] => [] | _ => chr "," :: chunks_text large cs end
  end.

Lemma hex_digit large d : 0 <= d < 16 ->
  let c := digit_char large d in
  s8 c = c /\ isspace c = false /\ c <> 0 /\ c <> 44 /\ isxdigit c = true /\ unhex c = d.
Proof.
  intros Hd. cbv zeta. assert (H : forallb (fun d => let c := digit_char large d in
    (s8 c =? c) && negb (isspace c) && negb (c =? 0) && negb (c =? 44) && isxdigit c && (unhex c =? d)) (seqZ 0 16) = true)
    by (by destruct large; vm_compute).
  rewrite forallb_forall in H. specialize (H d ltac:(apply list_elem_of_In, elem_of_seqZ; lia)). cbv zeta in H.
  repeat match goal with H : (_ && _)%bool = true |- _ => apply andb_prop in H as [H ?] end.
  repeat match goal with
  | H : negb _ = true |- _ => apply negb_true_iff in H
  | H : (_ =? _) = true |- _ => apply Z.eqb_eq in H
  | H : (_ =? _) = false |- _ => apply Z.eqb_neq in H end. done.
Qed.

Lemma chunk_full x : is_u32 x -> (Z.land x (not32 (shl32 1 (CHUNKSZ - 4) - 1)) =? 0) = (x <? 2 ^ 28).
Proof.
  intros Hx. unfold CHUNKSZ. replace (not32 (shl32 1 (32 - 4) - 1)) with (not32 (2 ^ 28 - 1)) by done.
  assert (Hbits : Z.land x (not32 (2 ^ 28 - 1)) = Z.shiftl (Z.shiftr x 28) 28).
  { apply Z.bits_inj'. intros i Hi. rewrite Z.land_spec, not32_testbit, pow2m1_testbit by lia.
    destruct (Z.ltb_spec i 28).
    - rewrite andb_false_r, andb_false_r. by rewrite Z.shiftl_spec_low.
    - rewrite Z.shiftl_spec, Z.shiftr_spec by lia. replace (i - 28 + 28) with i by lia.
      destruct (Z.ltb_spec i 32); [by rewrite andb_true_r|]. rewrite (is_u32_testbit x i) by (done || lia). done. }
  rewrite Hbits, Z.shiftl_mul_pow2, Z.shiftr_div_pow2 by lia. unfold is_u32, U32_MOD in Hx.
  destruct (Z.ltb_spec x (2 ^ 28)).
  - rewrite Z.div_small by lia. done.
  - apply Z.eqb_neq. pose proof (Z.div_str_pos x (2 ^ 28)). nia.
Qed.

Lemma lor_digit x d : 0 <= x < 2 ^ 28 -> 0 <= d < 16 -> Z.lor (shl32 x 4) d = x * 16 + d.
Proof.
  intros Hx Hd. unfold shl32. rewrite Z.shiftl_mul_pow2 by lia. change (2 ^ 4) with 16.
  rewrite u32_small by (unfold is_u32, U32_MOD; change (2 ^ 32) with (16 * 2 ^ 28); lia).
  rewrite <- Z.add_lor_land. replace (Z.land (x * 16) d) with 0; [lia|]. symmetry. apply Z.bits_inj'. intros i Hi.
  rewrite Z.land_spec, Z.bits_0. change 16 with (2 ^ 4). destruct (Z.ltb_spec i 4).
  - rewrite Z.mul_pow2_bits_low by lia. done.
  - rewrite andb_comm. replace (Z.testbit d i) with false; [done|]. symmetry.
    destruct (Z.eq_dec d 0) as [->|]; [apply Z.bits_0|]. apply Z.bits_above_log2; [lia|].
    apply Z.log2_lt_pow2; [lia|]. pose proof (Z.pow_le_mono_r 2 4 i). change (2 ^ 4) with 16 in *. lia.
Qed.

Lemma digits_value_ge acc ds : 0 <= acc -> Forall (fun d => 0 <= d < 16) ds -> acc <= digits_value 16 acc ds.
Proof.
  intros Ha Hf. revert acc Ha. induction Hf as [|d ds Hd _ IH]; intros acc Ha; simpl; [lia|].
  specialize (IH (acc * 16 + d)). lia.
Qed.

(** ** The inner loop *)

Definition user (l : list Z) : list (option Z) := Some <$> l.

Lemma chunk_step large d l c acc n t :
  0 <= d < 16 -> is_u32 acc -> t = 0 \/ isspace c = false ->
  chunk_body (Reader (Some (digit_char large d) :: l) (Z.of_nat (List.length (Some (digit_char large d) :: l))) c acc n t) =
    if acc <? 2 ^ 28 then inl (Reader l (Z.of_nat (List.length l)) (digit_char large d) (acc * 16 + d) (n + 1) (t + 1))
    else inr (inl (- EOVERFLOW)).
Proof.
  intros Hd Hacc Hc. unfold chunk_body. cbn [ubuflen ubuf cur chunk ndigits totaldigits].
  destruct (hex_digit large d Hd) as (H1 & H2 & H3 & H4 & H5 & H6).
  rewrite (proj2 (Z.eqb_neq (Z.of_nat (List.length (Some (digit_char large d) :: l))) 0)) by (simpl; lia).
  rewrite H1, H2, H5, H6. rewrite (proj2 (Z.eqb_neq _ 0) H3), (proj2 (Z.eqb_neq (digit_char large d) (chr ",")) H4). cbn [negb orb].
  assert (Hsp : negb (t =? 0) && true && isspace c = false) by (destruct Hc as [-> | ->]; [done|by rewrite andb_false_r]).
  rewrite Hsp, chunk_full by done. unfold is_u32 in Hacc. destruct (Z.ltb_spec acc (2 ^ 28)) as [Hlt|Hge]; cbn [negb]; [|done].
  rewrite lor_digit by lia. do 2 f_equal. simpl. lia.
Qed.

(** Reading the digits of a chunk: they are taken, unless the chunk has more than 32 bits. *)
Lemma chunk_digits large ds : Forall (fun d => 0 <= d < 16) ds -> forall fuel acc n t c rest,
  is_u32 acc -> 0 <= n -> 0 <= t -> (t = 0 \/ isspace c = false) \/ (ds = []) -> (List.length ds < fuel)%nat ->
  let l := user ((digit_char large <$> ds) ++ rest) in
  let r := Reader l (Z.of_nat (List.length l)) c acc n t in
  if digits_value 16 acc ds <? 2 ^ 32 then
    exists c', loop fuel chunk_body r =
      loop (fuel - List.length ds) chunk_body
        (Reader (user rest) (Z.of_nat (List.length (user rest))) c' (digits_value 16 acc ds)
           (n + Z.of_nat (List.length ds)) (t + Z.of_nat (List.length ds))) /\
      (ds <> [] -> isspace c' = false /\ c' <> 44) /\ (ds = [] -> c' = c)
  else loop fuel chunk_body r = Some (inl (- EOVERFLOW)).
Proof.
  induction 1 as [|d ds Hd Hf IH]; intros fuel acc n t c rest Hacc Hn Ht Hc Hfuel; cbv zeta.
  { simpl. unfold is_u32, U32_MOD in Hacc. destruct (Z.ltb_spec acc (2 ^ 32)); [|lia]. exists c.
    rewrite Nat.sub_0_r, !Z.add_0_r. done. }
  destruct fuel as [|fuel]; [simpl in Hfuel; lia|]. rewrite loop_S.
  set (l := user ((digit_char large <$> ds) ++ rest)).
  change (user ((digit_char large <$> d :: ds) ++ rest)) with (Some (digit_char large d) :: l).
  assert (Hc' : t = 0 \/ isspace c = false) by (destruct Hc; done). rewrite chunk_step by done.
  change (digits_value 16 acc (d :: ds)) with (digits_value 16 (acc * 16 + d) ds). unfold is_u32, U32_MOD in Hacc.
  destruct (Z.ltb_spec acc (2 ^ 28)) as [Hlt|Hge].
  2:{ pose proof (digits_value_ge (acc * 16 + d) ds ltac:(lia) Hf). change (2 ^ 32) with (16 * 2 ^ 28).
      destruct (Z.ltb_spec (digits_value 16 (acc * 16 + d) ds) (16 * 2 ^ 28)); [lia|done]. }
  specialize (IH fuel (acc * 16 + d) (n + 1) (t + 1) (digit_char large d) rest). cbv zeta in IH. fold l in IH.
  change (2 ^ 32) with (16 * 2 ^ 28) in *.
  destruct (Z.ltb_spec (digits_value 16 (acc * 16 + d) ds) (16 * 2 ^ 28)) as [Hv|Hv].
  - destruct IH as (c' & E & Hc1 & Hc2); [unfold is_u32, U32_MOD; change (2 ^ 32) with (16 * 2 ^ 28); lia|lia|lia|left; right; by apply hex_digit|simpl in Hfuel; lia|].
    exists c'. split; [|split; [|done]].
    + etransitivity; [exact E|]. f_equal. f_equal; simpl; lia.
    + intros _. destruct ds as [|d2 ds]; [rewrite Hc2 by done; by destruct (hex_digit large d Hd) as (_ & ? & _ & ? & _)|by apply Hc1].
  - apply IH; [unfold is_u32, U32_MOD; change (2 ^ 32) with (16 * 2 ^ 28); lia|lia|lia|left; right; by apply hex_digit|simpl in Hfuel; lia].
Qed.

Lemma isspace_s8 c : isspace (s8 c) = isspace c.
Proof.
  unfold isspace, __ismask. replace (u8 (s8 c)) with (u8 c); [done|]. unfold u8, s8.
  rewrite Zminus_mod_idemp_l. f_equal. lia.
Qed.

(** White space is skipped; behind digits, nothing but the end may follow it. *)
Lemma chunk_spaces ws : Forall (fun c => isspace c = true) ws -> forall fuel c acc n t rest,
  (List.length ws <= fuel)%nat ->
  exists c', loop fuel chunk_body (Reader (user (ws ++ rest)) (Z.of_nat (List.length (user (ws ++ rest)))) c acc n t) =
    loop (fuel - List.length ws) chunk_body (Reader (user rest) (Z.of_nat (List.length (user rest))) c' acc n t) /\
    (ws = [] -> c' = c) /\ (c <> 44 -> c' <> 44).
Proof.
  induction 1 as [|w ws Hw Hf IH]; intros fuel c acc n t rest Hfuel.
  { exists c. rewrite Nat.sub_0_r. done. }
  destruct fuel as [|fuel]; [simpl in Hfuel; lia|]. rewrite loop_S. unfold chunk_body at 1.
  cbn [ubuflen ubuf cur chunk ndigits totaldigits].
  rewrite (proj2 (Z.eqb_neq (Z.of_nat (List.length (user ((w :: ws) ++ rest)))) 0)) by (simpl; lia).
  change (user ((w :: ws) ++ rest)) with (Some w :: user (ws ++ rest)). cbv iota beta. rewrite isspace_s8, Hw.
  destruct (IH fuel (s8 w) acc n t rest) as (c' & E & H1 & H2); [simpl in Hfuel; lia|]. exists c'. split; [|split; [done|]].
  - etransitivity; [|exact E]. f_equal. f_equal. simpl. lia.
  - intros _. apply H2. intros E44. rewrite <- isspace_s8, E44 in Hw. done.
Qed.

(** What may stand behind a chunk: a comma, or white space and then the end or a NUL. *)
Definition text_end (tl : list Z) : Prop :=
  exists ws z, tl = (ws ++ z)%list /\ Forall (fun c => isspace c = true) ws /\ (z = [] \/ head z = Some 0).

Definition goes_on (tl : list Z) (t : Z) (r : reader) : Prop :=
  (text_end tl /\ cur r <> 44) \/
  (exists rest, tl = chr "," :: rest /\ cur r = 44 /\ ubuf r = user rest /\
     ubuflen r = Z.of_nat (List.length (user rest)) /\ totaldigits r = t).

Lemma chunk_tail fuel tl c acc n t :
  text_end tl \/ (exists rest, tl = chr "," :: rest) -> isspace c = false -> c <> 44 -> (List.length tl < fuel)%nat ->
  exists r, loop fuel chunk_body (Reader (user tl) (Z.of_nat (List.length (user tl))) c acc n t) = Some (inr r) /\
    chunk r = acc /\ ndigits r = n /\ goes_on tl t r.
Proof.
  intros [Hend|[rest ->]] Hc H44 Hfuel.
  - pose proof Hend as (ws & z & -> & Hws & Hz). destruct (chunk_spaces ws Hws fuel c acc n t z) as (c' & -> & _ & Hc'); [rewrite length_app in Hfuel; lia|].
    rewrite length_app in Hfuel. specialize (Hc' H44). destruct (fuel - List.length ws)%nat as [|f] eqn:Ef; [lia|]. rewrite loop_S. unfold chunk_body at 1.
    cbn [ubuflen ubuf cur chunk ndigits totaldigits]. destruct z as [|x z].
    + eexists. split; [reflexivity|]. split; [done|]. split; [done|]. left. done.
    + destruct Hz as [|[= ->]]; [done|]. rewrite (proj2 (Z.eqb_neq _ 0)) by (simpl; lia).
      change (user (0 :: z)) with (Some 0 :: user z). cbv iota beta. change (isspace (s8 0)) with false. change (s8 0 =? 0) with true.
      cbn [negb orb]. rewrite andb_false_r. eexists. split; [reflexivity|]. split; [done|]. split; [done|]. left. done.
  - destruct fuel as [|f]; [lia|]. rewrite loop_S. unfold chunk_body at 1. cbn [ubuflen ubuf cur chunk ndigits totaldigits].
    rewrite (proj2 (Z.eqb_neq _ 0)) by (simpl; lia). change (user (chr "," :: rest)) with (Some (chr ",") :: user rest). cbv iota beta.
    change (isspace (s8 (chr ","))) with false. cbv iota. rewrite Hc, andb_false_r. change ((s8 (chr ",") =? 0) || (s8 (chr ",") =? chr ",")) with true.
    cbv iota. eexists. split; [reflexivity|]. split; [done|]. split; [done|]. right. exists rest. cbn [cur ubuf ubuflen totaldigits].
    split_and!; [done|done|done|simpl; lia|done].
Qed.

(** A whole chunk. *)
Lemma chunk_loop large lead ds tl c t :
  Forall (fun c => isspace c = true) lead -> chunk_ok ds -> 0 <= t -> t = 0 \/ (lead = [] /\ isspace c = false) ->
  text_end tl \/ (exists rest, tl = chr "," :: rest) ->
  let l := user (lead ++ (digit_char large <$> ds) ++ tl) in
  let o := loop (S (Z.to_nat (Z.of_nat (List.length l)))) chunk_body (Reader l (Z.of_nat (List.length l)) c 0 0 t) in
  if chunk_value ds <? 2 ^ 32 then
    exists r, o = Some (inr r) /\ chunk r = chunk_value ds /\ ndigits r <> 0 /\ goes_on tl (t + Z.of_nat (List.length ds)) r
  else o = Some (inl (- EOVERFLOW)).
Proof.
  intros Hlead [Hne Hds] Ht Hc Htl. cbv zeta. rewrite Nat2Z.id.
  assert (Hlen : List.length (user (lead ++ (digit_char large <$> ds) ++ tl)) = (List.length lead + (List.length ds + List.length tl))%nat)
    by (unfold user; by rewrite !length_fmap, !length_app, length_fmap).
  destruct (chunk_spaces lead Hlead (S (List.length (user (lead ++ (digit_char large <$> ds) ++ tl)))) c 0 0 t ((digit_char large <$> ds) ++ tl))
    as (c1 & -> & Hc1 & _); [lia|]. rewrite Hlen.
  replace (S _ - List.length lead)%nat with (S (List.length ds + List.length tl)) by lia.
  pose proof (chunk_digits large ds Hds (S (List.length ds + List.length tl)) 0 0 t c1 tl) as H. cbv zeta in H.
  assert (Hc2 : (t = 0 \/ isspace c1 = false) \/ ds = []).
  { left. destruct Hc as [|[E E']]; [by left|right]. by rewrite (Hc1 E). }
  specialize (H ltac:(done) ltac:(lia) Ht Hc2 ltac:(lia)). fold (chunk_value ds) in H.
  destruct (chunk_value ds <? 2 ^ 32); [|exact H]. destruct H as (c2 & -> & Hsp & _). destruct (Hsp Hne) as [Hs H44].
  destruct (chunk_tail (S (List.length ds + List.length tl) - List.length ds) tl c2 (chunk_value ds) (0 + Z.of_nat (List.length ds))
    (t + Z.of_nat (List.length ds)) Htl Hs H44) as (r & -> & R1 & R2 & R3); [lia|].
  exists r. split; [done|]. split; [done|]. split; [|done]. rewrite R2. destruct ds; [done|]. simpl. lia.
Qed.

(** ** The outer loop *)

Definition holds (bits : Z) (d : list Z) (V : Z) : Prop := forall i, 0 <= i < bits -> btest d i = Z.testbit V i.

Lemma push_chunk maskp bits V c :
  words_ok maskp -> 0 < bits <= nbits maskp -> holds bits maskp V -> is_u32 c ->
  exists d, (maskp ← __bitmap_shift_left maskp None CHUNKSZ bits; w ← array_get maskp 0; array_set maskp 0 (Z.lor w c)) = Some d /\
    words_ok d /\ List.length d = List.length maskp /\ holds bits d (V * 2 ^ 32 + c).
Proof.
  intros Hok Hb HV Hc. unfold CHUNKSZ.
  assert (Hlongs : 32 / 32 <= BITS_TO_LONGS bits /\ bits <= 32 * BITS_TO_LONGS bits).
  { unfold BITS_TO_LONGS, BITS_PER_LONG. change (32 / 32) with 1. clear -Hb. div_lia. }
  destruct (shift_left_spec maskp None 32 bits Hok Hok ltac:(lia) ltac:(simpl; lia) ltac:(lia) ltac:(lia)) as (d & -> & D1 & D2 & D3).
  simpl source in D3. cbn [mbind option_bind].
  assert (Hlen : (0 < List.length d)%nat) by (unfold nbits in Hb; lia).
  destruct (array_get_Some d 0) as [w Hw]; [lia|]. rewrite Hw. cbn [mbind option_bind].
  assert (Hw' : d !! 0%nat = Some w) by (unfold array_get in Hw; by rewrite bool_decide_true in Hw by lia).
  rewrite array_set_Some by lia. eexists. split; [reflexivity|].
  assert (Uw : is_u32 w) by (by eapply words_ok_lookup).
  split; [apply words_ok_insert; [done|by apply is_u32_lor]|]. split; [by rewrite length_insert|].
  intros i Hi. rewrite (btest_insert d 0) by (unfold nbits in *; lia). unfold is_u32, U32_MOD in Hc.
  assert (Htest : Z.testbit (V * 2 ^ 32 + c) i = if i <? 32 then Z.testbit c i else Z.testbit V (i - 32)).
  { destruct (Z.ltb_spec i 32).
    - rewrite <- (Z.mod_pow2_bits_low (V * 2 ^ 32 + c) 32) by lia. rewrite Z.add_comm, Z.mod_add, Z.mod_small by lia. done.
    - replace i with (i - 32 + 32) at 1 by lia. rewrite <- Z.shiftr_spec, Z.shiftr_div_pow2 by lia.
      rewrite Z.div_add_l, Z.div_small by lia. by rewrite Z.add_0_r. }
  rewrite Htest. case_bool_decide as E.
  - destruct (Z.ltb_spec i 32); [|exfalso; clear -E H; div_lia].
    rewrite Z.mod_small, Z.lor_spec by lia.
    replace (Z.testbit w i) with false; [done|]. specialize (D3 i ltac:(lia)). unfold btest in D3.
    rewrite (Z.div_small i), (Z.mod_small i) in D3 by lia. rewrite (list_lookup_total_correct _ _ _ Hw') in D3.
    rewrite D3. destruct (Z.leb_spec 32 i); [lia|done].
  - destruct (Z.ltb_spec i 32) as [H|H]; [destruct E; clear -H Hi; div_lia|]. rewrite D3 by lia.
    destruct (Z.leb_spec 32 i), (Z.ltb_spec i bits); try lia. cbn [andb]. apply HV. lia.
Qed.

Lemma log2_push V c : 0 < V -> 0 <= c < 2 ^ 32 -> Z.log2 (V * 2 ^ 32 + c) = Z.log2 V + 32.
Proof.
  intros HV Hc. apply Z.log2_unique; [pose proof (Z.log2_nonneg V); lia|]. pose proof (Z.log2_spec V HV) as [H1 H2].
  rewrite <- Z.add_succ_l, !Z.pow_add_r by (pose proof (Z.log2_nonneg V); lia). nia.
Qed.

Definition fits (bits : Z) (V : Z) (cs : list (list Z)) : bool :=
  forallb (fun ds => chunk_value ds <? 2 ^ 32) cs && (chunks_value V cs <? 2 ^ bits).

Lemma chunk_value_nonneg ds : chunk_ok ds -> 0 <= chunk_value ds.
Proof. intros [_ H]. by apply (digits_value_ge 0). Qed.

Lemma chunks_value_ge cs : Forall chunk_ok cs -> forall V, 0 <= V -> V <= chunks_value V cs.
Proof.
  induction 1 as [|ds cs Hds _ IH]; intros V HV; simpl; [lia|]. pose proof (chunk_value_nonneg ds Hds).
  specialize (IH (V * 2 ^ 32 + chunk_value ds)). nia.
Qed.

(** nchunks and nbits for the number read so far. *)
Definition counted (nchunks nb V : Z) : Prop :=
  (nchunks = 0 /\ nb = 0 /\ V = 0) \/ (0 < nchunks /\ 0 < V /\ nb = Z.log2 V + 1).

Lemma counted_push nchunks nb V c : counted nchunks nb V -> is_u32 c -> (nchunks =? 0) && (c =? 0) = false ->
  let nb' := nb + (if nchunks + 1 =? 1 then nbits_to_hold_value c else CHUNKSZ) in
  counted (nchunks + 1) nb' (V * 2 ^ 32 + c) /\ 0 < V * 2 ^ 32 + c.
Proof.
  intros Hn Hc H0. cbv zeta. pose proof Hc as Hc'. unfold is_u32, U32_MOD in Hc'.
  destruct Hn as [(-> & -> & ->)|(H1 & H2 & ->)].
  - change (0 + 1 =? 1) with true. cbn [Z.eqb andb] in H0. apply Z.eqb_neq in H0. unfold nbits_to_hold_value. rewrite fls_spec by done.
    rewrite (proj2 (Z.eqb_neq c 0) H0). rewrite Z.mul_0_l, !Z.add_0_l. split; [right; lia|lia].
  - destruct (Z.eqb_spec (nchunks + 1) 1); [lia|]. unfold CHUNKSZ. split; [|nia]. right. rewrite log2_push by lia. nia.
Qed.

Definition outcome (bits V : Z) (cs : list (list Z)) (maskp : list Z) (o : option (option (Z * list Z))) : Prop :=
  exists e d, o = Some (Some (e, d)) /\ words_ok d /\ List.length d = List.length maskp /\
    if fits bits V cs then e = 0 /\ holds bits d (chunks_value V cs) else e = - EOVERFLOW.

Lemma outcome_overflow bits V ds cs maskp d :
  words_ok d -> List.length d = List.length maskp -> fits bits V (ds :: cs) = false ->
  outcome bits V (ds :: cs) maskp (Some (Some (- EOVERFLOW, d))).
Proof. intros H1 H2 H3. exists (- EOVERFLOW), d. by rewrite H3. Qed.

Lemma fits_cons bits V ds cs :
  fits bits V (ds :: cs) = (chunk_value ds <? 2 ^ 32) && fits bits (V * 2 ^ 32 + chunk_value ds) cs.
Proof. unfold fits. simpl. by rewrite andb_assoc. Qed.

Lemma chunks_text_cons large ds cs tl :
  chunks_text large (ds :: cs) ++ tl =
    (digit_char large <$> ds) ++ match cs with [] => tl | _ => chr "," :: (chunks_text large cs ++ tl) end.
Proof. simpl. rewrite <- app_assoc. by destruct cs. Qed.

Section parse.
Context (large : bool) (bits : Z) (tl : list Z).
Hypothesis Hbits : 0 < bits.
Hypothesis Htl : text_end tl.

(** What follows a chunk that was taken: the end, or the other chunks ([Hloop]). *)
Lemma parse_again fuel ds cs r V t d maskp n b :
  let tl' := match cs with [] => tl | _ => chr "," :: (chunks_text large cs ++ tl) end in
  Forall chunk_ok cs -> goes_on tl' (t + Z.of_nat (List.length ds)) r -> chunk_value ds < 2 ^ 32 ->
  words_ok d -> List.length d = List.length maskp -> holds bits d (V * 2 ^ 32 + chunk_value ds) ->
  V * 2 ^ 32 + chunk_value ds < 2 ^ bits ->
  (forall ch nd, cs <> [] -> let l := user ([] ++ chunks_text large cs ++ tl) in
     outcome bits (V * 2 ^ 32 + chunk_value ds) cs d
       (loop fuel (parse_body bits) (Reader l (Z.of_nat (List.length l)) 44 ch nd (t + Z.of_nat (List.length ds)), d, n, b))) ->
  outcome bits V (ds :: cs) maskp
    match (if negb (ubuflen r =? 0) && (cur r =? chr ",") then inl (r, d, n, b) else inr (Some (0, d))) with
    | inl s' => loop fuel (parse_body bits) s'
    | inr r => Some r
    end.
Proof using All.
  intros tl' Hcs Rg Hsmall D1 D2 D3 D5 Hloop. destruct Rg as [[Rend R44]|(rest & Er & R44 & Ru & Rl & Rt)].
  - assert (cs = []) as ->.
    { destruct cs as [|ds2 cs]; [done|]. exfalso. destruct Rend as (ws & z & E & Hws & Hz). unfold tl' in E.
      destruct ws as [|w ws]; [destruct z; simplify_eq/=; by destruct Hz|]. simplify_eq/=. inversion Hws. done. }
    rewrite (proj2 (Z.eqb_neq _ (chr ",")) R44), andb_false_r. exists 0, d. split; [done|]. split; [done|]. split; [done|].
    rewrite fits_cons, (proj2 (Z.ltb_lt _ _) Hsmall). unfold fits. simpl. by rewrite (proj2 (Z.ltb_lt _ _) D5).
  - destruct cs as [|ds2 cs].
    { exfalso. unfold tl' in Er. destruct Htl as (ws & z & E & Hws & Hz). rewrite E in Er.
      destruct ws as [|w ws]; [simpl in Er; rewrite Er in Hz; by destruct Hz|]. simplify_eq/=. inversion Hws. done. }
    unfold tl' in Er. simplify_eq. assert (Hlen : (0 < List.length (user (chunks_text large (ds2 :: cs) ++ tl)))%nat).
    { inversion Hcs as [|? ? [Hne2 _] _]. destruct ds2; [done|]. simpl. lia. }
    rewrite Rl, R44, (proj2 (Z.eqb_neq _ 0)) by lia. change (negb false && (44 =? chr ",")) with true. cbv iota.
    destruct r as [ru rl rc rch rnd rt]. cbn [ubuf ubuflen cur totaldigits] in *. subst ru rl rc rt.
    destruct (Hloop rch rnd ltac:(done)) as (e & d' & E & E1 & E2 & E3).
    exists e, d'. split; [exact E|]. split; [done|]. split; [congruence|]. rewrite fits_cons, (proj2 (Z.ltb_lt _ _) Hsmall). exact E3.
Qed.

Lemma parse_loop cs : cs <> [] -> Forall chunk_ok cs -> forall fuel lead maskp nchunks nb V c ch nd t,
  (List.length cs <= fuel)%nat -> Forall (fun c => isspace c = true) lead -> 0 <= t -> t = 0 \/ (lead = [] /\ isspace c = false) ->
  words_ok maskp -> bits <= nbits maskp -> holds bits maskp V -> counted nchunks nb V -> 0 <= V ->
  let l := user (lead ++ chunks_text large cs ++ tl) in
  outcome bits V cs maskp
    (loop fuel (parse_body bits) (Reader l (Z.of_nat (List.length l)) c ch nd t, maskp, nchunks, nb)).
Proof using All.
  induction cs as [|ds cs IH]; intros Hne Hcs fuel lead maskp nchunks nb V c ch nd t Hfuel Hlead Ht Hc Hok Hsz HV Hn HV0; [done|].
  inversion Hcs as [|? ? Hds Hcs' E1]. clear E1. destruct fuel as [|fuel]; [simpl in Hfuel; lia|]. cbv zeta. rewrite loop_S.
  rewrite chunks_text_cons. set (tl' := match cs with [] => tl | _ => chr "," :: (chunks_text large cs ++ tl) end).
  unfold parse_body at 1. cbn [ubuf ubuflen cur totaldigits].
  pose proof (chunk_loop large lead ds tl' c t Hlead Hds Ht Hc) as Hchunk. cbv zeta in Hchunk.
  assert (Htl' : text_end tl' \/ exists rest, tl' = chr "," :: rest) by (unfold tl'; destruct cs; [by left|right; by eexists]).
  specialize (Hchunk Htl'). pose proof (chunk_value_nonneg ds Hds) as Hcv.
  destruct (Z.ltb_spec (chunk_value ds) (2 ^ 32)) as [Hsmall|Hbig].
  2:{ rewrite Hchunk. apply outcome_overflow; [done|done|]. rewrite fits_cons. by rewrite (proj2 (Z.ltb_ge _ _) Hbig). }
  destruct Hchunk as (r & -> & Rc & Rd & Rg). rewrite (proj2 (Z.eqb_neq _ 0) Rd), Rc.
  assert (Hagain : forall d n b, words_ok d -> List.length d = List.length maskp ->
    holds bits d (V * 2 ^ 32 + chunk_value ds) -> counted n b (V * 2 ^ 32 + chunk_value ds) ->
    V * 2 ^ 32 + chunk_value ds < 2 ^ bits -> outcome bits V (ds :: cs) maskp
      match (if negb (ubuflen r =? 0) && (cur r =? chr ",") then inl (r, d, n, b) else inr (Some (0, d))) with
      | inl s' => loop fuel (parse_body bits) s' | inr r => Some r end).
  { intros d n b0 D1 D2 D3 D4 D5. apply (parse_again fuel ds cs r V t); try done. intros ch' nd' Hne'.
    apply IH; try done; [simpl in *; lia|lia|by right|unfold nbits in *; lia|nia]. }
  assert (Huc : is_u32 (chunk_value ds)) by (unfold is_u32, U32_MOD; lia).
  destruct ((nchunks =? 0) && (chunk_value ds =? 0)) eqn:E0.
  - apply andb_prop in E0 as [En Ec]. apply Z.eqb_eq in En. apply Z.eqb_eq in Ec.
    assert (V = 0) as -> by (destruct Hn as [(_ & _ & ->)|(? & _)]; lia). rewrite Ec in *.
    apply Hagain; [done|done|done|done|]. apply Z.pow_pos_nonneg; lia.
  - destruct (push_chunk maskp bits V (chunk_value ds) Hok ltac:(lia) HV Huc) as (d & -> & D1 & D2 & D3).
    destruct (counted_push nchunks nb V (chunk_value ds) Hn Huc E0) as [Hn' HV'].
    set (nb' := nb + _) in *. pose proof Hn' as [(? & _)|(_ & _ & Enb)]; [destruct Hn as [(? & _)|(? & _)]; lia|].
    destruct (Z.ltb_spec bits nb') as [Hover|Hfit].
    + apply outcome_overflow; [done|done|]. rewrite fits_cons, (proj2 (Z.ltb_lt _ _) Hsmall). unfold fits. cbn [andb].
      apply andb_false_intro2, Z.ltb_ge. etransitivity; [|apply chunks_value_ge; [done|lia]].
      apply Z.log2_le_pow2; [lia|]. lia.
    + apply Hagain; [done|done|done|done|]. apply Z.log2_lt_pow2; lia.
Qed.
End parse.

Lemma chunks_length large cs : Forall chunk_ok cs -> (List.length cs <= List.length (chunks_text large cs))%nat.
Proof.
  induction 1 as [|ds cs [Hne _] _ IH]; [done|]. simpl. rewrite length_app, length_fmap.
  destruct ds; [done|]. destruct cs; simpl in *; lia.
Qed.

Lemma bitmap_parse_spec large lead cs tl maskp bits :
  Forall (fun c => isspace c = true) lead -> cs <> [] -> Forall chunk_ok cs -> text_end tl ->
  words_ok maskp -> 0 < bits <= nbits maskp ->
  let l := user (lead ++ chunks_text large cs ++ tl) in
  exists e d, bitmap_parse l (Z.of_nat (List.length l)) maskp bits = Some (e, d) /\ words_ok d /\
    List.length d = List.length maskp /\
    if fits bits 0 cs then e = 0 /\ holds bits d (chunks_value 0 cs) else e = - EOVERFLOW.
Proof.
  intros Hlead Hne Hcs Htl Hok Hb l. unfold bitmap_parse.
  destruct (bitmap_zero_spec maskp bits Hok Hb) as (z & -> & Z1 & Z2 & Z3). cbn [mbind option_bind].
  pose proof (chunks_length large cs Hcs) as Hl.
  assert (Hll : (List.length cs <= List.length l)%nat) by (unfold l, user; rewrite length_fmap, !length_app; lia).
  destruct (parse_loop large bits tl ltac:(lia) Htl cs Hne Hcs (S (Z.to_nat (Z.of_nat (List.length l)))) lead z 0 0 0 0 0 0 0)
    as (e & d & E & D1 & D2 & D3); try done; [lia|by left|unfold nbits in *; lia| |by left|].
  - intros i Hi. rewrite Z3 by lia. by rewrite Z.bits_0.
  - fold l in E. rewrite E. exists e, d. split; [done|]. split; [done|]. split; [congruence|done].
Qed.

(** ** The chunks of a bitmap *)

Lemma hex_digits w v : 0 <= w <= 8 -> is_u32 v ->
  exists ds, hex w v = digit_char false <$> ds /\ chunk_ok ds /\ chunk_value ds = v.
Proof.
  intros Hw Hv. destruct (number_text_shape v 16 w (-1) ZEROPAD) as (k & j & E & _ & Hj); [width_lia|width_lia|right; by left|].
  rewrite (Hj ltac:(by right)) in E. unfold hex.
  destruct (zeros_digits k 16 v ltac:(lia)) as (Hf & Hne & Hval); [unfold is_u32, U32_MOD, is_u64, U64_MOD in *; lia|].
  exists (replicate k 0 ++ digits_of 16 v). split; [|done]. rewrite E. change (sign_text v ZEROPAD) with (@nil Z).
  change (prefix_text 16 ZEROPAD) with (@nil Z). change (magnitude v ZEROPAD) with v. change (has ZEROPAD LARGE) with false.
  simpl. by rewrite app_nil_r.
Qed.

Lemma words_chunks l : Forall (fun x => 0 <= x.1 <= 8 /\ is_u32 x.2) l ->
  exists cs, words_text [] l = chunks_text false cs /\ Forall chunk_ok cs /\ chunk_value <$> cs = snd <$> l.
Proof.
  induction 1 as [|[w v] l [Hw Hv] Hf (cs & E & Hcs & Hval)]; [by exists []|]. cbn [fst snd] in *.
  destruct (hex_digits w v Hw Hv) as (ds & Ed & Hds & Hdv). exists (ds :: cs).
  split; [|split; [by constructor|rewrite !fmap_cons; cbn [snd]; by rewrite Hdv, Hval]]. simpl. rewrite Ed. f_equal.
  destruct cs as [|ds2 cs]; [by destruct l|]. destruct l as [|[w2 v2] l]; [done|]. rewrite <- E. done.
Qed.

Lemma chunks_value_fmap cs V : chunks_value V cs = foldl (fun V v => V * 2 ^ 32 + v) V (chunk_value <$> cs).
Proof. revert V. induction cs as [|ds cs IH]; intros V; simpl; [done|]. apply IH. Qed.

Lemma chunks_bits maskp k : words_ok maskp -> (k < List.length maskp)%nat -> forall csz V, 1 <= csz <= 32 ->
  exists rest, foldl (fun V v => V * 2 ^ 32 + v) V (snd <$> chunks maskp k csz) =
    (V * 2 ^ 32 + Z.land (maskp !!! k) (2 ^ csz - 1)) * 2 ^ (32 * Z.of_nat k) + rest /\
    0 <= rest < 2 ^ (32 * Z.of_nat k) /\ forall i, 0 <= i < 32 * Z.of_nat k -> Z.testbit rest i = btest maskp i.
Proof.
  intros Hok. induction k as [|k IH]; intros Hk csz V Hcsz.
  { exists 0. simpl. split; [lia|]. split; [lia|]. intros i Hi. lia. }
  set (v := Z.land (maskp !!! S k) (2 ^ csz - 1)).
  destruct (IH ltac:(lia) 32 (V * 2 ^ 32 + v) ltac:(lia)) as (rest & E & Hr & Ht). clear IH.
  destruct (lookup_lt_is_Some_2 maskp k ltac:(lia)) as [w Hw]. rewrite (list_lookup_total_correct _ _ _ Hw) in E.
  assert (Uw : is_u32 w) by (by eapply words_ok_lookup). change (2 ^ 32 - 1) with (Z.ones 32) in E.
  rewrite Z.land_ones, Z.mod_small in E by (unfold is_u32, U32_MOD in Uw; lia).
  exists (w * 2 ^ (32 * Z.of_nat k) + rest). replace (32 * Z.of_nat (S k)) with (32 + 32 * Z.of_nat k) by lia.
  assert (Hp : 0 < 2 ^ (32 * Z.of_nat k)) by (apply Z.pow_pos_nonneg; lia). unfold is_u32, U32_MOD in Uw.
  split; [etransitivity; [exact E|]; fold v; rewrite Z.pow_add_r by lia; lia|].
  split; [rewrite Z.pow_add_r by lia; nia|]. intros i Hi. destruct (Z.lt_ge_cases i (32 * Z.of_nat k)) as [Hlt|Hge].
  - rewrite <- Ht by lia. rewrite <- (Z.mod_pow2_bits_low (w * _ + rest) (32 * Z.of_nat k)) by lia.
    rewrite Z.add_comm, Z.mod_add, Z.mod_small by lia. done.
  - replace i with (i - 32 * Z.of_nat k + 32 * Z.of_nat k) at 1 by lia. rewrite <- Z.shiftr_spec, Z.shiftr_div_pow2 by lia.
    rewrite Z.div_add_l, Z.div_small, Z.add_0_r by lia.
    rewrite <- (btest_word maskp (Z.of_nat k) w (i - 32 * Z.of_nat k)) by (rewrite ?Nat2Z.id; done || lia). f_equal. lia.
Qed.

Lemma chunks_ok maskp k csz : words_ok maskp -> (k < List.length maskp)%nat -> 1 <= csz <= 32 ->
  Forall (fun x => 0 <= x.1 <= 8 /\ is_u32 x.2) (chunks maskp k csz).
Proof.
  intros Hok. revert csz. induction k as [|k IH]; intros csz Hk Hcsz.
  all: assert (Hhead : forall n, (n < List.length maskp)%nat -> 0 <= (csz + 3) / 4 <= 8 /\ is_u32 (Z.land (maskp !!! n) (2 ^ csz - 1))).
  1,3: intros n Hn; destruct (lookup_lt_is_Some_2 maskp n Hn) as [w Hw]; rewrite (list_lookup_total_correct _ _ _ Hw);
    split; [clear -Hcsz; div_lia|]; apply is_u32_land_l; [by eapply words_ok_lookup|];
    pose proof (Z.pow_pos_nonneg 2 csz); lia.
  - constructor; [by apply Hhead|constructor].
  - constructor; [by apply Hhead|]. apply IH; lia.
Qed.

(** The text of a bitmap is a list of chunks that stand for its bits. *)
Lemma mask_text_chunks maskp bits : words_ok maskp -> 0 < bits <= nbits maskp ->
  exists cs, mask_text maskp bits = chunks_text false cs /\ cs <> [] /\ Forall chunk_ok cs /\ fits bits 0 cs = true /\
    forall i, 0 <= i < bits -> Z.testbit (chunks_value 0 cs) i = btest maskp i.
Proof.
  intros Hok Hb. set (k := Z.to_nat (BITS_TO_LONGS bits - 1)).
  assert (Hk : (k < List.length maskp)%nat /\ bits = 32 * Z.of_nat k + top_size bits /\ 1 <= top_size bits <= 32).
  { unfold k, top_size, BITS_TO_LONGS, BITS_PER_LONG, nbits in *. destruct (Z.eqb_spec (bits mod 32) 0); clear -Hb e || clear -Hb n; div_lia. }
  destruct Hk as (Hk & Ebits & Htop). pose proof (chunks_ok maskp k (top_size bits) Hok Hk Htop) as Hf.
  destruct (words_chunks _ Hf) as (cs & E & Hcs & Hval). exists cs. unfold mask_text. fold k. split; [done|].
  assert (Hne : cs <> []) by (intros ->; destruct k; done). split; [done|]. split; [done|].
  destruct (chunks_bits maskp k Hok Hk (top_size bits) 0 Htop) as (rest & Ev & Hr & Ht).
  rewrite <- Hval, <- chunks_value_fmap, Z.mul_0_l, Z.add_0_l in Ev.
  destruct (lookup_lt_is_Some_2 maskp k Hk) as [w Hw]. rewrite (list_lookup_total_correct _ _ _ Hw) in Ev.
  assert (Epow : 2 ^ top_size bits - 1 = Z.ones (top_size bits)) by (rewrite Z.ones_equiv; lia).
  rewrite Epow, Z.land_ones in Ev by lia. set (v := w mod 2 ^ top_size bits) in *.
  assert (Hv : 0 <= v < 2 ^ top_size bits) by (apply Z.mod_pos_bound, Z.pow_pos_nonneg; lia).
  assert (Hp : 0 < 2 ^ (32 * Z.of_nat k)) by (apply Z.pow_pos_nonneg; lia). split.
  - unfold fits. apply andb_true_intro. split.
    + rewrite forallb_forall. intros ds Hin. apply Z.ltb_lt. apply list_elem_of_In in Hin.
      assert (Hin' : chunk_value ds ∈ snd <$> chunks maskp k (top_size bits)) by (rewrite <- Hval; by apply list_elem_of_fmap_2).
      apply list_elem_of_fmap in Hin' as (x & -> & Hx). rewrite Forall_forall in Hf. specialize (Hf x).
      destruct Hf as [_ Hu]; [by apply list_elem_of_In || done|]. unfold is_u32, U32_MOD in Hu. lia.
    + apply Z.ltb_lt. rewrite Ev, Ebits at 1. rewrite (Z.add_comm (32 * _)), Z.pow_add_r by lia. nia.
  - intros i Hi. rewrite Ev. destruct (Z.lt_ge_cases i (32 * Z.of_nat k)) as [Hlt|Hge].
    + rewrite <- Ht by lia. rewrite <- (Z.mod_pow2_bits_low (v * _ + rest) (32 * Z.of_nat k)) by lia.
      rewrite Z.add_comm, Z.mod_add, Z.mod_small by lia. done.
    + replace i with (i - 32 * Z.of_nat k + 32 * Z.of_nat k) at 1 by lia. rewrite <- Z.shiftr_spec, Z.shiftr_div_pow2 by lia.
      rewrite Z.div_add_l, Z.div_small, Z.add_0_r by lia. unfold v. rewrite Z.mod_pow2_bits_low by lia.
      rewrite <- (btest_word maskp (Z.of_nat k) w (i - 32 * Z.of_nat k)) by (rewrite ?Nat2Z.id; done || lia). f_equal. lia.
Qed.

Lemma ranges_nonempty rs : rs <> [] -> ranges_text true rs <> [].
Proof.
  destruct rs as [|r rs]; [done|]. intros _ E. apply (f_equal List.length) in E. cbn [ranges_text app List.length] in E. rewrite length_app in E.
  unfold range_text in E. pose proof (decimal_size r.1). destruct (r.1 =? r.2); rewrite ?length_app in E; cbn [List.length] in E; lia.
Qed.

(** ** Theorems *)

(** C29: bitmap_parselist.  For every list of numbers and ranges, written in decimal with commas
    between them and ended by a newline or a NUL: the bits of the ranges are set and the call
    returns 0, or the first range that is turned around (-EINVAL) or too large for
    the bitmap (-ERANGE) ends it.  The numbers count modulo 2^32, though: 4294967296
    is bit 0, and not too large.  Anything that does not start with a digit is -EINVAL. *)
Theorem bitmap_parselist_correct rs rest maskp bits :
  rs <> [] -> Forall (fun r => is_u64 r.1 /\ is_u64 r.2) rs -> rest = [] \/ char0 rest = 10 \/ char0 rest = 0 ->
  words_ok maskp -> 0 < bits <= nbits maskp -> bits <= INT_MAX ->
  (exists d, bitmap_parselist (items_text rs ++ rest) maskp bits = Some (items_result bits rs, d) /\ words_ok d /\
     List.length d = List.length maskp /\ forall i, 0 <= i < bits -> btest d i = items_bits bits rs i) /\
  (exists d, bitmap_parselist (udecimal (2 ^ 32)) maskp bits = Some (0, d) /\ btest d 0 = true) /\
  (forall bp, isdigit (char0 bp) = false -> exists d, bitmap_parselist bp maskp bits = Some (- EINVAL, d)).
Proof.
  intros Hne Hf Hr Hok Hb Hmax. split; [by apply bitmap_parselist_spec|]. split.
  - destruct (bitmap_parselist_spec [(2 ^ 32, 2 ^ 32)] [] maskp bits) as (d & E & _ & _ & Hd); try done; [by repeat constructor|by left|].
    specialize (Hd 0 ltac:(lia)). cbn [items_bits items_result fst snd] in E, Hd. change (u32 (2 ^ 32)) with 0 in *.
    change (0 <? 0) with false in *. cbn [orb] in Hd. rewrite (proj2 (Z.leb_gt bits 0)) in E, Hd by lia.
    exists d. split; [|done]. etransitivity; [|exact E]. by f_equal.
  - intros bp Hbp. unfold bitmap_parselist. destruct (bitmap_zero_spec maskp bits Hok Hb) as (z & -> & _). cbn [mbind option_bind].
    rewrite loop_S. unfold parselist_body at 1. rewrite Hbp. by exists z.
Qed.

Lemma bitmap_parselist_witness : exists d,
  bitmap_parselist (txt "5,1-3" ++ [10]) [9; 9] 40 = Some (0, d) /\ btest d 2 = true /\ btest d 4 = false.
Proof.
  destruct (bitmap_parselist_correct [(5, 5); (1, 3)] [10] [9; 9] 40) as [(d & E & _ & _ & H) _];
    [done|repeat constructor; by_eval|by right; left|by repeat constructor|by_eval|by_eval|].
  exists d. rewrite !H by lia. split; [|split; reflexivity].
  replace (txt "5,1-3" ++ [10]) with (items_text [(5, 5); (1, 3)] ++ [10]) by (by vm_compute). exact E.
Defined.

(** C27: Bitmaps are read back from their text.  In a buffer of any size that is
    not empty, bitmap_scnprintf stores the hexadecimal text (words from the highest on, each with its zeros), cut to fit, with a NUL, and
    returns the number of its characters that are there; reading the text sets the same
    bits.  bitmap_scnlistprintf stores in the same way the text of the maximal runs of set bits in order, which
    bitmap_parselist takes back; for the empty bitmap, it leaves the buffer without even a
    NUL, and its text, nothing, is refused.  With a buffer of size 0 and a
    bitmap of more than one word, bitmap_scnprintf writes in front of the buffer. *)
Theorem bitmap_text_roundtrip lit b mem buflen maskp bits dst :
  PAGE_SIZE <= lit < 2 ^ 32 -> 0 < b -> 2 <= buflen <= INT_MAX -> buflen <= Z.of_nat (List.length mem) ->
  b + buflen + 256 <= 2 ^ 32 -> words_ok maskp -> words_ok dst ->
  0 < bits <= nbits maskp -> bits <= nbits dst -> bits <= INT_MAX - 31 -> nbits maskp + 32 <= UINT_MAX ->
  (let t := mask_text maskp bits in
   exists d, bitmap_scnprintf lit b mem buflen maskp bits =
       Some (Z.min (Z.of_nat (List.length t)) (buflen - 1), placed buflen t mem) /\
     bitmap_parse (user t) (Z.of_nat (List.length t)) dst bits = Some (0, d) /\
     forall i, 0 <= i < bits -> btest d i = btest maskp i) /\
  ((exists i, 0 <= i < bits /\ btest maskp i = true) ->
   exists rs d, runs (btest maskp) bits 0 rs /\
     bitmap_scnlistprintf b mem buflen maskp bits =
       Some (Z.min (Z.of_nat (List.length (ranges_text true rs))) (buflen - 1), placed buflen (ranges_text true rs) mem) /\
     bitmap_parselist (ranges_text true rs) dst bits = Some (0, d) /\
     forall i, 0 <= i < bits -> btest d i = btest maskp i) /\
  ((forall i, 0 <= i < bits -> btest maskp i = false) ->
   bitmap_scnlistprintf b mem buflen maskp bits = Some (0, mem) /\
   exists d, bitmap_parselist [] dst bits = Some (- EINVAL, d)) /\
  bitmap_scnprintf 5000 0x80000000 [] 0 [0; 1] 33 = None.
Proof.
  intros Hlit Hb Hlen Hmem Hfit Hok Hd Hbits Hbd Hmax Hw. split; [|split; [|split]].
  - rewrite bitmap_scnprintf_spec by (done || lia).
    destruct (mask_text_chunks maskp bits Hok Hbits) as (cs & E & Hne & Hcs & Hfits & Hv).
    destruct (bitmap_parse_spec false [] cs [] dst bits) as (e & d & Ed & _ & _ & H); try done; [by exists [], []; auto|lia|].
    rewrite Hfits in H. destruct H as [-> H]. cbv zeta. exists d. rewrite E.
    rewrite app_nil_r in Ed. simpl app in Ed. unfold user in Ed at 2. rewrite length_fmap in Ed. split; [|split; [done|]].
    + do 2 f_equal. unfold printed. destruct cs as [|ds cs]; [done|]. inversion Hcs as [|? ? [Hn _] _]. by destruct ds.
    + intros i Hi. rewrite H by done. by apply Hv.
  - intros (i0 & Hi0 & Hset).
    destruct (bitmap_scnlistprintf_spec b buflen mem maskp bits Hb Hlen Hmem Hfit Hok ltac:(lia) ltac:(lia) Hw) as (rs & Hrs & E).
    pose proof (runs_ranges _ _ _ 0 ltac:(lia) Hrs) as Hranges.
    assert (Hne : rs <> []) by (intros ->; simpl in Hrs; rewrite Hrs in Hset; done).
    assert (Heq : ranges_text true rs = items_text rs) by (apply ranges_items; revert Hranges; apply Forall_impl; lia).
    destruct (bitmap_parselist_spec rs [] dst bits) as (d & Ed & _ & _ & H); try done; [|by left|lia|lia|].
    { revert Hranges. apply Forall_impl. intros r Hr. unfold is_u64, U64_MOD. width_lia. }
    destruct (items_fit bits rs ltac:(lia) Hranges) as [Hres Hitems]. rewrite Hres, app_nil_r, <- Heq in Ed.
    exists rs, d. split; [done|]. split; [|split; [done|]].
    + rewrite E. do 2 f_equal. pose proof (ranges_nonempty rs Hne). unfold printed. by destruct (ranges_text true rs).
    + intros i Hi. rewrite H, Hitems by done. symmetry. by apply (runs_bits _ bits rs 0).
  - intros Hempty.
    destruct (bitmap_scnlistprintf_spec b buflen mem maskp bits Hb Hlen Hmem Hfit Hok ltac:(lia) ltac:(lia) Hw) as (rs & Hrs & E).
    destruct rs as [|[x y] rs].
    + split; [rewrite E; unfold stored; simpl; do 2 f_equal; lia|]. unfold bitmap_parselist.
      destruct (bitmap_zero_spec dst bits Hd ltac:(lia)) as (z & -> & _). by exists z.
    + exfalso. simpl in Hrs. destruct Hrs as (H1 & H2 & _ & H4 & _). specialize (H4 x ltac:(lia)). rewrite Hempty in H4 by lia. done.
  - by vm_compute.
Qed.

Lemma bitmap_text_witness : exists t d,
  bitmap_scnprintf 5000 0x80000000 (replicate 12 7) 8 [0xdeadbeef; 5] 40 =
    Some (Z.min (Z.of_nat (List.length t)) 7, placed 8 t (replicate 12 7)) /\
  bitmap_parse (user t) (Z.of_nat (List.length t)) [9; 9] 40 = Some (0, d) /\ btest d 34 = true /\ btest d 35 = false.
Proof.
  destruct (bitmap_text_roundtrip 5000 0x80000000 (replicate 12 7) 8 [0xdeadbeef; 5] 40 [9; 9]) as [(d & E1 & E2 & H) _];
    [by_eval..|by repeat constructor|by repeat constructor|by_eval|by_eval|by_eval|by_eval|].
  exists (mask_text [0xdeadbeef; 5] 40), d. rewrite !H by lia. split; [exact E1|]. split; [exact E2|]. split; reflexivity.
Defined.
