(* ===== verification/BitmapScan.v ===== *)
(** bitmap_parse on every text: what it accepts, which number it stores and which error it
    returns, against a definition that splits the text at the commas. *)
From stdpp Require Import base list gmap option numbers.
From Stdlib Require Import ZArith Lia Ascii String.
From S2P Require Import Prelude Div64 Ctype Vsprintf VsprintfText NumberRead Bitops Bitmap BitmapText BitmapPrint BitmapParse BitmapHex.

Local Open Scope Z_scope.

(** ** The text format *)

(** The value of a hexadecimal digit. *)
Definition hex_of (c : Z) : option Z :=
  if (48 <=? c) && (c <=? 57) then Some (c - 48)
  else if (97 <=? c) && (c <=? 102) then Some (c - 87)
  else if (65 <=? c) && (c <=? 70) then Some (c - 55)
  else None.

(** A group of digits: its value, or the error at the first bad digit or at the first digit that makes it
    longer than 32 bits. *)
Fixpoint field_value (acc : Z) (f : list Z) : Z + Z :=
  match f with
  | [] => inr acc
  | c :: f =>
      match hex_of c with
      | None => inl (- EINVAL)
      | Some d => if acc <? 2 ^ 28 then field_value (acc * 16 + d) f else inl (- EOVERFLOW)
      end
  end.

(** The groups, each of them 32 bits of the number; none of them is empty and the number fits the bitmap. *)
Fixpoint fields_value (bits V : Z) (fs : list (list Z)) : Z + Z :=
  match fs with
  | [] => inr V
  | f :: fs =>
      match f with
      | [] => inl (- EINVAL)
      | _ =>
          match field_value 0 f with
          | inl e => inl e
          | inr c => if V * 2 ^ 32 + c <? 2 ^ bits then fields_value bits (V * 2 ^ 32 + c) fs else inl (- EOVERFLOW)
          end
      end
  end.

(** How the text ends: with a NUL or the end of the buffer; with a comma that is the last character
    of the buffer, behind which nothing is expected; or with a fault in the last group. *)
Inductive ending := Complete | Comma | Fault.

Definition ended_value (k : ending) (bits V : Z) (fs : list (list Z)) : Z + Z :=
  match k with
  | Complete => fields_value bits V fs
  | Comma => fields_value bits V (removelast fs)
  | Fault =>
      match fields_value bits V (removelast fs) with
      | inl e => inl e
      | inr _ => match field_value 0 (List.last fs []) with inl e => inl e | inr _ => inl (- EFAULT) end
      end
  end.

Fixpoint split_commas (t : list Z) : list (list Z) :=
  match t with
  | [] => [[]]
  | c :: t =>
      if c =? 44 then [] :: split_commas t
      else match split_commas t with f :: fs => (c :: f) :: fs | [] => [[c]] end
  end.

Fixpoint skip_blanks (t : list Z) : list Z :=
  match t with [] => [] | c :: t' => if isspace c then skip_blanks t' else t end.
Definition trim (t : list Z) : list Z := rev (skip_blanks (rev (skip_blanks t))).

Fixpoint until_nul (t : list Z) : list Z :=
  match t with [] => [] | c :: t => if c =? 0 then [] else c :: until_nul t end.

(** The first [n] characters of the user's buffer, as far as they can be read. *)
Fixpoint readable (n : nat) (buf : list (option Z)) : list Z :=
  match n, buf with
  | S n, Some c :: buf => c :: readable n buf
  | _, _ => []
  end.

Definition ending_of (n : nat) (t : list Z) : ending :=
  if existsb (fun c => c =? 0) t then Complete
  else if (List.length t <? n)%nat then Fault
  else if List.last t 0 =? 44 then Comma
  else Complete.

(** The number that a buffer of [n] characters stands for, or the error. *)
Definition text_value (bits : Z) (buf : list (option Z)) (n : nat) : Z + Z :=
  let t := readable n buf in
  ended_value (ending_of n t) bits 0 (split_commas (trim (until_nul t))).

(** ** Characters *)

Lemma byte_class c : is_u8 c ->
  (s8 c =? 0) = (c =? 0) /\ (s8 c =? 44) = (c =? 44) /\ isspace (s8 c) = isspace c /\
  match hex_of c with
  | Some d => isxdigit (s8 c) = true /\ unhex (s8 c) = d /\ 0 <= d < 16
  | None => isxdigit (s8 c) = false
  end.
Proof.
  intros Hc. assert (H : forallb (fun c => Bool.eqb (s8 c =? 0) (c =? 0) && Bool.eqb (s8 c =? 44) (c =? 44) &&
    match hex_of c with
    | Some d => isxdigit (s8 c) && (unhex (s8 c) =? d) && (0 <=? d) && (d <? 16)
    | None => negb (isxdigit (s8 c)) end) (seqZ 0 256) = true) by (by vm_compute).
  pose proof (for_chars _ H c Hc) as Hcase. cbv beta in Hcase.
  apply andb_prop in Hcase as [Hcase Hx]. apply andb_prop in Hcase as [H0 H44].
  split_and!; [by apply Bool.eqb_prop|by apply Bool.eqb_prop|apply isspace_s8|].
  destruct (hex_of c); [|by apply negb_true_iff].
  apply andb_prop in Hx as [Hx Hd]. apply andb_prop in Hx as [Hx Hd']. apply andb_prop in Hx as [Hx Hv]. split; [done|lia].
Qed.

Lemma hex_not_space c d : is_u8 c -> hex_of c = Some d -> isspace c = false.
Proof.
  intros Hc Hd. rewrite isspace_spec by done. unfold hex_of in Hd. revert Hd. repeat case_match; intros; simplify_eq; lia.
Qed.

(** ** One group *)

(** A turn over a character of a group. *)
Lemma scan_step w l m c acc n t : is_u8 w -> w <> 0 -> w <> 44 -> is_u32 acc ->
  chunk_body (Reader (Some w :: l) (Z.of_nat (S m)) c acc n t) =
    if isspace w then inl (Reader l (Z.of_nat m) (s8 w) acc n t)
    else if negb (t =? 0) && isspace c then inr (inl (- EINVAL))
    else match hex_of w with
         | None => inr (inl (- EINVAL))
         | Some d => if acc <? 2 ^ 28 then inl (Reader l (Z.of_nat m) (s8 w) (acc * 16 + d) (n + 1) (t + 1))
                     else inr (inl (- EOVERFLOW))
         end.
Proof.
  intros Hw H0 H44 Hacc. destruct (byte_class w Hw) as (E0 & E44 & Esp & Ex).
  unfold chunk_body. cbn [ubuflen ubuf cur chunk ndigits totaldigits].
  rewrite (proj2 (Z.eqb_neq (Z.of_nat (S m)) 0)) by lia. replace (Z.of_nat (S m) - 1) with (Z.of_nat m) by lia.
  rewrite Esp. destruct (isspace w); [done|]. change (chr ",") with 44.
  rewrite E0, E44, (proj2 (Z.eqb_neq w 0) H0), (proj2 (Z.eqb_neq w 44) H44). cbn [negb orb]. rewrite andb_true_r.
  destruct (negb (t =? 0) && isspace c); [done|]. destruct (hex_of w) as [d|]; [|by rewrite Ex].
  destruct Ex as (-> & -> & Hd). cbn [negb]. rewrite chunk_full by done. unfold is_u32 in Hacc.
  destruct (Z.ltb_spec acc (2 ^ 28)); cbn [negb]; [|done]. by rewrite lor_digit by lia.
Qed.

Definition blank (ws : list Z) : Prop := Forall (fun c => isspace c = true) ws.

Lemma scan_blanks ws : blank ws -> forall fuel l m c acc n t, (List.length ws <= fuel)%nat ->
  exists c', loop fuel chunk_body (Reader (user ws ++ l) (Z.of_nat (List.length ws + m)) c acc n t) =
    loop (fuel - List.length ws) chunk_body (Reader l (Z.of_nat m) c' acc n t) /\
    (ws = [] -> c' = c) /\ (ws <> [] -> isspace c' = true).
Proof.
  induction 1 as [|w ws Hw Hf IH]; intros fuel l m c acc n t Hfuel.
  { exists c. rewrite Nat.sub_0_r. done. }
  destruct fuel as [|fuel]; [simpl in Hfuel; lia|]. rewrite loop_S. unfold chunk_body at 1.
  cbn [ubuflen ubuf cur chunk ndigits totaldigits List.length Nat.add].
  rewrite (proj2 (Z.eqb_neq (Z.of_nat (S (List.length ws + m))) 0)) by lia.
  change (user (w :: ws) ++ l) with (Some w :: (user ws ++ l)). cbv iota beta. rewrite isspace_s8, Hw.
  destruct (IH fuel l m (s8 w) acc n t) as (c' & E & H1 & H2); [simpl in Hfuel; lia|]. exists c'. split_and!; [|done|].
  - etransitivity; [|exact E]. do 2 f_equal. lia.
  - intros _. destruct ws; [rewrite H1 by done; by rewrite isspace_s8|by apply H2].
Qed.

(** White space that is followed by something else than the end. *)
Definition embedded (l : list (option Z)) (m : nat) : Prop :=
  exists ws x s, l = user ws ++ Some x :: s /\ blank ws /\ is_u8 x /\ isspace x = false /\ x <> 0 /\ (List.length ws < m)%nat.

Lemma scan_embedded fuel l m c acc n t : embedded l m -> isspace c = true -> t <> 0 -> (m < fuel)%nat ->
  loop fuel chunk_body (Reader l (Z.of_nat m) c acc n t) = Some (inl (- EINVAL)).
Proof.
  intros (ws & x & s & -> & Hws & Hx8 & Hx & Hx0 & Hlt) Hc Ht Hf.
  destruct (scan_blanks ws Hws fuel (Some x :: s) (m - List.length ws) c acc n t) as (c' & E & H1 & H2); [lia|].
  replace (List.length ws + (m - List.length ws))%nat with m in E by lia. rewrite E.
  assert (Hc' : isspace c' = true) by (destruct ws; [by rewrite H1|by apply H2]).
  destruct (byte_class x Hx8) as (E0 & _ & Esp & _).
  destruct (fuel - List.length ws)%nat as [|f] eqn:Ef; [lia|]. rewrite loop_S. unfold chunk_body at 1.
  cbn [ubuflen ubuf cur chunk ndigits totaldigits]. rewrite (proj2 (Z.eqb_neq _ 0)) by lia.
  by rewrite Esp, Hx, E0, (proj2 (Z.eqb_neq x 0) Hx0), (proj2 (Z.eqb_neq t 0) Ht), Hc'.
Qed.

(** A group [f] before [stop], with [m] characters left behind it. *)
Definition plain (f : list Z) : Prop := Forall (fun c => is_u8 c /\ c <> 0 /\ c <> 44) f.
Definition no_end_blank (f : list Z) (stop : list (option Z)) (m : nat) : Prop :=
  forall f1 c f2, f = f1 ++ c :: f2 -> isspace c = true -> embedded (user f2 ++ stop) (List.length f2 + m).

Lemma no_end_blank_cons c f stop m : no_end_blank (c :: f) stop m -> no_end_blank f stop m.
Proof. intros H f1 c0 f2 ->. by apply (H (c :: f1)). Qed.

Lemma field_loop f : plain f -> forall stop m fuel acc n t c,
  no_end_blank f stop m -> is_u32 acc -> 0 <= t ->
  (t = 0 -> forall w, head f = Some w -> isspace w = false) -> t = 0 \/ isspace c = false ->
  (List.length f + m < fuel)%nat ->
  let o := loop fuel chunk_body (Reader (user f ++ stop) (Z.of_nat (List.length f + m)) c acc n t) in
  match field_value acc f with
  | inl e => o = Some (inl e)
  | inr v => is_u32 v /\ exists c', o = loop (fuel - List.length f) chunk_body
        (Reader stop (Z.of_nat m) c' v (n + Z.of_nat (List.length f)) (t + Z.of_nat (List.length f))) /\
      (f = [] -> c' = c) /\ (f <> [] -> isspace c' = false)
  end.
Proof.
  induction 1 as [|w f (Hw & H0 & H44) Hf IH]; intros stop m fuel acc n t c Hne Hacc Ht Hhd Hc Hfuel; cbv zeta.
  { simpl. split; [done|]. exists c. rewrite Nat.sub_0_r, !Z.add_0_r. done. }
  destruct fuel as [|fuel]; [simpl in Hfuel; lia|]. rewrite loop_S.
  change (user (w :: f) ++ stop) with (Some w :: (user f ++ stop)). cbn [List.length Nat.add field_value].
  rewrite scan_step by done. destruct (isspace w) eqn:Esp.
  { assert (Ht0 : t <> 0) by (intros ->; specialize (Hhd eq_refl w eq_refl); congruence).
    destruct (hex_of w) as [d|] eqn:Ed; [by rewrite (hex_not_space w d Hw Ed) in Esp|].
    apply scan_embedded; [by apply (Hne [] w f)|by rewrite isspace_s8|done|simpl in Hfuel; lia]. }
  assert (Hsp : negb (t =? 0) && isspace c = false) by (destruct Hc as [-> | ->]; [done|by rewrite andb_false_r]).
  rewrite Hsp. destruct (hex_of w) as [d|] eqn:Ed; [|done]. destruct (byte_class w Hw) as (_ & _ & Es & Hd).
  rewrite Ed in Hd. destruct Hd as (_ & _ & Hd).
  destruct (Z.ltb_spec acc (2 ^ 28)) as [Hlt|]; [|done]. unfold is_u32, U32_MOD in Hacc.
  specialize (IH stop m fuel (acc * 16 + d) (n + 1) (t + 1) (s8 w) (no_end_blank_cons _ _ _ _ Hne)). cbv zeta in IH.
  assert (Hacc' : is_u32 (acc * 16 + d)) by (unfold is_u32, U32_MOD; change (2 ^ 32) with (16 * 2 ^ 28); lia).
  specialize (IH Hacc' ltac:(lia) ltac:(lia) ltac:(right; by rewrite Es) ltac:(simpl in Hfuel; lia)).
  destruct (field_value (acc * 16 + d) f) as [e|v]; [exact IH|]. destruct IH as (Hv & c' & E & H1 & H2).
  split; [done|]. exists c'. split_and!; [|done|].
  - etransitivity; [exact E|]. f_equal. f_equal; lia.
  - intros _. destruct f; [rewrite H1 by done; by rewrite Es|by apply H2].
Qed.

(** ** The end of a group *)

Lemma scan_comma fuel rest m c acc n t : t = 0 \/ isspace c = false -> (0 < fuel)%nat ->
  loop fuel chunk_body (Reader (Some 44 :: rest) (Z.of_nat (S m)) c acc n t) =
    Some (inr (Reader rest (Z.of_nat m) 44 acc n t)).
Proof.
  intros Hc Hf. destruct fuel as [|fuel]; [lia|]. rewrite loop_S. unfold chunk_body at 1.
  cbn [ubuflen ubuf cur chunk ndigits totaldigits]. rewrite (proj2 (Z.eqb_neq (Z.of_nat (S m)) 0)) by lia.
  change (s8 44) with 44. change (isspace 44) with false. change (44 =? chr ",") with true. change (negb (44 =? 0)) with true.
  rewrite andb_true_r, orb_true_r. replace (Z.of_nat (S m) - 1) with (Z.of_nat m) by lia.
  by replace (negb (t =? 0) && isspace c) with false by (destruct Hc as [-> | ->]; [done|by rewrite andb_false_r]).
Qed.

(** What is behind the last group and white space: the end of the buffer, a NUL, or a fault. *)
Definition closing (k : ending) (z : list (option Z)) (m : nat) : Prop :=
  match k with
  | Fault => (0 < m)%nat /\ (z = [] \/ head z = Some None)
  | _ => m = 0%nat \/ (0 < m)%nat /\ head z = Some (Some 0)
  end.

Lemma scan_nul fuel z m c acc n t : loop (S fuel) chunk_body (Reader (Some 0 :: z) (Z.of_nat (S m)) c acc n t) =
  Some (inr (Reader z (Z.of_nat m) 0 acc n t)).
Proof.
  rewrite loop_S. unfold chunk_body at 1. cbn [ubuflen ubuf cur chunk ndigits totaldigits].
  rewrite (proj2 (Z.eqb_neq (Z.of_nat (S m)) 0)) by lia. change (s8 0) with 0. change (isspace 0) with false.
  change (negb (0 =? 0)) with false. rewrite andb_false_r. change ((0 =? 0) || (0 =? chr ",")) with true.
  by replace (Z.of_nat (S m) - 1) with (Z.of_nat m) by lia.
Qed.

Lemma scan_fault fuel z m c acc n t : z = [] \/ head z = Some None ->
  loop (S fuel) chunk_body (Reader z (Z.of_nat (S m)) c acc n t) = Some (inl (- EFAULT)).
Proof.
  intros Hz. rewrite loop_S. unfold chunk_body at 1. cbn [ubuflen ubuf].
  rewrite (proj2 (Z.eqb_neq (Z.of_nat (S m)) 0)) by lia. destruct z as [|[x|] z]; [done| |done]. by destruct Hz.
Qed.

Lemma scan_close k fuel ws z m c acc n t : blank ws -> closing k z m -> (List.length ws + m < fuel)%nat ->
  let o := loop fuel chunk_body (Reader (user ws ++ z) (Z.of_nat (List.length ws + m)) c acc n t) in
  match k with
  | Fault => o = Some (inl (- EFAULT))
  | _ => exists r, o = Some (inr r) /\ chunk r = acc /\ ndigits r = n /\ (ubuflen r = 0 \/ cur r = 0)
  end.
Proof.
  intros Hws Hz Hf. cbv zeta. destruct (scan_blanks ws Hws fuel z m c acc n t) as (c' & -> & _); [lia|].
  destruct (fuel - List.length ws)%nat as [|f] eqn:Ef; [lia|].
  assert (Hend : m = 0%nat \/ (0 < m)%nat /\ head z = Some (Some 0) -> exists r,
    loop (S f) chunk_body (Reader z (Z.of_nat m) c' acc n t) = Some (inr r) /\ chunk r = acc /\ ndigits r = n /\
    (ubuflen r = 0 \/ cur r = 0)).
  { intros [->|[Hm Hh]]; [eexists; split_and!; [reflexivity|done|done|by left]|]. destruct m as [|m]; [lia|].
    destruct z as [|x z]; [done|]. simpl in Hh. injection Hh as ->. rewrite scan_nul.
    eexists. split_and!; [reflexivity|done|done|by right]. }
  destruct k; simpl in Hz; [by apply Hend|by apply Hend|]. destruct Hz as [Hm Hz]. destruct m as [|m]; [lia|].
  by apply scan_fault.
Qed.

(** ** The number *)

(** parse_body behind the inner loop. *)
Definition after_chunk (bits : Z) (r : reader) (maskp : list Z) (nchunks nb : Z)
    : (reader * list Z * Z * Z) + option (Z * list Z) :=
  let again r maskp nchunks nbits :=
    if negb (ubuflen r =? 0) && (cur r =? chr ",") then inl (r, maskp, nchunks, nbits) else inr (Some (0, maskp)) in
  if ndigits r =? 0 then inr (Some (- EINVAL, maskp))
  else if (nchunks =? 0) && (chunk r =? 0) then again r maskp nchunks nb
  else
    match (maskp ← __bitmap_shift_left maskp None CHUNKSZ bits;
           w ← array_get maskp 0;
           array_set maskp 0 (Z.lor w (chunk r))) with
    | None => inr None
    | Some maskp =>
        let nchunks := nchunks + 1 in
        let nbits := nb + (if nchunks =? 1 then nbits_to_hold_value (chunk r) else CHUNKSZ) in
        if bits <? nbits then inr (Some (- EOVERFLOW, maskp))
        else again r maskp nchunks nbits
    end.

(** The mask holds the number [V] that was read so far. *)
Definition state_ok (bits : Z) (len : nat) (maskp : list Z) (nchunks nb V : Z) : Prop :=
  words_ok maskp /\ List.length maskp = len /\ bits <= 32 * Z.of_nat len /\ holds bits maskp V /\ counted nchunks nb V /\
  0 <= V < 2 ^ bits.

Lemma after_chunk_spec bits len r maskp nchunks nb V : 0 < bits ->
  state_ok bits len maskp nchunks nb V -> is_u32 (chunk r) -> ndigits r <> 0 ->
  let V' := V * 2 ^ 32 + chunk r in
  exists d, words_ok d /\ List.length d = len /\
    if V' <? 2 ^ bits then exists n b, state_ok bits len d n b V' /\
      after_chunk bits r maskp nchunks nb =
        if negb (ubuflen r =? 0) && (cur r =? chr ",") then inl (r, d, n, b) else inr (Some (0, d))
    else after_chunk bits r maskp nchunks nb = inr (Some (- EOVERFLOW, d)).
Proof.
  intros Hbits (Hok & Hlen & Hsz & HV & Hn & HV0) Hu Hnd V'. unfold after_chunk. rewrite (proj2 (Z.eqb_neq _ 0) Hnd).
  pose proof Hu as Hu'. unfold is_u32, U32_MOD in Hu'.
  destruct ((nchunks =? 0) && (chunk r =? 0)) eqn:E0.
  - apply andb_prop in E0 as [En Ec]. apply Z.eqb_eq in En, Ec.
    assert (HV1 : V = 0) by (destruct Hn as [(_ & _ & ->)|(? & _)]; lia).
    assert (E : V' = V) by (unfold V'; lia). exists maskp. split_and!; [done|done|]. rewrite E, (proj2 (Z.ltb_lt _ _)) by lia.
    exists nchunks, nb. done.
  - destruct (push_chunk maskp bits V (chunk r) Hok ltac:(unfold nbits; lia) HV Hu) as (d & -> & D1 & D2 & D3).
    destruct (counted_push nchunks nb V (chunk r) Hn Hu E0) as [Hn' HV']. fold V' in D3, Hn', HV'.
    set (nb' := nb + _) in *. pose proof Hn' as [(? & _)|(_ & _ & Enb)]; [destruct Hn as [(? & _)|(? & _)]; lia|].
    exists d. split_and!; [done|congruence|]. pose proof (Z.log2_lt_pow2 V' bits HV') as L1. pose proof (Z.log2_le_pow2 V' bits HV') as L2.
    destruct (Z.ltb_spec V' (2 ^ bits)) as [Hfit|Hover].
    + exists (nchunks + 1), nb'. destruct (Z.ltb_spec bits nb'); [lia|]. split; [|done].
      split_and!; [done|congruence|lia|done|done|lia|lia].
    + destruct (Z.ltb_spec bits nb'); [done|lia].
Qed.

Definition result (bits : Z) (len : nat) (ref : Z + Z) (o : option (option (Z * list Z))) : Prop :=
  exists e d, o = Some (Some (e, d)) /\ words_ok d /\ List.length d = len /\
    match ref with inl err => e = err | inr V => e = 0 /\ holds bits d V /\ 0 <= V < 2 ^ bits end.

Lemma result_ok bits len d V : words_ok d -> List.length d = len -> holds bits d V -> 0 <= V < 2 ^ bits ->
  result bits len (inr V) (Some (Some (0, d))).
Proof. intros H1 H2 H3 H4. exists 0, d. done. Qed.

Lemma result_err bits len d e : words_ok d -> List.length d = len -> result bits len (inl e) (Some (Some (e, d))).
Proof. intros H1 H2. exists e, d. done. Qed.

(** ** All groups *)

Fixpoint join_commas (fs : list (list Z)) : list Z :=
  match fs with
  | [] => []
  | f :: fs => f ++ match fs with [] => [] | _ => 44 :: join_commas fs end
  end.

Lemma embedded_comma f rest m : plain f -> embedded (user f ++ Some 44 :: rest) (List.length f + S m).
Proof.
  induction 1 as [|w f (Hw & H0 & _) Hf (ws & x & s & E & Hws & Hx)].
  { exists [], 44, rest. split_and!; [done|constructor|done|done|done|simpl; lia]. }
  change (user (w :: f) ++ Some 44 :: rest) with (Some w :: (user f ++ Some 44 :: rest)).
  destruct (isspace w) eqn:Ew.
  - exists (w :: ws), x, s. rewrite E. split_and!; [done|by constructor|apply Hx..|]. destruct Hx as (_ & _ & _ & Hx). simpl. lia.
  - exists [], w, (user f ++ Some 44 :: rest). split_and!; [done|constructor|done..|simpl; lia].
Qed.

(** The group ends with a character that is not blank. *)
Definition full_end (f : list Z) : Prop := forall f1 w, f = f1 ++ [w] -> isspace w = false.

Lemma full_end_tail c f : full_end (c :: f) -> full_end f.
Proof. intros H f1 w ->. by apply (H (c :: f1)). Qed.

Lemma embedded_end f stop m : plain f -> f <> [] -> full_end f -> embedded (user f ++ stop) (List.length f + m).
Proof.
  intros Hp Hne. induction Hp as [|w f (Hw & H0 & _) Hf IH]; [done|]. intros Hend.
  change (user (w :: f) ++ stop) with (Some w :: (user f ++ stop)). destruct (isspace w) eqn:Ew.
  - destruct f as [|w2 f]; [rewrite (Hend [] w eq_refl) in Ew; done|].
    destruct (IH ltac:(done) (full_end_tail _ _ Hend)) as (ws & x & s & E & Hws & Hx).
    exists (w :: ws), x, s. rewrite E. split_and!; [done|by constructor|apply Hx..|]. destruct Hx as (_ & _ & _ & Hx). simpl in *. lia.
  - exists [], w, (user f ++ stop). split_and!; [done|constructor|done..|simpl; lia].
Qed.

Lemma plain_suffix f f1 c f2 : plain f -> f = f1 ++ c :: f2 -> plain f2.
Proof. unfold plain. intros H ->. apply Forall_app in H as [_ H]. by inversion H. Qed.

Lemma comma_no_end_blank f rest m : plain f -> no_end_blank f (Some 44 :: rest) (S m).
Proof. intros Hf f1 c f2 E _. apply embedded_comma. by eapply plain_suffix. Qed.

Lemma last_no_end_blank f stop m : plain f -> full_end f -> no_end_blank f stop m.
Proof.
  intros Hf He f1 c f2 E Hc. destruct f2 as [|w f2]; [by rewrite (He f1 c E) in Hc|].
  apply embedded_end; [by eapply plain_suffix|done|]. intros g1 x Hx. apply (He (f1 ++ c :: g1) x).
  rewrite E, Hx. by rewrite <- app_assoc.
Qed.

Section fields.
Context (bits : Z) (len : nat).
Hypothesis Hbits : 0 < bits.

Lemma parse_body_unfold r maskp nchunks nb :
  parse_body bits (r, maskp, nchunks, nb) =
    match loop (S (Z.to_nat (ubuflen r))) chunk_body (Reader (ubuf r) (ubuflen r) (cur r) 0 0 (totaldigits r)) with
    | None => inr None
    | Some (inl e) => inr (Some (e, maskp))
    | Some (inr r) => after_chunk bits r maskp nchunks nb
    end.
Proof. done. Qed.

Lemma ended_cons k V f f2 fs : ended_value k bits V (f :: f2 :: fs) =
  match f with
  | [] => inl (- EINVAL)
  | _ => match field_value 0 f with
         | inl e => inl e
         | inr c => if V * 2 ^ 32 + c <? 2 ^ bits then ended_value k bits (V * 2 ^ 32 + c) (f2 :: fs) else inl (- EOVERFLOW)
         end
  end.
Proof.
  destruct k; cbn [ended_value removelast fields_value List.last]; destruct f; try done;
    destruct (field_value 0 _); try done; by destruct (_ <? _).
Qed.

(** The last group: the end, a NUL or a fault follows. *)
Lemma last_field k f ws z m fuel maskp nchunks nb V c ch nd t :
  plain f -> full_end f -> blank ws -> closing k z m -> k <> Comma ->
  0 <= t -> (t = 0 -> forall w, head f = Some w -> isspace w = false) -> t = 0 \/ isspace c = false ->
  state_ok bits len maskp nchunks nb V ->
  result bits len (ended_value k bits V [f])
    (loop (S fuel) (parse_body bits)
       (Reader (user f ++ user ws ++ z) (Z.of_nat (List.length f + (List.length ws + m))) c ch nd t, maskp, nchunks, nb)).
Proof using Hbits.
  intros Hf Hend Hws Hz Hk Ht Hhd Hc Hst. pose proof Hst as (Hok & Hlen & _). rewrite loop_S, parse_body_unfold.
  cbn [ubuf ubuflen cur totaldigits]. rewrite Nat2Z.id. set (M := (List.length f + (List.length ws + m))%nat).
  pose proof (field_loop f Hf (user ws ++ z) (List.length ws + m) (S M) 0 0 t c
    (last_no_end_blank _ _ _ Hf Hend) ltac:(done) Ht Hhd Hc ltac:(unfold M; lia)) as Hloop. cbv zeta in Hloop. fold M in Hloop.
  assert (Herr : forall e, k = Complete -> f <> [] -> field_value 0 f = inl e -> result bits len (ended_value k bits V [f]) (Some (Some (e, maskp)))).
  { intros e -> Hne E. exists e, maskp. split_and!; [done..|]. cbn [ended_value fields_value]. rewrite E. by destruct f. }
  destruct (field_value 0 f) as [e|v] eqn:Ev.
  - rewrite Hloop. destruct k; [|done|].
    + apply Herr; [done| |done]. by intros ->.
    + exists e, maskp. split_and!; [done..|]. cbn [ended_value removelast fields_value List.last]. by rewrite Ev.
  - destruct Hloop as (Hv & c' & -> & _).
    pose proof (scan_close k (S M - List.length f) ws z m c' v (0 + Z.of_nat (List.length f)) (t + Z.of_nat (List.length f)) Hws Hz
      ltac:(unfold M; lia)) as Hcl. cbv zeta in Hcl.
    destruct k; [|done|].
    2:{ rewrite Hcl. exists (- EFAULT), maskp. split_and!; [done..|]. cbn [ended_value removelast fields_value List.last]. by rewrite Ev. }
    destruct Hcl as (r & -> & R1 & R2 & R3). cbn [ended_value fields_value].
    destruct f as [|x f].
    { unfold after_chunk. rewrite R2. by apply result_err. }
    rewrite Ev. destruct (after_chunk_spec bits len r maskp nchunks nb V) as (d & D1 & D2 & D3);
      [done|done|by rewrite R1|rewrite R2; simpl; lia|]. rewrite R1 in D3.
    destruct (V * 2 ^ 32 + v <? 2 ^ bits).
    + destruct D3 as (n' & b' & (_ & _ & _ & S1 & _ & S2) & ->).
      replace (negb (ubuflen r =? 0) && (cur r =? chr ",")) with false by (destruct R3 as [-> | ->]; [done|by rewrite andb_false_r]).
      by apply result_ok.
    + rewrite D3. by apply result_err.
Qed.

(** A group before a comma. *)
Lemma comma_field f l M fuel maskp nchunks nb V c ch nd t (ref : Z -> Z + Z) :
  plain f -> 0 <= t -> (t = 0 -> forall w, head f = Some w -> isspace w = false) -> t = 0 \/ isspace c = false ->
  state_ok bits len maskp nchunks nb V ->
  (forall v d n b t', f <> [] -> V * 2 ^ 32 + v < 2 ^ bits -> state_ok bits len d n b (V * 2 ^ 32 + v) -> 0 < t' ->
     result bits len (ref v)
       (if (0 <? M)%nat then loop fuel (parse_body bits) (Reader l (Z.of_nat M) 44 v (Z.of_nat (List.length f)) t', d, n, b)
        else Some (Some (0, d)))) ->
  result bits len
    match f with
    | [] => inl (- EINVAL)
    | _ => match field_value 0 f with
           | inl e => inl e
           | inr v => if V * 2 ^ 32 + v <? 2 ^ bits then ref v else inl (- EOVERFLOW)
           end
    end
    (loop (S fuel) (parse_body bits)
       (Reader (user f ++ Some 44 :: l) (Z.of_nat (List.length f + S M)) c ch nd t, maskp, nchunks, nb)).
Proof using Hbits.
  intros Hf Ht Hhd Hc Hst Hnext. pose proof Hst as (Hok & Hlen & _). rewrite loop_S, parse_body_unfold.
  cbn [ubuf ubuflen cur totaldigits]. rewrite Nat2Z.id.
  pose proof (field_loop f Hf (Some 44 :: l) (S M) (S (List.length f + S M)) 0 0 t c
    (comma_no_end_blank _ _ _ Hf) ltac:(done) Ht Hhd Hc ltac:(lia)) as Hloop. cbv zeta in Hloop.
  destruct (field_value 0 f) as [e|v] eqn:Ev.
  - rewrite Hloop. exists e, maskp. split_and!; [done..|]. destruct f; [by simplify_eq/=|done].
  - destruct Hloop as (Hv & c' & -> & Hc1 & Hc2).
    rewrite scan_comma; [|destruct f; [rewrite Hc1 by done; simpl; rewrite Z.add_0_r; done|right; by apply Hc2]|lia].
    destruct f as [|x f]; [by apply result_err|].
    set (r := Reader l (Z.of_nat M) 44 v _ _).
    destruct (after_chunk_spec bits len r maskp nchunks nb V) as (d & D1 & D2 & D3); [done|done|done|unfold r; simpl; lia|].
    cbn [chunk r] in D3. change (chunk r) with v in D3. destruct (Z.ltb_spec (V * 2 ^ 32 + v) (2 ^ bits)) as [Hfit|].
    + destruct D3 as (n' & b' & Hst' & ->).
      specialize (Hnext v d n' b' (t + Z.of_nat (List.length (x :: f))) ltac:(done) Hfit Hst' ltac:(simpl; lia)).
      unfold r at 1 2. cbn [ubuflen cur]. change (44 =? chr ",") with true. rewrite andb_true_r.
      destruct (Nat.ltb_spec 0 M); [rewrite (proj2 (Z.eqb_neq _ 0)) by lia; exact Hnext|].
      replace (Z.of_nat M) with 0 by lia. exact Hnext.
    + rewrite D3. by apply result_err.
Qed.

Lemma fields_loop fs : Forall plain fs -> forall k ws z m fuel maskp nchunks nb V c ch nd t,
  fs <> [] -> full_end (List.last fs []) -> blank ws -> closing k z m ->
  (k = Comma <-> (2 <= List.length fs)%nat /\ List.last fs [] = [] /\ ws = [] /\ m = 0%nat) ->
  0 <= t -> (t = 0 -> forall w, head (join_commas fs) = Some w -> isspace w = false) -> t = 0 \/ isspace c = false ->
  (List.length fs <= fuel)%nat -> state_ok bits len maskp nchunks nb V ->
  result bits len (ended_value k bits V fs)
    (loop fuel (parse_body bits)
       (Reader (user (join_commas fs) ++ user ws ++ z) (Z.of_nat (List.length (join_commas fs) + (List.length ws + m))) c ch nd t,
        maskp, nchunks, nb)).
Proof using Hbits.
  induction 1 as [|f fs Hf Hfs IH]; intros k ws z m fuel maskp nchunks nb V c ch nd t Hne Hend Hws Hz Hk Ht Hhd Hc Hfuel Hst; [done|].
  destruct fuel as [|fuel]; [simpl in Hfuel; lia|]. destruct fs as [|f2 fs].
  { cbn [join_commas]. rewrite app_nil_r. apply last_field; try done.
    - intros ->. destruct (proj1 Hk eq_refl) as [? _]. simpl in *. lia.
    - intros E w Hw. apply (Hhd E). cbn [join_commas]. by rewrite app_nil_r. }
  assert (Hjoin : join_commas (f :: f2 :: fs) = f ++ 44 :: join_commas (f2 :: fs)) by done.
  rewrite Hjoin, ended_cons. rewrite Hjoin in Hhd. set (M := (List.length (join_commas (f2 :: fs)) + (List.length ws + m))%nat).
  replace (user (f ++ 44 :: join_commas (f2 :: fs)) ++ user ws ++ z) with (user f ++ Some 44 :: (user (join_commas (f2 :: fs)) ++ user ws ++ z))
    by (unfold user; by rewrite fmap_app, fmap_cons, <- app_assoc).
  replace (List.length (f ++ 44%Z :: join_commas (f2 :: fs)) + (List.length ws + m))%nat with (List.length f + S M)%nat
    by (rewrite length_app; cbn [List.length]; unfold M; lia).
  apply (comma_field f _ M fuel maskp nchunks nb V c ch nd t (fun v => ended_value k bits (V * 2 ^ 32 + v) (f2 :: fs))); try done.
  { intros E w Hw. apply (Hhd E). destruct f; [done|exact Hw]. }
  intros v d n b t' _ Hfit Hst' Ht'.
  destruct (Nat.ltb_spec 0 M) as [HM|HM]; [|].
  - apply IH; try done; [|lia|lia|by right|simpl in *; lia]. rewrite Hk. cbn [List.length].
    split; intros (H2 & Hl & -> & ->); (split_and!; [|done|done|done]); [|lia].
    destruct fs as [|f3 fs]; [|simpl; lia]. simpl in Hl. subst f2. unfold M in HM. simpl in HM. lia.
  - assert (f2 = [] /\ fs = [] /\ ws = [] /\ m = 0%nat) as (-> & -> & -> & ->).
    { unfold M in HM. cbn [join_commas] in HM. destruct f2; [|simpl in HM; lia]. destruct fs; [|simpl in HM; lia].
      destruct ws; [|simpl in HM; lia]. simpl in HM. split_and!; [done..|lia]. }
    assert (k = Comma) as -> by (apply Hk; by split_and!; [simpl; lia|..]).
    destruct Hst' as (S1 & S2 & _ & S3 & _ & S4). by apply result_ok.
Qed.
End fields.

(** ** Any text *)

Lemma split_nonnil t : split_commas t <> [].
Proof. destruct t as [|c t]; simpl; [done|]. destruct (c =? 44); [done|]. by destruct (split_commas t). Qed.

Lemma join_split t : join_commas (split_commas t) = t.
Proof.
  induction t as [|c t IH]; [done|]. simpl. pose proof (split_nonnil t) as Hne. destruct (Z.eqb_spec c 44) as [->|].
  - simpl. destruct (split_commas t) as [|f fs]; [done|]. by rewrite IH.
  - destruct (split_commas t) as [|f fs]; [done|]. simpl. f_equal. exact IH.
Qed.

Lemma plain_cons c f : is_u8 c -> 0 <> c -> c <> 44 -> plain f -> plain (c :: f).
Proof. intros H1 H2 H3 H4. constructor; [|done]. split_and!; [done|by apply not_eq_sym|done]. Qed.

Lemma split_plain t : Forall is_u8 t -> 0 ∉ t -> Forall plain (split_commas t).
Proof.
  induction 1 as [|c t Hc Ht IH]; intros H0; simpl; [constructor; constructor|]. rewrite not_elem_of_cons in H0. destruct H0 as [H0 H1].
  specialize (IH H1). destruct (Z.eqb_spec c 44) as [->|H44]; [constructor; [constructor|done]|].
  destruct (split_commas t) as [|f fs]; [constructor; [apply plain_cons; [done..|constructor]|constructor]|].
  inversion IH. constructor; [|done]. by apply plain_cons.
Qed.

Lemma split_length t : (List.length (split_commas t) <= S (List.length t))%nat.
Proof.
  induction t as [|c t IH]; simpl; [lia|]. destruct (c =? 44); simpl; [lia|]. destruct (split_commas t); simpl in *; lia.
Qed.

Lemma split_snoc t : split_commas (t ++ [44]) = split_commas t ++ [[]].
Proof.
  induction t as [|c t IH]; [done|]. simpl. rewrite IH. destruct (c =? 44); [done|].
  pose proof (split_nonnil t). by destruct (split_commas t).
Qed.

Lemma join_last fs : fs <> [] -> exists p, join_commas fs = p ++ List.last fs [] /\
  ((2 <= List.length fs)%nat -> exists p', p = p' ++ [44]).
Proof.
  induction fs as [|f fs IH]; [done|]. intros _. destruct fs as [|f2 fs].
  { exists []. split; [simpl; by rewrite app_nil_r|]. simpl. lia. }
  destruct (IH ltac:(done)) as (p & E & Hp). exists (f ++ 44 :: p). split.
  - change (join_commas (f :: f2 :: fs)) with (f ++ 44 :: join_commas (f2 :: fs)). rewrite E.
    change (List.last (f :: f2 :: fs) []) with (List.last (f2 :: fs) []). by rewrite <- app_assoc.
  - intros _. destruct fs as [|f3 fs].
    + simpl in E. rewrite app_nil_r in E. assert (p = []) as -> by (apply (f_equal List.length) in E; rewrite length_app in E; destruct p; [done|simpl in E; lia]).
      by exists f.
    + destruct Hp as [p' ->]; [simpl; lia|]. exists (f ++ 44 :: p'). by rewrite <- app_assoc.
Qed.

Lemma skip_blanks_spec t : exists ws, t = ws ++ skip_blanks t /\ blank ws /\
  forall w l, skip_blanks t = w :: l -> isspace w = false.
Proof.
  induction t as [|c t (ws & E & Hws & Hh)]; [by exists []; split_and!; [|constructor|]|]. simpl. destruct (isspace c) eqn:Ec.
  - exists (c :: ws). split_and!; [simpl; by f_equal|by constructor|done].
  - exists []. split_and!; [done|constructor|]. by intros w l [= <- <-].
Qed.

Lemma trim_spec t : exists ws1 ws2, t = ws1 ++ trim t ++ ws2 /\ blank ws1 /\ blank ws2 /\ full_end (trim t) /\
  forall w l, trim t = w :: l -> isspace w = false.
Proof.
  destruct (skip_blanks_spec t) as (ws1 & E1 & H1 & Hh1). destruct (skip_blanks_spec (rev (skip_blanks t))) as (ws2 & E2 & H2 & Hh2).
  assert (E3 : skip_blanks t = trim t ++ rev ws2).
  { unfold trim. rewrite <- rev_app_distr, <- E2. by rewrite rev_involutive. }
  exists ws1, (rev ws2). split_and!; [by rewrite <- E3|done|by apply Forall_rev| |].
  - intros f w E. apply (Hh2 w (rev f)). unfold trim in E. apply (f_equal (@rev Z)) in E. by rewrite rev_involutive, rev_app_distr in E.
  - intros w l E. apply (Hh1 w (l ++ rev ws2)). by rewrite E3, E.
Qed.

Lemma until_nul_spec t : 0 ∉ until_nul t /\
  (if existsb (fun c => c =? 0) t then exists s, t = until_nul t ++ 0 :: s else until_nul t = t).
Proof.
  induction t as [|c t [H0 IH]]; simpl; [split; [apply not_elem_of_nil|done]|]. destruct (Z.eqb_spec c 0) as [->|Hc].
  - simpl. split; [apply not_elem_of_nil|]. by exists t.
  - rewrite not_elem_of_cons. cbn [orb]. split; [by split|]. destruct (existsb (fun c => c =? 0) t).
    + destruct IH as [s IH]. exists s. simpl. by f_equal.
    + by rewrite IH.
Qed.

Definition bytes_ok (buf : list (option Z)) : Prop := Forall (fun o => forall c, o = Some c -> is_u8 c) buf.

Lemma readable_spec n buf : bytes_ok buf -> exists rest, buf = user (readable n buf) ++ rest /\ Forall is_u8 (readable n buf) /\
  (List.length (readable n buf) = n \/ (List.length (readable n buf) < n)%nat /\ (rest = [] \/ head rest = Some None)).
Proof.
  revert buf. induction n as [|n IH]; intros buf Hb; [exists buf; split_and!; [done|constructor|by left]|].
  destruct buf as [|[c|] buf]; simpl.
  - exists []. split_and!; [done|constructor|]. right. split; [lia|by left].
  - inversion Hb as [|? ? Hc Hb']; subst. destruct (IH buf Hb') as (rest & E & Hu & Hl). exists rest.
    split_and!; [by rewrite E at 1|constructor; [by apply Hc|done]|]. destruct Hl as [->|[Hl Hr]]; [by left|right; split; [lia|done]].
  - exists (None :: buf). split_and!; [done|constructor|]. right. split; [lia|by right].
Qed.

(** When the text ends with a comma, the last group is empty. *)
Lemma comma_end ws1 w ws2 : blank ws1 -> blank ws2 ->
  List.last (ws1 ++ w ++ ws2) 0 = 44 <->
  (2 <= List.length (split_commas w))%nat /\ List.last (split_commas w) [] = [] /\ ws2 = [].
Proof.
  intros H1 H2. split; intros H.
  - destruct (ws1 ++ w ++ ws2) as [|x l] eqn:E using rev_ind; [done|]. clear IHl. rewrite last_last in H. subst x.
    assert (Hb : forall ws l', blank ws -> ws = l' ++ [44] -> False).
    { intros ws l' Hws ->. apply Forall_app in Hws as [_ Hws]. inversion Hws. done. }
    destruct ws2 as [|y ws2 _] using rev_ind.
    2:{ exfalso. rewrite !app_assoc in E. apply app_inj_tail in E as [_ ->]. by apply (Hb _ ws2 H2). }
    rewrite app_nil_r in E. destruct w as [|y w _] using rev_ind; [rewrite app_nil_r in E; by apply Hb in E|].
    rewrite app_assoc in E. apply app_inj_tail in E as [_ ->]. rewrite split_snoc, last_last, length_app.
    pose proof (split_nonnil w). destruct (split_commas w); [done|]. simpl. split_and!; [lia|done|done].
  - destruct H as (Hl & Hlast & ->). destruct (join_last (split_commas w) (split_nonnil w)) as (p & E & Hp).
    destruct (Hp Hl) as [p' ->]. rewrite join_split, Hlast, app_nil_r in E. rewrite E, app_nil_r, app_assoc. apply last_last.
Qed.

(** Leading white space changes nothing. *)
Lemma parse_lead bits lead l M c ch nd t maskp nchunks nb : blank lead ->
  exists c', parse_body bits (Reader (user lead ++ l) (Z.of_nat (List.length lead + M)) c ch nd t, maskp, nchunks, nb) =
    parse_body bits (Reader l (Z.of_nat M) c' ch nd t, maskp, nchunks, nb).
Proof.
  intros Hl. destruct (scan_blanks lead Hl (S (List.length lead + M)) l M c 0 0 t) as (c' & E & _); [lia|]. exists c'.
  rewrite !parse_body_unfold. cbn [ubuf ubuflen cur totaldigits]. rewrite !Nat2Z.id, E.
  by replace (S (List.length lead + M) - List.length lead)%nat with (S M) by lia.
Qed.

(** A text [u] without a NUL, before [z]. *)
Lemma parse_text bits maskp k u z m : 0 < bits -> words_ok maskp -> bits <= nbits maskp -> holds bits maskp 0 ->
  Forall is_u8 u -> 0 ∉ u -> closing k z m -> (k = Comma <-> List.last u 0 = 44 /\ m = 0%nat) ->
  result bits (List.length maskp) (ended_value k bits 0 (split_commas (trim u)))
    (loop (S (List.length u + m)) (parse_body bits) (Reader (user u ++ z) (Z.of_nat (List.length u + m)) 0 0 0 0, maskp, 0, 0)).
Proof.
  intros Hbits Hok Hsz HV Hu H0 Hz Hk. destruct (trim_spec u) as (ws1 & ws2 & E & H1 & H2 & Hend & Hhd).
  set (w := trim u) in *.
  assert (Hw : Forall is_u8 w /\ 0 ∉ w).
  { rewrite E in Hu, H0. rewrite !Forall_app in Hu. rewrite !not_elem_of_app in H0. tauto. }
  replace (user u ++ z) with (user ws1 ++ (user w ++ user ws2 ++ z)) by (rewrite E; unfold user; by rewrite !fmap_app, <- !app_assoc).
  replace (List.length u) with (List.length ws1 + (List.length w + List.length ws2))%nat by (rewrite E, !length_app; lia).
  replace (List.length ws1 + (List.length w + List.length ws2) + m)%nat with (List.length ws1 + (List.length w + (List.length ws2 + m)))%nat by lia.
  rewrite loop_S. destruct (parse_lead bits ws1 (user w ++ user ws2 ++ z) (List.length w + (List.length ws2 + m)) 0 0 0 0 maskp 0 0 H1) as (c' & ->).
  rewrite <- loop_S. pose proof (fields_loop bits (List.length maskp) Hbits (split_commas w)) as Hloop.
  rewrite join_split in Hloop. apply Hloop; try done; clear Hloop.
  - destruct Hw. by apply split_plain.
  - apply split_nonnil.
  - destruct (join_last (split_commas w) (split_nonnil w)) as (p & Ej & _). rewrite join_split in Ej.
    intros f1 x Ex. apply (Hend (p ++ f1) x). by rewrite Ej, Ex, app_assoc.
  - rewrite Hk, E at 1. rewrite (comma_end ws1 w ws2 H1 H2). tauto.
  - intros _ x Hx. destruct w as [|y w]; [done|]. simplify_eq/=. by apply (Hhd x w).
  - by left.
  - pose proof (split_length w). lia.
  - split_and!; try done; [by left|]. pose proof (Z.pow_pos_nonneg 2 bits). lia.
Qed.

Lemma bitmap_parse_any bits maskp buf n : words_ok maskp -> 0 < bits <= nbits maskp -> bytes_ok buf ->
  result bits (List.length maskp) (text_value bits buf n) (Some <$> bitmap_parse buf (Z.of_nat n) maskp bits).
Proof.
  intros Hok Hb Hbuf. unfold bitmap_parse.
  destruct (bitmap_zero_spec maskp bits Hok Hb) as (d0 & -> & Z1 & Z2 & Z3). cbn [mbind option_bind]. rewrite <- Z2.
  assert (HV : holds bits d0 0) by (intros i Hi; rewrite Z3, Z.bits_0 by done; done).
  assert (Hsz : bits <= nbits d0) by (unfold nbits in *; lia).
  destruct (readable_spec n buf Hbuf) as (rest & E & Hu & Hl). unfold text_value. set (t := readable n buf) in *.
  destruct (until_nul_spec t) as [H0 Hnul]. rewrite Nat2Z.id.
  assert (Hgo : forall k z m, buf = user (until_nul t) ++ z -> n = (List.length (until_nul t) + m)%nat -> closing k z m ->
    (k = Comma <-> List.last (until_nul t) 0 = 44 /\ m = 0%nat) -> Forall is_u8 (until_nul t) ->
    result bits (List.length d0) (ended_value k bits 0 (split_commas (trim (until_nul t))))
      (Some <$> mjoin (loop (S n) (parse_body bits) (Reader buf (Z.of_nat n) 0 0 0 0, d0, 0, 0)))).
  { intros k z m Eb En Hz Hk Hu'. destruct (parse_text bits d0 k (until_nul t) z m) as (e & d & Ed & R); try done; [lia|].
    rewrite <- Eb, <- En in Ed. rewrite Ed. exists e, d. done. }
  unfold ending_of. destruct (existsb _ t).
  - destruct Hnul as [s Es].
    assert (Hlen : (List.length t = List.length (until_nul t) + S (List.length s))%nat) by (rewrite Es at 1; by rewrite length_app).
    apply (Hgo _ (Some 0 :: user s ++ rest) (n - List.length (until_nul t))%nat).
    + rewrite E at 1. rewrite Es at 1. unfold user. by rewrite fmap_app, fmap_cons, <- app_assoc.
    + destruct Hl as [Hl|[Hl _]]; lia.
    + right. split; [|done]. destruct Hl as [Hl|[Hl _]]; lia.
    + split; [done|]. destruct Hl as [Hl|[Hl _]]; lia.
    + rewrite Es in Hu. by apply Forall_app in Hu as [Hu _].
  - rewrite Hnul in *. apply (Hgo _ rest (n - List.length t)%nat); [done|destruct Hl as [Hl|[Hl _]]; lia| | |done].
    + destruct (Nat.ltb_spec (List.length t) n) as [Hlt|Hge].
      * split; [lia|]. destruct Hl as [Hl|[_ Hl]]; [lia|done].
      * destruct (_ =? 44); left; lia.
    + destruct (Nat.ltb_spec (List.length t) n) as [Hlt|Hge]; [split; [done|lia]|].
      destruct (Z.eqb_spec (List.last t 0) 44) as [->|Hne]; split; try done; [lia|tauto].
Qed.

(** ** The theorem *)

(** C28: bitmap_parse, for every user buffer of bytes, readable or not, and every length.  The call returns, with
    0 and the bits of the number, or with the error, that [text_value] gives: the text is taken up to the first NUL,
    without leading and trailing white space; it is split at the commas; every group is of one or more
    hexadecimal digits (anything else, white space included, is -EINVAL) and has at most 32
    bits, and the number made of the groups fits the bitmap (otherwise -EOVERFLOW); the first error
    from the left counts, and a fault is -EFAULT when the text up to it has no error.
    Against the comment of the code, a comma that is the very last character of the buffer is accepted. *)
Theorem bitmap_parse_correct bits maskp buf n :
  words_ok maskp -> 0 < bits <= nbits maskp -> bytes_ok buf ->
  (exists e d, bitmap_parse buf (Z.of_nat n) maskp bits = Some (e, d) /\ words_ok d /\
     List.length d = List.length maskp /\
     match text_value bits buf n with
     | inl err => e = err
     | inr V => e = 0 /\ (forall i, 0 <= i < bits -> btest d i = Z.testbit V i) /\ 0 <= V < 2 ^ bits
     end) /\
  (forall s, In s ["1,,5"; ",44"; ","; ""; "1 2"; "x"; "1, 5"; "1 ,5"]%string ->
     text_value 64 (user (txt s)) (List.length (txt s)) = inl (- EINVAL)) /\
  text_value 64 (user (txt "1,")) 2 = inr 1 /\
  text_value 64 (user (txt "1,") ++ [None]) 3 = inl (- EFAULT) /\
  text_value 64 (user (txt " 0a,0000000F ")) 13 = inr (10 * 2 ^ 32 + 15).
Proof.
  intros Hok Hb Hbuf. split; [|split; [|split_and!; by vm_compute]].
  - destruct (bitmap_parse_any bits maskp buf n Hok Hb Hbuf) as (e & d & E & D1 & D2 & D3). exists e, d.
    split; [|done]. destruct (bitmap_parse buf (Z.of_nat n) maskp bits) as [[e' d']|]; [|done]. simpl in E. by simplify_eq.
  - intros s Hs. simpl in Hs. destruct_or?; try done; subst s; by vm_compute.
Qed.

Lemma bytes_user l : forallb (fun c => (0 <=? c) && (c <? 256)) l = true -> bytes_ok (user l).
Proof.
  rewrite forallb_forall. intros H. apply Forall_fmap, Forall_forall. intros c Hc x [= <-].
  specialize (H c Hc). simpl in H. width_lia.
Qed.

Lemma bitmap_parse_witness : exists d,
  bitmap_parse (user (txt " a5,0000000f" ++ [10; 0; 99])) 15 [1; 2; 3] 40 = Some (0, d) /\ btest d 32 = true /\ btest d 33 = false.
Proof.
  destruct (bitmap_parse_correct 40 [1; 2; 3] (user (txt " a5,0000000f" ++ [10; 0; 99])) 15) as [(e & d & E & _ & _ & H) _];
    [by repeat constructor|by_eval| |].
  - apply bytes_user. vm_compute. reflexivity.
  - assert (Ev : text_value 40 (user (txt " a5,0000000f" ++ [10; 0; 99])) 15 = inr (0xa5 * 2 ^ 32 + 15)) by (vm_compute; reflexivity).
    rewrite Ev in H. destruct H as (-> & H & _). exists d. split; [exact E|]. rewrite !H by lia. split; reflexivity.
Defined.
