(* ===== verification/ResourceReserve.v ===== *)
(** The boot option reserve= of kernel/resource.c: ranges of ports and memory are read from
    the command line and requested. *)
From stdpp Require Import base list gmap numbers option sorting.
From Stdlib Require Import ZArith Lia Ascii String.
From S2P Require Import Prelude Ctype Vsprintf VsprintfText NumberRead Cmdline Resource ResourceTree ResourceCalls.

Local Open Scope Z_scope.

Definition MAXRESERVE : Z := 4.

Lemma ends_comma l : ends_number 10 (chr "," :: l).
Proof. split; [by vm_compute|done]. Qed.

Section reserve.
(** The addresses of ioport_resource and iomem_resource, and of the cells of the static
    array reserve. *)
Context (ioport iomem : Z) (reserve : Z -> Z).

(** The body of if (x < MAXRESERVE): the cell is filled and requested; its name is not
    modelled.  The new value of reserved, and the store. *)
Definition reserve_one (x io_start io_num : Z) (h : store) : option (Z * store) :=
  if x <? MAXRESERVE then
    res ← h !! reserve x;
    let res := {| start := u32 io_start; end_ := u32 (io_start + io_num - 1); flags := IORESOURCE_BUSY;
                  parent := parent res; sibling := sibling res; child := 0 |} in
    '(err, h) ← request_resource (<[reserve x := res]> h) (if 0x10000 <=? start res then iomem else ioport) (reserve x);
    Some (if err =? 0 then x + 1 else x, h)
  else Some (x, h).

Definition reserve_body (st : option (list Z) * Z * store) : (option (list Z) * Z * store) + option (Z * store) :=
  let '(str, reserved, h) := st in
  let '(res, str, io_start) := get_option str 0 in
  if negb (res =? 2) then inr (Some (reserved, h))
  else
    let '(res, str, io_num) := get_option str 0 in
    if res =? 0 then inr (Some (reserved, h))
    else match reserve_one reserved io_start io_num h with
         | None => inr None
         | Some (reserved, h) => inl (str, reserved, h)
         end.

(** [reserved] keeps its value between two calls.  Every turn takes a character. *)
Definition reserve_setup (str : list Z) (reserved : Z) (h : store) : option (Z * Z * store) :=
  '(reserved, h) ← mjoin (loop (S (List.length str)) reserve_body (Some str, reserved, h));
  Some (1, reserved, h).

(** ** The effect of the option *)

(** A root with the ranges of its children. *)
Record area := Area { a_start : Z; a_end : Z; a_busy : list (Z * Z) }.

Definition is_free (A : area) (s e : Z) : bool :=
  (a_start A <=? s) && (s <=? e) && (e <=? a_end A) && forallb (fun b => (e <? b.1) || (b.2 <? s)) (a_busy A).

Definition occupy (A : area) (s e : Z) : area := Area (a_start A) (a_end A) ((s, e) :: a_busy A).

(** The ranges that a list of starts and lengths reserves, when [used] cells are taken: a range of
    ports starts below 0x10000, one of memory from there on; it is taken when it is free and a cell is left. *)
Fixpoint reserve_ranges (ps : list (Z * Z)) (used : Z) (io mem : area) : list (Z * Z) :=
  match ps with
  | [] => []
  | (a, n) :: ps =>
      let s := a mod 2 ^ 32 in
      let e := (a + n - 1) mod 2 ^ 32 in
      if 4 <=? used then []
      else if s <? 0x10000 then
        if is_free io s e then (s, e) :: reserve_ranges ps (used + 1) (occupy io s e) mem
        else reserve_ranges ps used io mem
      else
        if is_free mem s e then (s, e) :: reserve_ranges ps (used + 1) io (occupy mem s e)
        else reserve_ranges ps used io mem
  end.

(** [A] describes the resource [root] of the store. *)
Definition area_of (h : store) (root : Z) (A : area) : Prop :=
  rng h root = Some (a_start A, a_end A) /\
  forall s e, (s, e) ∈ a_busy A <-> exists d, rng h d = Some (s, e) /\ par h d = Some root.

(** The resources that are not in [K] keep their range and their parent. *)
Definition keeps (h h' : store) (K : Z -> Prop) : Prop :=
  forall y, ~ K y -> rng h' y = rng h y /\ par h' y = par h y.

(** The calls for the ranges one after the other. *)
Fixpoint reserve_list (ps : list (Z * Z)) (reserved : Z) (h : store) : option (Z * store) :=
  match ps with
  | [] => Some (reserved, h)
  | (a, n) :: ps => '(reserved, h) ← reserve_one reserved a n h; reserve_list ps reserved h
  end.

(** ** Proofs *)

Hypothesis Hcells : forall x y, 0 <= x < MAXRESERVE -> 0 <= y < MAXRESERVE -> reserve x = reserve y -> x = y.
Hypothesis Hroots : forall x, 0 <= x < MAXRESERVE -> reserve x <> 0 /\ reserve x <> ioport /\ reserve x <> iomem.
Hypothesis Hdiff : ioport <> iomem.

(** [reserved] cells are in a tree, busy, below one of the two roots; the others are idle. *)
Record reserving (reserved : Z) (h : store) : Prop := {
  rv_reach : reachable h;
  rv_io : in_store h ioport;
  rv_mem : in_store h iomem;
  rv_range : 0 <= reserved <= MAXRESERVE;
  rv_used : forall k, 0 <= k < reserved -> exists n, h !! reserve k = Some n /\
    (parent n = ioport \/ parent n = iomem) /\ flags n = IORESOURCE_BUSY;
  rv_free : forall k, reserved <= k < MAXRESERVE -> idle h (reserve k)
}.

(** Filling an idle cell is a step of its owner. *)
Lemma fill_reachable h x n : reachable h -> idle h x -> x <> 0 -> parent n = 0 -> child n = 0 ->
  is_u32 (start n) -> is_u32 (end_ n) -> reachable (<[x := n]> h).
Proof.
  intros Hr Hi Hx Hp Hc Hs He. rewrite <- insert_delete_eq.
  apply (reach_step (delete x h) _ (SetUp x n) 0).
  - apply (reach_step h _ (Discard x) 0); [done|done|]. by exists 0%nat.
  - split_and!; try done. apply lookup_delete_eq.
  - by exists 0%nat.
Qed.

Lemma idle_insert h x y n : idle h y -> x <> y -> idle (<[x := n]> h) y.
Proof. intros (m & Hm & H) Hne. exists m. by rewrite lookup_insert_ne. Qed.

Lemma requested_idle h kids rank root new r n c h' y :
  tree_ok h kids rank -> requested h kids root new r n c h' -> idle h y -> y <> new -> y <> root -> idle h' y.
Proof.
  intros ok Hreq Hi Hn Hr. destruct Hreq as [(_ & _ & _ & l1 & l2 & rank' & _ & T & _ & _ & _ & Hpar)|(_ & -> & _)]; [|done].
  pose proof (idle_detached h kids rank y ok Hi) as [Hp Hk]. specialize (Hpar y Hn). rewrite Hp in Hpar. unfold par in Hpar.
  destruct (h' !! y) as [m|] eqn:Em; [|done]. injection Hpar as Hpar. exists m. split; [done|]. split; [done|].
  destruct (t_linked _ _ _ T y (mk_is_Some _ _ Em)) as (q & Hq & Hs). unfold slot_get in Hq. rewrite Em in Hq. injection Hq as ->.
  unfold kset in Hs. destruct (decide (y = root)); [done|]. rewrite Hk in Hs. exact Hs.
Qed.

Lemma requested_keeps h kids root new r n c h' y m :
  requested h kids root new r n c h' -> h !! y = Some m -> y <> new ->
  exists m', h' !! y = Some m' /\ parent m' = parent m /\ flags m' = flags m.
Proof.
  intros Hreq Hy Hn. destruct Hreq as [(_ & _ & _ & l1 & l2 & rank' & _ & T & _ & Hf & _ & Hpar)|(_ & -> & _)]; [|by exists m].
  specialize (Hpar y Hn). specialize (Hf y). unfold par in Hpar. rewrite Hy in Hpar, Hf.
  destruct (h' !! y) as [m'|] eqn:Em; [|done]. simplify_eq/=. by exists m'.
Qed.

Definition root_of (s : Z) : Z := if s <? 0x10000 then ioport else iomem.

(** The cell as it is requested. *)
Definition cell (a n sib : Z) : resource :=
  {| start := u32 a; end_ := u32 (a + n - 1); flags := IORESOURCE_BUSY; parent := 0; sibling := sib; child := 0 |}.

Lemma root_of_cases s : root_of s = ioport \/ root_of s = iomem.
Proof. unfold root_of. destruct (_ <? _); auto. Qed.

Lemma root_of_not_cell s x : 0 <= x < MAXRESERVE -> reserve x <> root_of s.
Proof using Hroots. intros Hx. destruct (Hroots x Hx) as (_ & ? & ?). by destruct (root_of_cases s) as [-> | ->]. Qed.

Lemma reserve_request x a n h : reserving x h -> x < MAXRESERVE ->
  exists sib c h' kids rank r, let h1 := <[reserve x := cell a n sib]> h in
    reserve_one x a n h = Some (if c =? 0 then x + 1 else x, h') /\ h1 !! root_of (u32 a) = Some r /\
    tree_ok h1 kids rank /\ requested h1 kids (root_of (u32 a)) (reserve x) r (cell a n sib) c h' /\ reachable h'.
Proof using All.
  intros [Hr Hio Hmem Hrg Hused Hfree] Hx. pose proof (Hroots x ltac:(lia)) as (Hx0 & _).
  pose proof (root_of_not_cell (u32 a) x ltac:(lia)) as Hxr. pose proof (Hfree x ltac:(lia)) as Hi.
  pose proof Hi as (m & Hm & Hp & Hc). set (root := root_of (u32 a)) in *.
  set (h1 := <[reserve x := cell a n (sibling m)]> h).
  assert (Hr1 : reachable h1) by (apply fill_reachable; try done; apply u32_range).
  assert (Hcell : h1 !! reserve x = Some (cell a n (sibling m))) by (unfold h1; apply lookup_insert_eq).
  assert (Hi1 : idle h1 (reserve x)) by (by eexists).
  assert (Hrs : in_store h1 root).
  { unfold h1, in_store. rewrite lookup_insert_ne by done. by destruct (root_of_cases (u32 a)) as [E|E]; fold root in E; rewrite E. }
  destruct (reachable_good h1 Hr1) as (kids & rank & ok). destruct Hrs as [r Hrr].
  destruct (request_spec h1 kids rank root (reserve x) r _ ok (idle_detached _ _ _ _ ok Hi1) Hxr Hrr Hcell)
    as (c & h' & E & Hreq).
  exists (sibling m), c, h', kids, rank, r. fold h1. split_and!; [|done|done|done|].
  - unfold reserve_one. rewrite (proj2 (Z.ltb_lt _ _) Hx), Hm. cbn [mbind option_bind]. rewrite Hp. cbn [start].
    fold (cell a n (sibling m)). fold h1. replace (if 0x10000 <=? u32 a then iomem else ioport) with root
      by (unfold root, root_of; by rewrite Z.leb_antisym; destruct (_ <? _)).
    unfold request_resource. rewrite E. cbn [mbind option_bind]. by destruct (c =? 0).
  - apply (reach_step h1 _ (Request root (reserve x)) (if c =? 0 then 0 else - EBUSY)); [done|split; [by exists r|done]|].
    exists 0%nat. intros f _. simpl. unfold request_resource. by rewrite E.
Qed.

Lemma reserve_one_spec x a n h : reserving x h ->
  exists x' h', reserve_one x a n h = Some (x', h') /\ x <= x' /\ reserving x' h'.
Proof using All.
  intros Hres. pose proof Hres as [Hr Hio Hmem Hrg Hused Hfree].
  destruct (Z.lt_ge_cases x MAXRESERVE) as [Hx|Hx].
  2:{ exists x, h. unfold reserve_one. rewrite (proj2 (Z.ltb_ge _ _) Hx). split_and!; [done|lia|done]. }
  destruct (reserve_request x a n h Hres Hx) as (sib & c & h' & kids & rank & r & E & Hrr & ok & Hreq & Hr').
  set (root := root_of (u32 a)) in *. set (h1 := <[reserve x := cell a n sib]> h) in *.
  assert (Hcell : h1 !! reserve x = Some (cell a n sib)) by (unfold h1; apply lookup_insert_eq).
  assert (Hkeep : forall y my, h !! y = Some my -> y <> reserve x -> exists my', h' !! y = Some my' /\ parent my' = parent my /\ flags my' = flags my).
  { intros y my Hy Hne. apply (requested_keeps h1 kids root (reserve x) r (cell a n sib) c); [done| |done].
    unfold h1. by rewrite lookup_insert_ne. }
  assert (Hin : forall y, in_store h y -> y <> reserve x -> in_store h' y).
  { intros y [my Hmy] Hne. destruct (Hkeep y my Hmy Hne) as (my' & ? & _). by exists my'. }
  destruct (Hroots x ltac:(lia)) as (Hx0 & Hxio & Hxmem).
  assert (Hbelow : forall k, 0 <= k < x -> exists nk, h' !! reserve k = Some nk /\ (parent nk = ioport \/ parent nk = iomem) /\ flags nk = IORESOURCE_BUSY).
  { intros k Hk. destruct (Hused k Hk) as (nk & Hnk & Hpk & Hfk). assert (Hne : reserve k <> reserve x) by (intros Ek; apply Hcells in Ek; lia).
    destruct (Hkeep (reserve k) nk Hnk Hne) as (nk' & E' & Ep & Ef). exists nk'. by rewrite Ep, Ef. }
  assert (Habove : forall k, x < k < MAXRESERVE -> idle h' (reserve k)).
  { intros k Hk. assert (Hne : reserve x <> reserve k) by (intros Ek; apply Hcells in Ek; lia).
    apply (requested_idle h1 kids rank root (reserve x) r (cell a n sib) c); try done; [apply idle_insert; [apply Hfree; lia|done]|].
    apply root_of_not_cell. lia. }
  rewrite E. destruct (Z.eqb_spec c 0) as [->|Hc0].
  - exists (x + 1), h'. split; [done|]. split; [lia|].
    split; [done|by apply Hin|by apply Hin|lia| |intros; apply Habove; lia].
    intros k Hk. destruct (Z.eq_dec k x) as [->|]; [|apply Hbelow; lia].
    destruct Hreq as [(_ & _ & _ & l1 & l2 & rank' & _ & T & _ & Hf & Hpar & _)|(? & _)]; [|done].
    specialize (Hf (reserve x)). unfold par in Hpar. rewrite Hcell in Hf. destruct (h' !! reserve x) as [nk|]; [|done].
    exists nk. simplify_eq/=. split; [done|]. split; [|done]. rewrite Hpar. apply root_of_cases.
  - exists x, h'. split; [done|]. split; [lia|].
    split; [done|by apply Hin|by apply Hin|lia|done|].
    intros k Hk. destruct (Z.eq_dec k x) as [->|]; [|apply Habove; lia].
    destruct Hreq as [(? & _)|(_ & -> & _)]; [done|]. by exists (cell a n sib).
Qed.

(** ** The ranges *)

(** The range from [s] to [e] lies in [root] and overlaps none of its children. *)
Definition room (h : store) (root s e : Z) : Prop :=
  exists lo hi, rng h root = Some (lo, hi) /\ lo <= s /\ s <= e /\ e <= hi /\
    forall d s' e', rng h d = Some (s', e') -> par h d = Some root -> e < s' \/ e' < s.

Lemma area_room h root A s e : area_of h root A -> is_free A s e = true <-> room h root s e.
Proof.
  intros [Hroot Hb]. unfold is_free, room. rewrite !andb_true_iff, !Z.leb_le, forallb_forall. split.
  - intros [[[H1 H2] H3] Hf]. do 2 eexists. split_and!; [done..|]. intros d s' e' Hd Hp.
    assert (Hin : (s', e') ∈ a_busy A) by (apply Hb; by exists d). apply list_elem_of_In, Hf in Hin. simpl in Hin. lia.
  - intros (lo & hi & E & H1 & H2 & H3 & Hd). rewrite Hroot in E. injection E as <- <-. split_and!; [lia..|].
    intros [s' e'] Hin%list_elem_of_In. apply Hb in Hin as (d & Hr & Hp). specialize (Hd d s' e' Hr Hp). simpl. lia.
Qed.

(** The idle cell [x] is filled: the children of the root leave room for it. *)
Lemma room_kids h x a n sib kids rank r : let s := u32 a in let e := u32 (a + n - 1) in let root := root_of s in
  let h1 := <[reserve x := cell a n sib]> h in
  reserve x <> root -> (exists m, h !! reserve x = Some m /\ parent m = 0) -> tree_ok h1 kids rank -> h1 !! root = Some r ->
  fits r (cell a n sib) ->
  (forall d t, d ∈ kids root -> h1 !! d = Some t -> ~ overlap (cell a n sib) t) <-> room h root s e.
Proof using All.
  intros s e root h1 Hxr (m & Hm & Hp) ok Hrr [F1 F2]. simpl in F1, F2. fold s e in F1, F2.
  assert (Hroot0 : root <> 0) by (intros E0; rewrite E0, (t_null _ _ _ ok) in Hrr; done).
  assert (H1 : forall y, y <> reserve x -> rng h1 y = rng h y /\ par h1 y = par h y).
  { intros y Hy. unfold h1, rng, par. by rewrite lookup_insert_ne. }
  assert (Hidle : forall d, par h d = Some root -> d <> reserve x)
    by (intros d Hd ->; unfold par in Hd; rewrite Hm in Hd; simpl in Hd; congruence).
  assert (Hmem : forall d, d ∈ kids root <-> par h d = Some root).
  { intros d. split; intros Hd.
    - apply (t_parent _ _ _ ok) in Hd. destruct (Z.eq_dec d (reserve x)) as [->|Hne].
      + unfold par, h1 in Hd. rewrite lookup_insert_eq in Hd. simpl in Hd. congruence.
      + by rewrite <- (proj2 (H1 d Hne)).
    - apply (t_listed _ _ _ ok); [|done]. rewrite (proj2 (H1 d (Hidle d Hd))). done. }
  split.
  - intros Hd. exists (start r), (end_ r). rewrite <- (proj1 (H1 root (not_eq_sym Hxr))).
    split_and!; [by apply rng_lookup|lia..|]. intros d s' e' Hr' Hp'.
    rewrite <- (proj1 (H1 d (Hidle d Hp'))) in Hr'. unfold rng in Hr'. destruct (h1 !! d) as [t|] eqn:Et; [|done]. simplify_eq/=.
    apply Hmem in Hp'. specialize (Hd d t Hp' Et). unfold overlap in Hd. simpl in Hd. fold s e in Hd. lia.
  - intros (lo & hi & _ & _ & _ & _ & Hd) d t Hk Ht [O1 O2]. simpl in O1, O2. fold s e in O1, O2.
    apply Hmem in Hk. destruct (Hd d (start t) (end_ t)); [|done|lia..].
    rewrite <- (proj1 (H1 d (Hidle d Hk))). by apply rng_lookup.
Qed.

(** One range: it is reserved in the cell [x], or there is no room or no cell for it. *)
Lemma reserve_one_step x a n h : reserving x h ->
  let s := u32 a in let e := u32 (a + n - 1) in
  exists x' h', reserve_one x a n h = Some (x', h') /\ reserving x' h' /\ keeps h h' (fun y => y = reserve x /\ x < MAXRESERVE) /\
    (x' = x + 1 /\ x < MAXRESERVE /\ room h (root_of s) s e /\ rng h' (reserve x) = Some (s, e) /\
       par h' (reserve x) = Some (root_of s) \/
     x' = x /\ (x < MAXRESERVE -> ~ room h (root_of s) s e /\ par h' (reserve x) = Some 0)).
Proof using All.
  intros Hres s e. destruct (reserve_one_spec x a n h Hres) as (x' & h' & E & Hle & Hres'). exists x', h'.
  split; [done|]. split; [done|]. destruct (Z.lt_ge_cases x MAXRESERVE) as [Hx|Hx].
  2:{ unfold reserve_one in E. rewrite (proj2 (Z.ltb_ge _ _) Hx) in E. injection E as <- <-.
      split; [done|]. right. split; [done|]. lia. }
  destruct (reserve_request x a n h Hres Hx) as (sib & c & h2 & kids & rank & r & E2 & Hrr & ok & Hreq & _).
  rewrite E in E2. injection E2 as -> ->. fold s in Hrr, ok, Hreq. set (root := root_of s) in *.
  pose proof Hres as [_ _ _ Hrg _ Hfree]. destruct (Hfree x ltac:(lia)) as (m & Hm & Hp & _).
  pose proof (root_of_not_cell s x ltac:(lia)) as Hxr. fold root in Hxr.
  set (h1 := <[reserve x := cell a n sib]> h) in *.
  assert (H1 : forall y, y <> reserve x -> rng h1 y = rng h y /\ par h1 y = par h y).
  { intros y Hy. unfold h1, rng, par. by rewrite lookup_insert_ne. }
  pose proof (room_kids h x a n sib kids rank r Hxr ltac:(by exists m) ok Hrr) as Hroom. fold s e root h1 in Hroom.
  destruct Hreq as [(-> & Hf & Hd & l1 & l2 & rank' & _ & _ & Hg & _ & Hp1 & Hp2)|(Hc0 & -> & Hwhy)].
  - split; [intros y Hy; rewrite Hg; assert (y <> reserve x) by tauto; rewrite Hp2 by done; by apply H1|].
    left. split_and!; [done|done|by apply Hroom| |done]. rewrite Hg. unfold rng, h1. by rewrite lookup_insert_eq.
  - split; [intros y Hy; apply H1; tauto|]. right. rewrite (proj2 (Z.eqb_neq _ _) Hc0). split; [done|]. intros _. split.
    + intros Hrm. assert (Hf : fits r (cell a n sib)).
      { destruct Hrm as (lo & hi & El & L1 & L2 & L3 & _). rewrite <- (proj1 (H1 root (not_eq_sym Hxr))) in El.
        rewrite (rng_lookup _ _ _ Hrr) in El. injection El as <- <-. done. }
      destruct Hwhy as [[_ Hn]|(_ & Hk & (t & Ht & Ho) & _)]; [done|]. by apply (proj2 (Hroom Hf) Hrm c t Hk Ht).
    + unfold par, h1. by rewrite lookup_insert_eq.
Qed.

(** The areas after a change of the idle cell [x]. *)
Lemma area_same h h' root A c p : area_of h root A -> keeps h h' (fun y => y = c) -> c <> root ->
  par h c = Some 0 -> root <> 0 -> par h' c = Some p -> p <> root -> area_of h' root A.
Proof.
  intros [Hr Hb] Hk Hc H0 Hroot Hp Hpr. split; [by rewrite (proj1 (Hk root (not_eq_sym Hc)))|].
  intros s e. rewrite Hb. split; intros (d & Er & Ep); (assert (Hd : d <> c) by congruence);
    exists d; destruct (Hk d Hd) as [K1 K2]; by rewrite ?K1, ?K2 in *.
Qed.

Lemma area_occupy h h' root A c s e : area_of h root A -> keeps h h' (fun y => y = c) -> c <> root ->
  par h c = Some 0 -> root <> 0 -> par h' c = Some root -> rng h' c = Some (s, e) -> area_of h' root (occupy A s e).
Proof.
  intros [Hr Hb] Hk Hc H0 Hroot Hp Hg. split; [by rewrite (proj1 (Hk root (not_eq_sym Hc)))|].
  intros s' e'. simpl. rewrite elem_of_cons, Hb. split.
  - intros [[= -> ->]|(d & Er & Ep)]; [by exists c|]. assert (Hd : d <> c) by congruence.
    exists d. destruct (Hk d Hd) as [-> ->]. done.
  - intros (d & Er & Ep). destruct (Z.eq_dec d c) as [->|Hd]; [left; congruence|].
    destruct (Hk d Hd) as [K1 K2]. rewrite K1, K2 in *. right. by exists d.
Qed.

Lemma reserve_list_full ps x h : MAXRESERVE <= x -> reserve_list ps x h = Some (x, h).
Proof.
  intros Hx. induction ps as [|[a n] ps IH]; [done|]. simpl. unfold reserve_one.
  rewrite (proj2 (Z.ltb_ge _ _) Hx). exact IH.
Qed.

(** What a list of ranges leads to, with the cells from [x] on. *)
Definition list_done (x : Z) (h h' : store) (acc : list (Z * Z)) : Prop :=
  reserving (x + Z.of_nat (List.length acc)) h' /\
  (forall j s e, acc !! j = Some (s, e) ->
     rng h' (reserve (x + Z.of_nat j)) = Some (s, e) /\ par h' (reserve (x + Z.of_nat j)) = Some (root_of s)) /\
  keeps h h' (fun y => exists k, x <= k < MAXRESERVE /\ y = reserve k).

Lemma list_done_cons x h h1 h' s e acc : 0 <= x < MAXRESERVE -> keeps h h1 (fun y => y = reserve x) ->
  rng h1 (reserve x) = Some (s, e) -> par h1 (reserve x) = Some (root_of s) ->
  list_done (x + 1) h1 h' acc -> list_done x h h' ((s, e) :: acc).
Proof using All.
  intros Hx Hk Hg Hp (Hres & Hacc & Hk'). split_and!.
  - simpl List.length. by replace (x + Z.of_nat (S (List.length acc))) with (x + 1 + Z.of_nat (List.length acc)) by lia.
  - intros [|j] s' e' Hj; simpl in Hj.
    + injection Hj as <- <-. rewrite Z.add_0_r. destruct (Hk' (reserve x)) as [-> ->]; [|done].
      intros (k & Hk1 & Ek). apply Hcells in Ek; lia.
    + replace (x + Z.of_nat (S j)) with (x + 1 + Z.of_nat j) by lia. by apply Hacc.
  - intros y Hy. destruct (Hk' y) as [-> ->]; [intros (k & ? & ->); apply Hy; exists k; split; [lia|done]|].
    apply Hk. intros ->. apply Hy. exists x. split; [lia|done].
Qed.

Lemma list_done_skip x h h1 h' acc : 0 <= x < MAXRESERVE -> keeps h h1 (fun y => y = reserve x) ->
  list_done x h1 h' acc -> list_done x h h' acc.
Proof.
  intros Hx Hk (Hres & Hacc & Hk'). split_and!; [done|done|]. intros y Hy. destruct (Hk' y Hy) as [-> ->].
  apply Hk. intros ->. apply Hy. exists x. split; [lia|done].
Qed.

Lemma reserve_list_ranges ps : forall x h io mem, reserving x h -> area_of h ioport io -> area_of h iomem mem ->
  let acc := reserve_ranges ps x io mem in
  exists h', reserve_list ps x h = Some (x + Z.of_nat (List.length acc), h') /\ list_done x h h' acc.
Proof using All.
  induction ps as [|[a n] ps IH]; intros x h io mem Hres Hio Hmem.
  { exists h. simpl. rewrite Z.add_0_r. split; [done|]. split_and!; [simpl; by rewrite Z.add_0_r|done|done]. }
  cbn [reserve_ranges]. destruct (Z.leb_spec 4 x) as [Hx|Hx].
  { exists h. rewrite reserve_list_full by (unfold MAXRESERVE; lia). simpl. rewrite Z.add_0_r. split; [done|].
    split_and!; [simpl; by rewrite Z.add_0_r|done|done]. }
  pose proof Hres as [Hreach [rio Erio] [rmem Ermem] Hrg _ Hfree]. assert (Hx4 : x < MAXRESERVE) by (unfold MAXRESERVE; lia).
  destruct (Hroots x ltac:(lia)) as (_ & Hxio & Hxmem). destruct (reachable_good h Hreach) as (kids & rank & ok).
  assert (Hio0 : ioport <> 0) by (intros ->; by rewrite (t_null _ _ _ ok) in Erio).
  assert (Hmem0 : iomem <> 0) by (intros ->; by rewrite (t_null _ _ _ ok) in Ermem).
  assert (Hidle : par h (reserve x) = Some 0).
  { destruct (Hfree x ltac:(lia)) as (m & Hm & Hp & _). unfold par. rewrite Hm. simpl. by rewrite Hp. }
  destruct (reserve_one_step x a n h Hres) as (x' & h1 & E & Hres1 & Hk0 & Hcase).
  assert (Hk : keeps h h1 (fun y => y = reserve x)) by (intros y Hy; apply Hk0; tauto).
  change (a mod 2 ^ 32) with (u32 a). change ((a + n - 1) mod 2 ^ 32) with (u32 (a + n - 1)).
  cbn [reserve_list]. rewrite E. cbn [mbind option_bind]. set (s := u32 a) in *. set (e := u32 (a + n - 1)) in *.
  destruct Hcase as [(-> & _ & Hroom & Hg & Hp)|(-> & Hno)].
  - unfold root_of in Hroom, Hp. destruct (s <? 65536) eqn:Es.
    + rewrite (proj2 (area_room h ioport io s e Hio) Hroom).
      destruct (IH (x + 1) h1 (occupy io s e) mem Hres1) as (h' & -> & Hd);
        [by eapply area_occupy|by eapply area_same|].
      exists h'. split; [f_equal; f_equal; simpl; lia|]. apply (list_done_cons x h h1); [lia|done|done| |done].
      unfold root_of. by rewrite Es.
    + rewrite (proj2 (area_room h iomem mem s e Hmem) Hroom).
      destruct (IH (x + 1) h1 io (occupy mem s e) Hres1) as (h' & -> & Hd);
        [eapply (area_same _ _ ioport); try done; congruence|by eapply area_occupy|].
      exists h'. split; [f_equal; f_equal; simpl; lia|]. apply (list_done_cons x h h1); [lia|done|done| |done].
      unfold root_of. by rewrite Es.
  - destruct (Hno Hx4) as [Hroom Hp]. unfold root_of in Hroom.
    destruct (IH x h1 io mem Hres1) as (h' & E' & Hd); [by eapply area_same; try done|by eapply area_same; try done|].
    assert (Hskip : list_done x h h' (reserve_ranges ps x io mem)) by (apply (list_done_skip x h h1); [lia|done|done]).
    destruct (s <? 65536).
    + destruct (is_free io s e) eqn:Ef; [by apply (area_room h ioport io s e Hio) in Ef|]. by exists h'.
    + destruct (is_free mem s e) eqn:Ef; [by apply (area_room h iomem mem s e Hmem) in Ef|]. by exists h'.
Qed.

(** Every string is read to its end. *)
Lemma reserve_loop fuel : forall str reserved h,
  (List.length str < fuel)%nat -> reserving reserved h ->
  exists reserved' h', loop fuel reserve_body (Some str, reserved, h) = Some (Some (reserved', h')) /\
    reserved <= reserved' /\ reserving reserved' h'.
Proof using All.
  induction fuel as [|fuel IH]; intros str reserved h Hf Hres; [lia|]. rewrite loop_S. unfold reserve_body at 1.
  assert (Hstop : exists reserved' h', Some (Some (reserved, h)) = Some (Some (reserved', h')) /\
    reserved <= reserved' /\ reserving reserved' h') by (exists reserved, h; split; [done|]; split; [lia|done]).
  destruct (get_option (Some str) 0) as [[r1 s1] v1] eqn:E1. destruct (Z.eqb_spec r1 2) as [->|]; [cbn [negb]|done].
  destruct (get_option_consumes _ _ _ _ _ E1) as [|(t1 & -> & Hl1)]; [done|].
  destruct (get_option (Some t1) 0) as [[r2 s2] v2] eqn:E2. destruct (Z.eqb_spec r2 0) as [|Hr2]; [done|].
  destruct (get_option_consumes _ _ _ _ _ E2) as [|(t2 & -> & Hl2)]; [done|].
  destruct (reserve_one_spec reserved v1 v2 h Hres) as (x' & h' & -> & Hle & Hres').
  destruct (IH t2 x' h') as (x2 & h2 & -> & Hle2 & Hres2); [lia|done|]. exists x2, h2. split; [done|]. split; [lia|done].
Qed.

(** The text of the ranges. *)
Definition pairs_text (ps : list (Z * Z)) : list Z := options_text (List.concat ((fun p => [p.1; p.2]) <$> ps)) [].

Lemma pairs_text_cons p ps :
  pairs_text (p :: ps) = (decimal p.1 ++ chr "," :: decimal p.2 ++ match ps with [] => [] | _ => chr "," :: pairs_text ps end)%list.
Proof. unfold pairs_text. destruct ps as [|q ps]; reflexivity. Qed.

Lemma reserve_pairs ps : Forall (fun p => is_s32 p.1 /\ is_s32 p.2) ps -> forall fuel reserved h,
  (List.length ps < fuel)%nat ->
  mjoin (loop fuel reserve_body (Some (pairs_text ps), reserved, h)) = reserve_list ps reserved h.
Proof.
  induction 1 as [|p ps [H1 H2] Hf IH]; intros fuel reserved h Hfuel; (destruct fuel as [|fuel]; [simpl in Hfuel; lia|]);
    rewrite loop_S; unfold reserve_body at 1; [done|].
  rewrite pairs_text_cons. rewrite get_option_decimal; [|done|apply ends_comma].
  change (char0 (chr "," :: ?l) =? chr ",") with true. cbv iota. change (negb (2 =? 2)) with false. cbv iota.
  set (more := match ps with [] => [] | _ => chr "," :: pairs_text ps end).
  assert (Hmore : ends_number 10 more) by (unfold more; destruct ps; [done|apply ends_comma]).
  change (tail (chr "," :: decimal p.2 ++ more)) with (decimal p.2 ++ more).
  rewrite get_option_decimal by done. simpl reserve_list. destruct p as [a n]. cbn [fst snd].
  destruct ps as [|q ps].
  - subst more. change (char0 [] =? chr ",") with false. cbv iota. change (1 =? 0) with false. cbv iota.
    destruct (reserve_one reserved a n h) as [[x' h']|]; [|done]. apply (IH fuel x' h'). simpl in *. lia.
  - subst more. change (char0 (chr "," :: _) =? chr ",") with true. cbv iota. change (2 =? 0) with false. cbv iota.
    destruct (reserve_one reserved a n h) as [[x' h']|]; [|done]. apply (IH fuel x' h'). simpl in *. lia.
Qed.
End reserve.

(** The cells of the static array: four idle resources apart from the roots. *)
Definition cells_ok (ioport iomem : Z) (reserve : Z -> Z) : Prop :=
  (forall x y, 0 <= x < MAXRESERVE -> 0 <= y < MAXRESERVE -> reserve x = reserve y -> x = y) /\
  (forall x, 0 <= x < MAXRESERVE -> reserve x <> 0 /\ reserve x <> ioport /\ reserve x <> iomem) /\
  ioport <> iomem.

Lemma pairs_length ps : (List.length ps <= List.length (pairs_text ps))%nat.
Proof.
  induction ps as [|p ps IH]; [done|]. rewrite pairs_text_cons, length_app. cbn [List.length]. rewrite length_app.
  destruct ps; cbn [List.length] in *; lia.
Qed.

(** The store at boot: the roots at 1 and 2, the array from 10 on. *)
Definition blank : resource := {| start := 0; end_ := 0; flags := 0; parent := 0; sibling := 0; child := 0 |}.
Definition reserve_boot : store := <[10 := blank]> (<[11 := blank]> (<[12 := blank]> (<[13 := blank]> boot_store))).

Lemma boot_reserving : cells_ok 1 2 (fun x => 10 + x) /\ reserving 1 2 (fun x => 10 + x) 0 reserve_boot.
Proof.
  assert (Hb : is_u32 (start blank) /\ is_u32 (end_ blank)) by (split; by_eval). destruct Hb.
  assert (Hstep : forall h x, reachable h -> h !! x = None -> x <> 0 -> reachable (<[x := blank]> h)).
  { intros h x Hr Hn Hx. apply (reach_step h _ (SetUp x blank) 0); [done|done|]. by exists 0%nat. }
  split; [split_and!; [intros; lia|unfold MAXRESERVE; lia|done]|]. split.
  - unfold reserve_boot. do 4 (apply Hstep; [|done|done]). apply boot_reachable.
  - by eexists.
  - by eexists.
  - unfold MAXRESERVE. lia.
  - intros k Hk. lia.
  - intros k Hk. unfold MAXRESERVE in Hk. assert (Hcase : k = 0 \/ k = 1 \/ k = 2 \/ k = 3) by lia.
    destruct Hcase as [-> |[-> |[-> | ->]]]; by exists blank.
Qed.

(** C15: The reserve= option.  From every store that resource calls lead to, with the cells
    of the array idle from [reserved] on, the option with any string returns 1, leads to
    such a store again (so that the resources stay nested and disjoint), and makes at most
    four reservations in all, each a busy child of one of the two roots, while the other
    cells stay idle.  The text of a list of starts and lengths (32-bit numbers) reserves the
    ranges that [reserve_ranges] computes from the areas that are in use, in this order: a range
    goes from the start to start + length - 1 (modulo 2^32), to the ports when it starts below 0x10000 and to the
    memory otherwise, and is left out when it overlaps one that is in use, lies outside of its root or when four
    cells are in use; each reserved range is in the next cell, and nothing else has
    another range or parent.  The length 0 behind the start 0 is the whole port space. *)
Theorem reserve_setup_correct ioport iomem reserve reserved h :
  cells_ok ioport iomem reserve -> reserving ioport iomem reserve reserved h ->
  (forall str, exists reserved' h',
     reserve_setup ioport iomem reserve str reserved h = Some (1, reserved', h') /\
     reserved <= reserved' /\ reserving ioport iomem reserve reserved' h') /\
  (forall ps io mem, Forall (fun p => is_s32 p.1 /\ is_s32 p.2) ps ->
     area_of h ioport io -> area_of h iomem mem ->
     let acc := reserve_ranges ps reserved io mem in
     let reserved' := reserved + Z.of_nat (List.length acc) in
     exists h', reserve_setup ioport iomem reserve (pairs_text ps) reserved h = Some (1, reserved', h') /\
       reserving ioport iomem reserve reserved' h' /\
       (forall j s e, acc !! j = Some (s, e) ->
          rng h' (reserve (reserved + Z.of_nat j)) = Some (s, e) /\
          par h' (reserve (reserved + Z.of_nat j)) = Some (if s <? 0x10000 then ioport else iomem)) /\
       keeps h h' (fun y => exists k, reserved <= k < MAXRESERVE /\ y = reserve k)) /\
  (exists h' n, reserve_setup 1 2 (fun x => 10 + x) (txt "0,0") 0 reserve_boot = Some (1, 1, h') /\
     h' !! 10 = Some n /\ start n = 0 /\ end_ n = 0xffffffff /\ parent n = 1).
Proof.
  intros (Hc1 & Hc2 & Hc3) Hres. split; [|split].
  - intros str. destruct (reserve_loop ioport iomem reserve Hc1 Hc2 Hc3 (S (List.length str)) str reserved h) as (x & h' & E & Hle & H); [lia|done|].
    exists x, h'. unfold reserve_setup. by rewrite E.
  - intros ps io mem Hps Hio Hmem acc reserved'.
    destruct (reserve_list_ranges ioport iomem reserve Hc1 Hc2 Hc3 ps reserved h io mem Hres Hio Hmem) as (h' & E & D1 & D2 & D3).
    exists h'. split_and!; [|done|done|done]. unfold reserve_setup.
    rewrite reserve_pairs; [by rewrite E|done|]. pose proof (pairs_length ps). lia.
  - do 2 eexists. split; [vm_compute; reflexivity|]. split; [reflexivity|].
    split; [reflexivity|]. split; reflexivity.
Qed.

(** Nothing is in use at boot. *)
Lemma boot_areas : area_of reserve_boot 1 (Area 0 0xffffffff []) /\ area_of reserve_boot 2 (Area 0 0xffffffff []).
Proof.
  assert (H : map_Forall (fun _ n => parent n = 0) reserve_boot).
  { unfold reserve_boot, boot_store. repeat (apply map_Forall_insert_2; [done|]). apply map_Forall_empty. }
  assert (Hp : forall d p, par reserve_boot d = Some p -> p = 0).
  { intros d p Hd. unfold par in Hd. destruct (reserve_boot !! d) as [n|] eqn:E; [|done]. injection Hd as <-. by apply (H d n). }
  split; (split; [vm_compute; reflexivity|]); intros s e; simpl; rewrite elem_of_nil;
    (split; [done|]); intros (d & _ & Hd%Hp); done.
Qed.

Lemma reserve_setup_witness : exists h',
  reserve_setup 1 2 (fun x => 10 + x) (pairs_text [(0x60, 16); (0x100000, 4096); (0x68, 2); (0x80, 1)]) 0 reserve_boot = Some (1, 3, h') /\
  rng h' 10 = Some (0x60, 0x6f) /\ par h' 10 = Some 1 /\ rng h' 11 = Some (0x100000, 0x100fff) /\ par h' 11 = Some 2 /\
  rng h' 12 = Some (0x80, 0x80) /\ par h' 12 = Some 1.
Proof.
  destruct boot_reserving as [Hc Hr], boot_areas as [Hio Hmem].
  destruct (reserve_setup_correct 1 2 (fun x => 10 + x) 0 reserve_boot Hc Hr) as (_ & H & _).
  destruct (H [(0x60, 16); (0x100000, 4096); (0x68, 2); (0x80, 1)] _ _ ltac:(repeat constructor; by_eval) Hio Hmem) as (h' & E & _ & Hacc & _).
  exists h'. split; [exact E|].
  destruct (Hacc 0%nat 0x60 0x6f eq_refl) as [A1 A2], (Hacc 1%nat 0x100000 0x100fff eq_refl) as [B1 B2],
    (Hacc 2%nat 0x80 0x80 eq_refl) as [C1 C2].
  exact (conj A1 (conj A2 (conj B1 (conj B2 (conj C1 C2))))).
Defined.
