(* ===== verification/Rbtree.v ===== *)
(** lib/rbtree.c and include/linux/rbtree.h: red-black trees on linked nodes.

    The nodes are records in a store indexed by addresses, 0 being NULL; a tree is the
    store with the pointer of its struct rb_root.  The store also has the nodes that are in no
    tree, or in another one.  [None] is a dereference of NULL or of an address without a
    node, or the end of the fuel; the loops take the number of nodes as fuel. *)
From stdpp Require Import base list gmap numbers option.
From Stdlib Require Import ZArith Lia.
From S2P Require Import Prelude.

Local Open Scope Z_scope.

Definition RB_RED : Z := 0.
Definition RB_BLACK : Z := 1.

Record rb_node := RbNode {
  rb_parent : Z;
  rb_color : Z;
  rb_right : Z;
  rb_left : Z
}.

Record rb_root := RbRoot { nodes : gmap Z rb_node; root_node : Z }.

Definition set_rb_parent (v : Z) (n : rb_node) : rb_node :=
  RbNode v (rb_color n) (rb_right n) (rb_left n).
Definition set_rb_color (v : Z) (n : rb_node) : rb_node :=
  RbNode (rb_parent n) v (rb_right n) (rb_left n).
Definition set_rb_right (v : Z) (n : rb_node) : rb_node :=
  RbNode (rb_parent n) (rb_color n) v (rb_left n).
Definition set_rb_left (v : Z) (n : rb_node) : rb_node :=
  RbNode (rb_parent n) (rb_color n) (rb_right n) v.

(** [a->field = v] is [write s a (set_field v)]; [root->rb_node = a] is [set_root s a]. *)
Definition write (s : rb_root) (a : Z) (f : rb_node -> rb_node) : option rb_root :=
  n ← nodes s !! a; Some (RbRoot (<[a := f n]> (nodes s)) (root_node s)).
Definition set_root (s : rb_root) (a : Z) : rb_root := RbRoot (nodes s) a.

(** [if (a) a->field = v]. *)
Definition write_opt (s : rb_root) (a : Z) (f : rb_node -> rb_node) : option rb_root :=
  if a =? 0 then Some s else write s a f.

(** [if (parent) ... = new; else root->rb_node = new], where the place of [parent] that
    points to [old] gets the new value. *)
Definition replace_child (s : rb_root) (parent old new : Z) : option rb_root :=
  if parent =? 0 then Some (set_root s new)
  else
    p ← nodes s !! parent;
    if rb_left p =? old then write s parent (set_rb_left new)
    else write s parent (set_rb_right new).

(** ** Rotations *)

Definition __rb_rotate_left (s : rb_root) (node : Z) : option rb_root :=
  n ← nodes s !! node;
  let right := rb_right n in
  r ← nodes s !! right;
  s ← write s node (set_rb_right (rb_left r));
  s ← write_opt s (rb_left r) (set_rb_parent node);
  s ← write s right (set_rb_left node);
  n ← nodes s !! node;
  s ← write s right (set_rb_parent (rb_parent n));
  s ← replace_child s (rb_parent n) node right;
  write s node (set_rb_parent right).

Definition __rb_rotate_right (s : rb_root) (node : Z) : option rb_root :=
  n ← nodes s !! node;
  let left := rb_left n in
  l ← nodes s !! left;
  s ← write s node (set_rb_left (rb_right l));
  s ← write_opt s (rb_right l) (set_rb_parent node);
  s ← write s left (set_rb_right node);
  n ← nodes s !! node;
  s ← write s left (set_rb_parent (rb_parent n));
  s ← (if rb_parent n =? 0 then Some (set_root s left)
       else
         p ← nodes s !! rb_parent n;
         if rb_right p =? node then write s (rb_parent n) (set_rb_right left)
         else write s (rb_parent n) (set_rb_left left));
  write s node (set_rb_parent left).

(** ** Insertion *)

(** The places that rb_link may point to. *)
Inductive link := RootLink | LeftLink (p : Z) | RightLink (p : Z).

Definition rb_link_node (s : rb_root) (node parent : Z) (rb_link : link) : option rb_root :=
  s ← write s node (set_rb_parent parent);
  s ← write s node (set_rb_color RB_RED);
  s ← write s node (set_rb_right 0);
  s ← write s node (set_rb_left 0);
  match rb_link with
  | RootLink => Some (set_root s node)
  | LeftLink p => write s p (set_rb_left node)
  | RightLink p => write s p (set_rb_right node)
  end.

(** [a && a->rb_color == RB_RED] *)
Definition is_red (s : rb_root) (a : Z) : option bool :=
  if a =? 0 then Some false else n ← nodes s !! a; Some (rb_color n =? RB_RED).

(** [!a || a->rb_color == RB_BLACK] *)
Definition null_or_black (s : rb_root) (a : Z) : option bool :=
  if a =? 0 then Some true else n ← nodes s !! a; Some (rb_color n =? RB_BLACK).

(** The two branches of the loop of rb_insert_color; they end with the next [node]. *)
Definition insert_left (s : rb_root) (node parent gparent : Z) : option (rb_root * Z) :=
  g ← nodes s !! gparent;
  let uncle := rb_right g in
  red ← is_red s uncle;
  if (red : bool) then
    s ← write s uncle (set_rb_color RB_BLACK);
    s ← write s parent (set_rb_color RB_BLACK);
    s ← write s gparent (set_rb_color RB_RED);
    Some (s, gparent)
  else
    p ← nodes s !! parent;
    '(s, parent, node) ←
      (if rb_right p =? node then
         s ← __rb_rotate_left s parent; Some (s, node, parent)
       else Some (s, parent, node));
    s ← write s parent (set_rb_color RB_BLACK);
    s ← write s gparent (set_rb_color RB_RED);
    s ← __rb_rotate_right s gparent;
    Some (s, node).

Definition insert_right (s : rb_root) (node parent gparent : Z) : option (rb_root * Z) :=
  g ← nodes s !! gparent;
  let uncle := rb_left g in
  red ← is_red s uncle;
  if (red : bool) then
    s ← write s uncle (set_rb_color RB_BLACK);
    s ← write s parent (set_rb_color RB_BLACK);
    s ← write s gparent (set_rb_color RB_RED);
    Some (s, gparent)
  else
    p ← nodes s !! parent;
    '(s, parent, node) ←
      (if rb_left p =? node then
         s ← __rb_rotate_right s parent; Some (s, node, parent)
       else Some (s, parent, node));
    s ← write s parent (set_rb_color RB_BLACK);
    s ← write s gparent (set_rb_color RB_RED);
    s ← __rb_rotate_left s gparent;
    Some (s, node).

(** The next turn of a loop whose body may fail. *)
Definition next_turn {S R : Type} (o : option S) : S + option R :=
  match o with Some s => inl s | None => inr None end.

Definition insert_body (st : rb_root * Z) : (rb_root * Z) + option rb_root :=
  let '(s, node) := st in
  match nodes s !! node with
  | None => inr None
  | Some n =>
      let parent := rb_parent n in
      if parent =? 0 then inr (Some s)
      else
        match nodes s !! parent with
        | None => inr None
        | Some p =>
            if rb_color p =? RB_RED then
              let gparent := rb_parent p in
              next_turn
                (g ← nodes s !! gparent;
                 if parent =? rb_left g then insert_left s node parent gparent
                 else insert_right s node parent gparent)
            else inr (Some s)
        end
  end.

Definition rb_insert_color (s : rb_root) (node : Z) : option rb_root :=
  s ← mjoin (loop (S (size (nodes s))) insert_body (s, node));
  write s (root_node s) (set_rb_color RB_BLACK).

(** ** Removal *)

(** What a turn of the loop of __rb_erase_color ends with: the next node and parent, or
    the node of [break]. *)
Inductive erase_turn := Again (s : rb_root) (node parent : Z) | Break (s : rb_root) (node : Z).

(** Both children of [other] are black or missing. *)
Definition children_black (s : rb_root) (o : rb_node) : option bool :=
  l ← null_or_black s (rb_left o);
  if (l : bool) then null_or_black s (rb_right o) else Some false.

Definition erase_left (s : rb_root) (node parent : Z) : option erase_turn :=
  p ← nodes s !! parent;
  let other := rb_right p in
  o ← nodes s !! other;
  '(s, other) ←
    (if rb_color o =? RB_RED then
       s ← write s other (set_rb_color RB_BLACK);
       s ← write s parent (set_rb_color RB_RED);
       s ← __rb_rotate_left s parent;
       p ← nodes s !! parent; Some (s, rb_right p)
     else Some (s, other));
  o ← nodes s !! other;
  black ← children_black s o;
  if (black : bool) then
    s ← write s other (set_rb_color RB_RED);
    p ← nodes s !! parent;
    Some (Again s parent (rb_parent p))
  else
    black ← null_or_black s (rb_right o);
    '(s, other) ←
      (if (black : bool) then
         s ← write_opt s (rb_left o) (set_rb_color RB_BLACK);
         s ← write s other (set_rb_color RB_RED);
         s ← __rb_rotate_right s other;
         p ← nodes s !! parent; Some (s, rb_right p)
       else Some (s, other));
    p ← nodes s !! parent;
    s ← write s other (set_rb_color (rb_color p));
    s ← write s parent (set_rb_color RB_BLACK);
    o ← nodes s !! other;
    s ← write_opt s (rb_right o) (set_rb_color RB_BLACK);
    s ← __rb_rotate_left s parent;
    Some (Break s (root_node s)).

Definition erase_right (s : rb_root) (node parent : Z) : option erase_turn :=
  p ← nodes s !! parent;
  let other := rb_left p in
  o ← nodes s !! other;
  '(s, other) ←
    (if rb_color o =? RB_RED then
       s ← write s other (set_rb_color RB_BLACK);
       s ← write s parent (set_rb_color RB_RED);
       s ← __rb_rotate_right s parent;
       p ← nodes s !! parent; Some (s, rb_left p)
     else Some (s, other));
  o ← nodes s !! other;
  black ← children_black s o;
  if (black : bool) then
    s ← write s other (set_rb_color RB_RED);
    p ← nodes s !! parent;
    Some (Again s parent (rb_parent p))
  else
    black ← null_or_black s (rb_left o);
    '(s, other) ←
      (if (black : bool) then
         s ← write_opt s (rb_right o) (set_rb_color RB_BLACK);
         s ← write s other (set_rb_color RB_RED);
         s ← __rb_rotate_left s other;
         p ← nodes s !! parent; Some (s, rb_left p)
       else Some (s, other));
    p ← nodes s !! parent;
    s ← write s other (set_rb_color (rb_color p));
    s ← write s parent (set_rb_color RB_BLACK);
    o ← nodes s !! other;
    s ← write_opt s (rb_left o) (set_rb_color RB_BLACK);
    s ← __rb_rotate_right s parent;
    Some (Break s (root_node s)).

Definition erase_body (st : rb_root * Z * Z) : (rb_root * Z * Z) + option (rb_root * Z) :=
  let '(s, node, parent) := st in
  match null_or_black s node with
  | None => inr None
  | Some black =>
      if black && negb (node =? root_node s) then
        match (p ← nodes s !! parent;
               if rb_left p =? node then erase_left s node parent
               else erase_right s node parent) with
        | None => inr None
        | Some (Again s node parent) => inl (s, node, parent)
        | Some (Break s node) => inr (Some (s, node))
        end
      else inr (Some (s, node))
  end.

Definition __rb_erase_color (s : rb_root) (node parent : Z) : option rb_root :=
  '(s, node) ← mjoin (loop (S (S (size (nodes s)))) erase_body (s, node, parent));
  write_opt s node (set_rb_color RB_BLACK).

(** [while (n->rb_left) n = n->rb_left], and the same to the right. *)
Definition leftmost_body (s : rb_root) (n : Z) : Z + option Z :=
  match nodes s !! n with
  | None => inr None
  | Some x => if rb_left x =? 0 then inr (Some n) else inl (rb_left x)
  end.

Definition rightmost_body (s : rb_root) (n : Z) : Z + option Z :=
  match nodes s !! n with
  | None => inr None
  | Some x => if rb_right x =? 0 then inr (Some n) else inl (rb_right x)
  end.

Definition leftmost (s : rb_root) (n : Z) : option Z :=
  mjoin (loop (S (size (nodes s))) (leftmost_body s) n).
Definition rightmost (s : rb_root) (n : Z) : option Z :=
  mjoin (loop (S (size (nodes s))) (rightmost_body s) n).

(** [node] leaves its place to [child], its only subtree. *)
Definition unlink (s : rb_root) (node parent child : Z) : option rb_root :=
  s ← write_opt s child (set_rb_parent parent);
  replace_child s parent node child.

(** [node] takes the place of [old]. *)
Definition take_place (s : rb_root) (old node : Z) : option rb_root :=
  o ← nodes s !! old;
  s ← write s node (set_rb_parent (rb_parent o));
  s ← write s node (set_rb_color (rb_color o));
  s ← write s node (set_rb_right (rb_right o));
  s ← write s node (set_rb_left (rb_left o));
  s ← replace_child s (rb_parent o) old node;
  o ← nodes s !! old;
  s ← write s (rb_left o) (set_rb_parent node);
  write_opt s (rb_right o) (set_rb_parent node).

(** The branch of rb_erase for a node with two children: the next node in order, [node],
    leaves its place and takes the one of [old].  Returns the child, the parent
    and the colour for the label [color]. *)
Definition erase_two (s : rb_root) (old : Z) : option (rb_root * Z * Z * Z) :=
  o ← nodes s !! old;
  node ← leftmost s (rb_right o);
  n ← nodes s !! node;
  let child := rb_right n in
  let parent := rb_parent n in
  let color := rb_color n in
  s ← unlink s node parent child;
  n ← nodes s !! node;
  let parent := if rb_parent n =? old then node else parent in
  s ← take_place s old node;
  Some (s, child, parent, color).

Definition rb_erase (s : rb_root) (node : Z) : option rb_root :=
  n ← nodes s !! node;
  '(s, child, parent, color) ←
    (if negb (rb_left n =? 0) && negb (rb_right n =? 0) then erase_two s node
     else
       let child := if rb_left n =? 0 then rb_right n else rb_left n in
       s ← unlink s node (rb_parent n) child;
       Some (s, child, rb_parent n, rb_color n));
  if color =? RB_BLACK then __rb_erase_color s child parent else Some s.

(** ** Walking and replacing *)

Definition rb_first (s : rb_root) : option Z :=
  if root_node s =? 0 then Some 0 else leftmost s (root_node s).

Definition rb_last (s : rb_root) : option Z :=
  if root_node s =? 0 then Some 0 else rightmost s (root_node s).

(** [while (node->rb_parent && node == node->rb_parent->rb_right) node = node->rb_parent;
    return node->rb_parent], and the same with the left child. *)
Definition up_right_body (s : rb_root) (node : Z) : Z + option Z :=
  match nodes s !! node with
  | None => inr None
  | Some n =>
      if rb_parent n =? 0 then inr (Some 0)
      else
        match nodes s !! rb_parent n with
        | None => inr None
        | Some p => if node =? rb_right p then inl (rb_parent n) else inr (Some (rb_parent n))
        end
  end.

Definition up_left_body (s : rb_root) (node : Z) : Z + option Z :=
  match nodes s !! node with
  | None => inr None
  | Some n =>
      if rb_parent n =? 0 then inr (Some 0)
      else
        match nodes s !! rb_parent n with
        | None => inr None
        | Some p => if node =? rb_left p then inl (rb_parent n) else inr (Some (rb_parent n))
        end
  end.

Definition rb_next (s : rb_root) (node : Z) : option Z :=
  n ← nodes s !! node;
  if rb_right n =? 0 then mjoin (loop (S (size (nodes s))) (up_right_body s) node)
  else leftmost s (rb_right n).

Definition rb_prev (s : rb_root) (node : Z) : option Z :=
  n ← nodes s !! node;
  if rb_left n =? 0 then mjoin (loop (S (size (nodes s))) (up_left_body s) node)
  else rightmost s (rb_left n).

Definition rb_replace_node (s : rb_root) (victim new : Z) : option rb_root :=
  v ← nodes s !! victim;
  s ← replace_child s (rb_parent v) victim new;
  v ← nodes s !! victim;
  s ← write_opt s (rb_left v) (set_rb_parent new);
  s ← write_opt s (rb_right v) (set_rb_parent new);
  v ← nodes s !! victim;
  write s new (fun _ => v).
