(* ===== verification/RbtreeShape.v ===== *)
(** The nodes of lib/rbtree.c as trees.

    [cells] lists the nodes of a tree as they are in memory, [focus s C t] says that the
    store has the subtree [t] in the context [C], which lists the nodes above it with their
    other subtrees.  The assignments of the code act on single cells; rotations,
    recolourings, and the steps that link and unlink a node are lifted to trees here,
    so that the algorithms can be followed on trees alone. *)
From stdpp Require Import base list gmap numbers option list_tactics.
From Stdlib Require Import ZArith Lia.
From S2P Require Import Prelude Rbtree.

Local Open Scope Z_scope.

(** ** Cells of the store *)

Notation cell := (Z * rb_node)%type.

Record mem_ok (h : gmap Z rb_node) (l : list cell) : Prop := {
  mem_nodup : NoDup l.*1;
  mem_holds : Forall (fun c : cell => c.1 <> 0 /\ h !! c.1 = Some c.2) l
}.

#[export] Instance mem_ok_proper h : Proper ((≡ₚ) ==> iff) (mem_ok h).
Proof. intros l l' E. split; intros [N F]; split; by rewrite <- ?E || rewrite ?E. Qed.

(** The addresses outside of [l] keep their contents. *)
Definition same_outside (l : list Z) (s s' : rb_root) : Prop :=
  dom (nodes s') = dom (nodes s) /\ forall a, a ∉ l -> nodes s' !! a = nodes s !! a.

Lemma same_outside_refl l s : same_outside l s s.
Proof. done. Qed.

Lemma same_outside_trans l s1 s2 s3 :
  same_outside l s1 s2 -> same_outside l s2 s3 -> same_outside l s1 s3.
Proof. intros [D1 E1] [D2 E2]. split; [congruence|]. intros a Ha. by rewrite E2, E1. Qed.

Lemma same_outside_sub l l' s s' :
  (forall a, a ∈ l -> a ∈ l') -> same_outside l s s' -> same_outside l' s s'.
Proof. intros H [D E]. split; [done|]. intros a Ha. apply E. intros ?. by apply Ha, H. Qed.

Create HintDb rb.
Create Rewrite HintDb rb_rw.
#[export] Hint Resolve same_outside_refl : rb.

Lemma mem_lookup h l a n : mem_ok h l -> (a, n) ∈ l -> h !! a = Some n.
Proof. intros [_ F] Hin. rewrite Forall_forall in F. by apply (F (a, n)). Qed.

Lemma mem_nonnull h l a n : mem_ok h l -> (a, n) ∈ l -> a <> 0.
Proof. intros [_ F] Hin. rewrite Forall_forall in F. by apply (F (a, n)). Qed.

Lemma mem_write (s : rb_root) l l0 a n f : mem_ok (nodes s) l -> l ≡ₚ (a, n) :: l0 ->
  exists s', write s a f = Some s' /\ mem_ok (nodes s') ((a, f n) :: l0) /\
    root_node s' = root_node s /\ same_outside l.*1 s s'.
Proof.
  intros H E. assert (Ha : a ∈ l.*1) by (rewrite E; left).
  rewrite E in H. assert (L : nodes s !! a = Some n) by (eapply mem_lookup; [done|left]).
  unfold write. rewrite L. simpl. eexists. split; [done|]. destruct H as [N F]. simpl in *.
  apply NoDup_cons in N as [N1 N]. apply Forall_cons in F as [[F1 _] F]. split_and!; [|done|].
  - split; simpl; [by constructor|]. constructor; [simpl; by rewrite lookup_insert_eq|].
    rewrite Forall_forall in *. intros [b m] Hin. simpl. destruct (F _ Hin). simpl in *.
    rewrite lookup_insert_ne; [done|]. intros <-. apply N1. apply list_elem_of_fmap. by exists (a, m).
  - split; simpl.
    + apply dom_insert_lookup_L. by rewrite L.
    + intros b Hb. rewrite lookup_insert_ne; [done|]. by intros ->.
Qed.

Lemma mem_size h l : mem_ok h l -> (length l <= size h)%nat.
Proof.
  intros [N F]. rewrite <- size_dom, <- (length_fmap fst l).
  rewrite <- (size_list_to_set (C := gset Z) l.*1) by done. apply subseteq_size.
  intros a. rewrite elem_of_list_to_set, list_elem_of_fmap. intros ([b n] & -> & Hin).
  rewrite Forall_forall in F. apply elem_of_dom. simpl. destruct (F _ Hin). simpl in *. eauto.
Qed.

(** ** Trees *)

Inductive tree := Leaf | Node (c : Z) (l : tree) (x : Z) (r : tree).

#[export] Instance tree_eq_dec : EqDecision tree.
Proof. solve_decision. Defined.

Definition addr (t : tree) : Z := match t with Leaf => 0 | Node _ _ x _ => x end.

Fixpoint inorder (t : tree) : list Z :=
  match t with Leaf => [] | Node _ l x r => inorder l ++ x :: inorder r end.

Fixpoint cells (p : Z) (t : tree) : list cell :=
  match t with
  | Leaf => []
  | Node c l x r => cells x l ++ (x, RbNode p c (addr r) (addr l)) :: cells x r
  end.

(** The side on which a subtree is. *)
Inductive side := L | R.
#[export] Instance side_eq_dec : EqDecision side.
Proof. solve_decision. Defined.

Definition flip (d : side) : side := match d with L => R | R => L end.

(** A node with its subtrees on side [d] and on the other one. *)
Definition node (d : side) (c : Z) (t : tree) (x : Z) (u : tree) : tree :=
  match d with L => Node c t x u | R => Node c u x t end.

(** A node above the focus, which is on side [f_side] of it. *)
Record frame := Frame { f_side : side; f_color : Z; f_addr : Z; f_other : tree }.
Notation ctx := (list frame).

Definition plug1 (f : frame) (t : tree) : tree := node (f_side f) (f_color f) t (f_addr f) (f_other f).
Fixpoint plug (C : ctx) (t : tree) : tree :=
  match C with [] => t | f :: C => plug C (plug1 f t) end.

Definition top (C : ctx) : Z := match C with [] => 0 | f :: _ => f_addr f end.
Fixpoint root_of (C : ctx) (a : Z) : Z := match C with [] => a | f :: C => root_of C (f_addr f) end.

(** The node record with [a] on side [d]. *)
Definition rec (d : side) (p c a b : Z) : rb_node :=
  match d with L => RbNode p c b a | R => RbNode p c a b end.

Fixpoint ctx_cells (C : ctx) (a : Z) : list cell :=
  match C with
  | [] => []
  | f :: C => (f_addr f, rec (f_side f) (top C) (f_color f) a (addr (f_other f))) ::
                cells (f_addr f) (f_other f) ++ ctx_cells C (f_addr f)
  end.

Definition focus (s : rb_root) (C : ctx) (t : tree) : Prop :=
  mem_ok (nodes s) (cells (top C) t ++ ctx_cells C (addr t)) /\ root_node s = root_of C (addr t).

(** What comes before and after the focus. *)
Fixpoint before (C : ctx) : list Z :=
  match C with
  | [] => []
  | f :: C => before C ++ match f_side f with L => [] | R => inorder (f_other f) ++ [f_addr f] end
  end.
Fixpoint after (C : ctx) : list Z :=
  match C with
  | [] => []
  | f :: C => match f_side f with L => f_addr f :: inorder (f_other f) | R => [] end ++ after C
  end.

Lemma inorder_plug C t : inorder (plug C t) = before C ++ inorder t ++ after C.
Proof.
  revert t. induction C as [|[[] c x u] C IH]; intros t; simpl; [by rewrite app_nil_r| |];
    rewrite IH; unfold plug1; simpl; by rewrite <- ?app_assoc; simpl; rewrite <- ?app_assoc.
Qed.

Lemma cells_keys p t : (cells p t).*1 = inorder t.
Proof.
  revert p. induction t as [|c l IHl x r IHr]; intros p; [done|]. simpl.
  by rewrite fmap_app, fmap_cons, IHl, IHr.
Qed.

Lemma ctx_keys C a : (ctx_cells C a).*1 ≡ₚ before C ++ after C.
Proof.
  revert a. induction C as [|[[] c x u] C IH]; intros a; simpl; [done| |];
    rewrite fmap_app, cells_keys, IH; solve_Permutation.
Qed.

Lemma focus_keys C t : (cells (top C) t ++ ctx_cells C (addr t)).*1 ≡ₚ inorder (plug C t).
Proof. rewrite fmap_app, cells_keys, ctx_keys, inorder_plug. solve_Permutation. Qed.

Lemma addr_plug1 f t : addr (plug1 f t) = f_addr f.
Proof. by destruct f as [[] ? ? ?]. Qed.

(** Moving the focus up and down. *)
Lemma focus_up s f C t : focus s (f :: C) t <-> focus s C (plug1 f t).
Proof.
  unfold focus. rewrite addr_plug1. simpl.
  assert (E : cells (f_addr f) t ++ (f_addr f, rec (f_side f) (top C) (f_color f) (addr t) (addr (f_other f)))
      :: cells (f_addr f) (f_other f) ++ ctx_cells C (f_addr f)
    ≡ₚ cells (top C) (plug1 f t) ++ ctx_cells C (f_addr f)).
  { destruct f as [[] c x u]; unfold plug1; simpl; solve_Permutation. }
  by rewrite E.
Qed.

Lemma focus_plug s C t : focus s C t <-> focus s [] (plug C t).
Proof. revert t. induction C as [|f C IH]; intros t; [done|]. by rewrite focus_up, IH. Qed.

Lemma focus_nodup s C t : focus s C t -> NoDup (inorder (plug C t)).
Proof. intros [[N _] _]. by rewrite focus_keys in N. Qed.

(** ** Reading nodes *)

Lemma focus_node s C d c t x u : focus s C (node d c t x u) ->
  nodes s !! x = Some (rec d (top C) c (addr t) (addr u)) /\ x <> 0.
Proof.
  intros [H _].
  assert ((x, rec d (top C) c (addr t) (addr u)) ∈ cells (top C) (node d c t x u) ++
    ctx_cells C (addr (node d c t x u))) as Hin.
  { apply elem_of_app. left. destruct d; simpl; apply elem_of_app; right; left. }
  split; [by eapply mem_lookup|by eapply mem_nonnull].
Qed.

Lemma focus_frame s f C t : focus s (f :: C) t ->
  nodes s !! f_addr f = Some (rec (f_side f) (top C) (f_color f) (addr t) (addr (f_other f))) /\
  f_addr f <> 0.
Proof. rewrite focus_up. apply focus_node. Qed.

(** [addr t] is null exactly when [t] is a leaf. *)
Lemma focus_null s C t : focus s C t -> (addr t =? 0) = match t with Leaf => true | _ => false end.
Proof.
  intros H. destruct t as [|c l x r]; [done|]. apply Z.eqb_neq.
  exact (proj2 (focus_node _ _ L c l x r H)).
Qed.

(** Different subtrees have different addresses, unless both are empty. *)
Lemma focus_other s f C t : focus s (f :: C) t -> t <> Leaf \/ f_other f <> Leaf ->
  addr t <> addr (f_other f).
Proof.
  intros H Hne. pose proof (focus_nodup _ _ _ H) as N. pose proof (focus_null _ _ _ H) as Z0.
  assert (Zu : focus s (Frame (flip (f_side f)) (f_color f) (f_addr f) t :: C) (f_other f)).
  { apply focus_up. apply focus_up in H. by destruct f as [[] ? ? ?]. }
  apply focus_null in Zu. rewrite inorder_plug in N.
  destruct t as [|c l x r], (f_other f) as [|c' l' x' r'] eqn:Eu; simpl in *;
    [by destruct Hne|lia|lia|]. intros ->.
  apply NoDup_app in N as (_ & Nb & N). apply NoDup_app in N as (_ & Na & _).
  destruct f as [[] c0 y u]; simpl in *; subst u.
  - apply (Na x'); set_solver.
  - apply (Nb x'); set_solver.
Qed.

(** ** Steps of the algorithms on trees

    [sees s l C t]: the focus is on [t] in [C] and the whole tree has the nodes [l] in order. *)

Definition sees (s : rb_root) (l : list Z) (C : ctx) (t : tree) : Prop :=
  focus s C t /\ inorder (plug C t) = l.

Lemma refocus C' t' s l C t : plug C t = plug C' t' -> sees s l C t -> sees s l C' t'.
Proof. unfold sees. rewrite (focus_plug _ C), (focus_plug _ C'). by intros ->. Qed.

(** The contents of the cell [a] in a list of cells, and the other cells. *)
Ltac cell_at a l :=
  lazymatch l with
  | (a, ?n) :: _ => constr:(n)
  | _ :: ?l => cell_at a l
  | ?u ++ ?v => match l with
      | _ => cell_at a u
      | _ => cell_at a v
      end
  end.
Ltac cells_without a l :=
  lazymatch l with
  | (a, _) :: ?l => constr:(l)
  | ?c :: ?l => let l' := cells_without a l in constr:(c :: l')
  | ?u ++ ?v => match l with
      | _ => let u' := cells_without a u in constr:(u' ++ v)
      | _ => let v' := cells_without a v in constr:(u ++ v')
      end
  end.
(** The cells other than those of the sublist [m]. *)
Ltac list_without m l :=
  lazymatch l with
  | m => constr:(@nil cell)
  | ?c :: ?l => let l' := list_without m l in constr:(c :: l')
  | ?u ++ ?v => match l with
      | _ => let u' := list_without m u in constr:(u' ++ v)
      | _ => let v' := list_without m v in constr:(u ++ v')
      end
  end.

(** The store on the way from [s0] to the end of a sequence of assignments to the cells
    at [K]; [r] is the pointer to the root. *)
Record running (s0 : rb_root) (K : list Z) (r : Z) (s : rb_root) (l : list cell) : Prop := {
  run_mem : mem_ok (nodes s) l;
  run_root : root_node s = r;
  run_keys : l.*1 ≡ₚ K;
  run_same : same_outside K s0 s
}.

Lemma running_start s l C t : sees s l C t ->
  running s l (root_of C (addr t)) s (cells (top C) t ++ ctx_cells C (addr t)).
Proof. intros [[M Rt] <-]. split; [done|done| |done]. apply focus_keys. Qed.

Lemma running_write s0 K r s l l0 a n f : running s0 K r s l -> l ≡ₚ (a, n) :: l0 ->
  exists s', write s a f = Some s' /\ running s0 K r s' ((a, f n) :: l0).
Proof.
  intros [M Rt Ks So] E. destruct (mem_write s l l0 a n f M E) as (s' & -> & M' & Rt' & So').
  exists s'. split; [done|]. split; [done|congruence| |].
  - rewrite <- Ks, E. done.
  - eapply same_outside_trans; [done|]. eapply same_outside_sub; [|done]. intros b. by rewrite Ks.
Qed.

Lemma running_set_root s0 K r s l a : running s0 K r s l -> running s0 K a (set_root s a) l.
Proof. intros [M Rt Ks [D So]]. by split. Qed.

Lemma running_lookup s0 K r s l a n : running s0 K r s l -> (a, n) ∈ l ->
  nodes s !! a = Some n /\ a <> 0.
Proof. intros [M _ _ _] Hin. split; [by eapply mem_lookup|by eapply mem_nonnull]. Qed.

Lemma elem_split {A} (x : A) l l0 : l ≡ₚ x :: l0 -> x ∈ l.
Proof. intros ->. left. Qed.

(** Read the cell [a]; or assign to it, which gives a new store. *)
Ltac mem_read M a :=
  match type of M with running _ _ _ _ ?l =>
    let n := cell_at a l in let l0 := cells_without a l in
    rewrite (proj1 (running_lookup _ _ _ _ _ a n M
      (elem_split (a, n) l l0 ltac:(solve_Permutation)))); simpl
  end.
Ltac mem_assign M a :=
  let s := fresh "s" in let E := fresh "E" in let M' := fresh "M" in
  match type of M with running ?s0 ?K ?r ?s1 ?l =>
    let n := cell_at a l in let l0 := cells_without a l in
    match goal with |- context [write s1 a ?f] =>
      destruct (running_write s0 K r s1 l l0 a n f M) as (s & E & M');
      [solve_Permutation|]; rewrite E; simpl; clear E M; simpl in M'; rename M' into M
    end
  end.

Lemma running_perm s0 K r s l l' : running s0 K r s l -> l ≡ₚ l' -> running s0 K r s l'.
Proof. intros [M Rt Ks So] E. split; [by rewrite <- E|done|by rewrite <- E|done]. Qed.

(** A node of the store is not the subtree of another part. *)
Lemma running_other s0 K r s l l0 l1 old n p u :
  running s0 K r s l -> l ≡ₚ l0 ++ cells p u ++ l1 -> (old, n) ∈ l0 -> addr u <> old.
Proof.
  intros H E Ho. pose proof H as [[N _] _ _ _].
  assert (Hin : (old, n) ∈ l) by (rewrite E; set_solver).
  destruct (running_lookup _ _ _ _ _ _ _ H Hin) as [_ Hold].
  destruct u as [|c t x v]; simpl; [done|]. intros ->.
  rewrite E, !fmap_app in N. apply NoDup_app in N as (_ & N & _). apply (N old).
  - apply list_elem_of_fmap. by exists (old, n).
  - simpl. rewrite fmap_app. set_solver.
Qed.

(** The assignment to the child on side [d]. *)
Definition set_side (d : side) (v : Z) : rb_node -> rb_node :=
  match d with L => set_rb_left v | R => set_rb_right v end.

(** [replace_child], which tests the left child first, and its mirror image. *)
Definition replace_at (d : side) (s : rb_root) (parent old new : Z) : option rb_root :=
  match d with
  | L => replace_child s parent old new
  | R =>
      if parent =? 0 then Some (set_root s new)
      else
        p ← nodes s !! parent;
        if rb_right p =? old then write s parent (set_rb_right new)
        else write s parent (set_rb_left new)
  end.

(** [if (t) t->rb_parent = q] *)
Lemma running_reparent s0 K r s l l0 p q t : running s0 K r s l -> l ≡ₚ l0 ++ cells p t ->
  exists s', write_opt s (addr t) (set_rb_parent q) = Some s' /\
    running s0 K r s' (l0 ++ cells q t).
Proof.
  intros H E. destruct t as [|c t x u]; simpl in *.
  - exists s. split; [done|]. destruct H. split; by rewrite <- ?E.
  - assert (E' : l ≡ₚ (x, RbNode p c (addr u) (addr t)) :: l0 ++ cells x t ++ cells x u)
      by (rewrite E; solve_Permutation).
    destruct (running_lookup _ _ _ _ _ _ _ H (elem_split _ _ _ E')) as [_ Hx].
    destruct (running_write _ _ _ _ _ _ x _ (set_rb_parent q) H E') as (s' & W & H').
    exists s'. unfold write_opt. rewrite (proj2 (Z.eqb_neq _ _) Hx). split; [done|].
    eapply running_perm; [done|]. simpl. solve_Permutation.
Qed.

(** [root_of] and the cells of the context after the place of [old] got [new]. *)
Lemma running_replace d s0 K s l l0 C old new n :
  running s0 K (root_of C old) s l -> l ≡ₚ l0 ++ ctx_cells C old -> (old, n) ∈ l0 ->
  exists s', replace_at d s (top C) old new = Some s' /\
    running s0 K (root_of C new) s' (l0 ++ ctx_cells C new).
Proof.
  intros H E Ho. destruct C as [|[d' c p u] C]; simpl in *.
  - exists (set_root s new). split; [by destruct d|]. eapply running_set_root, running_perm; [done|].
    rewrite E. done.
  - set (X := rec d' (top C) c old (addr u)) in *.
    assert (E' : l ≡ₚ (p, X) :: l0 ++ cells p u ++ ctx_cells C p) by (rewrite E; solve_Permutation).
    destruct (running_lookup _ _ _ _ _ _ _ H (elem_split _ _ _ E')) as [Lp Hp].
    assert (Hu : addr u <> old).
    { apply (running_other _ _ _ _ _ ((p, X) :: l0) (ctx_cells C p) old n p u H E'). by right. }
    destruct (running_write _ _ _ _ _ _ p _ (set_side d' new) H E') as (s' & W & H').
    exists s'. split.
    + unfold replace_at, replace_child. destruct d; rewrite (proj2 (Z.eqb_neq _ _) Hp), Lp; simpl;
        destruct d'; simpl; rewrite ?Z.eqb_refl, ?(proj2 (Z.eqb_neq _ _) Hu); done.
    + eapply running_perm; [done|]. destruct d'; simpl; solve_Permutation.
Qed.

(** The same on the cells of a subtree, and on those of the context. *)
Ltac mem_reparent M p t :=
  let s := fresh "s" in let E := fresh "E" in let M' := fresh "M" in
  match type of M with running ?s0 ?K ?r ?s1 ?l =>
    let l0 := list_without (cells p t) l in
    match goal with |- context [write_opt s1 (addr t) (set_rb_parent ?q)] =>
      destruct (running_reparent s0 K r s1 l l0 p q t M) as (s & E & M');
      [solve_Permutation|]; rewrite E; simpl; clear E M; simpl in M'; rename M' into M
    end
  end.
Ltac mem_replace d M C old new :=
  let s := fresh "s" in let E := fresh "E" in let M' := fresh "M" in
  match type of M with running ?s0 ?K _ ?s1 ?l =>
    let n := cell_at old l in
    let l0 := list_without (ctx_cells C old) l in
    destruct (running_replace d s0 K s1 l l0 C old new n M) as (s & E & M');
      [solve_Permutation|set_solver|]; simpl in E; rewrite E; simpl; clear E M; simpl in M';
      rename M' into M
  end.
(** The end of a sequence of assignments. *)
Lemma running_done C t s0 K s l : running s0 K (root_of C (addr t)) s l ->
  l ≡ₚ cells (top C) t ++ ctx_cells C (addr t) -> inorder (plug C t) = K ->
  sees s K C t /\ same_outside K s0 s.
Proof. intros H E Ek. split; [|apply H]. split; [|done]. split; [rewrite <- E|]; apply H. Qed.
Ltac mem_done M C t :=
  eexists; split; [reflexivity|];
  apply (running_done C t) in M; [exact M|simpl; solve_Permutation|].

(** [d] as the rotation that moves the node [x] down to side [d]. *)
Definition rotate (d : side) : rb_root -> Z -> option rb_root :=
  match d with L => __rb_rotate_left | R => __rb_rotate_right end.

Lemma rotate_spec d s l C c a x k b y e :
  sees s l C (node d c a x (node d k b y e)) ->
  exists s', rotate d s x = Some s' /\ sees s' l C (node d k (node d c a x b) y e) /\
    same_outside l s s'.
Proof.
  intros H. assert (Hin : inorder (plug C (node d k (node d c a x b) y e)) = l).
  { destruct H as [_ <-]. rewrite !inorder_plug. destruct d; simpl;
      by repeat (rewrite <- ?app_assoc; simpl). }
  apply running_start in H as M. clear H. destruct d; simpl in *.
  - unfold __rb_rotate_left. mem_read M x. mem_read M y. mem_assign M x. mem_reparent M y b.
    mem_assign M y. mem_read M x. mem_assign M y. mem_replace L M C x y. mem_assign M x.
    by mem_done M C (Node k (Node c a x b) y e).
  - unfold __rb_rotate_right. mem_read M x. mem_read M y. mem_assign M x. mem_reparent M y b.
    mem_assign M y. mem_read M x. mem_assign M y. mem_replace R M C x y. mem_assign M x.
    by mem_done M C (Node k e y (Node c b x a)).
Qed.

Lemma recolor_spec d s l C c t x u k : sees s l C (node d c t x u) ->
  exists s', write s x (set_rb_color k) = Some s' /\ sees s' l C (node d k t x u) /\
    same_outside l s s'.
Proof.
  intros H. assert (Hin : inorder (plug C (node d k t x u)) = l).
  { destruct H as [_ <-]. rewrite !inorder_plug. by destruct d. }
  apply running_start in H as M. clear H. destruct d; simpl in *.
  - mem_assign M x. by mem_done M C (Node k t x u).
  - mem_assign M x. by mem_done M C (Node k u x t).
Qed.

(** ** Nodes that enter and leave the tree *)

Lemma running_start_with s l C t x n : sees s l C t -> x ∉ l -> x <> 0 -> nodes s !! x = Some n ->
  running s (x :: l) (root_of C (addr t)) s ((x, n) :: cells (top C) t ++ ctx_cells C (addr t)).
Proof.
  intros [[[N F] Rt] Hl] Hx Hx0 Hn. split; [|done| |done].
  - split; [|by constructor]. rewrite fmap_cons. constructor; [|done]. simpl.
    by rewrite focus_keys, Hl.
  - rewrite fmap_cons, focus_keys, Hl. done.
Qed.

(** The end of a sequence of assignments after which the node [x] is not in the tree. *)
Lemma running_done_without C t s0 K s l x n : running s0 K (root_of C (addr t)) s l ->
  l ≡ₚ (x, n) :: cells (top C) t ++ ctx_cells C (addr t) ->
  sees s (before C ++ inorder t ++ after C) C t /\ nodes s !! x = Some n /\
  x ∉ before C ++ inorder t ++ after C /\ same_outside K s0 s.
Proof.
  intros H E. destruct (running_lookup _ _ _ _ _ _ _ H (elem_split _ _ _ E)) as [Lx Hx].
  destruct H as [M Rt Ks So]. rewrite E in M. destruct M as [N F].
  rewrite fmap_cons in N. apply NoDup_cons in N as [Nx N]. apply Forall_cons in F as [_ F].
  rewrite <- inorder_plug. split_and!; [|done| |done].
  - split; [|done]. split; [|done]. by split.
  - by rewrite <- focus_keys.
Qed.

(** The place of the focus. *)
Definition link_of (C : ctx) : link :=
  match C with
  | [] => RootLink
  | f :: _ => match f_side f with L => LeftLink (f_addr f) | R => RightLink (f_addr f) end
  end.

Lemma link_spec s l C x n : sees s l C Leaf -> x ∉ l -> x <> 0 -> nodes s !! x = Some n ->
  exists s', rb_link_node s x (top C) (link_of C) = Some s' /\
    sees s' (before C ++ x :: after C) C (Node RB_RED Leaf x Leaf) /\ same_outside (x :: l) s s'.
Proof.
  intros H Hx Hx0 Hn.
  assert (Ks : x :: l ≡ₚ before C ++ x :: after C).
  { destruct H as [_ <-]. rewrite inorder_plug. simpl. solve_Permutation. }
  assert (Kin : inorder (plug C (Node RB_RED Leaf x Leaf)) = before C ++ x :: after C)
    by (by rewrite inorder_plug).
  apply (running_start_with _ _ _ _ x n) in H as M; [|done..]. simpl in M.
  assert (Hdone : forall s', running s (x :: l) (root_of C x) s'
      ((x, RbNode (top C) RB_RED 0 0) :: ctx_cells C x) ->
    sees s' (before C ++ x :: after C) C (Node RB_RED Leaf x Leaf) /\ same_outside (x :: l) s s').
  { intros s' [M' Rt' K' S']. split; [|done]. by split. }
  unfold rb_link_node. do 4 mem_assign M x. destruct C as [|[d c p u] C]; simpl in *.
  - eexists. split; [done|]. apply Hdone. by eapply running_set_root.
  - destruct d; simpl; mem_assign M p; eexists; (split; [done|]); apply Hdone;
      (eapply running_perm; [exact M|simpl; solve_Permutation]).
Qed.

Lemma unlink_spec d s l C c x u : sees s l C (node d c Leaf x u) ->
  exists s', unlink s x (top C) (addr u) = Some s' /\
    sees s' (before C ++ inorder u ++ after C) C u /\
    nodes s' !! x = Some (rec d (top C) c 0 (addr u)) /\
    x ∉ before C ++ inorder u ++ after C /\ same_outside l s s'.
Proof.
  intros H. apply running_start in H as M. clear H. unfold unlink. destruct d; simpl in M.
  - mem_reparent M x u. mem_replace L M C x (addr u). eexists. split; [done|].
    eapply running_done_without; [exact M|]. solve_Permutation.
  - mem_reparent M x u. mem_replace L M C x (addr u). eexists. split; [done|].
    eapply running_done_without; [exact M|]. solve_Permutation.
Qed.

Lemma replace_node_spec s l C c t v u new n : sees s l C (Node c t v u) -> new ∉ l -> new <> 0 ->
  nodes s !! new = Some n ->
  exists s', rb_replace_node s v new = Some s' /\
    sees s' (before C ++ (inorder t ++ new :: inorder u) ++ after C) C (Node c t new u) /\
    v ∉ before C ++ (inorder t ++ new :: inorder u) ++ after C /\
    same_outside (new :: l) s s'.
Proof.
  intros H Hx Hx0 Hn. apply (running_start_with _ _ _ _ new n) in H as M; [|done..]. simpl in M.
  unfold rb_replace_node. mem_read M v. mem_replace L M C v new. mem_read M v.
  mem_reparent M v t. mem_reparent M v u. mem_read M v. mem_assign M new.
  eexists. split; [done|].
  apply (running_done_without C (Node c t new u) _ _ _ _ v (RbNode (top C) c (addr u) (addr t))) in M;
    [naive_solver|]. simpl. solve_Permutation.
Qed.

Lemma take_place_spec s l C c ct t tx tu old u x n :
  sees s l C (Node c (Node ct t tx tu) old u) -> x ∉ l -> x <> 0 -> nodes s !! x = Some n ->
  let t' := Node ct t tx tu in
  exists s', take_place s old x = Some s' /\
    sees s' (before C ++ (inorder t' ++ x :: inorder u) ++ after C) C (Node c t' x u) /\
    old ∉ before C ++ (inorder t' ++ x :: inorder u) ++ after C /\
    same_outside (x :: l) s s'.
Proof.
  intros H Hx Hx0 Hn t'. apply (running_start_with _ _ _ _ x n) in H as M; [|done..].
  simpl in M. unfold take_place. mem_read M old. do 4 mem_assign M x. mem_replace L M C old x.
  mem_read M old. mem_assign M tx. mem_reparent M old u. eexists. split; [done|].
  apply (running_done_without C (Node c t' x u) _ _ _ _ old (RbNode (top C) c (addr u) tx)) in M;
    [naive_solver|]. simpl. solve_Permutation.
Qed.
