(* ===== verification/RbtreeInsert.v ===== *)
(** rb_insert_color of lib/rbtree.c restores the colours after an insertion.

    [rb c n t]: a red-black tree whose root has the colour [c] and whose paths to the
    leaves have [n] black nodes each; [rb_ctx c n C]: a context that such a tree completes
    to a red-black tree with a black root. *)
From stdpp Require Import base list gmap numbers option list_tactics.
From Stdlib Require Import ZArith Lia.
From S2P Require Import Prelude Rbtree RbtreeShape.

Local Open Scope Z_scope.

Definition tcolor (t : tree) : Z := match t with Leaf => RB_BLACK | Node c _ _ _ => c end.

Inductive rb : Z -> nat -> tree -> Prop :=
| rb_leaf : rb RB_BLACK 0 Leaf
| rb_red n d t x u : rb RB_BLACK n t -> rb RB_BLACK n u -> rb RB_RED n (node d RB_RED t x u)
| rb_black n d c t x c' u : rb c n t -> rb c' n u -> rb RB_BLACK (S n) (node d RB_BLACK t x u).

Inductive rb_ctx : Z -> nat -> ctx -> Prop :=
| ctx_root n : rb_ctx RB_BLACK n []
| ctx_red n d x u C : rb_ctx RB_RED n C -> rb RB_BLACK n u ->
    rb_ctx RB_BLACK n (Frame d RB_RED x u :: C)
| ctx_black c n d x c' u C : rb_ctx RB_BLACK (S n) C -> rb c' n u ->
    rb_ctx c n (Frame d RB_BLACK x u :: C).

#[export] Hint Constructors rb rb_ctx : rb.

Lemma rb_tcolor c n t : rb c n t -> tcolor t = c.
Proof. intros H. destruct H; [done| |]; by destruct d. Qed.

Lemma rb_plug c n t C : rb c n t -> rb_ctx c n C -> exists m, rb RB_BLACK m (plug C t).
Proof.
  intros H HC. revert t H. induction HC as [n|n d x u C HC IH Hu|c n d x c' u C HC IH Hu];
    intros t Ht; simpl; [by exists n| |]; apply IH; unfold plug1; simpl; eauto with rb.
Qed.

(** Inversion to the two subtrees, whatever the side. *)
Lemma rb_red_inv n d c t x u : rb RB_RED n (node d c t x u) ->
  c = RB_RED /\ rb RB_BLACK n t /\ rb RB_BLACK n u.
Proof.
  inversion 1 as [|? d' t' x' u' Ht Hu E|]; subst.
  destruct d, d'; simpl in *; simplify_eq; eauto.
Qed.

Lemma rb_black_inv n d c t x u : rb RB_BLACK n (node d c t x u) ->
  c = RB_BLACK /\ exists m c1 c2, n = S m /\ rb c1 m t /\ rb c2 m u.
Proof.
  inversion 1 as [E| |? d' c1 t' x' c2 u' Ht Hu E]; subst.
  - by destruct d.
  - destruct d, d'; simpl in *; simplify_eq; eauto 8.
Qed.

Lemma rb_node_inv d c0 n c t x u : rb c0 n (node d c t x u) ->
  (c = RB_RED /\ c0 = RB_RED /\ rb RB_BLACK n t /\ rb RB_BLACK n u) \/
  (c = RB_BLACK /\ c0 = RB_BLACK /\ exists m c1 c2, n = S m /\ rb c1 m t /\ rb c2 m u).
Proof.
  intros H. assert (c0 = RB_RED \/ c0 = RB_BLACK) as [-> | ->] by (inversion H; subst; eauto).
  - left. apply rb_red_inv in H. naive_solver.
  - right. apply rb_black_inv in H. naive_solver.
Qed.

(** ** Steps from a first store *)

(** [s] sees the tree and differs from [s0] only in its nodes. *)
Definition reach (s0 s : rb_root) (l : list Z) (C : ctx) (t : tree) : Prop :=
  sees s l C t /\ same_outside l s0 s.

Lemma reach_refocus C' t' s0 s l C t : plug C t = plug C' t' -> reach s0 s l C t -> reach s0 s l C' t'.
Proof. intros E [H So]. split; [|done]. by eapply refocus. Qed.

Section Steps.
Context {s0 s : rb_root} {l : list Z}.

Lemma reach_rotate d C c a x k b y e : reach s0 s l C (node d c a x (node d k b y e)) ->
  exists s', rotate d s x = Some s' /\ reach s0 s' l C (node d k (node d c a x b) y e).
Proof.
  intros [H So]. destruct (rotate_spec _ _ _ _ _ _ _ _ _ _ _ H) as (s' & E & H' & So').
  exists s'. split; [done|]. split; [done|]. by eapply same_outside_trans.
Qed.

Lemma reach_recolor d C c t x u k : reach s0 s l C (node d c t x u) ->
  exists s', write s x (set_rb_color k) = Some s' /\ reach s0 s' l C (node d k t x u).
Proof.
  intros [H So]. destruct (recolor_spec d _ _ _ _ _ _ _ k H) as (s' & E & H' & So').
  exists s'. split; [done|]. split; [done|]. by eapply same_outside_trans.
Qed.

Lemma reach_recolor_frame d c x u C t k : reach s0 s l (Frame d c x u :: C) t ->
  exists s', write s x (set_rb_color k) = Some s' /\ reach s0 s' l (Frame d k x u :: C) t.
Proof.
  intros H. apply (reach_refocus C (node d c t x u)) in H; [|done].
  destruct (reach_recolor d C c t x u k H) as (s' & E & H'). exists s'. split; [done|].
  by apply (reach_refocus (Frame d k x u :: C) t) in H'.
Qed.

(** Move the focus down to a subtree, and up again. *)
Lemma reach_down d c x u C t : reach s0 s l C (node d c t x u) ->
  reach s0 s l (Frame d c x u :: C) t.
Proof. by apply reach_refocus. Qed.

Lemma reach_up d c x u C t : reach s0 s l (Frame d c x u :: C) t ->
  reach s0 s l C (node d c t x u).
Proof. by apply reach_refocus. Qed.

(** Exchange the focus with the subtree on the other side. *)
Lemma reach_flip d c x u C t : reach s0 s l (Frame d c x u :: C) t ->
  reach s0 s l (Frame (flip d) c x t :: C) u.
Proof. apply reach_refocus. by destruct d. Qed.

Lemma reach_node d C c t x u : reach s0 s l C (node d c t x u) ->
  nodes s !! x = Some (rec d (top C) c (addr t) (addr u)) /\ (x =? 0) = false.
Proof. intros [[H _] _]. rewrite Z.eqb_neq. by apply focus_node. Qed.

Lemma reach_frame d c x u C t : reach s0 s l (Frame d c x u :: C) t ->
  nodes s !! x = Some (rec d (top C) c (addr t) (addr u)) /\ (x =? 0) = false.
Proof. intros [[H _] _]. rewrite Z.eqb_neq. by apply (focus_frame _ _ _ _ H). Qed.

Lemma reach_other d c x u C t : reach s0 s l (Frame d c x u :: C) t -> t <> Leaf \/ u <> Leaf ->
  (addr t =? addr u) = false /\ (addr u =? addr t) = false.
Proof.
  intros [[H _] _] Hne. rewrite !Z.eqb_neq. pose proof (focus_other _ _ _ _ H Hne) as E.
  simpl in E. split; congruence.
Qed.

Lemma reach_is_red C t : reach s0 s l C t -> is_red s (addr t) = Some (tcolor t =? RB_RED).
Proof.
  intros H. unfold is_red. destruct t as [|c t x u]; [done|]. simpl.
  destruct (reach_node L C c t x u H) as [E ->]. by rewrite E.
Qed.

Lemma reach_null_or_black C t : reach s0 s l C t ->
  null_or_black s (addr t) = Some (tcolor t =? RB_BLACK).
Proof.
  intros H. unfold null_or_black. destruct t as [|c t x u]; [done|]. simpl.
  destruct (reach_node L C c t x u H) as [E ->]. by rewrite E.
Qed.
End Steps.

(** ** Both sides at once *)

Definition child (d : side) (n : rb_node) : Z := match d with L => rb_left n | R => rb_right n end.

Lemma child_rec d p c a b : child d (rec d p c a b) = a.
Proof. by destruct d. Qed.
Lemma child_flip d p c a b : child (flip d) (rec d p c a b) = b.
Proof. by destruct d. Qed.
Lemma color_rec d p c a b : rb_color (rec d p c a b) = c.
Proof. by destruct d. Qed.
Lemma parent_rec d p c a b : rb_parent (rec d p c a b) = p.
Proof. by destruct d. Qed.
Lemma node_flip d c t x u : node (flip d) c t x u = node d c u x t.
Proof. by destruct d. Qed.
Lemma addr_node d c t x u : addr (node d c t x u) = x.
Proof. by destruct d. Qed.
Lemma flip_flip d : flip (flip d) = d.
Proof. by destruct d. Qed.
#[export] Hint Rewrite child_rec child_flip color_rec parent_rec addr_node : rb_rw.

Definition insert_side (d : side) (s : rb_root) (node parent gparent : Z) : option (rb_root * Z) :=
  g ← nodes s !! gparent;
  let uncle := child (flip d) g in
  red ← is_red s uncle;
  if (red : bool) then
    s ← write s uncle (set_rb_color RB_BLACK);
    s ← write s parent (set_rb_color RB_BLACK);
    s ← write s gparent (set_rb_color RB_RED);
    Some (s, gparent)
  else
    p ← nodes s !! parent;
    '(s, parent, node) ←
      (if child (flip d) p =? node then
         s ← rotate d s parent; Some (s, node, parent)
       else Some (s, parent, node));
    s ← write s parent (set_rb_color RB_BLACK);
    s ← write s gparent (set_rb_color RB_RED);
    s ← rotate (flip d) s gparent;
    Some (s, node).

Lemma insert_sides : insert_left = insert_side L /\ insert_right = insert_side R.
Proof. done. Qed.

(** Run the next statement with a lemma about it. *)
Ltac rb_run Lem H :=
  let s := fresh "s" in let E := fresh "E" in let H' := fresh "H" in
  destruct Lem as (s & E & H'); rewrite E; simpl; clear E H; rename H' into H.

Section Insert.
Context (s0 : rb_root) (l : list Z).

(** The last steps of a turn: the grandparent moves down to the other side. *)
Lemma insert_outer d s C g unc p b xt :
  reach s0 s l (Frame d RB_BLACK g unc :: C) (node d RB_RED xt p b) ->
  exists s',
    (forall A (k : rb_root -> option A),
      (s ← write s p (set_rb_color RB_BLACK);
       s ← write s g (set_rb_color RB_RED);
       s ← rotate (flip d) s g; k s) = k s') /\
    reach s0 s' l (Frame d RB_BLACK p (node d RB_RED b g unc) :: C) xt.
Proof.
  intros H. destruct (reach_recolor d _ _ _ _ _ RB_BLACK H) as (s1 & E1 & H1).
  destruct (reach_recolor_frame d _ _ _ _ _ RB_RED H1) as (s2 & E2 & H2).
  apply (reach_refocus C (node (flip d) RB_RED unc g (node (flip d) RB_BLACK b p xt))) in H2;
    [|by destruct d].
  destruct (reach_rotate _ _ _ _ _ _ _ _ _ H2) as (s3 & E3 & H3). exists s3. split.
  - intros A k. rewrite E1. simpl. rewrite E2. simpl. by rewrite E3.
  - eapply reach_refocus; [|exact H3]. by destruct d.
Qed.

(** The state of the loop at the red node [x], whose parent may be red too. *)
Definition insert_at (s : rb_root) (x : Z) (C : ctx) : Prop :=
  exists t u n, reach s0 s l C (Node RB_RED t x u) /\
    rb RB_RED n (Node RB_RED t x u) /\ rb_ctx RB_BLACK n C.

Lemma insert_uncle_black d d1 s x t u p b g unc C n :
  reach s0 s l (Frame d1 RB_RED p b :: Frame d RB_BLACK g unc :: C) (Node RB_RED t x u) ->
  rb RB_RED n (Node RB_RED t x u) -> rb RB_BLACK n b -> rb RB_BLACK n unc ->
  rb_ctx RB_BLACK (S n) C ->
  exists s' y f, insert_side d s x p g = Some (s', y) /\ insert_at s' y (f :: C).
Proof.
  intros H Hx Hb Hun HC. unfold insert_side.
  destruct (reach_frame _ _ _ _ _ _ H) as [Lp _].
  apply (reach_refocus (Frame d RB_BLACK g unc :: C) (node d1 RB_RED (Node RB_RED t x u) p b)) in H as G;
    [|done].
  destruct (reach_frame _ _ _ _ _ _ G) as [Lg _]. rewrite Lg. simpl. autorewrite with rb_rw.
  rewrite (reach_is_red _ _ (reach_flip _ _ _ _ _ _ G)), (rb_tcolor _ _ _ Hun). simpl.
  rewrite Lp. simpl.
  apply rb_red_inv with (d := L) in Hx as Hx'. destruct Hx' as (_ & Ht & Hu).
  destruct (decide (d1 = d)) as [->|Hd].
  - autorewrite with rb_rw. destruct (reach_other _ _ _ _ _ _ H ltac:(by left)) as [_ E].
    simpl in E. rewrite E. simpl. clear E.
    destruct (insert_outer _ _ _ _ _ _ _ _ G) as (s' & E & H'). rewrite E.
    exists s', x, (Frame d RB_BLACK p (node d RB_RED b g unc)). split; [done|].
    exists t, u, n. eauto 6 with rb.
  - assert (d1 = flip d) as -> by (by destruct d, d1). rewrite child_rec. simpl.
    rewrite Z.eqb_refl, node_flip in *.
    assert (exists a c, Node RB_RED t x u = node d RB_RED a x c /\ rb RB_BLACK n a /\ rb RB_BLACK n c)
      as (a & c & Ea & Ha & Hc) by (destruct d; [by exists t, u|by exists u, t]).
    rewrite Ea in G. apply (reach_refocus (Frame d RB_BLACK g unc :: C) (node d RB_RED b p (node d RB_RED a x c))) in G;
      [|done].
    rb_run (reach_rotate _ _ _ _ _ _ _ _ _ G) G.
    destruct (insert_outer _ _ _ _ _ _ _ _ G) as (s' & E & H'). rewrite E.
    exists s', p, (Frame d RB_BLACK x (node d RB_RED c g unc)). split; [done|].
    assert (exists t' u', node d RB_RED b p a = Node RB_RED t' p u') as (t' & u' & Et)
      by (destruct d; eauto).
    exists t', u', n. rewrite <- Et. eauto 6 with rb.
Qed.

Lemma insert_uncle_red d d1 s x t u p b g ul ux ur C n :
  reach s0 s l (Frame d1 RB_RED p b :: Frame d RB_BLACK g (Node RB_RED ul ux ur) :: C) (Node RB_RED t x u) ->
  rb RB_RED n (Node RB_RED t x u) -> rb RB_BLACK n b -> rb RB_RED n (Node RB_RED ul ux ur) ->
  rb_ctx RB_BLACK (S n) C ->
  exists s', insert_side d s x p g = Some (s', g) /\ insert_at s' g C.
Proof.
  intros H Hx Hb Hun HC. unfold insert_side.
  apply (reach_refocus (Frame d RB_BLACK g (Node RB_RED ul ux ur) :: C) (node d1 RB_RED (Node RB_RED t x u) p b)) in H;
    [|done].
  destruct (reach_frame _ _ _ _ _ _ H) as [Lg _]. rewrite Lg. simpl. autorewrite with rb_rw.
  apply reach_flip in H. pose proof (reach_is_red _ _ H) as E. simpl in E. rewrite E. simpl. clear E.
  rb_run (reach_recolor L _ _ _ _ _ RB_BLACK H) H. apply reach_flip in H.
  rb_run (reach_recolor d1 _ _ _ _ _ RB_BLACK H) H.
  rb_run (reach_recolor_frame _ _ _ _ _ _ RB_RED H) H.
  rewrite flip_flip in H. eexists. split; [done|].
  clear Lg. set (pt := node d1 _ _ _ _) in *. set (ut := node L _ _ _ _) in *.
  assert (Hp : rb RB_BLACK (S n) pt) by (unfold pt; eauto with rb).
  assert (Hu' : rb RB_BLACK (S n) ut).
  { apply (rb_red_inv n L) in Hun as (_ & ? & ?). unfold ut. eauto with rb. }
  assert (exists a c, node d RB_RED pt g ut = Node RB_RED a g c) as (a & c & E) by (destruct d; eauto).
  exists a, c, (S n). rewrite <- E. split_and!; [|by constructor|done].
  by eapply reach_refocus; [|exact H].
Qed.

(** A turn at a node with a red parent. *)
Lemma insert_turn s d1 p b C t x u n :
  reach s0 s l (Frame d1 RB_RED p b :: C) (Node RB_RED t x u) ->
  rb RB_RED n (Node RB_RED t x u) -> rb RB_BLACK n b -> rb_ctx RB_RED n C ->
  exists s' y D, insert_body (s, x) = inl (s', y) /\ insert_at s' y D /\ (length D <= length C)%nat.
Proof.
  intros H Hx Hb HC. unfold insert_body.
  destruct (reach_node L _ _ _ _ _ H) as [Lx _]. rewrite Lx. simpl.
  destruct (reach_frame _ _ _ _ _ _ H) as [Lp ->]. rewrite Lp, color_rec, parent_rec. simpl.
  inversion HC as [| |c n' d g c' unc C' HC' Hun]; subst. simpl.
  apply (reach_refocus (Frame d RB_BLACK g unc :: C') (node d1 RB_RED (Node RB_RED t x u) p b)) in H as G;
    [|done].
  destruct (reach_frame _ _ _ _ _ _ G) as [Lg _]. rewrite Lg. simpl.
  assert (Ed : (if p =? rb_left (rec d (top C') RB_BLACK (addr (node d1 RB_RED (Node RB_RED t x u) p b)) (addr unc))
      then insert_left s x p g else insert_right s x p g) = insert_side d s x p g).
  { destruct (reach_other _ _ _ _ _ _ G) as [E _]; [left; by destruct d1|].
    rewrite addr_node in E |- *. destruct d; simpl; [by rewrite Z.eqb_refl|by rewrite E]. }
  rewrite Ed. clear Ed. destruct (decide (c' = RB_BLACK)) as [->|Hc].
  - destruct (insert_uncle_black d d1 s x t u p b g unc C' n) as (s' & y & f & -> & ?); [done..|].
    by exists s', y, (f :: C').
  - destruct Hun as [|n d2 ul ux ur Hl Hr|]; [done| |done].
    assert (exists a c, node d2 RB_RED ul ux ur = Node RB_RED a ux c) as (a & c0 & E)
      by (destruct d2; eauto).
    assert (Hun : rb RB_RED n (node d2 RB_RED ul ux ur)) by (by constructor). rewrite E in *.
    destruct (insert_uncle_red d d1 s x t u p b g a ux c0 C' n) as (s' & -> & ?); [done..|].
    exists s', g, C'. split_and!; [done|done|simpl; lia].
Qed.

Lemma insert_loop fuel : forall s x C, insert_at s x C -> (length C < fuel)%nat ->
  exists s' t c n, loop fuel insert_body (s, x) = Some (Some s') /\ reach s0 s' l [] t /\ rb c n t.
Proof.
  induction fuel as [|fuel IH]; intros s x C H Hf; [lia|]. rewrite loop_S.
  destruct H as (t & u & n & H & Hx & HC). destruct (reach_node L _ _ _ _ _ H) as [Lx _].
  destruct HC as [n|n d1 p b C HC Hb|c n d1 p c' b C HC Hb]; simpl in Hf.
  - unfold insert_body at 1. rewrite Lx. simpl. eexists _, _, _, _.
    split_and!; [done|exact H|exact Hx].
  - destruct (insert_turn s d1 p b C t x u n) as (s' & y & D & -> & HD & Hlen); [done..|].
    apply (IH _ _ _ HD). lia.
  - unfold insert_body at 1. rewrite Lx. simpl.
    destruct (reach_frame _ _ _ _ _ _ H) as [Lp ->]. rewrite Lp, color_rec. simpl.
    destruct (rb_plug RB_RED n _ (Frame d1 RB_BLACK p b :: C) Hx ltac:(eauto with rb)) as (m & Hm).
    eexists _, _, _, _. split_and!; [done| |exact Hm]. eapply reach_refocus; [|exact H]. done.
Qed.

(** The colour of the root at the end. *)
Lemma blacken_root s t c n : reach s0 s l [] t -> rb c n t -> t <> Leaf ->
  exists s' t' m, write s (root_node s) (set_rb_color RB_BLACK) = Some s' /\
    reach s0 s' l [] t' /\ rb RB_BLACK m t'.
Proof.
  intros H Ht Hne. assert (Er : root_node s = addr t) by apply H. rewrite Er.
  destruct t as [|k a x b]; [done|]. simpl.
  destruct (reach_recolor L _ _ _ _ _ RB_BLACK H) as (s' & -> & H').
  apply (rb_node_inv L) in Ht as [(-> & -> & Ha & Hb)|(-> & -> & m & c1 & c2 & -> & Ha & Hb)];
    eexists _, _, _; (split_and!; [done|exact H'|econstructor; eauto]).
Qed.
End Insert.

(** ** Insertion *)

(** A red-black tree in the store, with its nodes in order. *)
Definition is_rbtree (s : rb_root) (l : list Z) : Prop :=
  exists t n, sees s l [] t /\ rb RB_BLACK n t.

Lemma ctx_length C : forall a, (length C <= length (ctx_cells C a))%nat.
Proof.
  induction C as [|f C IH]; intros a; simpl; [lia|].
  rewrite length_app. specialize (IH (f_addr f)). lia.
Qed.

Lemma depth_size s l C t : sees s l C t -> (length C <= size (nodes s))%nat.
Proof.
  intros H. pose proof (ctx_length C (addr t)). destruct H as [[M _] _].
  apply mem_size in M. rewrite length_app in M. lia.
Qed.

Lemma insert_color_spec s l C x : sees s l C (Node RB_RED Leaf x Leaf) -> rb_ctx RB_BLACK 0 C ->
  exists s', rb_insert_color s x = Some s' /\ is_rbtree s' l /\ same_outside l s s'.
Proof.
  intros H HC. unfold rb_insert_color.
  destruct (insert_loop s l (S (size (nodes s))) s x C) as (s1 & t & c & n & -> & Ht & Hrb).
  - exists Leaf, Leaf, 0%nat. split_and!; [by split|apply (rb_red 0 L); constructor|done].
  - apply depth_size in H. lia.
  - simpl. destruct (blacken_root _ _ _ _ _ _ Ht Hrb) as (s2 & t2 & m & -> & [H2 So] & Hrb2).
    { intros ->. destruct Ht as [[_ E] _], H as [_ E']. simpl in E.
      rewrite <- E', inorder_plug in E. by destruct (before C). }
    exists s2. split_and!; [done|by exists t2, m|done].
Qed.

(** A black tree with an empty place is a context of black height 0. *)
Lemma rb_plug_inv C t c0 m : rb c0 m (plug C t) -> c0 = RB_BLACK ->
  exists c n, rb c n t /\ rb_ctx c n C.
Proof.
  intros H ->. revert t m H. induction C as [|[d c x u] C IH]; intros t m H; simpl in *.
  - exists RB_BLACK, m. split; [done|]. constructor.
  - destruct (IH _ _ H) as (c0 & n & Ht & HC). unfold plug1 in Ht. simpl in Ht.
    apply rb_node_inv in Ht as [(-> & -> & ? & ?)|(-> & -> & k & c1 & c2 & -> & ? & ?)];
      eauto 6 with rb.
Qed.
