(* ===== verification/RbtreeErase.v ===== *)
(** __rb_erase_color and rb_erase of lib/rbtree.c restore the colours after a removal. *)
From stdpp Require Import base list gmap numbers option list_tactics.
From Stdlib Require Import ZArith Lia.
From S2P Require Import Prelude Rbtree RbtreeShape RbtreeInsert.

Local Open Scope Z_scope.

(** ** Both sides of the loop at once *)

Definition erase_red (d : side) (s : rb_root) (parent other : Z) (o : rb_node) : option (rb_root * Z) :=
  if rb_color o =? RB_RED then
    s ← write s other (set_rb_color RB_BLACK);
    s ← write s parent (set_rb_color RB_RED);
    s ← rotate d s parent;
    p ← nodes s !! parent; Some (s, child (flip d) p)
  else Some (s, other).

Definition erase_near (d : side) (s : rb_root) (parent other : Z) (o : rb_node) (black : bool)
    : option (rb_root * Z) :=
  if black then
    s ← write_opt s (child d o) (set_rb_color RB_BLACK);
    s ← write s other (set_rb_color RB_RED);
    s ← rotate (flip d) s other;
    p ← nodes s !! parent; Some (s, child (flip d) p)
  else Some (s, other).

Definition erase_far (d : side) (s : rb_root) (parent other : Z) : option erase_turn :=
  p ← nodes s !! parent;
  s ← write s other (set_rb_color (rb_color p));
  s ← write s parent (set_rb_color RB_BLACK);
  o ← nodes s !! other;
  s ← write_opt s (child (flip d) o) (set_rb_color RB_BLACK);
  s ← rotate d s parent;
  Some (Break s (root_node s)).

(** What follows when the sibling [other] is black. *)
Definition erase_rest (d : side) (s : rb_root) (parent other : Z) : option erase_turn :=
  o ← nodes s !! other;
  black ← children_black s o;
  if (black : bool) then
    s ← write s other (set_rb_color RB_RED);
    p ← nodes s !! parent;
    Some (Again s parent (rb_parent p))
  else
    black ← null_or_black s (child (flip d) o);
    '(s, other) ← erase_near d s parent other o black;
    erase_far d s parent other.

Definition erase_side (d : side) (s : rb_root) (node parent : Z) : option erase_turn :=
  p ← nodes s !! parent;
  let other := child (flip d) p in
  o ← nodes s !! other;
  '(s, other) ← erase_red d s parent other o;
  erase_rest d s parent other.

Lemma erase_sides : erase_left = erase_side L /\ erase_right = erase_side R.
Proof. done. Qed.

(** ** Colours and heights *)

Lemma rb_color_cases c n t : rb c n t -> c = RB_RED \/ c = RB_BLACK.
Proof. intros H. destruct H; eauto. Qed.

Lemma rb_leaf_inv c n : rb c n Leaf -> c = RB_BLACK /\ n = 0%nat.
Proof. inversion 1; subst; [done|by destruct d..]. Qed.

Lemma rb_not_leaf c n t : rb c (S n) t -> t <> Leaf.
Proof. inversion 1; subst; by destruct d. Qed.

(** The black height of a tree with a root of colour [pc] over subtrees of height [n]. *)
Definition height_over (pc : Z) (n : nat) : nat := if pc =? RB_RED then n else S n.

Lemma rb_over pc n d c1 t x c2 u : pc = RB_RED \/ pc = RB_BLACK -> rb c1 n t -> rb c2 n u ->
  (pc = RB_RED -> c1 = RB_BLACK /\ c2 = RB_BLACK) -> rb pc (height_over pc n) (node d pc t x u).
Proof. intros [-> | ->] Ht Hu Hc; [destruct (Hc eq_refl) as [-> ->]|]; simpl; eauto with rb. Qed.

Lemma ctx_weaken n C : rb_ctx RB_RED n C -> rb_ctx RB_BLACK n C.
Proof. inversion 1; subst; eauto with rb. Qed.

Lemma ctx_frame_inv c n d pc x u C : rb_ctx c n (Frame d pc x u :: C) ->
  (pc = RB_RED \/ pc = RB_BLACK) /\ rb_ctx pc (height_over pc n) C /\
  exists cu, rb cu n u /\ (pc = RB_RED -> cu = RB_BLACK).
Proof.
  inversion 1 as [|? ? ? ? ? ? Hu|? ? ? ? c' ? ? ? Hu]; subst.
  - split_and!; [by left|done|]. by exists RB_BLACK.
  - split_and!; [by right|done|]. by exists c'.
Qed.

Definition blacken (t : tree) : tree :=
  match t with Leaf => Leaf | Node _ l x r => Node RB_BLACK l x r end.

Lemma blacken_node d c t x u : blacken (node d c t x u) = node d RB_BLACK t x u.
Proof. by destruct d. Qed.

Lemma blacken_black t : tcolor t = RB_BLACK -> blacken t = t.
Proof. destruct t; [done|]. simpl. by intros ->. Qed.

Section Erase.
Context (s0 : rb_root) (l : list Z).

Lemma reach_blacken s C t : reach s0 s l C t ->
  exists s', write_opt s (addr t) (set_rb_color RB_BLACK) = Some s' /\ reach s0 s' l C (blacken t).
Proof.
  intros H. unfold write_opt. destruct t as [|c t x u]; simpl; [by exists s|].
  destruct (reach_node L _ _ _ _ _ H) as [_ ->]. by apply (reach_recolor L _ _ _ _ _ RB_BLACK) in H.
Qed.

(** Recolour the sibling of the focus. *)
Lemma reach_recolor_other s d c x d' k a y b C t k' :
  reach s0 s l (Frame d c x (node d' k a y b) :: C) t ->
  exists s', write s y (set_rb_color k') = Some s' /\
    reach s0 s' l (Frame d c x (node d' k' a y b) :: C) t.
Proof.
  intros H. apply reach_flip in H.
  destruct (reach_recolor _ _ _ _ _ _ k' H) as (s' & E & H'). exists s'. split; [done|].
  apply reach_flip in H'. by rewrite flip_flip in H'.
Qed.

Lemma reach_other_node s d c x d' k a y b C t : reach s0 s l (Frame d c x (node d' k a y b) :: C) t ->
  nodes s !! y = Some (rec d' x k (addr a) (addr b)).
Proof. intros H. apply reach_flip, reach_node in H. apply H. Qed.

(** The state of the loop: paths through [t] have one black node less than the context
    asks for, unless [t] is red, when blackening it is enough. *)
Definition erase_at (s : rb_root) (C : ctx) (t : tree) : Prop :=
  exists n, reach s0 s l C t /\ rb_ctx RB_BLACK (S n) C /\
    ((tcolor t = RB_BLACK /\ rb RB_BLACK n t) \/
     (tcolor t = RB_RED /\ rb RB_BLACK (S n) (blacken t))).

(** The state after the loop. *)
Definition erase_end (s : rb_root) (node : Z) : Prop :=
  exists C t m, reach s0 s l C t /\ node = addr t /\ rb RB_BLACK m (plug C (blacken t)).

(** Rotate the sibling up, when its far child is red. *)
Lemma erase_far_spec d s pc p a y b C t n ca :
  reach s0 s l (Frame d pc p (node d RB_BLACK a y b) :: C) t ->
  pc = RB_RED \/ pc = RB_BLACK -> rb_ctx pc (height_over pc (S n)) C ->
  rb RB_BLACK n t -> rb ca n a -> rb RB_RED n b ->
  exists s', erase_far d s p y = Some (Break s' (root_node s')) /\ erase_end s' (root_node s').
Proof.
  intros H Hpc HC Ht Ha Hb. unfold erase_far.
  destruct (reach_frame _ _ _ _ _ _ H) as [Lp _]. rewrite Lp. simpl. rewrite color_rec.
  rb_run (reach_recolor_other _ _ _ _ _ _ _ _ _ _ _ pc H) H.
  rb_run (reach_recolor_frame _ _ _ _ _ _ RB_BLACK H) H.
  rewrite (reach_other_node _ _ _ _ _ _ _ _ _ _ _ H). simpl. rewrite child_flip.
  apply (reach_refocus (Frame (flip d) pc y a :: Frame (flip d) RB_BLACK p t :: C) b) in H;
    [|by destruct d].
  rb_run (reach_blacken _ _ _ H) H.
  apply (reach_refocus C (node d RB_BLACK t p (node d pc a y (blacken b)))) in H; [|by destruct d].
  rb_run (reach_rotate _ _ _ _ _ _ _ _ _ H) H.
  eexists. split; [done|].
  assert (Hb' : rb RB_BLACK (S n) (blacken b)).
  { inversion Hb; subst. rewrite blacken_node. eauto with rb. }
  assert (Hall : rb pc (height_over pc (S n)) (node d pc (node d RB_BLACK t p a) y (blacken b)))
    by (eapply rb_over; eauto with rb).
  destruct (rb_plug _ _ _ _ Hall HC) as (m & Hm). apply (reach_refocus [] (plug C (node d pc (node d RB_BLACK t p a) y (blacken b)))) in H;
    [|done].
  eexists [], _, m. split_and!; [exact H|apply H|]. simpl.
  rewrite blacken_black; [done|]. by eapply rb_tcolor.
Qed.

Lemma erase_near_spec d s pc p a y b C t n ca cb :
  reach s0 s l (Frame d pc p (node d RB_BLACK a y b) :: C) t ->
  rb ca n a -> rb cb n b -> ca = RB_RED \/ cb = RB_RED ->
  exists s' a' y' b' ca', erase_near d s p y (rec d p RB_BLACK (addr a) (addr b)) (cb =? RB_BLACK)
      = Some (s', y') /\
    reach s0 s' l (Frame d pc p (node d RB_BLACK a' y' b') :: C) t /\ rb ca' n a' /\ rb RB_RED n b'.
Proof.
  intros H Ha Hb Hc. unfold erase_near. rewrite child_rec.
  destruct (rb_color_cases _ _ _ Hb) as [-> | ->]; simpl; [by exists s, a, y, b, ca|].
  assert (ca = RB_RED) as -> by (by destruct Hc).
  apply (reach_refocus (Frame d RB_BLACK y b :: Frame (flip d) pc p t :: C) a) in H;
    [|by destruct d].
  rb_run (reach_blacken _ _ _ H) H. rb_run (reach_recolor_frame _ _ _ _ _ _ RB_RED H) H.
  inversion Ha as [|n' d' a1 z a2 Ha1 Ha2 E|]; subst. rewrite blacken_node in H.
  set (a1' := if decide (d' = d) then a1 else a2). set (a2' := if decide (d' = d) then a2 else a1).
  assert (Ea : node d' RB_BLACK a1 z a2 = node d RB_BLACK a1' z a2') by (by destruct d, d').
  assert (rb RB_BLACK n a1' /\ rb RB_BLACK n a2') as [Ha1' Ha2'] by (by destruct d, d').
  rewrite Ea in H. clearbody a1' a2'.
  apply (reach_refocus (Frame (flip d) pc p t :: C) (node (flip d) RB_RED b y (node (flip d) RB_BLACK a2' z a1'))) in H;
    [|by destruct d].
  rb_run (reach_rotate _ _ _ _ _ _ _ _ _ H) H.
  destruct (reach_frame _ _ _ _ _ _ H) as [Lp _]. rewrite Lp. simpl. rewrite child_rec, addr_node.
  exists s3, a1', z, (node d RB_RED a2' y b), RB_BLACK. split_and!; [done| |done|by constructor].
  eapply reach_refocus; [|exact H]. by destruct d.
Qed.

Lemma children_black_spec s d q k a y b C :
  reach s0 s l C (node d k a y b) ->
  children_black s (rec d q k (addr a) (addr b)) =
    Some ((tcolor a =? RB_BLACK) && (tcolor b =? RB_BLACK)).
Proof.
  intros H%reach_down. unfold children_black.
  pose proof (reach_null_or_black _ _ H) as Ea.
  pose proof (reach_null_or_black _ b (reach_flip _ _ _ _ _ _ H)) as Eb.
  destruct d; simpl; [rewrite Ea|rewrite Eb]; simpl; [rewrite Eb|rewrite Ea];
    by destruct (tcolor a =? RB_BLACK), (tcolor b =? RB_BLACK).
Qed.

(** What a turn leads to, from a focus at depth [m]. *)
Definition turn_ok (m : nat) (r : erase_turn) : Prop :=
  match r with
  | Again s node parent => exists C t, node = addr t /\ parent = top C /\ erase_at s C t /\
      (tcolor t = RB_RED \/ (S (length C) <= m)%nat)
  | Break s node => erase_end s node
  end.

Lemma erase_rest_spec d s pc p a y b C t n ca cb :
  reach s0 s l (Frame d pc p (node d RB_BLACK a y b) :: C) t ->
  pc = RB_RED \/ pc = RB_BLACK -> rb_ctx pc (height_over pc (S n)) C ->
  rb RB_BLACK n t -> rb ca n a -> rb cb n b ->
  exists r, erase_rest d s p y = Some r /\
    turn_ok (if pc =? RB_RED then 0 else S (length C)) r.
Proof.
  intros H Hpc HC Ht Ha Hb. unfold erase_rest.
  rewrite (reach_other_node _ _ _ _ _ _ _ _ _ _ _ H). simpl.
  apply reach_flip in H as G. rewrite (children_black_spec _ _ _ _ _ _ _ _ G). simpl.
  rewrite (rb_tcolor _ _ _ Ha), (rb_tcolor _ _ _ Hb).
  destruct ((ca =? RB_BLACK) && (cb =? RB_BLACK)) eqn:Eb.
  - apply andb_true_iff in Eb as [->%Z.eqb_eq ->%Z.eqb_eq].
    rb_run (reach_recolor_other _ _ _ _ _ _ _ _ _ _ _ RB_RED H) H.
    destruct (reach_frame _ _ _ _ _ _ H) as [Lp _]. rewrite Lp. simpl. rewrite parent_rec.
    eexists. split; [done|]. exists C, (node d pc t p (node d RB_RED a y b)).
    rewrite addr_node. split_and!; [done|done| |destruct Hpc as [-> | ->]; [left; by destruct d|by right]].
    destruct Hpc as [-> | ->]; simpl in *; [exists n|exists (S n)];
      (split_and!; [by apply reach_up|first [exact HC|by apply ctx_weaken]|]).
    + right. rewrite blacken_node. split; [by destruct d|]. eauto with rb.
    + left. split; [by destruct d|]. eauto with rb.
  - rewrite child_flip.
    rewrite (reach_null_or_black _ b (reach_flip _ _ _ _ _ _ (reach_down _ _ _ _ _ _ G))).
    simpl. rewrite (rb_tcolor _ _ _ Hb).
    destruct (erase_near_spec d s pc p a y b C t n ca cb H Ha Hb)
      as (s' & a' & y' & b' & ca' & -> & H' & Ha' & Hb').
    { destruct (rb_color_cases _ _ _ Ha) as [-> | ->], (rb_color_cases _ _ _ Hb) as [-> | ->]; [by left..|by right|done]. }
    simpl. destruct (erase_far_spec d s' pc p a' y' b' C t n ca' H') as (s'' & -> & Hend); [done..|].
    eauto.
Qed.

Lemma erase_side_spec d s pc p o C t n :
  reach s0 s l (Frame d pc p o :: C) t -> rb RB_BLACK n t ->
  rb_ctx RB_BLACK (S n) (Frame d pc p o :: C) ->
  exists r, erase_side d s (addr t) p = Some r /\ turn_ok (S (length C)) r.
Proof.
  intros H Ht HC. apply ctx_frame_inv in HC as (Hpc & HC & co & Ho & Hco).
  assert (exists a y b, o = node d co a y b) as (a & y & b & ->).
  { inversion Ho as [|? d' t' x' u'|? d' c1 t' x' c2 u']; subst; destruct (decide (d' = d)) as [->|Hd];
      [by eauto| |by eauto|]; exists u', x', t'; by destruct d, d'. }
  unfold erase_side. destruct (reach_frame _ _ _ _ _ _ H) as [Lp _]. rewrite Lp. simpl.
  rewrite child_flip, addr_node, (reach_other_node _ _ _ _ _ _ _ _ _ _ _ H). simpl.
  unfold erase_red. rewrite color_rec.
  apply rb_node_inv in Ho as [(_ & -> & Ha & Hb)|(_ & -> & m & c1 & c2 & [= <-] & Ha & Hb)]; simpl.
  - assert (pc = RB_BLACK) as -> by (destruct Hpc as [-> | ->]; [by specialize (Hco eq_refl)|done]).
    rb_run (reach_recolor_other _ _ _ _ _ _ _ _ _ _ _ RB_BLACK H) H.
    rb_run (reach_recolor_frame _ _ _ _ _ _ RB_RED H) H.
    apply (reach_refocus C (node d RB_RED t p (node d RB_BLACK a y b))) in H; [|done].
    rb_run (reach_rotate _ _ _ _ _ _ _ _ _ H) H.
    apply (reach_refocus (Frame d RB_RED p a :: Frame d RB_BLACK y b :: C) t) in H; [|done].
    destruct (reach_frame _ _ _ _ _ _ H) as [Lp' _]. rewrite Lp'. simpl. rewrite child_flip.
    assert (exists a1 z a2 k1 k2, a = node d RB_BLACK a1 z a2 /\ rb k1 n a1 /\ rb k2 n a2)
      as (a1 & z & a2 & k1 & k2 & -> & Ha1 & Ha2).
    { inversion Ha as [| |? d' k1 t' x' k2 u']; subst. destruct (decide (d' = d)) as [->|Hd];
        [by eauto 8|]. exists u', x', t', k2, k1. by destruct d, d'. }
    rewrite addr_node. destruct (erase_rest_spec d s3 RB_RED p a1 z a2 (Frame d RB_BLACK y b :: C) t n k1 k2)
      as (r & -> & Hr); [done|by left|simpl in *; eauto with rb|done..|].
    exists r. split; [done|]. destruct r; [|done]. simpl in *. naive_solver lia.
  - destruct (erase_rest_spec d s pc p a y b C t n c1 c2) as (r & -> & Hr); [done..|].
    exists r. split; [done|]. destruct r; [|done]. simpl in *.
    destruct Hpc as [-> | ->]; simpl in *; naive_solver lia.
Qed.

(** Below the root, the focus is not the root. *)
Lemma root_in_ctx C f a : exists n, (root_of (f :: C) a, n) ∈ ctx_cells (f :: C) a.
Proof.
  revert f a. induction C as [|g C IH]; intros f a; [eexists; left|].
  destruct (IH g (f_addr f)) as (n & Hn). exists n. simpl in *. right. apply elem_of_app. by right.
Qed.

Lemma reach_not_root s f C t : reach s0 s l (f :: C) t -> (addr t =? root_node s) = false.
Proof.
  intros [H _]. apply Z.eqb_neq. destruct (root_in_ctx C f (addr t)) as (n & Hn).
  replace (root_node s) with (root_of (f :: C) (addr t)) by (symmetry; apply H).
  apply running_start in H. eapply (running_other _ _ _ _ _ _ [] _ n (f_addr f) t H); [|exact Hn].
  simpl. solve_Permutation.
Qed.

Definition turns (C : ctx) (t : tree) : nat := if tcolor t =? RB_RED then 0 else S (length C).

Lemma erase_loop fuel : forall s C t, erase_at s C t -> (turns C t < fuel)%nat ->
  exists s' node, loop fuel erase_body (s, addr t, top C) = Some (Some (s', node)) /\ erase_end s' node.
Proof.
  induction fuel as [|fuel IH]; intros s C t H Hf; [lia|]. rewrite loop_S.
  destruct H as (n & H & HC & Ht). unfold erase_body at 1. unfold turns in *.
  rewrite (reach_null_or_black _ _ H). destruct Ht as [[E Ht]|[E Ht]]; rewrite E in *; simpl in *.
  - destruct C as [|[d pc p o] C].
    { assert (Er : root_node s = addr t) by apply H. rewrite Er, Z.eqb_refl. simpl.
      eexists _, _. split; [done|]. exists [], t, n. split_and!; [done|done|]. simpl.
      by rewrite blacken_black. }
    rewrite (reach_not_root _ _ _ _ H). simpl.
    destruct (reach_frame _ _ _ _ _ _ H) as [Lp _]. rewrite Lp. simpl.
    destruct (ctx_frame_inv _ _ _ _ _ _ _ HC) as (_ & _ & co & Ho & _).
    destruct (reach_other _ _ _ _ _ _ H) as [_ Eo]; [right; by eapply rb_not_leaf|].
    assert (Ed : (if rb_left (rec d (top C) pc (addr t) (addr o)) =? addr t
      then erase_left s (addr t) p else erase_right s (addr t) p) = erase_side d s (addr t) p).
    { destruct d; simpl; [by rewrite Z.eqb_refl|by rewrite Eo]. }
    rewrite Ed. destruct (erase_side_spec d s pc p o C t n) as ([s' x q|s' x] & -> & Hr); [done..| |].
    + destruct Hr as (C' & t' & -> & -> & Hat & Hm). apply IH; [done|]. unfold turns.
      cbn [length] in Hf.
      destruct Hm as [-> | Hm]; simpl; [lia|]. destruct (tcolor t' =? RB_RED); lia.
    + by eexists _, _.
  - eexists _, _. split; [done|]. destruct (rb_plug _ _ _ _ Ht HC) as (m & Hm).
    by exists C, t, m.
Qed.

Lemma erase_color_spec s C t : erase_at s C t ->
  exists s' t' m, __rb_erase_color s (addr t) (top C) = Some s' /\
    reach s0 s' l [] t' /\ rb RB_BLACK m t'.
Proof.
  intros H. unfold __rb_erase_color.
  destruct (erase_loop (S (S (size (nodes s)))) s C t H) as (s1 & x & -> & Hend).
  { destruct H as (n & [H _] & _). apply depth_size in H. unfold turns. destruct (_ =? _); lia. }
  simpl. destruct Hend as (C' & t' & m & Hr & -> & Hm).
  destruct (reach_blacken _ _ _ Hr) as (s2 & -> & H2). exists s2, (plug C' (blacken t')), m.
  split_and!; [done| |done]. by eapply reach_refocus; [|exact H2].
Qed.
End Erase.

(** ** The node at one end of a subtree *)

Definition most_body (d : side) : rb_root -> Z -> Z + option Z :=
  match d with L => leftmost_body | R => rightmost_body end.
Definition most (d : side) : rb_root -> Z -> option Z :=
  match d with L => leftmost | R => rightmost end.

Lemma plug_app D C t : plug (D ++ C) t = plug C (plug D t).
Proof. revert t. induction D as [|f D IH]; intros t; [done|]. apply IH. Qed.

Lemma node_cases d t : t <> Leaf -> exists c a x b, t = node d c a x b.
Proof. destruct t as [|c a x b]; [done|]. destruct d; eauto. Qed.

Lemma inorder_length d c a x b :
  length (inorder (node d c a x b)) = S (length (inorder a) + length (inorder b)).
Proof. destruct d; simpl; rewrite length_app; simpl; lia. Qed.

Lemma most_loop d s l fuel : forall C t, sees s l C t -> t <> Leaf ->
  (length (inorder t) < fuel)%nat ->
  exists D c x r, t = plug D (node d c Leaf x r) /\ Forall (fun f => f_side f = d) D /\
    loop fuel (most_body d s) (addr t) = Some (Some x).
Proof.
  induction fuel as [|fuel IH]; intros C t H Ht Hf; [lia|]. rewrite loop_S.
  destruct (node_cases d t Ht) as (c & a & x & b & ->).
  destruct (focus_node _ _ _ _ _ _ _ (proj1 H)) as [Lx _]. rewrite addr_node.
  assert (E : most_body d s x = if addr a =? 0 then inr (Some x) else inl (addr a)).
  { destruct d; simpl in *; unfold leftmost_body, rightmost_body; by rewrite Lx. }
  rewrite E. clear E. apply (refocus (Frame d c x b :: C) a) in H; [|done].
  rewrite (focus_null _ _ _ (proj1 H)). destruct a as [|ca a1 y a2].
  - exists [], c, x, b. done.
  - destruct (IH _ _ H ltac:(done)) as (D & c' & x' & r & Ea & HD & ->).
    { pose proof (inorder_length d c (Node ca a1 y a2) x b). lia. }
    exists (D ++ [Frame d c x b]), c', x', r. rewrite plug_app, Ea. split_and!; [done| |done].
    apply Forall_app. split; [done|]. by repeat constructor.
Qed.

Lemma most_spec d s l C t : sees s l C t -> t <> Leaf ->
  exists D c x r, t = plug D (node d c Leaf x r) /\ Forall (fun f => f_side f = d) D /\
    most d s (addr t) = Some x.
Proof.
  intros H Ht. destruct (most_loop d s l (S (size (nodes s))) C t H Ht) as (D & c & x & r & E & HD & Hl).
  - destruct H as [[M _] _]. apply mem_size in M.
    rewrite length_app, <- (length_fmap fst (cells _ _)), cells_keys in M. lia.
  - exists D, c, x, r. split_and!; [done|done|].
    destruct d; simpl in *; [unfold leftmost|unfold rightmost]; by rewrite Hl.
Qed.

(** ** Removal *)

Lemma ctx_rename D : forall k n d c x y t C,
  rb_ctx k n (D ++ Frame d c x t :: C) -> rb_ctx k n (D ++ Frame d c y t :: C).
Proof. induction D as [|f D IH]; intros; simpl in *; inversion H; subst; eauto with rb. Qed.

(** The nodes of a subtree at one end and the others, for contexts of one side. *)
Lemma one_side_lists d D : Forall (fun f => f_side f = d) D ->
  match d with L => before D = [] | R => after D = [] end.
Proof.
  induction 1 as [|[d' c x u] D Hd HD IH]; [by destruct d|]. simpl in Hd. subst d'.
  destruct d; simpl in *; [by rewrite IH|done].
Qed.

Lemma before_app D C : before (D ++ C) = before C ++ before D.
Proof.
  induction D as [|f D IH]; simpl; [by rewrite app_nil_r|]. by rewrite IH, <- app_assoc.
Qed.

Lemma erase_two_spec s l C c t old u : sees s l C (Node c t old u) -> t <> Leaf -> u <> Leaf ->
  exists s' D cy y r, u = plug D (Node cy Leaf y r) /\
    erase_two s old = Some (s', addr r, top (D ++ Frame R c y t :: C), cy) /\
    sees s' (before C ++ (inorder t ++ inorder u) ++ after C) (D ++ Frame R c y t :: C) r /\
    same_outside l s s'.
Proof.
  intros H Ht Hu. unfold erase_two.
  destruct (focus_node _ _ L _ _ _ _ (proj1 H)) as [Lold _]. rewrite Lold. simpl.
  apply (refocus (Frame R c old t :: C) u) in H as G; [|done].
  destruct (most_spec L _ _ _ _ G Hu) as (D & cy & y & r & -> & HD & E).
  cbn [most] in E.
  rewrite E. simpl. clear E.
  apply (refocus (D ++ Frame R c old t :: C) (node L cy Leaf y r)) in G; [|by rewrite plug_app].
  destruct (focus_node _ _ _ _ _ _ _ (proj1 G)) as [Ly Hy]. rewrite Ly. simpl.
  destruct (unlink_spec _ _ _ _ _ _ _ G) as (s1 & -> & G1 & Ly1 & Hny & So1). simpl.
  rewrite Ly1. simpl.
  pose proof (one_side_lists _ _ HD) as HbD. simpl in HbD. set (l1 := before _ ++ _) in *.
  apply (refocus C (Node c t old (plug D r))) in G1; [|by rewrite plug_app].
  destruct t as [|ct t tx tu]; [done|].
  destruct (take_place_spec _ _ _ _ _ _ _ _ _ _ y _ G1 Hny Hy Ly1) as (s2 & -> & G2 & _ & So2).
  simpl. exists s2, D, cy, y, r. split; [done|]. split; [|split].
  - do 3 f_equal. destruct D as [|f D]; simpl; [by rewrite Z.eqb_refl|].
    destruct (f_addr f =? old) eqn:Ef; [|done]. apply Z.eqb_eq in Ef. exfalso.
    apply Forall_cons in HD as [HL _]. pose proof (focus_nodup _ _ _ (proj1 G)) as N.
    rewrite inorder_plug in N. apply NoDup_app in N as (_ & N & _). apply (N old).
    + rewrite before_app. simpl. set_solver.
    + apply elem_of_app. right. simpl. rewrite HL. set_solver.
  - apply (refocus (D ++ Frame R c y (Node ct t tx tu) :: C) r) in G2; [|by rewrite plug_app].
    destruct G2 as [G2 E2]. split; [done|]. rewrite E2, !inorder_plug, HbD. simpl.
    by rewrite <- ?app_assoc.
  - eapply same_outside_trans; [done|]. eapply same_outside_sub; [|done].
    intros a Ha. destruct G as [_ <-]. rewrite inorder_plug. unfold l1 in Ha. simpl in *.
    rewrite !elem_of_cons, !elem_of_app in Ha. rewrite elem_of_app, elem_of_cons, elem_of_app. tauto.
Qed.

(** The focus on a node of the tree. *)
Lemma focus_on t x : x ∈ inorder t -> exists C c a b, t = plug C (Node c a x b).
Proof.
  induction t as [|c a IHa y b IHb]; simpl; [by intros ?%not_elem_of_nil|].
  rewrite elem_of_app, elem_of_cons. intros [H|[->|H]]; [|by exists [], c, a, b|].
  - destruct (IHa H) as (C & k & a' & b' & ->).
    exists (C ++ [Frame L c y b]), k, a', b'. by rewrite plug_app.
  - destruct (IHb H) as (C & k & a' & b' & ->).
    exists (C ++ [Frame R c y a]), k, a', b'. by rewrite plug_app.
Qed.

(** An element without duplicates has one place. *)
Lemma split_unique {A} (x : A) l1 l2 m1 m2 : NoDup (l1 ++ x :: l2) ->
  l1 ++ x :: l2 = m1 ++ x :: m2 -> l1 = m1 /\ l2 = m2.
Proof.
  revert m1. induction l1 as [|y l1 IH]; intros [|z m1] N E; simpl in *; simplify_eq.
  - done.
  - exfalso. apply NoDup_cons in N as [N _]. set_solver.
  - exfalso. apply NoDup_cons in N as [N _]. set_solver.
  - apply NoDup_cons in N as [_ N]. destruct (IH m1 N) as [-> ->]; done.
Qed.

Lemma focus_split s l1 x l2 t : sees s (l1 ++ x :: l2) [] t ->
  exists C c a b, t = plug C (Node c a x b) /\ l1 = before C ++ inorder a /\
    l2 = inorder b ++ after C /\ sees s (l1 ++ x :: l2) C (Node c a x b).
Proof.
  intros H. pose proof (focus_nodup _ _ _ (proj1 H)) as N.
  assert (El : inorder t = l1 ++ x :: l2) by apply H. simpl in N. rewrite El in N.
  destruct (focus_on t x) as (C & c & a & b & ->); [rewrite El; set_solver|].
  rewrite inorder_plug in El. simpl in El.
  destruct (split_unique x l1 l2 (before C ++ inorder a) (inorder b ++ after C) N) as [E1 E2].
  { by rewrite <- El, <- !app_assoc. }
  exists C, c, a, b. split_and!; [done..|]. by eapply refocus; [|exact H].
Qed.

(** The tree after the node of colour [cy] with the only subtree [r] was taken out. *)
Lemma erase_finish s l D d cy y r k n : sees s l D r ->
  rb k n (node d cy Leaf y r) -> rb_ctx k n D ->
  exists s', (if cy =? RB_BLACK then __rb_erase_color s (addr r) (top D) else Some s) = Some s' /\
    is_rbtree s' l /\ same_outside l s s'.
Proof.
  intros H Hn HC.
  apply rb_node_inv in Hn as [(-> & -> & _ & Hr)|(-> & -> & m & c1 & c2 & -> & _ & Hr)]; simpl.
  - exists s. split_and!; [done| |done]. destruct (rb_plug _ _ _ _ Hr (ctx_weaken _ _ HC)) as (m & Hm).
    exists (plug D r), m. split; [|done]. by eapply refocus; [|exact H].
  - destruct (erase_color_spec s l s D r) as (s' & t' & m' & -> & [H' So] & Ht').
    { exists m. split_and!; [by split|done|].
      destruct (rb_color_cases _ _ _ Hr) as [-> | ->]; [right|left]; split; try by eapply rb_tcolor.
      - inversion Hr; subst. rewrite blacken_node. eauto with rb.
      - done. }
    exists s'. split_and!; [done| |done]. by exists t', m'.
Qed.

(** A node with at most one child. *)
Lemma erase_one d s l C c x u k n : sees s l C (node d c Leaf x u) ->
  rb k n (node d c Leaf x u) -> rb_ctx k n C ->
  exists s', rb_erase s x = Some s' /\ is_rbtree s' (before C ++ inorder u ++ after C) /\
    same_outside l s s'.
Proof.
  intros H Hn HC. unfold rb_erase.
  destruct (focus_node _ _ _ _ _ _ _ (proj1 H)) as [Lx _]. rewrite Lx. simpl.
  destruct (unlink_spec _ _ _ _ _ _ _ H) as (s1 & E & H1 & _ & Hnx & So1).
  destruct (erase_finish s1 _ _ d c x u k n H1 Hn HC) as (s2 & E2 & Hs2 & So2).
  exists s2. split_and!; [|done|].
  - destruct d; simpl; rewrite ?andb_false_r; simpl; [by rewrite E|].
    destruct (addr u =? 0) eqn:Eu; simpl; [|by rewrite E]. apply Z.eqb_eq in Eu.
    rewrite Eu in E, E2. by rewrite E.
  - eapply same_outside_trans; [done|]. eapply same_outside_sub; [|done].
    intros y. destruct H as [_ <-]. rewrite inorder_plug, !elem_of_app.
    destruct d; simpl; rewrite ?elem_of_app, ?elem_of_cons; tauto.
Qed.

Lemma erase_focus s l C c a x b k n : sees s l C (Node c a x b) ->
  rb k n (Node c a x b) -> rb_ctx k n C ->
  exists s', rb_erase s x = Some s' /\
    is_rbtree s' (before C ++ (inorder a ++ inorder b) ++ after C) /\ same_outside l s s'.
Proof.
  intros H Hn HC. destruct (decide (a = Leaf)) as [->|Ha]; [exact (erase_one L _ _ _ _ _ _ _ _ H Hn HC)|].
  destruct (decide (b = Leaf)) as [->|Hb]; [rewrite app_nil_r; exact (erase_one R _ _ _ _ _ _ _ _ H Hn HC)|].
  destruct (erase_two_spec _ _ _ _ _ _ _ H Ha Hb) as (s1 & D & cy & y & r & Eb & E & H1 & So1).
  assert (exists ky ny, rb ky ny (node L cy Leaf y r) /\ rb_ctx ky ny (D ++ Frame R c y a :: C))
    as (ky & ny & Hy & HD).
  { destruct (rb_plug _ _ _ _ Hn HC) as (m & Hm). rewrite Eb in Hm.
    change (plug C _) with (plug (Frame R c x a :: C) (plug D (Node cy Leaf y r))) in Hm.
    rewrite <- plug_app in Hm. apply rb_plug_inv in Hm as (ky & ny & ? & ?); [|done].
    exists ky, ny. split; [done|]. by eapply ctx_rename. }
  destruct (erase_finish _ _ _ L cy y r ky ny H1 Hy HD) as (s2 & E2 & Hs2 & So2).
  exists s2. split_and!; [|done|].
  - unfold rb_erase. destruct (focus_node _ _ L _ _ _ _ (proj1 H)) as [Lx _]. rewrite Lx. simpl.
    rewrite (focus_null _ (Frame L c x b :: C) a), (focus_null _ (Frame R c x a :: C) b)
      by (by apply focus_up; apply H).
    destruct a, b; [done..|]. simpl. rewrite E. simpl. done.
  - eapply same_outside_trans; [done|]. eapply same_outside_sub; [|done].
    intros z. destruct H as [_ <-]. rewrite inorder_plug. simpl.
    rewrite !elem_of_app, elem_of_cons. tauto.
Qed.

Lemma erase_spec s l1 x l2 : is_rbtree s (l1 ++ x :: l2) ->
  exists s', rb_erase s x = Some s' /\ is_rbtree s' (l1 ++ l2) /\ same_outside (l1 ++ x :: l2) s s'.
Proof.
  intros (t0 & m0 & H & Hrb). destruct (focus_split _ _ _ _ _ H) as (C & c & a & b & -> & -> & -> & G).
  apply rb_plug_inv in Hrb as (k & n & Hx & HC); [|done]. clear H. rename G into H.
  destruct (erase_focus _ _ _ _ _ _ _ _ _ H Hx HC) as (s' & E & Hs & So).
  exists s'. split_and!; [done| |done]. by rewrite <- !app_assoc in *.
Qed.
