(* ===== verification/RbtreeCalls.v ===== *)
(** The calls of lib/rbtree.c against a list of nodes without duplicates.

    [is_rbtree s l] relates a store with a red-black tree to the list [l] of its nodes in
    order.  The calls insert a node before or after another one, remove and replace nodes, and
    walk to the neighbours; the nodes outside of the tree stay as they are. *)
From stdpp Require Import base list gmap numbers option list_tactics.
From Stdlib Require Import ZArith Lia.
From S2P Require Import Prelude Rbtree RbtreeShape RbtreeInsert RbtreeErase.

Local Open Scope Z_scope.

(** ** Insertion *)

(** rb_link_node followed by rb_insert_color, as all users of the library do it. *)
Definition rb_insert (s : rb_root) (x parent : Z) (lnk : link) : option rb_root :=
  s ← rb_link_node s x parent lnk; rb_insert_color s x.

(** The pointer at [lnk] is NULL and belongs to [parent]. *)
Definition link_empty (s : rb_root) (l : list Z) (parent : Z) (lnk : link) : Prop :=
  match lnk with
  | RootLink => parent = 0 /\ root_node s = 0
  | LeftLink p => parent = p /\ p ∈ l /\ rb_left <$> nodes s !! p = Some 0
  | RightLink p => parent = p /\ p ∈ l /\ rb_right <$> nodes s !! p = Some 0
  end.

(** The list with [x] at the place. *)
Definition insert_at_link (lnk : link) (x : Z) (l : list Z) : list Z :=
  match lnk with
  | RootLink => [x]
  | LeftLink p => l ≫= fun y => if y =? p then [x; y] else [y]
  | RightLink p => l ≫= fun y => if y =? p then [y; x] else [y]
  end.

Lemma bind_around (f : Z -> list Z) l1 p l2 : NoDup (l1 ++ p :: l2) ->
  (l1 ++ p :: l2) ≫= (fun y => if y =? p then f y else [y]) = l1 ++ f p ++ l2.
Proof.
  assert (Hid : forall l, p ∉ l -> l ≫= (fun y => if y =? p then f y else [y]) = l).
  { induction l as [|y l IH]; [done|]. intros [Hy Hl]%not_elem_of_cons. csimpl.
    rewrite IH by done. by destruct (Z.eqb_spec y p). }
  intros N. apply NoDup_app in N as (_ & N1 & N2). apply NoDup_cons in N2 as [N2 _].
  rewrite bind_app. csimpl. rewrite Z.eqb_refl, (Hid l2 N2), (Hid l1); [done|].
  intros Hp. apply (N1 p Hp). left.
Qed.

(** The context of an empty place. *)
Definition place (s : rb_root) (l : list Z) (parent : Z) (lnk : link) (C : ctx) : Prop :=
  sees s l C Leaf /\ parent = top C /\ lnk = link_of C /\ rb_ctx RB_BLACK 0 C /\
  forall x, insert_at_link lnk x l = before C ++ x :: after C.

Lemma empty_ctx s l C n : sees s l [] (plug C Leaf) -> rb RB_BLACK n (plug C Leaf) ->
  sees s l C Leaf /\ rb_ctx RB_BLACK 0 C.
Proof.
  intros H Hrb. apply (refocus C Leaf) in H; [|done]. split; [done|].
  apply rb_plug_inv in Hrb as (c & m & Hc & HC); [|done]. by apply rb_leaf_inv in Hc as [-> ->].
Qed.

Lemma place_below d s l p : is_rbtree s l -> p ∈ l -> child d <$> nodes s !! p = Some 0 ->
  exists C, place s l p (match d with L => LeftLink p | R => RightLink p end) C.
Proof.
  intros (t & n & H & Hrb) Hp E. pose proof (focus_nodup _ _ _ (proj1 H)) as N.
  assert (El : inorder t = l) by apply H. simpl in N. rewrite El in N.
  destruct (focus_on t p) as (C & c & a0 & b0 & ->); [by rewrite El|].
  assert (exists a b, Node c a0 p b0 = node d c a p b) as (a & b & Ea) by (destruct d; eauto).
  rewrite Ea in *. apply (refocus C (node d c a p b)) in H as G; [|done].
  destruct (focus_node _ _ _ _ _ _ _ (proj1 G)) as [Lp _]. rewrite Lp in E. simpl in E.
  rewrite child_rec in E. apply (refocus (Frame d c p b :: C) a) in G; [|done].
  apply proj1, focus_null in G. destruct a; [|simplify_eq; by rewrite E in G].
  exists (Frame d c p b :: C). destruct (empty_ctx s l (Frame d c p b :: C) n H Hrb) as [H1 H2].
  split_and!; [done|done|by destruct d|done|]. intros x. rewrite inorder_plug in El. subst l.
  destruct d; simpl in *.
  - rewrite (bind_around (fun y => [x; y])) by done. by rewrite app_nil_r.
  - rewrite <- app_assoc in *. simpl in *. rewrite app_assoc in *.
    rewrite (bind_around (fun y => [y; x])) by done. by rewrite <- !app_assoc.
Qed.

Lemma place_of_link s l parent lnk : is_rbtree s l -> link_empty s l parent lnk ->
  exists C, place s l parent lnk C.
Proof.
  intros H Hl. destruct lnk as [|p|p]; simpl in Hl.
  - destruct Hl as [-> Hr], H as (t & n & H & Hrb). assert (Er : root_node s = addr t) by apply H.
    pose proof (focus_null _ _ _ (proj1 H)) as E. rewrite <- Er, Hr in E.
    destruct t; [|done]. exists []. destruct (empty_ctx s l [] n H Hrb) as [H1 H2]. done.
  - destruct Hl as (-> & Hp & E). by apply (place_below L).
  - destruct Hl as (-> & Hp & E). by apply (place_below R).
Qed.

Lemma rb_insert_spec s l x parent lnk : is_rbtree s l -> link_empty s l parent lnk ->
  x ∉ l -> x <> 0 -> is_Some (nodes s !! x) ->
  exists s', rb_insert s x parent lnk = Some s' /\ is_rbtree s' (insert_at_link lnk x l) /\
    same_outside (x :: l) s s'.
Proof.
  intros Ht Hl Hx Hx0 [n Hn].
  destruct (place_of_link _ _ _ _ Ht Hl) as (C & H & -> & -> & HC & Ei).
  destruct (link_spec _ _ _ x n H Hx Hx0 Hn) as (s1 & E & H1 & So1).
  destruct (insert_color_spec _ _ _ _ H1 HC) as (s2 & E2 & H2 & So2).
  exists s2. unfold rb_insert. rewrite E. simpl. rewrite Ei. split_and!; [done|done|].
  eapply same_outside_trans; [done|]. eapply same_outside_sub; [|done].
  intros y. destruct H as [_ <-]. rewrite inorder_plug. simpl.
  rewrite elem_of_app, !elem_of_cons, elem_of_app. tauto.
Qed.

(** ** Walking *)

(** The neighbour of a position: the next element, or the one before, or NULL. *)
Definition first_of (l : list Z) : Z := default 0 (head l).
Definition last_of (l : list Z) : Z := default 0 (last l).
Definition end_of (d : side) (l : list Z) : Z := match d with L => first_of l | R => last_of l end.

Lemma first_of_app l1 l2 : l1 <> [] -> first_of (l1 ++ l2) = first_of l1.
Proof. by destruct l1. Qed.
Lemma last_of_app l1 l2 : l2 <> [] -> last_of (l1 ++ l2) = last_of l2.
Proof. intros H. unfold last_of. rewrite last_app. destruct l2; [done|]. by destruct (last (z :: l2)) eqn:E; [|apply last_None in E]. Qed.

Lemma most_end d s l C t : sees s l C t -> t <> Leaf -> most d s (addr t) = Some (end_of d (inorder t)).
Proof.
  intros H Ht. destruct (most_spec d _ _ _ _ H Ht) as (D & c & x & r & -> & HD & ->). f_equal.
  apply one_side_lists in HD. rewrite inorder_plug. destruct d; simpl in *; rewrite HD.
  - done.
  - rewrite app_nil_r, app_assoc, last_of_app; done.
Qed.

(** Beside the focus: what comes after it, on its right, or before it. *)
Definition beside (d : side) (C : ctx) : Z :=
  match d with L => last_of (before C) | R => first_of (after C) end.
Definition up_body (d : side) : rb_root -> Z -> Z + option Z :=
  match d with L => up_left_body | R => up_right_body end.

Lemma up_loop d s l fuel : forall C t, sees s l C t -> t <> Leaf -> (length C < fuel)%nat ->
  loop fuel (up_body d s) (addr t) = Some (Some (beside d C)).
Proof.
  induction fuel as [|fuel IH]; intros C t H Ht Hf; [lia|]. rewrite loop_S.
  destruct (node_cases L t Ht) as (c & a & x & b & Et).
  assert (Lx : exists n, nodes s !! addr t = Some n /\ rb_parent n = top C).
  { rewrite Et in H |- *. destruct (focus_node _ _ _ _ _ _ _ (proj1 H)) as [Lx _].
    eexists. split; [exact Lx|done]. }
  destruct Lx as (n & Lx & Ep).
  assert (Eb : up_body d s (addr t) = if top C =? 0 then inr (Some 0)
    else match nodes s !! top C with
         | None => inr None
         | Some p => if addr t =? child d p then inl (top C) else inr (Some (top C))
         end).
  { destruct d; simpl; unfold up_left_body, up_right_body; rewrite Lx, Ep; done. }
  rewrite Eb. clear Eb. destruct C as [|[d' k p u] C]; [by destruct d|].
  destruct (focus_frame _ _ _ _ (proj1 H)) as [Lp Hp]. simpl in Hp, Lp |- *.
  rewrite (proj2 (Z.eqb_neq _ _) Hp), Lp. destruct (decide (d = d')) as [<-|Hd].
  - rewrite child_rec, Z.eqb_refl. apply (refocus C (node d k t p u)) in H; [|done].
    rewrite <- (addr_node d k t p u), (IH _ _ H); [|by destruct d|simpl in Hf; lia].
    by destruct d; simpl; rewrite ?app_nil_r.
  - assert (d' = flip d) as -> by (by destruct d, d').
    replace (child d _) with (addr u) by (by destruct d).
    rewrite (proj2 (Z.eqb_neq _ _)); [|apply (focus_other _ _ _ _ (proj1 H)); by left].
    destruct d; simpl; [|done]. by rewrite app_assoc, last_of_app.
Qed.

(** The next node on side [flip d]. *)
Lemma walk_spec d s l1 x l2 : is_rbtree s (l1 ++ x :: l2) ->
  match d with L => rb_prev | R => rb_next end s x =
    Some (match d with L => last_of l1 | R => first_of l2 end).
Proof.
  intros (t & n & H & _). destruct (focus_split _ _ _ _ _ H) as (C & c & a & b & -> & -> & -> & G).
  clear H. rename G into H.
  destruct (focus_node _ _ L _ _ _ _ (proj1 H)) as [Lx _].
  pose proof (depth_size _ _ _ _ H) as Hs.
  assert (Hup : forall d', loop (S (size (nodes s))) (up_body d' s) x = Some (Some (beside d' C))).
  { intros d'. apply (up_loop d' s _ _ C (Node c a x b) H); [done|lia]. }
  destruct d; [unfold rb_prev|unfold rb_next]; rewrite Lx; simpl.
  - apply (refocus (Frame L c x b :: C) a) in H; [|done]. rewrite (focus_null _ _ _ (proj1 H)).
    pose proof (Hup L) as E. simpl in E. destruct a as [|ca a1 y a2]; [by rewrite E, app_nil_r|].
    pose proof (most_end R _ _ _ _ H ltac:(done)) as M. cbn [most end_of] in M.
    rewrite M, last_of_app; [done|]. simpl. by destruct (inorder a1).
  - apply (refocus (Frame R c x a :: C) b) in H; [|done]. rewrite (focus_null _ _ _ (proj1 H)).
    pose proof (Hup R) as E. simpl in E. destruct b as [|cb b1 y b2]; [by rewrite E|].
    pose proof (most_end L _ _ _ _ H ltac:(done)) as M. cbn [most end_of] in M.
    rewrite M, first_of_app; [done|]. simpl. by destruct (inorder b1).
Qed.

Lemma ends_spec s l : is_rbtree s l -> rb_first s = Some (first_of l) /\ rb_last s = Some (last_of l).
Proof.
  intros (t & n & H & _). assert (Er : root_node s = addr t) by apply H.
  assert (El : inorder t = l) by apply H.
  unfold rb_first, rb_last. rewrite Er, (focus_null _ _ _ (proj1 H)), <- El.
  destruct t as [|c a x b]; [done|].
  split; [exact (most_end L _ _ _ _ H ltac:(done))|exact (most_end R _ _ _ _ H ltac:(done))].
Qed.

(** ** Replacement *)

Lemma replace_spec s l1 v l2 new : is_rbtree s (l1 ++ v :: l2) -> new ∉ l1 ++ v :: l2 -> new <> 0 ->
  is_Some (nodes s !! new) ->
  exists s', rb_replace_node s v new = Some s' /\ is_rbtree s' (l1 ++ new :: l2) /\
    same_outside (new :: l1 ++ v :: l2) s s'.
Proof.
  intros (t & m & H & Hrb) Hnew Hn0 [n Hn].
  destruct (focus_split _ _ _ _ _ H) as (C & c & a & b & -> & -> & -> & G). clear H. rename G into H.
  destruct (replace_node_spec _ _ _ _ _ _ _ _ _ H Hnew Hn0 Hn) as (s' & E & H' & _ & So).
  exists s'. split_and!; [done| |done].
  apply rb_plug_inv in Hrb as (k & h & Hv & HC); [|done].
  assert (Hv' : rb k h (Node c a new b)).
  { apply (rb_node_inv L) in Hv as [(-> & -> & ? & ?)|(-> & -> & q & c1 & c2 & -> & ? & ?)].
    - by apply (rb_red h L).
    - by eapply (rb_black q L). }
  destruct (rb_plug _ _ _ _ Hv' HC) as (q & Hq). exists (plug C (Node c a new b)), q.
  split; [|done]. apply (refocus [] (plug C (Node c a new b))) in H'; [|done].
  rewrite <- !app_assoc in *. done.
Qed.

(** ** Depth *)

Fixpoint height (t : tree) : nat :=
  match t with Leaf => 0 | Node _ l _ r => S (Nat.max (height l) (height r)) end.

Lemma rb_size c n t : rb c n t -> (2 ^ n <= S (length (inorder t)))%nat.
Proof.
  induction 1; [done|rewrite inorder_length; lia|].
  rewrite inorder_length. change (2 ^ S n)%nat with (2 * 2 ^ n)%nat. lia.
Qed.

Lemma height_node d c t x u : height (node d c t x u) = S (Nat.max (height t) (height u)).
Proof. destruct d; simpl; lia. Qed.

Lemma rb_height c n t : rb c n t -> (height t <= 2 * n + (if (c =? RB_RED)%Z then 1 else 0))%nat.
Proof.
  induction 1 as [|n d t x u _ IHt _ IHu|n d c t x c' u _ IHt _ IHu]; [done|..];
    rewrite height_node; simpl in *; [lia|].
  destruct (c =? RB_RED), (c' =? RB_RED); lia.
Qed.

Lemma height_plug C t : (length C + height t <= height (plug C t))%nat.
Proof.
  revert t. induction C as [|f C IH]; intros t; simpl; [lia|].
  specialize (IH (plug1 f t)). unfold plug1 in *. rewrite height_node in IH. lia.
Qed.

(** [k] steps along rb_parent; the root leads to NULL. *)
Fixpoint ancestor (s : rb_root) (k : nat) (x : Z) : option Z :=
  match k with
  | O => Some x
  | S k => if x =? 0 then Some 0 else n ← nodes s !! x; ancestor s k (rb_parent n)
  end.

Lemma ancestor_null s k : ancestor s k 0 = Some 0.
Proof. by destruct k. Qed.

Lemma ancestor_root s l C t k : sees s l C t -> t <> Leaf -> (length C < k)%nat ->
  ancestor s k (addr t) = Some 0.
Proof.
  revert t k. induction C as [|f C IH]; intros t [|k] H Ht Hk; simpl in Hk; try lia;
    destruct (node_cases L t Ht) as (c & a & x & b & ->);
    destruct (focus_node _ _ _ _ _ _ _ (proj1 H)) as [Lx Hx];
    cbn [ancestor addr node]; rewrite (proj2 (Z.eqb_neq _ _) Hx), Lx; simpl.
  - apply ancestor_null.
  - apply (refocus C (plug1 f (node L c a x b))) in H; [|done].
    rewrite <- (addr_plug1 f (Node c a x b)). apply IH; [done| |lia]. by destruct f as [[] ? ? ?].
Qed.

Lemma depth_bound s l x : is_rbtree s l -> x ∈ l ->
  ancestor s (2 * Nat.log2 (S (length l))) x = Some 0.
Proof.
  intros (t & n & H & Hrb) Hx. assert (El : inorder t = l) by apply H. rewrite <- El in Hx.
  destruct (focus_on t x Hx) as (C & c & a & b & ->).
  pose proof (rb_size _ _ _ Hrb) as Hs. rewrite El in Hs.
  pose proof (rb_height _ _ _ Hrb) as Hh. simpl in Hh.
  pose proof (height_plug C (Node c a x b)) as Hp. simpl in Hp.
  assert (Hn : (n <= Nat.log2 (S (length l)))%nat) by (apply Nat.log2_le_pow2; lia).
  apply (refocus C (Node c a x b)) in H; [|done].
  apply (ancestor_root _ _ _ _ _ H); [done|]. lia.
Qed.

(** ** All calls *)

Inductive rb_call :=
| CallInsert (x parent : Z) (lnk : link)
| CallErase (x : Z)
| CallReplace (victim new : Z).

Definition run_call (s : rb_root) (c : rb_call) : option rb_root :=
  match c with
  | CallInsert x parent lnk => rb_insert s x parent lnk
  | CallErase x => rb_erase s x
  | CallReplace victim new => rb_replace_node s victim new
  end.

(** The same on the list of nodes. *)
Definition spec_call (l : list Z) (c : rb_call) : list Z :=
  match c with
  | CallInsert x _ lnk => insert_at_link lnk x l
  | CallErase x => filter (fun y => y <> x) l
  | CallReplace victim new => (fun y => if y =? victim then new else y) <$> l
  end.

(** What the callers owe: a node that is not in the tree goes to an empty place; what is
    removed or replaced is in the tree. *)
Definition call_ok (s : rb_root) (l : list Z) (c : rb_call) : Prop :=
  match c with
  | CallInsert x parent lnk => link_empty s l parent lnk /\ x ∉ l /\ x <> 0 /\ is_Some (nodes s !! x)
  | CallErase x => x ∈ l
  | CallReplace victim new => victim ∈ l /\ new ∉ l /\ new <> 0 /\ is_Some (nodes s !! new)
  end.

(** The addresses that a call may write to. *)
Definition call_nodes (l : list Z) (c : rb_call) : list Z :=
  match c with CallInsert x _ _ => x :: l | CallErase _ => l | CallReplace _ new => new :: l end.

Inductive rb_run : rb_root -> list Z -> Prop :=
| run_empty h : rb_run (RbRoot h 0) []
| run_step s l c s' : rb_run s l -> call_ok s l c -> run_call s c = Some s' -> rb_run s' (spec_call l c).

Lemma is_rbtree_nodup s l : is_rbtree s l -> NoDup l.
Proof. intros (t & n & [H <-] & _). by apply focus_nodup in H. Qed.

Lemma filter_around (l1 : list Z) x l2 : NoDup (l1 ++ x :: l2) ->
  filter (fun y => y <> x) (l1 ++ x :: l2) = l1 ++ l2.
Proof.
  intros N. apply NoDup_app in N as (_ & N1 & N2). apply NoDup_cons in N2 as [N2 _].
  rewrite filter_app, filter_cons_False, !filter_absent; [done|done| |naive_solver].
  intros Hx. apply (N1 x Hx). left.
Qed.

Lemma map_around (l1 : list Z) x l2 y : NoDup (l1 ++ x :: l2) ->
  (fun z => if z =? x then y else z) <$> (l1 ++ x :: l2) = l1 ++ y :: l2.
Proof.
  intros N. apply NoDup_app in N as (_ & N1 & N2). apply NoDup_cons in N2 as [N2 _].
  assert (Hid : forall l : list Z, x ∉ l -> (fun z => if z =? x then y else z) <$> l = l).
  { induction l as [|z l IH]; [done|]. intros [Hz Hl]%not_elem_of_cons.
    rewrite fmap_cons, IH by done. by destruct (Z.eqb_spec z x). }
  rewrite fmap_app, fmap_cons, Z.eqb_refl, Hid, Hid; [done|done|]. intros Hx. apply (N1 x Hx). left.
Qed.

Lemma call_spec s l c : is_rbtree s l -> call_ok s l c ->
  exists s', run_call s c = Some s' /\ is_rbtree s' (spec_call l c) /\
    same_outside (call_nodes l c) s s'.
Proof.
  intros H Hc. pose proof (is_rbtree_nodup _ _ H) as N. destruct c as [x p lnk|x|v new]; simpl in *.
  - destruct Hc as (Hl & Hx & Hx0 & Hn). by apply rb_insert_spec.
  - apply list_elem_of_split in Hc as (l1 & l2 & ->). rewrite filter_around by done.
    by apply erase_spec.
  - destruct Hc as (Hv & Hnew & Hn0 & Hn). apply list_elem_of_split in Hv as (l1 & l2 & ->).
    rewrite map_around by done. by apply replace_spec.
Qed.

Lemma run_is_rbtree s l : rb_run s l -> is_rbtree s l.
Proof.
  induction 1 as [h|s l c s' _ IH Hc E].
  - exists Leaf, 0%nat. split; [|constructor]. split; [|done]. split; [|done]. split; constructor.
  - destruct (call_spec s l c IH Hc) as (s2 & E2 & H & _). by simplify_eq.
Qed.

(** C2: inserting a node with rb_link_node and rb_insert_color at an empty place of a
    red-black tree returns, the result is a red-black tree again with the new node directly
    before or after the parent (by the side of the place) and all other nodes in their order,
    and no node outside of the tree has changed. *)
Theorem rb_insert_correct s l x parent lnk :
  is_rbtree s l -> link_empty s l parent lnk -> x ∉ l -> x <> 0 -> is_Some (nodes s !! x) ->
  exists s1 s2,
    rb_link_node s x parent lnk = Some s1 /\ rb_insert_color s1 x = Some s2 /\
    is_rbtree s2 (insert_at_link lnk x l) /\
    forall a, a ∉ x :: l -> nodes s2 !! a = nodes s !! a.
Proof.
  intros H Hl Hx Hx0 Hn. destruct (rb_insert_spec s l x parent lnk H Hl Hx Hx0 Hn) as (s2 & E & H2 & _ & So).
  unfold rb_insert in E. destruct (rb_link_node s x parent lnk) as [s1|]; [|done]. simpl in E.
  by exists s1, s2.
Qed.

(** Three nodes, and a fourth one that is not in the tree. *)
Definition sample_tree : tree := Node RB_BLACK (Node RB_RED Leaf 8 Leaf) 16 (Node RB_RED Leaf 24 Leaf).
Definition sample_root : rb_root :=
  RbRoot (<[32 := RbNode 0 0 0 0]> (list_to_map (cells 0 sample_tree))) 16.

Lemma sample_is_rbtree : is_rbtree sample_root [8; 16; 24].
Proof.
  exists sample_tree, 1%nat. split; [|apply (rb_black 0 L RB_RED _ _ RB_RED); apply (rb_red 0 L); constructor].
  split; [|done]. split; [|done]. split; [by apply (bool_decide_unpack _)|].
  repeat (constructor; [done|]). constructor.
Qed.

Lemma rb_insert_witness : exists s1 s2,
  rb_link_node sample_root 32 24 (RightLink 24) = Some s1 /\ rb_insert_color s1 32 = Some s2 /\
  is_rbtree s2 [8; 16; 24; 32].
Proof.
  destruct (rb_insert_correct sample_root [8; 16; 24] 32 24 (RightLink 24)) as (s1 & s2 & E1 & E2 & H & _).
  - exact sample_is_rbtree.
  - split; [reflexivity|]. split; [|reflexivity]. by apply (bool_decide_unpack _).
  - by apply (bool_decide_unpack _).
  - lia.
  - by eexists.
  - exists s1, s2. split; [exact E1|]. split; [exact E2|exact H].
Defined.

(** C3: rb_erase of a node of a red-black tree returns, the result is a red-black tree with
    the other nodes in their order, and no node outside of the tree has changed. *)
Theorem rb_erase_correct s l1 x l2 : is_rbtree s (l1 ++ x :: l2) ->
  exists s', rb_erase s x = Some s' /\ is_rbtree s' (l1 ++ l2) /\
    forall a, a ∉ l1 ++ x :: l2 -> nodes s' !! a = nodes s !! a.
Proof. intros H. destruct (erase_spec s l1 x l2 H) as (s' & E & H' & _ & So). eauto. Qed.

Lemma rb_erase_witness : exists s', rb_erase sample_root 16 = Some s' /\ is_rbtree s' [8; 24].
Proof.
  destruct (rb_erase_correct sample_root [8] 16 [24] sample_is_rbtree) as (s' & E & H & _).
  exists s'. split; [exact E|exact H].
Defined.

(** C1: a tree that any sequence of insertions, removals and replacements has built from
    RB_ROOT represents the list that the same operations give on lists: rb_first and rb_last
    are its ends, rb_next and rb_prev lead to the neighbours and to NULL at the ends,
    every node is at most 2 log2(n + 1) steps from the root, and every further call that
    its caller may make succeeds and leaves the nodes of others alone. *)
Theorem rbtree_refines_list s l : rb_run s l ->
  NoDup l /\ rb_first s = Some (first_of l) /\ rb_last s = Some (last_of l) /\
  (forall l1 x l2, l = l1 ++ x :: l2 -> rb_next s x = Some (first_of l2) /\ rb_prev s x = Some (last_of l1)) /\
  (forall x, x ∈ l -> ancestor s (2 * Nat.log2 (S (length l))) x = Some 0) /\
  (forall c, call_ok s l c -> exists s', run_call s c = Some s' /\ rb_run s' (spec_call l c) /\
    forall a, a ∉ call_nodes l c -> nodes s' !! a = nodes s !! a).
Proof.
  intros H. apply run_is_rbtree in H as Ht. destruct (ends_spec _ _ Ht) as [E1 E2].
  split_and!; [by eapply is_rbtree_nodup|done|done| | |].
  - intros l1 x l2 ->. split; [exact (walk_spec R _ _ _ _ Ht)|exact (walk_spec L _ _ _ _ Ht)].
  - intros x Hx. by apply depth_bound.
  - intros c Hc. destruct (call_spec s l c Ht Hc) as (s' & E & _ & _ & So).
    exists s'. split_and!; [done|by eapply run_step|done].
Qed.

Lemma rbtree_refines_witness : exists s, rb_run s [16; 24] /\ rb_next s 16 = Some 24 /\
  rb_first s = Some 16 /\ rb_prev s 16 = Some 0.
Proof.
  assert (H0 : rb_run (RbRoot (nodes sample_root) 0) []) by constructor.
  destruct (rbtree_refines_list _ _ H0) as (_ & _ & _ & _ & _ & Hcall).
  destruct (Hcall (CallInsert 24 0 RootLink)) as (s1 & E1 & H1 & _).
  { split; [done|]. split; [by apply not_elem_of_nil|]. split; [lia|]. by eexists. }
  destruct (rbtree_refines_list _ _ H1) as (_ & _ & _ & _ & _ & Hcall1).
  vm_compute in E1. apply (inj Some) in E1. subst s1.
  destruct (Hcall1 (CallInsert 16 24 (LeftLink 24))) as (s2 & E2 & H2 & _).
  { split; [split; [done|]; split; [by apply (bool_decide_unpack _)|reflexivity]|].
    split; [by apply (bool_decide_unpack _)|]. split; [lia|]. by eexists. }
  destruct (rbtree_refines_list _ _ H2) as (_ & Hf & _ & Hn & _ & _).
  exists s2. split; [exact H2|]. destruct (Hn [] 16 [24] eq_refl) as [N P].
  split; [exact N|]. split; [exact Hf|exact P].
Defined.
