(* ===== verification/Ktime.v ===== *)
(** include/linux/ktime.h and the time arithmetic of kernel/hrtimer.c on a 32-bit machine.

    A ktime_t is the union of a signed 64-bit integer, tv64, with the seconds in its upper and
    the nanoseconds in its lower 32 bits; it is kept as the 64-bit integer.  [ns] is the time that a
    ktime_t stands for, in nanoseconds. *)
From stdpp Require Import base list gmap option numbers.
From Stdlib Require Import ZArith Lia.
From S2P Require Import Prelude Div64.

Local Open Scope Z_scope.

Definition NSEC_PER_SEC : Z := 1000000000.

(** ** The union *)

Definition kt_sec (kt : Z) : Z := Z.shiftr kt 32.
Definition kt_nsec (kt : Z) : Z := s32 kt.
Definition kt_make (sec nsec : Z) : Z := s32 sec * 2 ^ 32 + u32 nsec.

Definition ktime_set (secs nsecs : Z) : Z := kt_make secs nsecs.

Definition ktime_sub (lhs rhs : Z) : Z :=
  let res := s64 (lhs - rhs) in
  if kt_nsec res <? 0 then kt_make (kt_sec res) (kt_nsec res + NSEC_PER_SEC) else res.

Definition ktime_add (add1 add2 : Z) : Z :=
  let res := s64 (add1 + add2) in
  if NSEC_PER_SEC <=? kt_nsec res then s64 (res + u32 (- NSEC_PER_SEC)) else res.

(** struct timespec: the seconds and the nanoseconds. *)
Definition timespec_to_ktime (ts : Z * Z) : Z := kt_make ts.1 ts.2.
Definition ktime_to_timespec (kt : Z) : Z * Z := (kt_sec kt, kt_nsec kt).

Definition ktime_to_ns (kt : Z) : Z := u64 (u64 (kt_sec kt) * NSEC_PER_SEC + kt_nsec kt).

Definition ktime_add_ns (kt nsec : Z) : option Z :=
  if nsec <? NSEC_PER_SEC then Some (ktime_add kt nsec)
  else
    '(rem, nsec) ← do_div nsec NSEC_PER_SEC;
    Some (ktime_add kt (ktime_set (s32 nsec) rem)).

(** while (div >> 32) { sft++; div >>= 1; } *)
Definition divns_body (st : Z * Z) : (Z * Z) + (Z * Z) :=
  let '(div, sft) := st in
  if Z.shiftr div 32 =? 0 then inr (div, sft) else inl (Z.shiftr div 1, sft + 1).

Definition ktime_divns (kt div : Z) : option Z :=
  let dclc := ktime_to_ns kt in
  '(div, sft) ← loop 33 divns_body (div, 0);
  let dclc := Z.shiftr dclc sft in
  '(_, dclc) ← do_div dclc (u32 div);
  Some (u32 dclc).

(** hrtimer_forward, from the resolution of the base and the expiry time of the timer to the
    overruns and the new expiry time. *)
Definition forward (resolution expires now interval : Z) : option (Z * Z) :=
  let delta := ktime_sub now expires in
  if delta <? 0 then Some (0, expires)
  else
    let interval := if interval <? resolution then resolution else interval in
    if interval <=? delta then
      let incr := s64 (ktime_to_ns interval) in
      orun ← ktime_divns delta incr;
      expires ← ktime_add_ns expires (u64 (incr * orun));
      if now <? expires then Some (orun, expires)
      else Some (u32 (orun + 1), ktime_add expires interval)
    else Some (1, ktime_add expires interval).

(** ** Seconds and nanoseconds *)

Definition ns (kt : Z) : Z := kt_sec kt * NSEC_PER_SEC + kt_nsec kt.

(** The seconds fit their field, and the nanoseconds are below a second. *)
Definition normal (kt : Z) : Prop :=
  - 2 ^ 31 <= kt_sec kt < 2 ^ 31 /\ 0 <= kt_nsec kt < NSEC_PER_SEC.

(** The times that have a ktime_t. *)
Definition in_range (n : Z) : Prop := - 2 ^ 31 * NSEC_PER_SEC <= n < 2 ^ 31 * NSEC_PER_SEC.

Lemma s32_add_high s n : 0 <= n < 2 ^ 31 -> s32 (s * 2 ^ 32 + n) = n.
Proof.
  intros Hn. unfold s32, U32_MOD. replace (s * 2 ^ 32 + n + 2 ^ 31) with (n + 2 ^ 31 + s * 2 ^ 32) by lia.
  rewrite Z.mod_add by lia. rewrite Z.mod_small; lia.
Qed.

Lemma parts_of s n : 0 <= n < 2 ^ 31 -> kt_sec (s * 2 ^ 32 + n) = s /\ kt_nsec (s * 2 ^ 32 + n) = n.
Proof.
  intros Hn. split; [|by apply s32_add_high]. unfold kt_sec. rewrite Z.shiftr_div_pow2 by lia.
  rewrite Z.add_comm, Z.div_add, Z.div_small by lia. lia.
Qed.

Lemma normal_parts kt : normal kt -> kt = kt_sec kt * 2 ^ 32 + kt_nsec kt.
Proof.
  intros [_ Hn]. unfold kt_sec, kt_nsec, s32, U32_MOD, NSEC_PER_SEC in *.
  rewrite Z.shiftr_div_pow2 in * by lia. change (2 ^ 31) with 2147483648 in *.
  change (2 ^ 32) with 4294967296 in *. div_lia.
Qed.

Lemma normal_make s n : - 2 ^ 31 <= s < 2 ^ 31 -> 0 <= n < NSEC_PER_SEC ->
  normal (s * 2 ^ 32 + n) /\ ns (s * 2 ^ 32 + n) = s * NSEC_PER_SEC + n.
Proof.
  intros Hs Hn. unfold normal, ns, NSEC_PER_SEC in *. destruct (parts_of s n) as [-> ->]; lia.
Qed.

Lemma s64_small x : - 2 ^ 63 <= x < 2 ^ 63 -> s64 x = x.
Proof. intros H. unfold s64, U64_MOD. change (2 ^ 64) with (2 * 2 ^ 63). rewrite Z.mod_small; lia. Qed.

Lemma s64_add_l x y : s64 (s64 x + y) = s64 (x + y).
Proof.
  unfold s64. f_equal. set (m := (x + 2 ^ 63) mod U64_MOD).
  replace (m - 2 ^ 63 + y + 2 ^ 63) with (m + y) by lia. unfold m. rewrite Zplus_mod_idemp_l. f_equal. lia.
Qed.

Lemma nsec_s64 x : kt_nsec (s64 x) = kt_nsec x.
Proof.
  unfold kt_nsec, s32, s64, U32_MOD, U64_MOD. f_equal.
  set (q := (x + 2 ^ 63) / 2 ^ 64). replace ((x + 2 ^ 63) mod 2 ^ 64) with (x + 2 ^ 63 - 2 ^ 64 * q)
    by (unfold q; rewrite Z.mod_eq; lia).
  replace (x + 2 ^ 63 - 2 ^ 64 * q - 2 ^ 63 + 2 ^ 31) with (x + 2 ^ 31 + (- 2 ^ 32 * q) * 2 ^ 32) by lia.
  by rewrite Z.mod_add.
Qed.

Ltac nsec_lia :=
  unfold in_range, ns, NSEC_PER_SEC in *; change (2 ^ 31) with 2147483648 in *;
  change (2 ^ 32) with 4294967296 in *; lia.

Lemma parts_of_neg s n : - 2 ^ 31 <= n < 0 ->
  kt_sec (s * 2 ^ 32 + n) = s - 1 /\ kt_nsec (s * 2 ^ 32 + n) = n.
Proof.
  intros Hn. unfold kt_sec, kt_nsec, s32, U32_MOD. rewrite Z.shiftr_div_pow2 by lia.
  change (2 ^ 31) with 2147483648 in *. change (2 ^ 32) with 4294967296 in *. div_lia.
Qed.

Lemma make_small s n : - 2 ^ 31 <= s < 2 ^ 31 -> 0 <= n < 2 ^ 31 -> kt_make s n = s * 2 ^ 32 + n.
Proof. intros. unfold kt_make. rewrite s32_small, u32_small; width_lia. Qed.

Section Arithmetic.
Context (a b : Z) (Ha : normal a) (Hb : normal b).

Lemma ktime_order : (a < b <-> ns a < ns b) /\ (a <= b <-> ns a <= ns b).
Proof.
  pose proof (normal_parts a Ha). pose proof (normal_parts b Hb).
  destruct Ha as [Sa Na], Hb as [Sb Nb]. split; nsec_lia.
Qed.

Lemma ktime_sub_spec : in_range (ns a - ns b) ->
  normal (ktime_sub a b) /\ ns (ktime_sub a b) = ns a - ns b.
Proof.
  intros Hr. unfold ktime_sub. pose proof (normal_parts a Ha) as Ea. pose proof (normal_parts b Hb) as Eb.
  unfold ns at 2 3. unfold ns in Hr. destruct Ha as [_ Na], Hb as [_ Nb].
  set (sa := kt_sec a) in *. set (na := kt_nsec a) in *. set (sb := kt_sec b) in *.
  set (nb := kt_nsec b) in *.
  replace (a - b) with ((sa - sb) * 2 ^ 32 + (na - nb)) by lia. clearbody sa na sb nb.
  rewrite s64_small by nsec_lia. destruct (Z.le_gt_cases nb na) as [Hle|Hlt].
  - destruct (parts_of (sa - sb) (na - nb)) as [_ ->]; [nsec_lia|].
    rewrite (proj2 (Z.ltb_ge _ _)) by lia.
    destruct (normal_make (sa - sb) (na - nb)) as [Hn ->]; [nsec_lia|nsec_lia|]. split; [done|nsec_lia].
  - destruct (parts_of_neg (sa - sb) (na - nb)) as [-> ->]; [nsec_lia|].
    rewrite (proj2 (Z.ltb_lt _ _)) by lia. rewrite make_small by nsec_lia.
    destruct (normal_make (sa - sb - 1) (na - nb + NSEC_PER_SEC)) as [Hn ->]; [nsec_lia|nsec_lia|].
    split; [done|nsec_lia].
Qed.

Lemma ktime_add_spec : in_range (ns a + ns b) ->
  normal (ktime_add a b) /\ ns (ktime_add a b) = ns a + ns b.
Proof.
  intros Hr. unfold ktime_add. pose proof (normal_parts a Ha) as Ea. pose proof (normal_parts b Hb) as Eb.
  unfold ns at 2 3. unfold ns in Hr. destruct Ha as [_ Na], Hb as [_ Nb].
  set (sa := kt_sec a) in *. set (na := kt_nsec a) in *. set (sb := kt_sec b) in *.
  set (nb := kt_nsec b) in *.
  replace (a + b) with ((sa + sb) * 2 ^ 32 + (na + nb)) by lia. clearbody sa na sb nb.
  rewrite nsec_s64. destruct (parts_of (sa + sb) (na + nb)) as [_ ->]; [nsec_lia|].
  destruct (Z.leb_spec NSEC_PER_SEC (na + nb)) as [Hle|Hlt].
  - rewrite s64_add_l. replace (u32 (- NSEC_PER_SEC)) with (2 ^ 32 - NSEC_PER_SEC) by reflexivity.
    replace ((sa + sb) * 2 ^ 32 + (na + nb) + (2 ^ 32 - NSEC_PER_SEC)) with
      ((sa + sb + 1) * 2 ^ 32 + (na + nb - NSEC_PER_SEC)) by lia.
    rewrite s64_small by nsec_lia.
    destruct (normal_make (sa + sb + 1) (na + nb - NSEC_PER_SEC)) as [Hn ->]; [nsec_lia|nsec_lia|].
    split; [done|nsec_lia].
  - rewrite s64_small by nsec_lia.
    destruct (normal_make (sa + sb) (na + nb)) as [Hn ->]; [nsec_lia|nsec_lia|]. split; [done|nsec_lia].
Qed.

Lemma ktime_to_ns_spec : 0 <= ns a -> ktime_to_ns a = ns a.
Proof.
  intros H. unfold ktime_to_ns. destruct Ha as [Sa Na].
  rewrite (u64_small (kt_sec a)) by (unfold is_u64, U64_MOD; nsec_lia).
  apply u64_small. unfold is_u64, U64_MOD. nsec_lia.
Qed.

End Arithmetic.

Lemma ktime_set_spec s n : - 2 ^ 31 <= s < 2 ^ 31 -> 0 <= n < NSEC_PER_SEC ->
  normal (ktime_set s n) /\ ns (ktime_set s n) = s * NSEC_PER_SEC + n.
Proof. intros Hs Hn. unfold ktime_set. rewrite make_small by nsec_lia. by apply normal_make. Qed.

Lemma ktime_add_ns_spec a n : normal a -> 0 <= n < 2 ^ 31 * NSEC_PER_SEC -> in_range (ns a + n) ->
  exists kt, ktime_add_ns a n = Some kt /\ normal kt /\ ns kt = ns a + n.
Proof.
  intros Ha Hn Hr. unfold ktime_add_ns. destruct (Z.ltb_spec n NSEC_PER_SEC) as [Hlt|Hge].
  - destruct (normal_make 0 n ltac:(lia) ltac:(lia)) as [Hb Eb]. rewrite Z.mul_0_l, Z.add_0_l in *.
    eexists. split; [done|]. rewrite <- Eb at 3. apply ktime_add_spec; [done|done|]. by rewrite Eb.
  - rewrite do_div_spec by (unfold is_u64, U64_MOD; nsec_lia). simpl.
    assert (Hq : 0 <= n / NSEC_PER_SEC < 2 ^ 31).
    { split; [apply Z.div_pos; nsec_lia|apply Z.div_lt_upper_bound; nsec_lia]. }
    pose proof (Z.mod_pos_bound n NSEC_PER_SEC ltac:(done)) as Hm.
    rewrite s32_small by width_lia.
    destruct (ktime_set_spec (n / NSEC_PER_SEC) (n mod NSEC_PER_SEC)) as [Hb Eb]; [lia|done|].
    assert (En : ns (ktime_set (n / NSEC_PER_SEC) (n mod NSEC_PER_SEC)) = n).
    { rewrite Eb, Z.mul_comm. symmetry. by apply Z.div_mod. }
    destruct (ktime_add_spec a _ Ha Hb) as [Hk Ek]; [by rewrite En|]. rewrite En in Ek.
    eexists. split; [done|]. done.
Qed.

(** ** Division *)

(** The divisor [v] that is left after [k] halvings. *)
Lemma shift_loop div : 0 < div < 2 ^ 62 ->
  exists v k, loop 33 divns_body (div, 0) = Some (v, k) /\ 0 <= k /\ v = div / 2 ^ k /\
    0 < v < 2 ^ 32 /\ (0 < k -> 2 ^ 31 <= v).
Proof.
  intros Hdiv.
  destruct (loop_total divns_body
    (fun '(v, k) => 0 <= k <= 31 /\ v = div / 2 ^ k /\ 0 < v /\ (0 < k -> 2 ^ 31 <= v))
    (fun '(v, k) => 0 <= k /\ v = div / 2 ^ k /\ 0 < v < 2 ^ 32 /\ (0 < k -> 2 ^ 31 <= v))
    (fun '(v, k) => Z.to_nat (31 - k))) with (fuel := 33%nat) (s := (div, 0)) as ([v k] & E & H).
  - intros [v k] (Hk & Ev & Hv & Hl). unfold divns_body.
    destruct (Z.eqb_spec (Z.shiftr v 32) 0) as [E|E]; rewrite Z.shiftr_div_pow2 in E by lia.
    + apply Z.div_small_iff in E; lia.
    + assert (Hge : 2 ^ 32 <= v) by (destruct (Z.le_gt_cases (2 ^ 32) v); [done|by rewrite Z.div_small in E by lia]).
      rewrite Z.shiftr_div_pow2 by lia. change (2 ^ 1) with 2.
      assert (Hk31 : k < 31).
      { destruct (Z.eq_dec k 31) as [->|]; [|lia]. exfalso.
        assert (div / 2 ^ 31 < 2 ^ 31) by (apply Z.div_lt_upper_bound; lia). lia. }
      split; [|lia]. split; [lia|]. split; [|split; [apply Z.div_str_pos; lia|]].
      * rewrite Z.pow_add_r, Ev, Z.div_div by lia. done.
      * intros _. apply Z.div_le_lower_bound; lia.
  - split; [lia|]. rewrite Z.div_1_r. lia.
  - simpl. lia.
  - exists v, k. done.
Qed.

(** The quotient by the rounded divisor is right or one too large. *)
Lemma rounded_quotient D I k v : 0 <= D -> 0 <= k -> v = I / 2 ^ k -> 0 < v ->
  (0 < k -> D / I < v) ->
  let q := D / 2 ^ k / v in D / I <= q <= D / I + 1 /\ (k = 0 -> q = D / I).
Proof.
  intros HD Hk Ev Hv Hq q. assert (Hp : 0 < 2 ^ k) by (by apply Z.pow_pos_nonneg).
  pose proof (Z.mul_div_le I (2 ^ k) Hp) as I1. pose proof (Z.mul_succ_div_gt I (2 ^ k) Hp) as I2.
  rewrite <- Ev in I1, I2. assert (HI : 0 < I) by nia.
  assert (Eq : q = D / (2 ^ k * v)) by (unfold q; by rewrite Z.div_div by lia).
  assert (Hk0 : k = 0 -> q = D / I).
  { intros ->. unfold q. change (2 ^ 0) with 1 in *. rewrite Z.div_1_r in *. by subst v. }
  split; [|done]. rewrite Eq. split.
  - apply Z.div_le_compat_l; [lia|]. split; [nia|lia].
  - destruct (Z.eq_dec k 0) as [E0|E0]; [rewrite <- Eq, Hk0 by done; lia|].
    specialize (Hq ltac:(lia)). apply Z.lt_succ_r. apply Z.div_lt_upper_bound; [nia|].
    pose proof (Z.mul_succ_div_gt D I HI) as D2. set (d := D / I) in *.
    assert (0 <= d) by (apply Z.div_pos; lia). nia.
Qed.

Lemma ktime_divns_spec kt I : normal kt -> 0 <= ns kt -> 0 < I < 2 ^ 31 * NSEC_PER_SEC ->
  ns kt / I + 1 < 2 ^ 32 ->
  exists q, ktime_divns kt I = Some q /\ ns kt / I <= q <= ns kt / I + 1.
Proof.
  intros Hkt H0 HI Hlt. unfold ktime_divns. rewrite ktime_to_ns_spec by done.
  destruct (shift_loop I) as (v & k & -> & Hk & Ev & Hv & Hl); [unfold NSEC_PER_SEC in *; lia|].
  cbn [mbind option_bind].
  rewrite Z.shiftr_div_pow2 by lia. rewrite (u32_small v) by width_lia.
  assert (Hns : ns kt < 2 ^ 31 * NSEC_PER_SEC) by (destruct Hkt; nsec_lia).
  assert (Hp : 0 < 2 ^ k) by (by apply Z.pow_pos_nonneg).
  assert (Hsh : 0 <= ns kt / 2 ^ k <= ns kt).
  { split; [apply Z.div_pos; lia|]. apply Z.div_le_upper_bound; [lia|]. clear - H0 Hp. nia. }
  rewrite do_div_spec by (unfold is_u64, U64_MOD, NSEC_PER_SEC in *; lia). cbn [mbind option_bind].
  destruct (rounded_quotient (ns kt) I k v H0 Hk Ev ltac:(lia)) as [Hq _].
  { intros Hk0. specialize (Hl Hk0).
    assert (2 ^ 32 <= I).
    { pose proof (Z.mul_div_le I (2 ^ k) Hp) as HIv. rewrite <- Ev in HIv.
      pose proof (Z.pow_le_mono_r 2 1 k ltac:(lia) ltac:(lia)).
      pose proof (Z.mul_le_mono_nonneg 2 (2 ^ k) (2 ^ 31) v). lia. }
    assert (ns kt / I <= ns kt / 2 ^ 32) by (apply Z.div_le_compat_l; lia).
    assert (ns kt / 2 ^ 32 < 2 ^ 31) by (apply Z.div_lt_upper_bound; [lia|]; unfold NSEC_PER_SEC in Hns; lia). lia. }
  eexists. split; [reflexivity|]. rewrite u32_small; [done|].
  assert (0 <= ns kt / I) by (apply Z.div_pos; lia). width_lia.
Qed.

(** ** hrtimer_forward *)

(** The interval that counts. *)
Definition step_of (resolution interval : Z) : Z := if interval <? resolution then resolution else interval.

Section Forward.
Context (resolution expires now interval : Z).
Hypothesis Hres : normal resolution.
Hypothesis Hexp : normal expires.
Hypothesis Hnow : normal now.
Hypothesis Hint : normal interval.
Hypothesis Hpos : 0 < ns resolution.
Let I := ns (step_of resolution interval).
Hypothesis Hnow0 : 0 <= ns now.
Hypothesis Hexp0 : 0 <= ns expires.
Hypothesis Hsum : in_range (ns now + I).
Hypothesis Hrun : (ns now - ns expires) / I + 1 < 2 ^ 32.

Lemma delta_range : in_range (ns now - ns expires).
Proof. destruct Hnow, Hexp. nsec_lia. Qed.

Lemma step_normal : normal (step_of resolution interval) /\ 0 < I.
Proof.
  unfold I, step_of. destruct (ktime_order interval resolution Hint Hres) as [Hlt _].
  destruct (Z.ltb_spec interval resolution); [done|]. split; [done|]. lia.
Qed.

Lemma forward_past : ns now < ns expires -> forward resolution expires now interval = Some (0, expires).
Proof.
  intros H. unfold forward. destruct (ktime_sub_spec now expires Hnow Hexp delta_range) as [Hn En].
  rewrite (proj2 (Z.ltb_lt _ _)); [done|]. destruct (normal_make 0 0) as [H0 E0]; [lia|done|].
  apply (ktime_order (ktime_sub now expires) _ Hn H0). rewrite E0. lia.
Qed.

Lemma forward_future : ns expires <= ns now ->
  let q := (ns now - ns expires) / I in
  exists e, forward resolution expires now interval = Some (q + 1, e) /\ normal e /\
    ns e = ns expires + (q + 1) * I.
Proof.
  intros H q. unfold forward. fold (step_of resolution interval).
  destruct (ktime_sub_spec now expires Hnow Hexp delta_range) as [Hd Ed].
  set (delta := ktime_sub now expires) in *. destruct step_normal as [Hi HI].
  set (iv := step_of resolution interval) in *.
  destruct (normal_make 0 0) as [H0 E0]; [lia|done|].
  rewrite (proj2 (Z.ltb_ge delta 0)) by (apply (ktime_order _ _ H0 Hd); rewrite E0; lia).
  assert (Hq : 0 <= q) by (apply Z.div_pos; lia).
  assert (HqI : q * I <= ns now - ns expires < (q + 1) * I).
  { pose proof (Z.mul_div_le (ns now - ns expires) I HI) as L1.
    pose proof (Z.mul_succ_div_gt (ns now - ns expires) I HI) as L2. fold q in L1, L2. lia. }
  assert (Hadd : forall k e, normal e -> ns e = ns expires + k * I -> q <= k -> k <= q + 1 ->
    (now <? e) = (k =? q + 1)).
  { intros k e He Ee Hk1 Hk2. pose proof (ktime_order now e Hnow He) as [Ho _].
    destruct (Z.ltb_spec now e), (Z.eqb_spec k (q + 1)); try done; exfalso; [|subst k]; nia. }
  destruct (Z.leb_spec iv delta) as [Hle|Hgt].
  - assert (Hi62 : I < 2 ^ 31 * NSEC_PER_SEC) by (destruct Hi as [[? ?] [? ?]]; unfold I; nsec_lia).
    rewrite ktime_to_ns_spec by (done || lia). fold I. rewrite s64_small by nsec_lia.
    destruct (ktime_divns_spec delta I) as (k & -> & Hk); [done|lia|lia|by rewrite Ed|].
    rewrite Ed in Hk. fold q in Hk. cbn [mbind option_bind].
    assert (HkI : 0 <= k * I <= (q + 1) * I) by nia.
    rewrite u64_small by (unfold is_u64, U64_MOD; unfold in_range, NSEC_PER_SEC in *; lia).
    destruct (ktime_add_ns_spec expires (I * k) Hexp) as (e & -> & He & Ee);
      [unfold in_range, NSEC_PER_SEC in *; lia|unfold in_range in *; lia|]. cbn [mbind option_bind].
    rewrite (Hadd k e He) by (done || lia). destruct (Z.eqb_spec k (q + 1)) as [->|Hne].
    + exists e. split; [done|]. split; [done|lia].
    + assert (k = q) as -> by lia. rewrite u32_small by width_lia.
      destruct (ktime_add_spec e iv He Hi) as [Ha Ea]; [fold I; rewrite Ee; unfold in_range in *; lia|].
      exists (ktime_add e iv). split; [done|]. split; [done|]. fold I in Ea. lia.
  - assert (Hlt : ns delta < I) by (apply (ktime_order delta iv Hd Hi); lia).
    assert (q = 0) as Eq by (apply Z.div_small; lia).
    destruct (ktime_add_spec expires iv Hexp Hi) as [Ha Ea]; [fold I; unfold in_range in *; lia|].
    exists (ktime_add expires iv). rewrite Eq. split; [done|]. split; [done|]. fold I in Ea. lia.
Qed.
End Forward.

(** C6: hrtimer_forward.  For a timer that has not expired it returns 0 and changes nothing;
    otherwise it moves the expiry time by the least number of intervals (or of resolutions,
    when they are longer) that brings it past [now] and returns that number.  This holds although
    ktime_divns divides by a rounded divisor when the interval is longer than 2^32
    nanoseconds, as long as fewer than 2^32 intervals have passed. *)
Theorem hrtimer_forward_correct resolution expires now interval :
  normal resolution -> normal expires -> normal now -> normal interval ->
  0 < ns resolution -> 0 <= ns now -> 0 <= ns expires ->
  let I := Z.max (ns resolution) (ns interval) in
  in_range (ns now + I) -> (ns now - ns expires) / I + 1 < 2 ^ 32 ->
  (now < expires -> forward resolution expires now interval = Some (0, expires)) /\
  (expires <= now -> exists orun e,
    forward resolution expires now interval = Some (orun, e) /\ normal e /\
    ns e = ns expires + orun * I /\ ns now < ns e <= ns now + I /\ now < e /\ 1 <= orun).
Proof.
  intros Hr He Hn Hi Hpos Hn0 He0 I Hsum Hrun.
  assert (EI : ns (step_of resolution interval) = I).
  { unfold step_of, I. pose proof (ktime_order interval resolution Hi Hr).
    destruct (Z.ltb_spec interval resolution); lia. }
  pose proof (ktime_order now expires Hn He) as [O1 O2].
  pose proof (ktime_order expires now He Hn) as [O3 O4].
  split; intros H.
  - apply forward_past; [done..|]. lia.
  - destruct (forward_future resolution expires now interval) as (e & E & Ne & Ee); rewrite ?EI in *;
      [done..|lia|]. set (q := (ns now - ns expires) / I) in *.
    assert (HI : 0 < I) by (unfold I; lia). pose proof (Z.div_pos (ns now - ns expires) I) as Hq.
    pose proof (Z.mul_div_le (ns now - ns expires) I HI) as L1.
    pose proof (Z.mul_succ_div_gt (ns now - ns expires) I HI) as L2. fold q in L1, L2, Hq.
    exists (q + 1), e. split_and!; [done|done|done|lia|lia| |lia].
    apply (ktime_order now e Hn Ne). lia.
Qed.

Lemma hrtimer_forward_witness :
  forward 10000000 (ktime_set 5 500000000) (ktime_set 9 0) (ktime_set 1 0)
    = Some (4, ktime_set 9 500000000) /\
  exists orun e, forward 10000000 (ktime_set 5 500000000) (ktime_set 9 0) (ktime_set 1 0) = Some (orun, e) /\
    ktime_set 9 0 < e.
Proof.
  split; [vm_compute; reflexivity|].
  destruct (hrtimer_forward_correct 10000000 (ktime_set 5 500000000) (ktime_set 9 0) (ktime_set 1 0))
    as [_ H]; try (vm_compute; intuition congruence).
  destruct H as (orun & e & E & _ & _ & _ & Hlt & _); [vm_compute; congruence|]. exists orun, e. split; [exact E|exact Hlt].
Defined.

(** After 2^32 intervals (497 days of 10 ms) the number of overruns does not fit: the timer
    is moved by one interval only and stays in the past. *)
Lemma forward_wraps : let now := ktime_set 42949672 960000000 in
  forward 10000000 0 now 10000000 = Some (1, 10000000) /\ (10000000 <? now) = true.
Proof. vm_compute. done. Qed.
