(* ===== verification/Hrtimer.v ===== *)
(** kernel/hrtimer.c: the queues of high-resolution timers, on a uniprocessor.

    A struct hrtimer embeds the node of a red-black tree; the nodes are in the store of [Rbtree]
    and the other fields in a second one, both indexed by the address of the timer.  Each clock
    has a base with the root of its tree and a pointer to the timer that expires first.
    The locks are critical sections; set_curr_timer does nothing on a uniprocessor, and no
    base has a get_softirq_time function.  The clocks (get_time) and the functions of the timers
    are arguments.  [None] is a dereference of a pointer to no timer, BUG_ON, or the end of fuel. *)
From stdpp Require Import base list gmap numbers option.
From Stdlib Require Import ZArith Lia.
From S2P Require Import Prelude Rbtree Ktime.

Local Open Scope Z_scope.

Definition CLOCK_REALTIME : Z := 0.
Definition CLOCK_MONOTONIC : Z := 1.
Definition MAX_HRTIMER_BASES : Z := 2.
Definition HRTIMER_INACTIVE : Z := 1.
Inductive hrtimer_mode := HRTIMER_ABS | HRTIMER_REL.
Inductive hrtimer_restart := HRTIMER_NORESTART | HRTIMER_RESTART.

(** struct hrtimer without its node, and struct hrtimer_base. *)
Record hrtimer := Timer { expires : Z; function : Z; tbase : Z }.
Record hrtimer_base := Base {
  active : Z;
  first : Z;
  resolution : Z;
  softirq_time : Z;
  curr_timer : Z
}.

Record hr_state := Hr {
  hr_nodes : gmap Z rb_node;
  timers : gmap Z hrtimer;
  hrtimer_bases : list hrtimer_base
}.

Definition set_expires (v : Z) (t : hrtimer) : hrtimer := Timer v (function t) (tbase t).
Definition set_active (active_ first_ : Z) (b : hrtimer_base) : hrtimer_base :=
  Base active_ first_ (resolution b) (softirq_time b) (curr_timer b).
Definition set_softirq_time (v : Z) (b : hrtimer_base) : hrtimer_base :=
  Base (active b) (first b) (resolution b) v (curr_timer b).

(** The tree of a base, and the state with a changed tree and first timer. *)
Definition tree_of (h : hr_state) (b : hrtimer_base) : rb_root := RbRoot (hr_nodes h) (active b).
Definition put_queue (h : hr_state) (base : Z) (b : hrtimer_base) (s : rb_root) (first_ : Z)
    : option hr_state :=
  bases ← array_set (hrtimer_bases h) base (set_active (root_node s) first_ b);
  Some (Hr (nodes s) (timers h) bases).

Definition hrtimer_active (h : hr_state) (timer : Z) : option bool :=
  n ← hr_nodes h !! timer; Some (negb (rb_parent n =? HRTIMER_INACTIVE)).

(** ** The queue *)

(** *link *)
Definition read_link (s : rb_root) (l : link) : option Z :=
  match l with
  | RootLink => Some (root_node s)
  | LeftLink p => rb_left <$> nodes s !! p
  | RightLink p => rb_right <$> nodes s !! p
  end.

(** A turn of the search for the place of a timer that expires at [e]. *)
Definition place_body (s : rb_root) (ts : gmap Z hrtimer) (e : Z) (st : Z * link)
    : (Z * link) + option (Z * link) :=
  let '(parent, lnk) := st in
  match read_link s lnk with
  | None => inr None
  | Some p =>
      if p =? 0 then inr (Some (parent, lnk))
      else
        match ts !! p with
        | None => inr None
        | Some entry => inl (p, if e <? expires entry then LeftLink p else RightLink p)
        end
  end.

Definition enqueue_hrtimer (h : hr_state) (timer base : Z) : option hr_state :=
  b ← array_get (hrtimer_bases h) base;
  t ← timers h !! timer;
  let s := tree_of h b in
  '(parent, lnk) ←
    mjoin (loop (S (S (size (nodes s)))) (place_body s (timers h) (expires t)) (0, RootLink));
  s ← rb_link_node s timer parent lnk;
  s ← rb_insert_color s timer;
  first_ ← (if first b =? 0 then Some timer
            else f ← timers h !! first b;
                 Some (if expires t <? expires f then timer else first b));
  put_queue h base b s first_.

Definition __remove_hrtimer (h : hr_state) (timer base : Z) : option hr_state :=
  b ← array_get (hrtimer_bases h) base;
  let s := tree_of h b in
  first_ ← (if first b =? timer then rb_next s timer else Some (first b));
  s ← rb_erase s timer;
  s ← write s timer (set_rb_parent HRTIMER_INACTIVE);
  put_queue h base b s first_.

Definition remove_hrtimer (h : hr_state) (timer base : Z) : option (Z * hr_state) :=
  a ← hrtimer_active h timer;
  if (a : bool) then h ← __remove_hrtimer h timer base; Some (1, h)
  else Some (0, h).

(** ** The calls *)

Definition update_timer (h : hr_state) (timer : Z) (f : hrtimer -> hrtimer) : option hr_state :=
  t ← timers h !! timer;
  Some (Hr (hr_nodes h) (<[timer := f t]> (timers h)) (hrtimer_bases h)).

Definition hrtimer_start (get_time : Z -> Z) (h : hr_state) (timer tim : Z) (mode : hrtimer_mode)
    : option (Z * hr_state) :=
  t ← timers h !! timer;
  let base := tbase t in
  '(ret, h) ← remove_hrtimer h timer base;
  let tim := match mode with
             | HRTIMER_REL => ktime_add tim (get_time base)
             | HRTIMER_ABS => tim
             end in
  h ← update_timer h timer (set_expires tim);
  h ← enqueue_hrtimer h timer base;
  Some (ret, h).

Definition hrtimer_try_to_cancel (h : hr_state) (timer : Z) : option (Z * hr_state) :=
  t ← timers h !! timer;
  b ← array_get (hrtimer_bases h) (tbase t);
  if curr_timer b =? timer then Some (-1, h) else remove_hrtimer h timer (tbase t).

Definition cancel_body (timer : Z) (h : hr_state) : hr_state + option (Z * hr_state) :=
  match hrtimer_try_to_cancel h timer with
  | None => inr None
  | Some (ret, h) => if 0 <=? ret then inr (Some (ret, h)) else inl h
  end.

(** A uniprocessor needs one turn: no function of a timer runs meanwhile. *)
Definition hrtimer_cancel (h : hr_state) (timer : Z) : option (Z * hr_state) :=
  mjoin (loop 1 (cancel_body timer) h).

Definition hrtimer_get_remaining (get_time : Z -> Z) (h : hr_state) (timer : Z) : option Z :=
  t ← timers h !! timer; Some (ktime_sub (expires t) (get_time (tbase t))).

Definition hrtimer_init (h : hr_state) (timer clock_id : Z) (mode : hrtimer_mode) : hr_state :=
  let clock_id :=
    if (clock_id =? CLOCK_REALTIME) && (match mode with HRTIMER_ABS => false | HRTIMER_REL => true end)
    then CLOCK_MONOTONIC else clock_id in
  Hr (<[timer := RbNode HRTIMER_INACTIVE 0 0 0]> (hr_nodes h))
     (<[timer := Timer 0 0 clock_id]> (timers h)) (hrtimer_bases h).

Definition hrtimer_get_res (h : hr_state) (which_clock : Z) : option (Z * Z) :=
  b ← array_get (hrtimer_bases h) which_clock; Some (ktime_to_timespec (resolution b)).

Definition hrtimer_forward (h : hr_state) (timer now interval : Z) : option (Z * hr_state) :=
  t ← timers h !! timer;
  b ← array_get (hrtimer_bases h) (tbase t);
  '(orun, e) ← forward (resolution b) (expires t) now interval;
  h ← update_timer h timer (set_expires e);
  Some (orun, h).

(** ** Expiry *)

(** [call f timer h] is the function [f] of a timer. *)
Definition callback := Z -> Z -> hr_state -> option (hr_state * hrtimer_restart).

(** A turn of the loop of run_hrtimer_queue; [trace] is the list of the timers whose function
    was called. *)
Definition run_body (call : callback) (base : Z) (st : hr_state * list Z)
    : (hr_state * list Z) + option (hr_state * list Z) :=
  let '(h, trace) := st in
  match array_get (hrtimer_bases h) base with
  | None => inr None
  | Some b =>
      if first b =? 0 then inr (Some (h, trace))
      else
        match timers h !! first b with
        | None => inr None
        | Some t =>
            if softirq_time b <=? expires t then inr (Some (h, trace))
            else
              next_turn
                (h ← __remove_hrtimer h (first b) base;
                 '(h, restart) ← call (function t) (first b) h;
                 match restart with
                 | HRTIMER_NORESTART => Some (h, trace ++ [first b])
                 | HRTIMER_RESTART =>
                     a ← hrtimer_active h (first b);
                     if (a : bool) then None
                     else h ← enqueue_hrtimer h (first b) base; Some (h, trace ++ [first b])
                 end)
        end
  end.

Definition run_hrtimer_queue (call : callback) (fuel : nat) (h : hr_state) (base : Z)
    : option (hr_state * list Z) :=
  b ← array_get (hrtimer_bases h) base;
  if first b =? 0 then Some (h, [])
  else mjoin (loop fuel (run_body call base) (h, [])).

Definition hrtimer_get_softirq_time (xtime wall_to_monotonic : Z * Z) (h : hr_state) : option hr_state :=
  let xtim := timespec_to_ktime xtime in
  let tomono := timespec_to_ktime wall_to_monotonic in
  b ← array_get (hrtimer_bases h) CLOCK_REALTIME;
  bases ← array_set (hrtimer_bases h) CLOCK_REALTIME (set_softirq_time xtim b);
  b ← array_get bases CLOCK_MONOTONIC;
  bases ← array_set bases CLOCK_MONOTONIC (set_softirq_time (ktime_add xtim tomono) b);
  Some (Hr (hr_nodes h) (timers h) bases).

Definition hrtimer_run_queues (call : callback) (fuel : nat) (xtime wall_to_monotonic : Z * Z)
    (h : hr_state) : option (hr_state * list Z) :=
  h ← hrtimer_get_softirq_time xtime wall_to_monotonic h;
  '(h, trace0) ← run_hrtimer_queue call fuel h CLOCK_REALTIME;
  '(h, trace1) ← run_hrtimer_queue call fuel h CLOCK_MONOTONIC;
  Some (h, trace0 ++ trace1).

(** ** kernel/itimer.c *)

(** The function of the real interval timer of a process; [it_real_incr] gives the interval in
    the signal struct that contains the timer.  The signal itself is left out. *)
Definition it_real_fn (it_real_incr : Z -> Z) : callback := fun _ timer h =>
  if it_real_incr timer =? 0 then Some (h, HRTIMER_NORESTART)
  else
    t ← timers h !! timer;
    b ← array_get (hrtimer_bases h) (tbase t);
    '(_, h) ← hrtimer_forward h timer (softirq_time b) (it_real_incr timer);
    Some (h, HRTIMER_RESTART).
