(* ===== verification/HrtimerQueue.v ===== *)
(** The queues of kernel/hrtimer.c against lists of timers in the order of their expiry.

    [hr_inv h q]: for both clocks [b] the tree of the base has the timers [q b], sorted by
    expiry time, [first] is the head of the list, and a timer is marked as inactive exactly when
    it is in no list.  Each operation of the code is the operation on lists of that name. *)
From stdpp Require Import base list gmap numbers option sorting.
From Stdlib Require Import ZArith Lia.
From S2P Require Import Prelude Rbtree RbtreeShape RbtreeInsert RbtreeErase RbtreeCalls Ktime Hrtimer.

Local Open Scope Z_scope.

(** ** Lists of timers *)

Definition key (ts : gmap Z hrtimer) (x : Z) : Z := default 0 (expires <$> ts !! x).
Definition le_key (ts : gmap Z hrtimer) (x y : Z) : Prop := key ts x <= key ts y.

(** A timer that expires at [e] goes behind all that expire not later. *)
Fixpoint insert_timer (ts : gmap Z hrtimer) (e x : Z) (l : list Z) : list Z :=
  match l with
  | [] => [x]
  | y :: l => if e <? key ts y then x :: y :: l else y :: insert_timer ts e x l
  end.

Lemma insert_timer_app ts e x l1 l2 :
  Forall (fun y => key ts y <= e) l1 -> Forall (fun y => e < key ts y) l2 ->
  insert_timer ts e x (l1 ++ l2) = l1 ++ x :: l2.
Proof.
  intros H1 H2. induction H1 as [|y l1 Hy _ IH]; simpl.
  - destruct H2 as [|y l2 Hy _]; [done|]. simpl. by rewrite (proj2 (Z.ltb_lt _ _)).
  - rewrite (proj2 (Z.ltb_ge _ _)) by done. by rewrite IH.
Qed.

Lemma sorted_around ts l1 p l2 : StronglySorted (le_key ts) (l1 ++ p :: l2) ->
  Forall (fun y => key ts y <= key ts p) l1 /\ Forall (fun y => key ts p <= key ts y) l2 /\
  StronglySorted (le_key ts) (l1 ++ l2).
Proof.
  induction l1 as [|y l1 IH]; simpl; inversion 1 as [|? ? S F]; subst; [done|].
  destruct (IH S) as (H1 & H2 & H3). apply Forall_app in F as [F1 F2].
  apply Forall_cons in F2 as [Fp F2]. split_and!; [by constructor|done|].
  constructor; [done|]. by apply Forall_app.
Qed.

Lemma sorted_insert ts e x l1 l2 : StronglySorted (le_key ts) (l1 ++ l2) -> key ts x = e ->
  Forall (fun y => key ts y <= e) l1 -> Forall (fun y => e < key ts y) l2 ->
  StronglySorted (le_key ts) (l1 ++ x :: l2).
Proof.
  intros S Hx H1 H2. induction l1 as [|y l1 IH]; simpl in *.
  - constructor; [done|]. eapply Forall_impl; [exact H2|]. unfold le_key. simpl. lia.
  - inversion S as [|? ? S' F]; subst. apply Forall_cons in H1 as [Hy H1].
    constructor; [by apply IH|]. apply Forall_app in F as [F1 F2]. apply Forall_app. split; [done|].
    by constructor.
Qed.

(** ** The search for the place *)

Lemma read_link_spec s l C t : sees s l C t -> read_link s (link_of C) = Some (addr t).
Proof.
  intros [H _]. destruct C as [|[d c p u] C]; [by destruct H as [_ E]; simpl in *; rewrite E|].
  destruct (focus_frame _ _ _ _ H) as [E _]. simpl in E. destruct d; simpl; by rewrite E.
Qed.

Section Place.
Context (s : rb_root) (l : list Z) (ts : gmap Z hrtimer) (e : Z).
Hypothesis Hsorted : StronglySorted (le_key ts) l.
Hypothesis Hts : Forall (fun x => is_Some (ts !! x)) l.

(** The timers before [C] go first, and those after it later. *)
Definition splits (C : ctx) : Prop :=
  Forall (fun y => key ts y <= e) (before C) /\ Forall (fun y => e < key ts y) (after C).

Lemma place_loop fuel : forall C t, sees s l C t -> splits C -> (length (inorder t) < fuel)%nat ->
  exists D, loop fuel (place_body s ts e) (top C, link_of C) = Some (Some (top D, link_of D)) /\
    plug D Leaf = plug C t /\ splits D.
Proof.
  induction fuel as [|fuel IH]; intros C t H [Hb Ha] Hf; [lia|]. rewrite loop_S.
  unfold place_body at 1. rewrite (read_link_spec _ _ _ _ H), (focus_null _ _ _ (proj1 H)).
  destruct t as [|c a p b]; [by exists C|]. simpl addr.
  assert (El : l = (before C ++ inorder a) ++ p :: inorder b ++ after C).
  { destruct H as [_ <-]. rewrite inorder_plug. simpl. by rewrite <- !app_assoc. }
  assert (Hp : p ∈ l) by (rewrite El; set_solver).
  destruct (proj1 (Forall_forall _ _) Hts p Hp) as [t Et]. rewrite Et.
  rewrite El in Hsorted. apply sorted_around in Hsorted as (S1 & S2 & _).
  apply Forall_app in S1 as [_ S1]. apply Forall_app in S2 as [S2 _].
  assert (Ek : key ts p = expires t) by (unfold key; by rewrite Et).
  pose proof (inorder_length L c a p b) as Hlen. simpl node in Hlen.
  destruct (Z.ltb_spec e (expires t)) as [Hlt|Hge].
  - apply (IH (Frame L c p b :: C) a); [by eapply refocus; [|exact H]| |lia]. split; simpl.
    + by rewrite app_nil_r.
    + constructor; [lia|]. apply Forall_app. split; [|done]. eapply Forall_impl; [exact S2|]. simpl. lia.
  - apply (IH (Frame R c p a :: C) b); [by eapply refocus; [|exact H]| |lia]. split; simpl; [|done].
    apply Forall_app. split; [done|]. apply Forall_app. split; [|by repeat constructor; lia].
    eapply Forall_impl; [exact S1|]. simpl. lia.
Qed.
End Place.

Lemma tree_size s l : is_rbtree s l -> (length l <= size (nodes s))%nat.
Proof.
  intros (t & n & [[M _] El] & _). apply mem_size in M. simpl in *.
  rewrite app_nil_r, <- (length_fmap fst), cells_keys, El in M. lia.
Qed.

Lemma enqueue_tree s l ts e x n : is_rbtree s l -> StronglySorted (le_key ts) l ->
  Forall (fun y => is_Some (ts !! y)) l -> x ∉ l -> x <> 0 -> nodes s !! x = Some n -> key ts x = e ->
  exists parent lnk s1 s2,
    loop (S (S (size (nodes s)))) (place_body s ts e) (0, RootLink) = Some (Some (parent, lnk)) /\
    rb_link_node s x parent lnk = Some s1 /\ rb_insert_color s1 x = Some s2 /\
    is_rbtree s2 (insert_timer ts e x l) /\ StronglySorted (le_key ts) (insert_timer ts e x l) /\
    insert_timer ts e x l ≡ₚ x :: l /\ same_outside (x :: l) s s2.
Proof.
  intros H Hs Hts Hx Hx0 Hn Hk. pose proof (tree_size _ _ H) as Hsz.
  destruct H as (t & m & H & Hrb). assert (El : inorder t = l) by apply H.
  destruct (place_loop s l ts e Hs Hts (S (S (size (nodes s)))) [] t H) as (D & E & Ep & Hb & Ha);
    [by split|rewrite El; lia|].
  simpl in Ep. rewrite <- Ep in H, Hrb. destruct (empty_ctx s l D m H Hrb) as [HD HC].
  destruct (link_spec _ _ _ x n HD Hx Hx0 Hn) as (s1 & E1 & H1 & So1).
  destruct (insert_color_spec _ _ _ _ H1 HC) as (s2 & E2 & H2 & So2).
  assert (Eq : l = before D ++ after D) by (destruct HD as [_ <-]; by rewrite inorder_plug).
  exists (top D), (link_of D), s1, s2. rewrite Eq, insert_timer_app by done.
  split_and!; [done|done|done|done|by eapply sorted_insert; rewrite <- ?Eq|solve_Permutation|].
  eapply same_outside_trans; [by rewrite <- Eq|]. eapply same_outside_sub; [|done].
  intros y. rewrite elem_of_app, !elem_of_cons, elem_of_app. tauto.
Qed.

(** ** The invariant *)

Definition is_base (b : Z) : Prop := 0 <= b < MAX_HRTIMER_BASES.

(** The queue [l] of the base [b]. *)
Record base_ok (h : hr_state) (b : Z) (B : hrtimer_base) (l : list Z) : Prop := {
  bo_get : array_get (hrtimer_bases h) b = Some B;
  bo_tree : is_rbtree (tree_of h B) l;
  bo_first : first B = first_of l;
  bo_curr : curr_timer B = 0;
  bo_sorted : StronglySorted (le_key (timers h)) l;
  bo_members : Forall (fun x => exists t, timers h !! x = Some t /\ tbase t = b) l
}.

Record hr_inv (h : hr_state) (q : Z -> list Z) : Prop := {
  inv_bases : length (hrtimer_bases h) = 2%nat;
  inv_queues : forall b, is_base b -> exists B, base_ok h b B (q b);
  inv_timers : forall x t, timers h !! x = Some t -> is_base (tbase t) /\ x <> 0 /\ x <> HRTIMER_INACTIVE;
  inv_marks : forall x t, timers h !! x = Some t ->
    exists n, hr_nodes h !! x = Some n /\ (rb_parent n = HRTIMER_INACTIVE <-> x ∉ q (tbase t))
}.

Definition set_q (q : Z -> list Z) (b : Z) (l : list Z) : Z -> list Z :=
  fun b' => if b' =? b then l else q b'.

Lemma set_q_eq q b l : set_q q b l b = l.
Proof. unfold set_q. by rewrite Z.eqb_refl. Qed.
Lemma set_q_ne q b b' l : b' <> b -> set_q q b l b' = q b'.
Proof. intros H. unfold set_q. by rewrite (proj2 (Z.eqb_neq _ _)). Qed.

(** A tree depends on its nodes only. *)
Lemma is_rbtree_frame s s' l : is_rbtree s l -> root_node s' = root_node s ->
  (forall a, a ∈ l -> nodes s' !! a = nodes s !! a) -> is_rbtree s' l.
Proof.
  intros (t & n & [[M Rt] El] & Hrb) Er Hn. exists t, n. split; [|done]. split; [|done].
  split; [|by rewrite Er]. destruct M as [N F]. split; [done|]. rewrite Forall_forall in *.
  intros c Hc. destruct (F c Hc) as [H0 Hl]. split; [done|]. rewrite Hn; [done|]. rewrite <- El.
  simpl in Hc. rewrite app_nil_r in Hc. simpl. rewrite <- (cells_keys 0). apply list_elem_of_fmap. by exists c.
Qed.

(** The parent of a node of the tree is NULL or in the tree. *)
Lemma parent_in_tree s l x : is_rbtree s l -> x ∈ l ->
  exists n, nodes s !! x = Some n /\ (rb_parent n = 0 \/ rb_parent n ∈ l).
Proof.
  intros (t & m & H & _) Hx. assert (El : inorder t = l) by apply H. rewrite <- El in Hx.
  destruct (focus_on t x Hx) as (C & c & a & b & ->). apply (refocus C (node L c a x b)) in H; [|done].
  destruct (focus_node _ _ _ _ _ _ _ (proj1 H)) as [E _]. eexists. split; [exact E|]. simpl.
  destruct C as [|f C]; [by left|]. right. rewrite <- El, inorder_plug. destruct f as [[] ? ? ?]; set_solver.
Qed.

Lemma array_get_set {A} (l l' : list A) i j v : array_set l i v = Some l' ->
  array_get l' j = if j =? i then Some v else array_get l j.
Proof.
  unfold array_get, array_set. intros H. case_bool_decide as Hi; simplify_eq.
  destruct (Z.eqb_spec j i) as [->|Hne]; case_bool_decide; try lia; [|apply list_lookup_insert_ne; lia|done].
  apply list_lookup_insert_eq. lia.
Qed.

(** The queue of [b] changes; only nodes of timers of [b], those of [K], are written. *)
Lemma put_queue_spec h q b B s l K : hr_inv h q -> is_base b -> base_ok h b B (q b) ->
  is_rbtree s l -> StronglySorted (le_key (timers h)) l ->
  Forall (fun x => exists t, timers h !! x = Some t /\ tbase t = b) K ->
  (forall x, x ∈ l -> x ∈ K) -> (forall x, x ∈ q b -> x ∈ K) ->
  (forall a, a ∉ K -> nodes s !! a = hr_nodes h !! a) ->
  (forall x, x ∈ K -> x ∉ l -> exists n, nodes s !! x = Some n /\ rb_parent n = HRTIMER_INACTIVE) ->
  exists h', put_queue h b B s (first_of l) = Some h' /\ hr_inv h' (set_q q b l) /\
    timers h' = timers h /\
    forall b', array_get (hrtimer_bases h') b' =
      if b' =? b then Some (set_active (root_node s) (first_of l) B) else array_get (hrtimer_bases h) b'.
Proof.
  intros Hinv Hb HB Ht Hs HK HlK HqK Hout Hin. unfold put_queue. destruct Hinv as [I1 I2 I3 I4].
  destruct (array_set (hrtimer_bases h) b (set_active (root_node s) (first_of l) B)) as [bases|] eqn:Es.
  2:{ unfold array_set in Es. case_bool_decide as E; [done|]. unfold is_base, MAX_HRTIMER_BASES in Hb. lia. }
  simpl. eexists. split; [done|]. pose proof (fun j => array_get_set _ _ _ j _ Es) as Hget.
  assert (Hlen : length bases = 2%nat).
  { unfold array_set in Es. case_bool_decide; simplify_eq. by rewrite length_insert. }
  assert (HKb : forall x t, timers h !! x = Some t -> x ∈ K -> tbase t = b).
  { intros x t Ex Hx. rewrite Forall_forall in HK. destruct (HK x Hx) as (t' & E' & ?). by simplify_eq. }
  split; [split; simpl|split; [done|exact Hget]].
  - done.
  - intros b' Hb'. destruct (Z.eq_dec b' b) as [->|Hne].
    + exists (set_active (root_node s) (first_of l) B). rewrite set_q_eq. destruct HB. split; simpl; try done.
      * by rewrite Hget, Z.eqb_refl.
      * rewrite Forall_forall in *. intros x Hx. apply HK, HlK, Hx.
    + rewrite set_q_ne by done. destruct (I2 b' Hb') as (B' & HB'). exists B'. destruct HB'.
      split; simpl; try done; [by rewrite Hget, (proj2 (Z.eqb_neq _ _))|].
      eapply is_rbtree_frame; [done|done|]. simpl. intros a Ha. apply Hout. intros HaK.
      rewrite Forall_forall in bo_members0. destruct (bo_members0 a Ha) as (t & E & Et).
      apply Hne. rewrite <- Et. by apply (HKb a).
  - exact I3.
  - intros x t Ex. destruct (decide (x ∈ K)) as [HxK|HxK].
    + rewrite (HKb x t Ex HxK), set_q_eq. destruct (decide (x ∈ l)) as [Hxl|Hxl].
      * destruct (parent_in_tree _ _ _ Ht Hxl) as (n & En & Hp). exists n. split; [done|]. split; [|done].
        intros E1. rewrite E1 in Hp. destruct Hp as [Hp|Hp]; [done|]. apply HlK in Hp.
        rewrite Forall_forall in HK. destruct (HK _ Hp) as (t' & E' & _). by destruct (I3 _ _ E') as (_ & _ & ?).
      * destruct (Hin x HxK Hxl) as (n & En & Hp). by exists n.
    + destruct (I4 x t Ex) as (n & En & Hp). exists n. rewrite Hout by done. split; [done|]. rewrite Hp.
      destruct (Z.eq_dec (tbase t) b) as [->|Hne]; [|by rewrite set_q_ne].
      rewrite set_q_eq. split; intros _ Hx; apply HxK; [by apply HlK|by apply HqK].
Qed.

(** What does not change in a base. *)
Definition same_base (B B' : hrtimer_base) : Prop :=
  resolution B' = resolution B /\ softirq_time B' = softirq_time B.

(** The bases of [h'] are those of [h], apart from their queues. *)
Definition same_bases (h h' : hr_state) : Prop :=
  forall b B, array_get (hrtimer_bases h) b = Some B ->
  exists B', array_get (hrtimer_bases h') b = Some B' /\ same_base B B'.

Lemma same_bases_refl h : same_bases h h.
Proof. intros b B E. by exists B. Qed.

Lemma same_bases_trans h1 h2 h3 : same_bases h1 h2 -> same_bases h2 h3 -> same_bases h1 h3.
Proof.
  intros H1 H2 b B E. destruct (H1 b B E) as (B2 & E2 & R2 & S2).
  destruct (H2 b B2 E2) as (B3 & E3 & R3 & S3). exists B3. split; [done|]. split; congruence.
Qed.

Lemma same_bases_put h h' b B s f : array_get (hrtimer_bases h) b = Some B ->
  (forall b', array_get (hrtimer_bases h') b' =
    if b' =? b then Some (set_active (root_node s) f B) else array_get (hrtimer_bases h) b') ->
  same_bases h h'.
Proof.
  intros E H b' B' E'. rewrite H. destruct (Z.eqb_spec b' b) as [->|]; [|by exists B'].
  simplify_eq. eexists. split; [done|]. done.
Qed.

Section Operations.
Context (h : hr_state) (q : Z -> list Z) (Hinv : hr_inv h q).
Context (x : Z) (t : hrtimer) (Ex : timers h !! x = Some t).

Lemma members_some b B : base_ok h b B (q b) -> Forall (fun y => is_Some (timers h !! y)) (q b).
Proof. intros HB. eapply Forall_impl; [apply HB|]. simpl. intros y (ty & E & _). by exists ty. Qed.

Lemma active_spec : hrtimer_active h x = Some (bool_decide (x ∈ q (tbase t))).
Proof.
  destruct Hinv as [_ _ _ I4]. destruct (I4 x t Ex) as (n & En & Hp). unfold hrtimer_active.
  rewrite En. simpl. f_equal. case_bool_decide as Hx; destruct (Z.eqb_spec (rb_parent n) HRTIMER_INACTIVE); naive_solver.
Qed.

Lemma enqueue_spec : x ∉ q (tbase t) ->
  exists h', enqueue_hrtimer h x (tbase t) = Some h' /\
    hr_inv h' (set_q q (tbase t) (insert_timer (timers h) (expires t) x (q (tbase t)))) /\
    timers h' = timers h /\ same_bases h h'.
Proof.
  intros Hx. pose proof Hinv as [I1 I2 I3 I4]. set (b := tbase t) in *.
  destruct (I3 x t Ex) as (Hb & Hx0 & _). fold b in Hb. destruct (I2 b Hb) as (B & HB).
  destruct (I4 x t Ex) as (n & En & _). pose proof HB as [G1 G2 G3 G4 G5 G6].
  assert (Hk : key (timers h) x = expires t) by (unfold key; by rewrite Ex).
  destruct (enqueue_tree (tree_of h B) (q b) (timers h) (expires t) x n)
    as (parent & lnk & s1 & s2 & E & E1 & E2 & H2 & Hs2 & Hp & _ & So); [done|done| |done..|].
  { by eapply members_some. }
  unfold enqueue_hrtimer. rewrite G1. cbn [mbind option_bind]. rewrite Ex. cbn [mbind option_bind]. rewrite E. simpl.
  rewrite E1. simpl. rewrite E2. simpl.
  assert (Ef : (if first B =? 0 then Some x
      else f ← timers h !! first B; Some (if expires t <? expires f then x else first B))
    = Some (first_of (insert_timer (timers h) (expires t) x (q b)))).
  { rewrite G3. destruct (q b) as [|y l] eqn:Eq; [done|]. unfold first_of. simpl.
    apply Forall_cons in G6 as [(ty & Ey & _) _]. destruct (I3 y ty Ey) as (_ & Hy & _).
    rewrite (proj2 (Z.eqb_neq _ _) Hy), Ey. simpl. unfold key. rewrite Ey. simpl.
    by destruct (_ <? _). }
  rewrite Ef. simpl.
  destruct (put_queue_spec h q b B s2 (insert_timer (timers h) (expires t) x (q b)) (x :: q b))
    as (h' & -> & Hinv' & Et & Hget); [done..| | | | | |].
  - constructor; [by exists t|done].
  - intros y. by rewrite Hp.
  - intros y Hy. by right.
  - intros a Ha. by rewrite So.
  - intros y Hy []. by rewrite Hp.
  - exists h'. split_and!; [done..|]. by eapply same_bases_put.
Qed.

Lemma remove_spec : x ∈ q (tbase t) ->
  exists h', __remove_hrtimer h x (tbase t) = Some h' /\
    hr_inv h' (set_q q (tbase t) (filter (fun y => y <> x) (q (tbase t)))) /\
    timers h' = timers h /\ same_bases h h'.
Proof.
  intros Hx. pose proof Hinv as [I1 I2 I3 I4]. set (b := tbase t) in *.
  destruct (I3 x t Ex) as (Hb & Hx0 & _). fold b in Hb. destruct (I2 b Hb) as (B & HB).
  pose proof HB as [G1 G2 G3 G4 G5 G6]. pose proof (is_rbtree_nodup _ _ G2) as N.
  apply list_elem_of_split in Hx as Hsp. destruct Hsp as (l1 & l2 & El). rewrite El in *.
  rewrite filter_around by done. unfold __remove_hrtimer. rewrite G1. cbn [mbind option_bind].
  destruct (erase_spec _ _ _ _ G2) as (s1 & E1 & H1 & D1 & So1).
  assert (Ef : (if first B =? x then rb_next (tree_of h B) x else Some (first B)) = Some (first_of (l1 ++ l2))).
  { rewrite (walk_spec R _ _ _ _ G2), G3. destruct l1 as [|y l1]; unfold first_of; simpl.
    - by rewrite Z.eqb_refl.
    - rewrite (proj2 (Z.eqb_neq _ _)); [done|]. intros ->. apply NoDup_cons in N as [N _]. set_solver. }
  rewrite Ef. simpl. rewrite E1. simpl.
  destruct (nodes s1 !! x) as [n|] eqn:En.
  2:{ destruct (I4 x t Ex) as (n & En' & _). apply not_elem_of_dom in En. rewrite D1 in En.
      apply not_elem_of_dom in En. simpl in En. congruence. }
  unfold write at 1. rewrite En. simpl.
  assert (Hx12 : x ∉ l1 ++ l2).
  { intros Hin. apply NoDup_app in N as (_ & N1 & N2). apply NoDup_cons in N2 as [N2 _].
    apply elem_of_app in Hin as [Hin|Hin]; [|done]. apply (N1 x Hin). left. }
  destruct (put_queue_spec h q b B (RbRoot (<[x := set_rb_parent HRTIMER_INACTIVE n]> (nodes s1)) (root_node s1))
    (l1 ++ l2) (q b)) as (h' & -> & Hinv' & Et & Hget); rewrite ?El; [done..| | | | | | | |].
  - eapply is_rbtree_frame; [exact H1|done|]. simpl. intros a Ha. rewrite lookup_insert_ne; [done|].
    by intros ->.
  - by apply sorted_around in G5 as (_ & _ & ?).
  - done.
  - intros y. set_solver.
  - done.
  - intros a Ha. simpl. rewrite lookup_insert_ne by set_solver. by rewrite So1.
  - intros y Hy Hy'. assert (y = x) as -> by set_solver. simpl. rewrite lookup_insert_eq. by eexists.
  - exists h'. split_and!; [done..|]. by eapply same_bases_put.
Qed.
End Operations.
