(* ===== verification/HrtimerCalls.v ===== *)
(** The calls of kernel/hrtimer.c: every sequence of them keeps the queues, and the expiry
    of a queue calls the functions of the expired timers in the order of their times. *)
From stdpp Require Import base list gmap numbers option sorting.
From Stdlib Require Import ZArith Lia.
From S2P Require Import Prelude Rbtree RbtreeShape RbtreeInsert RbtreeCalls Ktime Hrtimer HrtimerQueue.

Local Open Scope Z_scope.

(** ** Timers outside of the queues *)

Lemma hr_inv_ext h q q' : (forall b, is_base b -> q b = q' b) -> hr_inv h q -> hr_inv h q'.
Proof.
  intros E [I1 I2 I3 I4]. split; [done| |done|].
  - intros b Hb. destruct (I2 b Hb) as (B & HB). exists B. by rewrite <- E.
  - intros x t Ex. destruct (I4 x t Ex) as (n & En & Hp), (I3 x t Ex) as (Hb & _).
    exists n. by rewrite <- E.
Qed.

(** A timer is in the queue of its own base only. *)
Lemma inv_own_queue h q x t b : hr_inv h q -> timers h !! x = Some t -> is_base b -> x ∈ q b -> tbase t = b.
Proof.
  intros [_ I2 _ _] Ex Hb Hx. destruct (I2 b Hb) as (B & HB).
  pose proof (bo_members _ _ _ _ HB) as F. rewrite Forall_forall in F.
  destruct (F x Hx) as (t' & E & Et). by simplify_eq.
Qed.

Lemma sorted_ext ts ts' l : (forall y, y ∈ l -> key ts' y = key ts y) ->
  StronglySorted (le_key ts) l -> StronglySorted (le_key ts') l.
Proof.
  intros E S. induction S as [|y l S IH F]; [constructor|]. constructor.
  - apply IH. intros z Hz. apply E. by right.
  - rewrite Forall_forall in *. intros z Hz. unfold le_key. rewrite (E y), (E z); [by apply F|by right|by left].
Qed.

Lemma key_insert_ne ts x t y : y <> x -> key (<[x := t]> ts) y = key ts y.
Proof. intros H. unfold key. by rewrite lookup_insert_ne. Qed.
Lemma key_insert ts x t : key (<[x := t]> ts) x = expires t.
Proof. unfold key. by rewrite lookup_insert_eq. Qed.

(** The record and the node of a timer in no queue may change. *)
Lemma set_timer_spec h q x t n m : hr_inv h q -> (forall b, is_base b -> x ∉ q b) ->
  is_base (tbase t) -> x <> 0 -> x <> HRTIMER_INACTIVE ->
  m !! x = Some n -> rb_parent n = HRTIMER_INACTIVE ->
  (forall y, y <> x -> m !! y = hr_nodes h !! y) ->
  hr_inv (Hr m (<[x := t]> (timers h)) (hrtimer_bases h)) q.
Proof.
  intros [I1 I2 I3 I4] Hx Ht Hx0 Hx1 En Hn Hm. split; simpl; [done| | |].
  - intros b Hb. destruct (I2 b Hb) as (B & [G1 G2 G3 G4 G5 G6]). exists B.
    assert (Hne : forall y, y ∈ q b -> y <> x) by (intros y Hy ->; by apply (Hx b)).
    split; simpl; try done.
    + eapply is_rbtree_frame; [done|done|]. simpl. intros a Ha. apply Hm. by apply Hne.
    + eapply sorted_ext; [|done]. intros y Hy. apply key_insert_ne. by apply Hne.
    + rewrite Forall_forall in *. intros y Hy. rewrite lookup_insert_ne by (symmetry; by apply Hne). by apply G6.
  - intros y ty. destruct (Z.eq_dec y x) as [->|Hne]; [rewrite lookup_insert_eq; by intros [= <-]|].
    rewrite lookup_insert_ne by done. apply I3.
  - intros y ty. destruct (Z.eq_dec y x) as [->|Hne].
    + rewrite lookup_insert_eq. intros [= <-]. exists n. split; [done|]. split; [|done]. intros _. by apply Hx.
    + rewrite lookup_insert_ne by done. rewrite Hm by done. apply I4.
Qed.

Lemma inactive_everywhere h q x t : hr_inv h q -> timers h !! x = Some t -> x ∉ q (tbase t) ->
  forall b, is_base b -> x ∉ q b.
Proof. intros H E Hx b Hb Hin. by rewrite <- (inv_own_queue h q x t b H E Hb Hin) in Hin. Qed.

Lemma update_spec h q x t f : hr_inv h q -> timers h !! x = Some t -> x ∉ q (tbase t) ->
  tbase (f t) = tbase t ->
  exists h', update_timer h x f = Some h' /\ hr_inv h' q /\ timers h' = <[x := f t]> (timers h) /\
    same_bases h h'.
Proof.
  intros H E Hx Hf. unfold update_timer. rewrite E. simpl. eexists. split; [done|].
  pose proof H as [_ _ I3 I4]. destruct (I3 x t E) as (Hb & Hx0 & Hx1), (I4 x t E) as (n & En & Hp).
  split; [|split; [done|intros b B EB; by exists B]].
  eapply set_timer_spec; [done|by eapply inactive_everywhere|by rewrite Hf|done|done|done|by apply Hp|done].
Qed.

(** ** The calls *)

Lemma remove_hrtimer_spec h q x t : hr_inv h q -> timers h !! x = Some t ->
  let b := tbase t in
  exists h', remove_hrtimer h x b = Some (if bool_decide (x ∈ q b) then 1 else 0, h') /\
    hr_inv h' (set_q q b (filter (fun y => y <> x) (q b))) /\ timers h' = timers h /\ same_bases h h'.
Proof.
  intros H E b. unfold remove_hrtimer. rewrite (active_spec h q H x t E). fold b. simpl.
  case_bool_decide as Hx.
  - destruct (remove_spec h q H x t E Hx) as (h' & E' & Hinv & Et & Hs). fold b in E'. rewrite E'. simpl.
    by exists h'.
  - exists h. split_and!; [done| |done|apply same_bases_refl]. rewrite filter_absent by done.
    eapply hr_inv_ext; [|exact H]. intros b' _. unfold set_q. by destruct (Z.eqb_spec b' b) as [->|].
Qed.

Lemma start_spec get_time h q x t tim mode : hr_inv h q -> timers h !! x = Some t ->
  let b := tbase t in
  let e := match mode with HRTIMER_REL => ktime_add tim (get_time b) | HRTIMER_ABS => tim end in
  let ts := <[x := set_expires e t]> (timers h) in
  exists h', hrtimer_start get_time h x tim mode = Some (if bool_decide (x ∈ q b) then 1 else 0, h') /\
    hr_inv h' (set_q q b (insert_timer ts e x (filter (fun y => y <> x) (q b)))) /\ timers h' = ts /\
    same_bases h h'.
Proof.
  intros H E b e ts. unfold hrtimer_start. rewrite E. cbn [mbind option_bind].
  destruct (remove_hrtimer_spec h q x t H E) as (h1 & E1 & H1 & T1 & S1). fold b in E1, H1 |- *.
  rewrite E1. cbn [mbind option_bind]. rewrite <- T1 in E.
  destruct (update_spec h1 _ x t (set_expires e) H1 E) as (h2 & E2 & H2 & T2 & S2); [|done|].
  { fold b. rewrite set_q_eq. intros Hx. apply list_elem_of_filter in Hx as [Hx _]. done. }
  fold e. rewrite E2. cbn [mbind option_bind].
  assert (Ex : timers h2 !! x = Some (set_expires e t)) by (rewrite T2; apply lookup_insert_eq).
  destruct (enqueue_spec h2 _ H2 x _ Ex) as (h3 & E3 & H3 & T3 & S3).
  { simpl. fold b. rewrite set_q_eq. intros Hx. apply list_elem_of_filter in Hx as [Hx _]. done. }
  simpl in E3, H3. fold b in E3, H3. rewrite E3. cbn [mbind option_bind]. exists h3.
  rewrite T2, T1 in *. fold ts in H3, T3. split_and!; [done| |congruence|].
  - eapply hr_inv_ext; [|exact H3]. intros b' _. rewrite set_q_eq. unfold set_q. by destruct (b' =? b).
  - eapply same_bases_trans; [exact S1|]. by eapply same_bases_trans.
Qed.

Lemma cancel_spec h q x t : hr_inv h q -> timers h !! x = Some t ->
  let b := tbase t in
  exists h', hrtimer_cancel h x = Some (if bool_decide (x ∈ q b) then 1 else 0, h') /\
    hrtimer_try_to_cancel h x = Some (if bool_decide (x ∈ q b) then 1 else 0, h') /\
    hr_inv h' (set_q q b (filter (fun y => y <> x) (q b))) /\ timers h' = timers h /\ same_bases h h'.
Proof.
  intros H E b. destruct (remove_hrtimer_spec h q x t H E) as (h' & E1 & H1). fold b in E1, H1.
  assert (Et : hrtimer_try_to_cancel h x = Some (if bool_decide (x ∈ q b) then 1 else 0, h')).
  { unfold hrtimer_try_to_cancel. rewrite E. simpl. fold b. pose proof H as [_ I2 I3 _].
    destruct (I3 x t E) as (Hb & Hx0 & _), (I2 (tbase t) Hb) as (B & HB). fold b in HB.
    rewrite (bo_get _ _ _ _ HB). simpl. rewrite (bo_curr _ _ _ _ HB), (proj2 (Z.eqb_neq _ _)) by done. done. }
  exists h'. split; [|done]. unfold hrtimer_cancel. rewrite loop_S. unfold cancel_body at 1. rewrite Et.
  by case_bool_decide.
Qed.

(** ** All calls *)

Inductive hr_call :=
| CInit (x clock : Z) (mode : hrtimer_mode)
| CStart (x tim : Z) (mode : hrtimer_mode)
| CCancel (x : Z).

Section Run.
Context (get_time : Z -> Z).

Definition run_hr (h : hr_state) (c : hr_call) : option (Z * hr_state) :=
  match c with
  | CInit x clock mode => Some (0, hrtimer_init h x clock mode)
  | CStart x tim mode => hrtimer_start get_time h x tim mode
  | CCancel x => hrtimer_cancel h x
  end.

(** A timer that is set up is not active; the other calls get timers that were set up. *)
Definition hr_ok (h : hr_state) (q : Z -> list Z) (c : hr_call) : Prop :=
  match c with
  | CInit x clock mode => x <> 0 /\ x <> HRTIMER_INACTIVE /\ is_base clock /\ forall b, is_base b -> x ∉ q b
  | CStart x _ _ | CCancel x => is_Some (timers h !! x)
  end.

(** The queues and the result according to the lists. *)
Definition spec_start (h : hr_state) (q : Z -> list Z) (x tim : Z) (mode : hrtimer_mode) : Z -> list Z :=
  match timers h !! x with
  | None => q
  | Some t =>
      let b := tbase t in
      let e := match mode with HRTIMER_REL => ktime_add tim (get_time b) | HRTIMER_ABS => tim end in
      set_q q b (insert_timer (<[x := set_expires e t]> (timers h)) e x (filter (fun y => y <> x) (q b)))
  end.
Definition spec_cancel (h : hr_state) (q : Z -> list Z) (x : Z) : Z -> list Z :=
  match timers h !! x with
  | None => q
  | Some t => set_q q (tbase t) (filter (fun y => y <> x) (q (tbase t)))
  end.
Definition spec_queues (h : hr_state) (q : Z -> list Z) (c : hr_call) : Z -> list Z :=
  match c with
  | CInit _ _ _ => q
  | CStart x tim mode => spec_start h q x tim mode
  | CCancel x => spec_cancel h q x
  end.
Definition spec_ret (h : hr_state) (q : Z -> list Z) (c : hr_call) : Z :=
  match c with
  | CInit _ _ _ => 0
  | CStart x _ _ | CCancel x =>
      match timers h !! x with
      | Some t => if bool_decide (x ∈ q (tbase t)) then 1 else 0
      | None => 0
      end
  end.

(** The state after init_hrtimers_cpu: two empty bases. *)
Definition hr_boot (res : Z) : hr_state := Hr ∅ ∅ [Base 0 0 res 0 0; Base 0 0 res 0 0].

Inductive hr_run (res : Z) : hr_state -> (Z -> list Z) -> Prop :=
| hr_start : hr_run res (hr_boot res) (fun _ => [])
| hr_step h q c r h' : hr_run res h q -> hr_ok h q c -> run_hr h c = Some (r, h') ->
    hr_run res h' (spec_queues h q c).

Lemma empty_is_rbtree m : is_rbtree (RbRoot m 0) [].
Proof. apply run_is_rbtree. constructor. Qed.

Lemma boot_inv res : hr_inv (hr_boot res) (fun _ => []).
Proof.
  split; simpl; [done| |done|done]. intros b Hb. exists (Base 0 0 res 0 0). split; simpl; try done.
  - assert (b = 0 \/ b = 1) as [-> | ->] by (unfold is_base, MAX_HRTIMER_BASES in Hb; lia); done.
  - apply empty_is_rbtree.
  - constructor.
Qed.

Lemma init_spec h q x clock mode : hr_inv h q -> hr_ok h q (CInit x clock mode) ->
  hr_inv (hrtimer_init h x clock mode) q.
Proof.
  intros H (Hx0 & Hx1 & Hc & Hq). unfold hrtimer_init. eapply set_timer_spec; [done|done| |done|done|..].
  - simpl. unfold is_base, MAX_HRTIMER_BASES in *. destruct (_ && _); unfold CLOCK_MONOTONIC; lia.
  - by rewrite lookup_insert_eq.
  - done.
  - intros y Hy. by rewrite lookup_insert_ne.
Qed.

Lemma call_refines h q c : hr_inv h q -> hr_ok h q c ->
  exists h', run_hr h c = Some (spec_ret h q c, h') /\ hr_inv h' (spec_queues h q c).
Proof.
  intros H Hok. destruct c as [x clock mode|x tim mode|x]; simpl.
  - eexists. split; [done|]. by apply init_spec.
  - destruct Hok as [t E]. destruct (start_spec get_time h q x t tim mode H E) as (h' & E' & H' & _).
    exists h'. unfold spec_start. by rewrite E.
  - destruct Hok as [t E]. destruct (cancel_spec h q x t H E) as (h' & E' & _ & H' & _).
    exists h'. unfold spec_cancel. by rewrite E.
Qed.

Lemma run_inv res h q : hr_run res h q -> hr_inv h q.
Proof.
  induction 1 as [|h q c r h' _ IH Hok E]; [apply boot_inv|].
  destruct (call_refines h q c IH Hok) as (h2 & E2 & H2). by simplify_eq.
Qed.

(** C4: the timer queues.  After any sequence of hrtimer_init, hrtimer_start and hrtimer_cancel
    each base has its active timers in the order of expiry, timers of the same time in the order
    in which they were started; [first] points to the one that expires first, or is NULL;
    hrtimer_active tells which timers are queued; and every further call returns with 1
    for a timer that was active and 0 for another one, and moves that timer only. *)
Theorem hrtimer_calls_correct res h q : hr_run res h q ->
  (forall b, is_base b -> exists B, array_get (hrtimer_bases h) b = Some B /\
    rb_first (tree_of h B) = Some (first B) /\ first B = first_of (q b) /\ NoDup (q b) /\
    StronglySorted (le_key (timers h)) (q b) /\ forall x, x ∈ q b -> key (timers h) (first B) <= key (timers h) x) /\
  (forall x t, timers h !! x = Some t -> hrtimer_active h x = Some (bool_decide (x ∈ q (tbase t)))) /\
  (forall c, hr_ok h q c -> exists h', run_hr h c = Some (spec_ret h q c, h') /\
    hr_run res h' (spec_queues h q c)).
Proof.
  intros H. pose proof (run_inv _ _ _ H) as Hinv. split_and!.
  - intros b Hb. destruct (inv_queues _ _ Hinv b Hb) as (B & [G1 G2 G3 G4 G5 G6]). exists B.
    destruct (ends_spec _ _ G2) as [Ef _]. rewrite <- G3 in Ef.
    split_and!; [done|done|done|by eapply is_rbtree_nodup|done|]. intros x Hx. rewrite G3.
    destruct (q b) as [|y l]; [set_solver|]. unfold first_of. simpl. inversion G5 as [|? ? _ F]; subst.
    apply elem_of_cons in Hx as [->|Hx]; [done|]. rewrite Forall_forall in F. by apply F.
  - intros x t E. by apply active_spec.
  - intros c Hok. destruct (call_refines h q c Hinv Hok) as (h' & E & _). exists h'.
    split; [done|]. by eapply hr_step.
Qed.
End Run.

(** Two timers of the monotonic clock. *)
Definition sample_calls : list hr_call :=
  [CInit 16 CLOCK_MONOTONIC HRTIMER_ABS; CStart 16 500 HRTIMER_ABS;
   CInit 24 CLOCK_REALTIME HRTIMER_REL; CStart 24 300 HRTIMER_REL].

Definition sample_hr : hr_state :=
  default (hr_boot 10000000)
    (foldl (fun o c => h ← o; snd <$> run_hr (fun _ => 0) h c) (Some (hr_boot 10000000)) sample_calls).

Lemma sample_hr_run : exists q, hr_run (fun _ => 0) 10000000 sample_hr q /\
  q CLOCK_REALTIME = [] /\ q CLOCK_MONOTONIC = [24; 16].
Proof.
  assert (Hnext : forall h q c h', hr_run (fun _ => 0) 10000000 h q -> hr_ok h q c ->
    snd <$> run_hr (fun _ => 0) h c = Some h' -> hr_run (fun _ => 0) 10000000 h' (spec_queues (fun _ => 0) h q c)).
  { intros h q c h' H Hok E. destruct (run_hr _ h c) as [[r h1]|] eqn:Er; [|done]. simpl in E. simplify_eq.
    by eapply hr_step. }
  pose proof (hr_start (fun _ => 0) 10000000) as H0.
  eapply (Hnext _ _ (CInit 16 CLOCK_MONOTONIC HRTIMER_ABS)) in H0;
    [|split_and!; [done..|intros b _; apply not_elem_of_nil]|vm_compute; reflexivity].
  eapply (Hnext _ _ (CStart 16 500 HRTIMER_ABS)) in H0; [|by eexists|vm_compute; reflexivity].
  eapply (Hnext _ _ (CInit 24 CLOCK_REALTIME HRTIMER_REL)) in H0; [| |vm_compute; reflexivity].
  2:{ split_and!; [done|done|done|]. intros b Hb.
      assert (b = 0 \/ b = 1) as [-> | ->] by (unfold is_base, MAX_HRTIMER_BASES in Hb; lia);
        apply (bool_decide_unpack _); vm_compute; exact I. }
  eapply (Hnext _ _ (CStart 24 300 HRTIMER_REL)) in H0; [|by eexists|vm_compute; reflexivity].
  eexists. split; [exact H0|]. split; vm_compute; reflexivity.
Qed.

Lemma hrtimer_calls_witness : exists B h', array_get (hrtimer_bases sample_hr) CLOCK_MONOTONIC = Some B /\
  first B = 24 /\ hrtimer_cancel sample_hr 24 = Some (1, h').
Proof.
  destruct sample_hr_run as (q & H & _ & Eq).
  destruct (hrtimer_calls_correct (fun _ => 0) 10000000 sample_hr q H) as (Hb & _ & Hc).
  destruct (Hb CLOCK_MONOTONIC) as (B & EB & _ & Ef & _); [done|].
  destruct (Hc (CCancel 24)) as (h' & E & _); [by eexists|].
  exists B, h'. rewrite Eq in Ef. split; [exact EB|]. split; [exact Ef|]. simpl in E. rewrite E. f_equal. f_equal.
  assert (Et : exists t, timers sample_hr !! 24 = Some t /\ tbase t = 1) by (eexists; split; vm_compute; reflexivity).
  destruct Et as (t & -> & ->). unfold CLOCK_MONOTONIC in Eq. rewrite Eq. reflexivity.
Defined.

(** ** Expiry *)

Lemma insert_timer_skip ts e x l1 l2 : Forall (fun y => key ts y <= e) l1 ->
  insert_timer ts e x (l1 ++ l2) = l1 ++ insert_timer ts e x l2.
Proof. induction 1 as [|y l1 Hy _ IH]; simpl; [done|]. rewrite (proj2 (Z.ltb_ge _ _)) by done. by rewrite IH. Qed.

Lemma insert_timer_elem ts e x l y : y ∈ insert_timer ts e x l <-> y = x \/ y ∈ l.
Proof.
  induction l as [|z l IH]; simpl; [set_solver|]. destruct (_ <? _); [set_solver|].
  rewrite !elem_of_cons, IH. tauto.
Qed.

Definition restarts (o : hrtimer_restart * hrtimer) : Prop := o.1 = HRTIMER_RESTART.

(** The base with its softirq time and its resolution. *)
Definition at_time (now b res : Z) (h : hr_state) : Prop :=
  exists B, array_get (hrtimer_bases h) b = Some B /\ softirq_time B = now /\ resolution B = res.

(** What run_hrtimer_queue relies on.  The function of the timer [x] of the base [b], with the record
    [t], is called when the timer is inactive; it leaves the queues and the other timers alone and
    ends with the result and the record [o]; a restart is not asked for in the past of
    that base.  A function that calls hrtimer_forward with the softirq time of its base is like that. *)
Definition behaves (call : callback) (now b res x : Z) (t : hrtimer) (o : hrtimer_restart * hrtimer) : Prop :=
  tbase o.2 = b /\ (restarts o -> now <= expires o.2) /\
  forall h q, hr_inv h q -> timers h !! x = Some t -> x ∉ q b -> at_time now b res h ->
  exists h', call (function t) x h = Some (h', o.1) /\ hr_inv h' q /\
    timers h' = <[x := o.2]> (timers h) /\ same_bases h h'.

Section Expire.
Context (call : callback) (now b res : Z) (out : Z -> hrtimer_restart * hrtimer) (Hb : is_base b).

(** The timers that have expired have functions that behave. *)
Definition all_behave (h : hr_state) (l : list Z) : Prop :=
  forall x t, x ∈ l -> timers h !! x = Some t -> behaves call now b res x t (out x).

Lemma at_time_same h h' : at_time now b res h -> same_bases h h' -> at_time now b res h'.
Proof. intros (B & E & T & R) S. destruct (S b B E) as (B' & E' & R' & T'). exists B'. split_and!; congruence. Qed.

(** The rest of a turn, after the function of the timer. *)
Definition rearm (h : hr_state) (x : Z) (r : hrtimer_restart) : option hr_state :=
  match r with
  | HRTIMER_NORESTART => Some h
  | HRTIMER_RESTART => a ← hrtimer_active h x; if (a : bool) then None else enqueue_hrtimer h x b
  end.

(** The expired timer [x] at the head is removed and its function called. *)
Lemma expire_call h q x l trace : hr_inv h q -> at_time now b res h -> q b = x :: l ->
  key (timers h) x < now -> all_behave h [x] ->
  exists h2, hr_inv h2 (set_q q b l) /\ same_bases h h2 /\ x ∉ l /\
    timers h2 = <[x := (out x).2]> (timers h) /\ tbase (out x).2 = b /\
    (restarts (out x) -> now <= expires (out x).2) /\
    run_body call b (h, trace) = next_turn (h3 ← rearm h2 x (out x).1; Some (h3, trace ++ [x])).
Proof.
  intros H Ht Eq Hx Hc. destruct (inv_queues _ _ H b Hb) as (B & [G1 G2 G3 _ _ G6]).
  pose proof (is_rbtree_nodup _ _ G2) as N. rewrite Eq in G3, G6, N.
  apply Forall_cons in G6 as [(t & Ex & Et) _]. apply NoDup_cons in N as [Nx _].
  assert (Hfx : first B = x) by done. destruct (inv_timers _ _ H x t Ex) as (_ & Hx0 & _).
  assert (Hk : key (timers h) x = expires t) by (unfold key; by rewrite Ex).
  destruct (remove_spec h q H x t Ex) as (h1 & E1 & I1 & T1 & S1); [rewrite Et, Eq; left|].
  rewrite Et in E1, I1. rewrite Eq, filter_cons_False, filter_absent in I1 by (done || naive_solver).
  pose proof Ex as Ex1. rewrite <- T1 in Ex1.
  destruct (Hc x t) as (Hob & Hr & Hcall); [left|done|].
  destruct (Hcall h1 _ I1 Ex1) as (h2 & E2 & I2 & T2 & S2); [by rewrite set_q_eq|by eapply at_time_same|].
  exists h2. rewrite T1 in T2.
  split_and!; [done|by eapply same_bases_trans|done|done|done|done|].
  destruct Ht as (B' & EB & ET & _). unfold run_body. rewrite G1, Hfx, (proj2 (Z.eqb_neq _ _) Hx0), Ex.
  simplify_eq. rewrite (proj2 (Z.leb_gt _ _)) by lia. rewrite E1. simpl. rewrite E2. simpl.
  destruct (out _) as [[] o]; [done|]. simpl. by destruct (hrtimer_active h2 _) as [[]|].
Qed.

(** One turn, when [x] has expired; a restarted timer goes to those that have not. *)
Lemma expire_turn h q x l1 l2 trace : hr_inv h q -> at_time now b res h -> q b = x :: l1 ++ l2 ->
  key (timers h) x < now -> Forall (fun y => key (timers h) y < now) l1 ->
  Forall (fun y => now <= key (timers h) y) l2 -> all_behave h [x] ->
  exists h' l2', run_body call b (h, trace) = inl (h', trace ++ [x]) /\
    hr_inv h' (set_q q b (l1 ++ l2')) /\ same_bases h h' /\ x ∉ l1 ++ l2 /\
    timers h' = <[x := (out x).2]> (timers h) /\
    Forall (fun y => now <= key (timers h') y) l2' /\
    (forall y, y ∈ l2' <-> y ∈ l2 \/ y = x /\ restarts (out x)).
Proof.
  intros H Ht Eq Hx H1 H2 Hc.
  destruct (expire_call h q x (l1 ++ l2) trace H Ht Eq Hx Hc) as (h2 & I2 & Sb & Nx & T2 & Et & Hr & ->).
  assert (Hkey : forall y, y ∈ l1 ++ l2 -> key (timers h2) y = key (timers h) y).
  { intros y Hy. rewrite T2. apply key_insert_ne. by intros ->. }
  assert (H2' : Forall (fun y => now <= key (timers h2) y) l2).
  { rewrite Forall_forall in *. intros y Hy. rewrite Hkey by set_solver. by apply H2. }
  unfold restarts in *. destruct (out x) as [r o] eqn:Eo. simpl in *. destruct r; simpl.
  - exists h2, l2. split_and!; [done..|]. intros y. split; [by left|]. by intros [?|[_ ?]].
  - specialize (Hr eq_refl). assert (Ex2 : timers h2 !! x = Some o) by (by rewrite T2, lookup_insert_eq).
    assert (Hx2 : x ∉ set_q q b (l1 ++ l2) (tbase o)) by (by rewrite Et; simpl; rewrite set_q_eq).
    destruct (enqueue_spec h2 _ I2 x _ Ex2 Hx2) as (h3 & E3 & I3 & T3 & S3).
    rewrite (active_spec h2 _ I2 x _ Ex2), bool_decide_eq_false_2 by done. simpl. rewrite Et in E3, I3.
    rewrite E3. simpl. exists h3, (insert_timer (timers h2) (expires o) x l2). rewrite T3. split_and!.
    + done.
    + eapply hr_inv_ext; [|exact I3]. intros b' _. rewrite set_q_eq. unfold set_q.
      destruct (b' =? b); [|done]. apply insert_timer_skip. rewrite Forall_forall in *.
      intros y Hy. rewrite Hkey by set_solver. specialize (H1 y Hy). simpl in H1. lia.
    + by eapply same_bases_trans.
    + done.
    + done.
    + rewrite Forall_forall in *. intros y Hy%insert_timer_elem. destruct Hy as [->|Hy]; [|by apply H2'].
      rewrite T2, key_insert. done.
    + intros y. rewrite insert_timer_elem. tauto.
Qed.

(** The state after the expired timers [l1] have run, with [l2'] left in the queue. *)
Definition expired_run (h h' : hr_state) (l1 l2 l2' : list Z) : Prop :=
  same_bases h h' /\ (forall y, y ∉ l1 -> timers h' !! y = timers h !! y) /\
  (forall y, y ∈ l1 -> timers h' !! y = Some (out y).2) /\
  Forall (fun y => now <= key (timers h') y) l2' /\
  (forall y, y ∈ l2' <-> y ∈ l2 \/ y ∈ l1 /\ restarts (out y)).

Lemma expire_loop l1 : forall h q l2 trace fuel, hr_inv h q -> at_time now b res h -> q b = l1 ++ l2 ->
  Forall (fun y => key (timers h) y < now) l1 -> Forall (fun y => now <= key (timers h) y) l2 ->
  all_behave h l1 -> (length l1 < fuel)%nat ->
  exists h' l2', loop fuel (run_body call b) (h, trace) = Some (Some (h', trace ++ l1)) /\
    hr_inv h' (set_q q b l2') /\ expired_run h h' l1 l2 l2'.
Proof.
  induction l1 as [|x l1 IH]; intros h q l2 trace [|fuel] H Ht Eq H1 H2 Hc Hf; simpl in Hf; try lia.
  - rewrite loop_S. unfold run_body at 1. destruct (inv_queues _ _ H b Hb) as (B & [G1 G2 G3 _ _ G6]).
    rewrite G1, G3, Eq. simpl in Eq. exists h, l2. rewrite app_nil_r. split_and!; [|by eapply hr_inv_ext; [|exact H];
      intros b' _; unfold set_q; destruct (Z.eqb_spec b' b) as [->|]|split_and!; [apply same_bases_refl|done|by intros y Hy%elem_of_nil|done|intros y; rewrite elem_of_nil; tauto]].
    destruct l2 as [|y l2]; [done|]. rewrite Eq in G6. apply Forall_cons in G6 as [(t & Ey & _) _].
    destruct (inv_timers _ _ H y t Ey) as (_ & Hy & _). unfold first_of. simpl.
    rewrite (proj2 (Z.eqb_neq _ _) Hy), Ey. apply Forall_cons in H2 as [H2 _]. unfold key in H2.
    rewrite Ey in H2. destruct Ht as (B' & EB & ET & _). simplify_eq. simpl in H2. rewrite (proj2 (Z.leb_le _ _)) by lia. done.
  - apply Forall_cons in H1 as [Hx H1].
    destruct (expire_turn h q x l1 l2 trace H Ht Eq Hx H1 H2)
      as (h1 & l2' & E & I1 & S1 & Nx & T1 & Hl & Hmem).
    { intros y t Hy Ey. apply Hc; [set_solver|done]. }
    assert (Hne : forall y, y <> x -> timers h1 !! y = timers h !! y)
      by (intros y Hy; by rewrite T1, lookup_insert_ne).
    assert (Hx1 : forall y, y ∈ l1 -> y <> x) by set_solver.
    rewrite loop_S, E.
    destruct (IH h1 (set_q q b (l1 ++ l2')) l2' (trace ++ [x]) fuel I1 (at_time_same _ _ Ht S1))
      as (h' & l3 & -> & I3 & S3 & Hne3 & Hout3 & Hl3 & Hmem3); [by rewrite set_q_eq| |done| |lia|].
    { rewrite Forall_forall in *. intros y Hy. unfold key. rewrite Hne; [by apply H1|by apply Hx1]. }
    { intros y t Hy Ey. apply Hc; [by right|]. rewrite <- Hne; [done|by apply Hx1]. }
    exists h', l3. rewrite <- app_assoc. split; [done|]. split.
    + eapply hr_inv_ext; [|exact I3]. intros b' _. unfold set_q. by destruct (b' =? b).
    + split_and!; [by eapply same_bases_trans| | |done|].
      * intros y [Hy1 Hy2]%not_elem_of_cons. by rewrite Hne3, Hne.
      * intros y [->|Hy]%elem_of_cons; [|by apply Hout3].
        rewrite Hne3, T1 by set_solver. apply lookup_insert_eq.
      * intros y. rewrite Hmem3, Hmem, elem_of_cons. naive_solver.
Qed.
End Expire.

(** In a sorted queue the expired timers come first. *)
Definition expired (ts : gmap Z hrtimer) (now : Z) (l : list Z) : list Z :=
  filter (fun y => key ts y < now) l.

Lemma expired_prefix ts now l : StronglySorted (le_key ts) l ->
  exists l2, l = expired ts now l ++ l2 /\ Forall (fun y => now <= key ts y) l2.
Proof.
  induction 1 as [|x l S (l2 & El & H2) F]; [by exists []|]. unfold expired in *.
  destruct (decide (key ts x < now)) as [Hx|Hx].
  - rewrite filter_cons_True by done. exists l2. split; [|done]. simpl. by rewrite <- El.
  - exists (x :: l). rewrite filter_cons_False by done.
    assert (H : Forall (fun y => now <= key ts y) l).
    { eapply Forall_impl; [exact F|]. unfold le_key. simpl. lia. }
    assert (E : filter (fun y => key ts y < now) l = []).
    { destruct (filter _ l) as [|y l'] eqn:E; [done|]. assert (Hy : y ∈ filter (fun y => key ts y < now) l) by (rewrite E; left).
      apply list_elem_of_filter in Hy as [Hy Hin]. rewrite Forall_forall in H. specialize (H y Hin). simpl in H. lia. }
    rewrite E. split; [done|]. constructor; [lia|done].
Qed.

Lemma expired_ext ts ts' now l : (forall x, x ∈ l -> key ts x = key ts' x) ->
  expired ts now l = expired ts' now l.
Proof.
  unfold expired. induction l as [|x l IH]; intros H; [done|].
  assert (Ex : key ts x = key ts' x) by (apply H; left). rewrite !filter_cons, Ex, IH; [done|].
  intros y Hy. apply H. by right.
Qed.

(** What the expiry of the base [b] at [now] leaves: the timers that had not expired are as before; those
    that had expired are as their functions left them, and queued when they asked for it. *)
Definition expiry_ok (out : Z -> hrtimer_restart * hrtimer) (h h' : hr_state) (now : Z) (l l' : list Z) : Prop :=
  (forall x, x ∈ l' <-> x ∈ l /\ (now <= key (timers h) x \/ restarts (out x))) /\
  (forall x, x ∈ l' -> now <= key (timers h') x) /\
  (forall x, x ∈ l -> timers h' !! x = if key (timers h) x <? now then Some (out x).2 else timers h !! x).

Lemma run_queue_spec call now b res out fuel h q : is_base b -> hr_inv h q ->
  at_time now b res h -> all_behave call now b res out h (expired (timers h) now (q b)) ->
  (length (q b) < fuel)%nat ->
  exists h' l', run_hrtimer_queue call fuel h b = Some (h', expired (timers h) now (q b)) /\
    hr_inv h' (set_q q b l') /\ same_bases h h' /\ expiry_ok out h h' now (q b) l' /\
    (forall x, x ∉ q b -> timers h' !! x = timers h !! x).
Proof.
  intros Hb H Ht Hc Hf. destruct (inv_queues _ _ H b Hb) as (B & [G1 G2 G3 _ G5 G6]).
  destruct (expired_prefix (timers h) now (q b) G5) as (l2 & El & H2).
  assert (Hm : forall y, y ∈ expired (timers h) now (q b) <-> key (timers h) y < now /\ y ∈ q b).
  { intros y. unfold expired. by rewrite list_elem_of_filter. }
  assert (H1 : Forall (fun y => key (timers h) y < now) (expired (timers h) now (q b))).
  { apply Forall_forall. intros y Hy. by apply Hm in Hy as [Hy _]. }
  set (l1 := expired (timers h) now (q b)) in *.
  destruct (expire_loop call now b res out Hb l1 h q l2 [] fuel H Ht El H1 H2 Hc)
    as (h' & l' & E & I' & Sb & Hne & Hout & Hl & Hmem).
  { rewrite El, length_app in Hf. lia. }
  rewrite Forall_forall in H2. assert (Hq : forall x, x ∈ q b <-> x ∈ l1 \/ x ∈ l2) by (intros x; rewrite El; apply elem_of_app).
  exists h', l'. split_and!; [|done|done| |].
  - unfold run_hrtimer_queue. rewrite G1. simpl. destruct (Z.eqb_spec (first B) 0) as [E0|]; [|by rewrite E].
    destruct (q b) as [|y l] eqn:Eq; [|].
    + destruct fuel; [simpl in Hf; lia|]. rewrite loop_S in E. unfold run_body at 1 in E. rewrite G1, E0 in E. simpl in E.
      injection E as Eh. by rewrite Eh.
    + exfalso. apply Forall_cons in G6 as [(t & Ey & _) _]. destruct (inv_timers _ _ H y t Ey) as (_ & Hy & _).
      rewrite G3 in E0. done.
  - split_and!.
    + intros x. rewrite Hmem, Hq. split.
      * intros [Hx|[Hx Hr]]; [|tauto]. split; [by right|]. left. by apply H2.
      * intros [[Hx|Hx] [Hk|Hr]]; [|tauto..]. apply Hm in Hx as [Hx _]. lia.
    + rewrite Forall_forall in Hl. apply Hl.
    + intros x Hx. destruct (Z.ltb_spec (key (timers h) x) now) as [Hk|Hk].
      * apply Hout, Hm. done.
      * apply Hne. intros Hx1. apply Hm in Hx1 as [? _]. lia.
  - intros x Hx. apply Hne. intros Hx1. apply Hx, Hq. by left.
Qed.

(** The times of the two bases in the softirq. *)
Definition softirq_now (xtime wall_to_monotonic : Z * Z) (b : Z) : Z :=
  if b =? CLOCK_REALTIME then timespec_to_ktime xtime
  else ktime_add (timespec_to_ktime xtime) (timespec_to_ktime wall_to_monotonic).

Lemma softirq_spec xt wm h q : hr_inv h q ->
  exists h', hrtimer_get_softirq_time xt wm h = Some h' /\ hr_inv h' q /\ timers h' = timers h /\
    forall b B, is_base b -> array_get (hrtimer_bases h) b = Some B ->
      at_time (softirq_now xt wm b) b (resolution B) h'.
Proof.
  intros H. pose proof H as [I1 I2 I3 I4]. destruct h as [m ts bases]. simpl in I1.
  destruct bases as [|B0 [|B1 [|]]]; try done.
  unfold hrtimer_get_softirq_time. cbn -[timespec_to_ktime ktime_add]. eexists. split; [reflexivity|].
  split; [|split; [done|]].
  - split; simpl; [done| |done|done]. intros b Hb.
    destruct (I2 b Hb) as (B & [G1 G2 G3 G4 G5 G6]).
    exists (set_softirq_time (softirq_now xt wm b) B).
    assert (b = 0 \/ b = 1) as [-> | ->] by (unfold is_base, MAX_HRTIMER_BASES in Hb; lia);
      injection G1 as <-; by split.
  - intros b B Hb. assert (b = 0 \/ b = 1) as [-> | ->] by (unfold is_base, MAX_HRTIMER_BASES in Hb; lia);
      intros [= <-]; eexists; split_and!; reflexivity.
Qed.

Lemma queues_disjoint h q x : hr_inv h q -> x ∈ q CLOCK_MONOTONIC -> x ∉ q CLOCK_REALTIME.
Proof.
  intros H Hx1 Hx0. destruct (inv_queues _ _ H CLOCK_MONOTONIC) as (B2 & HB); [done|].
  pose proof (bo_members _ _ _ _ HB) as F. rewrite Forall_forall in F. destruct (F x Hx1) as (t & Ex & Et).
  assert (B0 : is_base CLOCK_REALTIME) by done.
  pose proof (inv_own_queue h q x t _ H Ex B0 Hx0) as E. by rewrite E in Et.
Qed.

Lemma expiry_ok_ext out h1 h1' h2 h2' now l l' : expiry_ok out h1 h1' now l l' ->
  (forall x, x ∈ l -> timers h2 !! x = timers h1 !! x /\ timers h2' !! x = timers h1' !! x) ->
  expiry_ok out h2 h2' now l l'.
Proof.
  intros (X1 & X2 & X3) E. unfold expiry_ok, key in *. split_and!.
  - intros x. rewrite X1. split; intros [Hx Hk]; (split; [done|]); destruct (E x Hx) as [E1 _]; [rewrite E1; exact Hk|rewrite E1 in Hk; exact Hk].
  - intros x Hx. pose proof (proj1 (proj1 (X1 x) Hx)) as Hl. destruct (E x Hl) as [_ ->]. by apply X2.
  - intros x Hx. destruct (E x Hx) as [-> ->]. by apply X3.
Qed.

(** C5: expiry.  The hypothesis on the functions of the expired timers is [behaves]: the function of
    a timer leaves the other timers and the queues alone, ends with a known record and
    result, and asks for a restart only at a time that has not passed on the clock of its own base.
    Then hrtimer_run_queues returns; it calls the functions of exactly those timers whose time
    has passed, each once, the wall clock first, and on each clock in the order of their times;
    afterwards the queues (still sorted) hold exactly the timers that had not expired, with
    their records, and the expired ones whose function asked for a restart, with the time that
    it has set; none of them has expired. *)
Theorem hrtimer_run_queues_correct call out fuel xt wm h q :
  hr_inv h q ->
  (forall b B x t, is_base b -> array_get (hrtimer_bases h) b = Some B -> x ∈ q b ->
    timers h !! x = Some t -> expires t < softirq_now xt wm b ->
    behaves call (softirq_now xt wm b) b (resolution B) x t (out x)) ->
  (forall b, is_base b -> length (q b) < fuel)%nat ->
  exists h' q', hrtimer_run_queues call fuel xt wm h =
      Some (h', expired (timers h) (softirq_now xt wm CLOCK_REALTIME) (q CLOCK_REALTIME) ++
                expired (timers h) (softirq_now xt wm CLOCK_MONOTONIC) (q CLOCK_MONOTONIC)) /\
    hr_inv h' q' /\
    (forall b, is_base b -> expiry_ok out h h' (softirq_now xt wm b) (q b) (q' b)) /\
    (forall x, x ∉ q CLOCK_REALTIME -> x ∉ q CLOCK_MONOTONIC -> timers h' !! x = timers h !! x).
Proof.
  intros H Hcall Hf. assert (B0 : is_base CLOCK_REALTIME) by done. assert (B1 : is_base CLOCK_MONOTONIC) by done.
  destruct (softirq_spec xt wm h q H) as (h0 & E0 & I0 & T0 & A0).
  pose proof (fun x => queues_disjoint h q x H) as Hdis.
  assert (Hall : forall b B hx, is_base b -> array_get (hrtimer_bases h) b = Some B ->
    (forall x, x ∈ q b -> timers hx !! x = timers h !! x) ->
    all_behave call (softirq_now xt wm b) b (resolution B) out hx (expired (timers hx) (softirq_now xt wm b) (q b))).
  { intros b B hx Hb EB Ehx x t [Hk Hx]%list_elem_of_filter Ex. unfold key in Hk. rewrite Ex in Hk.
    apply (Hcall b B x t Hb EB Hx); [|done]. by rewrite <- Ehx. }
  destruct (inv_queues _ _ H _ B0) as (R0 & HR0%bo_get), (inv_queues _ _ H _ B1) as (R1 & HR1%bo_get).
  destruct (run_queue_spec call _ _ (resolution R0) out fuel h0 q B0 I0 (A0 _ _ B0 HR0))
    as (h1 & l0 & E1 & I1 & S1 & X0 & N1); [apply Hall; [done..|by intros; rewrite T0]|by apply Hf|].
  rewrite T0 in E1, N1.
  destruct (run_queue_spec call (softirq_now xt wm CLOCK_MONOTONIC) _ (resolution R1) out fuel h1 _ B1 I1) 
      as (h2 & l1 & E2 & I2 & _ & X1 & N2);
    rewrite ?set_q_ne in * by done.
  { eapply at_time_same; [|exact S1]. by apply A0. }
  { apply Hall; [done..|]. intros x Hx. apply N1. by apply Hdis. }
  { by apply Hf. }
  exists h2, (set_q (set_q q CLOCK_REALTIME l0) CLOCK_MONOTONIC l1). split_and!; [|done| |].
  - unfold hrtimer_run_queues. rewrite E0. cbn [mbind option_bind]. rewrite E1. cbn [mbind option_bind].
    rewrite E2. cbn [mbind option_bind]. do 3 f_equal. apply expired_ext.
    intros x Hx. unfold key. by rewrite N1 by (by apply Hdis).
  - intros b Hb. assert (b = CLOCK_REALTIME \/ b = CLOCK_MONOTONIC) as [-> | ->]
      by (unfold is_base, MAX_HRTIMER_BASES, CLOCK_REALTIME, CLOCK_MONOTONIC in *; lia).
    + rewrite set_q_ne, set_q_eq by done. eapply expiry_ok_ext; [exact X0|]. intros x Hx. rewrite T0.
      split; [done|]. apply N2. intros Hx1. by apply (Hdis x).
    + rewrite set_q_eq. eapply expiry_ok_ext; [exact X1|]. intros x Hx. split; [|done]. symmetry.
      apply N1. by apply Hdis.
  - intros x Hx0 Hx1. by rewrite N2, N1.
Qed.

(** ** it_real_fn *)

(** hrtimer_forward on a timer that is in no queue. *)
Lemma hrtimer_forward_spec h q x t b B now interval orun e : hr_inv h q -> timers h !! x = Some t ->
  tbase t = b -> x ∉ q b -> array_get (hrtimer_bases h) b = Some B ->
  forward (resolution B) (expires t) now interval = Some (orun, e) ->
  exists h', hrtimer_forward h x now interval = Some (orun, h') /\ hr_inv h' q /\
    timers h' = <[x := set_expires e t]> (timers h) /\ same_bases h h'.
Proof.
  intros H Ex <- Hx EB E. destruct (update_spec h q x t (set_expires e) H Ex Hx eq_refl) as (h' & E' & R).
  exists h'. split; [|done]. unfold hrtimer_forward. rewrite Ex. simpl. rewrite EB. simpl. rewrite E. simpl.
  by rewrite E'.
Qed.

(** What it_real_fn makes of an expired timer [t]. *)
Definition it_real_outcome (incr res now : Z) (t : hrtimer) : hrtimer_restart * hrtimer :=
  if incr =? 0 then (HRTIMER_NORESTART, t)
  else (HRTIMER_RESTART, set_expires (default 0 (snd <$> forward res (expires t) now incr)) t).

(** it_real_fn meets the hypothesis of the expiry, with normal times in which fewer than 2^32
    intervals have passed. *)
Lemma it_real_behaves incr now b res x t : tbase t = b ->
  normal res -> normal (expires t) -> normal now -> normal (incr x) ->
  0 < ns res -> 0 <= ns (expires t) -> expires t < now ->
  let I := ns (step_of res (incr x)) in
  in_range (ns now + I) -> (ns now - ns (expires t)) / I + 1 < 2 ^ 32 ->
  behaves (it_real_fn incr) now b res x t (it_real_outcome (incr x) res now t).
Proof.
  intros Et Hr He Hn Hi Hr0 He0 Hlt I Hs Hq. unfold behaves, it_real_outcome, restarts.
  destruct (Z.eqb_spec (incr x) 0) as [E0|E0].
  { split_and!; [done|done|]. intros h q H Ex Hx _. exists h. unfold it_real_fn. rewrite E0. simpl.
    split_and!; [done|done|by rewrite insert_id|apply same_bases_refl]. }
  assert (Hns : ns (expires t) < ns now) by (by apply (ktime_order _ _ He Hn)).
  destruct (forward_future res (expires t) now (incr x)) as (e & E & Ne & Ee); try done; try lia.
  rewrite E. simpl. split_and!; [done| |].
  - intros _. apply (ktime_order _ _ Hn Ne). rewrite Ee. fold I. fold I in Ee.
    assert (0 < I) by (by apply (step_normal res (incr x))).
    pose proof (Z.mul_succ_div_gt (ns now - ns (expires t)) I). lia.
  - intros h q H Ex Hx (B & EB & ET & ER). rewrite <- ER in E.
    destruct (hrtimer_forward_spec h q x t b B now (incr x) _ e H Ex Et Hx EB E) as (h' & E' & R).
    exists h'. split; [|done]. unfold it_real_fn. rewrite (proj2 (Z.eqb_neq _ _) E0), Ex. simpl.
    rewrite Et, EB. simpl. rewrite ET, E'. done.
Qed.

(** Two interval timers, one with a period of 10 ms and one without, 30 ms after the first has
    expired; the wall clock is 100 s ahead of the monotonic one. *)
Definition sample_incr (x : Z) : Z := if x =? 24 then ktime_set 0 10000000 else 0.

Definition sample_out (x : Z) : hrtimer_restart * hrtimer :=
  it_real_outcome (sample_incr x) 10000000 (softirq_now (100, 30000300) (-100, 0) CLOCK_MONOTONIC)
    (default (Timer 0 0 0) (timers sample_hr !! x)).

Lemma hrtimer_run_queues_witness : exists h' q',
  hrtimer_run_queues (it_real_fn sample_incr) 3 (100, 30000300) (-100, 0) sample_hr = Some (h', [24; 16]) /\
  hr_inv h' q' /\ 24 ∈ q' CLOCK_MONOTONIC /\ 16 ∉ q' CLOCK_MONOTONIC /\
  timers h' !! 24 = Some (Timer (ktime_set 0 40000300) 0 CLOCK_MONOTONIC).
Proof.
  destruct sample_hr_run as (q & H & E0 & E1). apply run_inv in H.
  destruct (hrtimer_run_queues_correct (it_real_fn sample_incr) sample_out 3 (100, 30000300) (-100, 0) sample_hr q H)
    as (h' & q' & E & I & X & _).
  - intros b B x t Hb EB Hx Ex Hlt.
    assert (b = 0 \/ b = 1) as [-> | ->] by (unfold is_base, MAX_HRTIMER_BASES in Hb; lia).
    { unfold CLOCK_REALTIME in E0. rewrite E0 in Hx. by apply elem_of_nil in Hx. }
    unfold CLOCK_MONOTONIC in E1. rewrite E1 in Hx. vm_compute in EB. injection EB as <-.
    unfold sample_out. rewrite Ex. simpl default.
    assert (E24 : timers sample_hr !! 24 = Some (Timer 300 0 1)) by (vm_compute; reflexivity).
    assert (E16 : timers sample_hr !! 16 = Some (Timer 500 0 1)) by (vm_compute; reflexivity).
    cbn [resolution]. change (softirq_now (100, 30000300) (-100, 0) CLOCK_MONOTONIC)
      with (softirq_now (100, 30000300) (-100, 0) 1).
    apply elem_of_cons in Hx as [->|Hx].
    { rewrite E24 in Ex. injection Ex as <-. apply it_real_behaves.
      all: vm_compute; intuition congruence. }
    apply list_elem_of_singleton in Hx as ->. rewrite E16 in Ex. injection Ex as <-. apply it_real_behaves.
    all: vm_compute; intuition congruence.
  - intros b Hb. assert (b = 0 \/ b = 1) as [-> | ->] by (unfold is_base, MAX_HRTIMER_BASES in Hb; lia).
    + unfold CLOCK_REALTIME in E0. rewrite E0. simpl. lia.
    + unfold CLOCK_MONOTONIC in E1. rewrite E1. simpl. lia.
  - exists h', q'. rewrite E, E0, E1. assert (Hb1 : is_base CLOCK_MONOTONIC) by (split; vm_compute; congruence).
    specialize (X _ Hb1). unfold expiry_ok in X. rewrite E1 in X. destruct X as (X1 & _ & X3).
    split; [f_equal|]. split; [exact I|]. split_and!.
    + apply X1. split; [left|]. right. vm_compute. reflexivity.
    + intros Hx. apply X1 in Hx as [_ [Hx|Hx]]; vm_compute in Hx; congruence.
    + rewrite X3 by left. vm_compute. reflexivity.
Defined.
