(* ===== verification/Timer.v ===== *)
(** kernel/timer.c: the timer wheel, on a uniprocessor.

    The lists that start at a struct list_head are lists of the addresses of timers, in order; a
    timer is pending while its entry is in one of them.  The base has five vectors of such
    lists, and the list of the timers that the current tick runs (a local variable of
    __run_timers whose entries del_timer may take out).  Time is a counter of 32 bits.
    The functions of timers are an argument.  [None] is BUG(), a timer that does not exist, or the
    end of fuel. *)
From stdpp Require Import base list gmap numbers option.
From Stdlib Require Import ZArith Lia.
From S2P Require Import Prelude.

Local Open Scope Z_scope.

Definition TVN_BITS : Z := 6.
Definition TVR_BITS : Z := 8.
Definition TVN_SIZE : Z := Z.shiftl 1 TVN_BITS.
Definition TVR_SIZE : Z := Z.shiftl 1 TVR_BITS.
Definition TVN_MASK : Z := TVN_SIZE - 1.
Definition TVR_MASK : Z := TVR_SIZE - 1.

(** struct timer_list; its entry is linked when [pending]. *)
Record timer_list := TimerList { t_expires : Z; t_function : Z; pending : bool }.

Record tvec_base := TvecBase {
  timer_jiffies : Z;
  tv1 : list (list Z);
  tv2 : list (list Z);
  tv3 : list (list Z);
  tv4 : list (list Z);
  tv5 : list (list Z);
  work_list : list Z
}.

(** The timers, the base, and the counter of the clock ticks. *)
Record tm_state := Tm { tms : gmap Z timer_list; tm_base : tvec_base; jiffies : Z }.

Inductive level := TV1 | TV2 | TV3 | TV4 | TV5.

Definition get_tv (b : tvec_base) (k : level) : list (list Z) :=
  match k with TV1 => tv1 b | TV2 => tv2 b | TV3 => tv3 b | TV4 => tv4 b | TV5 => tv5 b end.

Definition set_tv (b : tvec_base) (k : level) (v : list (list Z)) : tvec_base :=
  match k with
  | TV1 => TvecBase (timer_jiffies b) v (tv2 b) (tv3 b) (tv4 b) (tv5 b) (work_list b)
  | TV2 => TvecBase (timer_jiffies b) (tv1 b) v (tv3 b) (tv4 b) (tv5 b) (work_list b)
  | TV3 => TvecBase (timer_jiffies b) (tv1 b) (tv2 b) v (tv4 b) (tv5 b) (work_list b)
  | TV4 => TvecBase (timer_jiffies b) (tv1 b) (tv2 b) (tv3 b) v (tv5 b) (work_list b)
  | TV5 => TvecBase (timer_jiffies b) (tv1 b) (tv2 b) (tv3 b) (tv4 b) v (work_list b)
  end.

Definition set_jiffies (b : tvec_base) (j : Z) : tvec_base :=
  TvecBase j (tv1 b) (tv2 b) (tv3 b) (tv4 b) (tv5 b) (work_list b).
Definition set_work (b : tvec_base) (w : list Z) : tvec_base :=
  TvecBase (timer_jiffies b) (tv1 b) (tv2 b) (tv3 b) (tv4 b) (tv5 b) w.

(** init_timers_cpu of the boot processor *)
Definition init_timers_cpu (ts : gmap Z timer_list) (now : Z) : tm_state :=
  let tvec := replicate (Z.to_nat TVN_SIZE) [] in
  Tm ts (TvecBase now (replicate (Z.to_nat TVR_SIZE) []) tvec tvec tvec tvec []) now.

(** ** Adding and removing *)

(** list_add_tail(&timer->entry, base->tvk.vec + i) *)
Definition add_tail (b : tvec_base) (k : level) (i x : Z) : option tvec_base :=
  l ← array_get (get_tv b k) i;
  v ← array_set (get_tv b k) i (l ++ [x]);
  Some (set_tv b k v).

Definition internal_add_timer (b : tvec_base) (x expires : Z) : option tvec_base :=
  let idx := u32 (expires - timer_jiffies b) in
  if idx <? TVR_SIZE then add_tail b TV1 (Z.land expires TVR_MASK) x
  else if idx <? Z.shiftl 1 (TVR_BITS + TVN_BITS) then
    add_tail b TV2 (Z.land (Z.shiftr expires TVR_BITS) TVN_MASK) x
  else if idx <? Z.shiftl 1 (TVR_BITS + 2 * TVN_BITS) then
    add_tail b TV3 (Z.land (Z.shiftr expires (TVR_BITS + TVN_BITS)) TVN_MASK) x
  else if idx <? Z.shiftl 1 (TVR_BITS + 3 * TVN_BITS) then
    add_tail b TV4 (Z.land (Z.shiftr expires (TVR_BITS + 2 * TVN_BITS)) TVN_MASK) x
  else if s32 idx <? 0 then add_tail b TV1 (Z.land (timer_jiffies b) TVR_MASK) x
  else
    let expires := if 4294967295 <? idx then u32 (4294967295 + timer_jiffies b) else expires in
    add_tail b TV5 (Z.land (Z.shiftr expires (TVR_BITS + 3 * TVN_BITS)) TVN_MASK) x.

(** __list_del of the entry, in whichever list it is. *)
Definition list_del (x : Z) (b : tvec_base) : tvec_base :=
  let del := fmap (filter (fun y => y <> x)) : list (list Z) -> list (list Z) in
  TvecBase (timer_jiffies b) (del (tv1 b)) (del (tv2 b)) (del (tv3 b)) (del (tv4 b)) (del (tv5 b))
    (filter (fun y => y <> x) (work_list b)).

Definition set_pending (p : bool) (t : timer_list) : timer_list := TimerList (t_expires t) (t_function t) p.

Definition detach_timer (s : tm_state) (x : Z) (clear_pending : bool) : option tm_state :=
  t ← tms s !! x;
  let t := if clear_pending then set_pending false t else t in
  Some (Tm (<[x := t]> (tms s)) (list_del x (tm_base s)) (jiffies s)).

(** setup_timer: the function is set and the entry is no longer linked. *)
Definition setup_timer (s : tm_state) (x function : Z) : tm_state :=
  Tm (<[x := TimerList (from_option t_expires 0 (tms s !! x)) function false]> (tms s)) (tm_base s) (jiffies s).

Definition __mod_timer (s : tm_state) (x expires : Z) : option (Z * tm_state) :=
  t ← tms s !! x;
  if t_function t =? 0 then None
  else
    '(ret, s) ← (if pending t then s ← detach_timer s x false; Some (1, s) else Some (0, s));
    b ← internal_add_timer (tm_base s) x expires;
    Some (ret, Tm (<[x := TimerList expires (t_function t) true]> (tms s)) b (jiffies s)).

Definition add_timer (s : tm_state) (x : Z) : option tm_state :=
  t ← tms s !! x;
  if pending t then None else '(_, s) ← __mod_timer s x (t_expires t); Some s.

Definition add_timer_on (s : tm_state) (x : Z) : option tm_state :=
  t ← tms s !! x;
  if pending t || (t_function t =? 0) then None
  else
    b ← internal_add_timer (tm_base s) x (t_expires t);
    Some (Tm (<[x := set_pending true t]> (tms s)) b (jiffies s)).

Definition mod_timer (s : tm_state) (x expires : Z) : option (Z * tm_state) :=
  t ← tms s !! x;
  if t_function t =? 0 then None
  else if (t_expires t =? expires) && pending t then Some (1, s)
  else __mod_timer s x expires.

Definition del_timer (s : tm_state) (x : Z) : option (Z * tm_state) :=
  t ← tms s !! x;
  if pending t then s ← detach_timer s x true; Some (1, s) else Some (0, s).

(** ** Ticks *)

(** The walk of cascade over the entries of a list. *)
Fixpoint cascade_loop (ts : gmap Z timer_list) (l : list Z) (b : tvec_base) : option tvec_base :=
  match l with
  | [] => Some b
  | x :: l => t ← ts !! x; b ← internal_add_timer b x (t_expires t); cascade_loop ts l b
  end.

(** The list of [index] is walked and then emptied; an entry that was added to it again would not be
    reached by this walk, and is an error. *)
Definition cascade (ts : gmap Z timer_list) (b : tvec_base) (k : level) (index : Z) : option (Z * tvec_base) :=
  l ← array_get (get_tv b k) index;
  b ← cascade_loop ts l b;
  l' ← array_get (get_tv b k) index;
  if decide (l' = l) then
    v ← array_set (get_tv b k) index [];
    Some (index, set_tv b k v)
  else None.

Definition INDEX (b : tvec_base) (N : Z) : Z :=
  Z.land (Z.shiftr (timer_jiffies b) (TVR_BITS + N * TVN_BITS)) TVN_MASK.

(** The condition of the if statement that cascades, evaluated from the left. *)
Definition cascades (ts : gmap Z timer_list) (b : tvec_base) (index : Z) : option tvec_base :=
  if negb (index =? 0) then Some b
  else
    '(i, b) ← cascade ts b TV2 (INDEX b 0);
    if negb (i =? 0) then Some b
    else
      '(i, b) ← cascade ts b TV3 (INDEX b 1);
      if negb (i =? 0) then Some b
      else
        '(i, b) ← cascade ts b TV4 (INDEX b 2);
        if negb (i =? 0) then Some b
        else '(_, b) ← cascade ts b TV5 (INDEX b 3); Some b.

(** A tick: the timers that are due move to the work list. *)
Definition wheel_tick (s : tm_state) : option tm_state :=
  let index := Z.land (timer_jiffies (tm_base s)) TVR_MASK in
  b ← cascades (tms s) (tm_base s) index;
  let b := set_jiffies b (u32 (timer_jiffies b + 1)) in
  l ← array_get (tv1 b) index;
  v ← array_set (tv1 b) index [];
  Some (Tm (tms s) (set_work (set_tv b TV1 v) l) (jiffies s)).

(** [call x s] is the function of the timer [x]. *)
Definition timer_fn := Z -> tm_state -> option tm_state.

(** A turn of the loop over the work list; [trace] gets the tick and the timer. *)
Definition work_body (call : timer_fn) (now : Z) (st : tm_state * list (Z * Z))
    : (tm_state * list (Z * Z)) + option (tm_state * list (Z * Z)) :=
  let '(s, trace) := st in
  match work_list (tm_base s) with
  | [] => inr (Some (s, trace))
  | x :: _ =>
      match (s ← detach_timer s x true; call x s) with
      | None => inr None
      | Some s => inl (s, trace ++ [(now, x)])
      end
  end.

Definition time_after_eq (a b : Z) : bool := 0 <=? s32 (a - b).

Definition timers_body (call : timer_fn) (st : tm_state * list (Z * Z))
    : (tm_state * list (Z * Z)) + option (tm_state * list (Z * Z)) :=
  let '(s, trace) := st in
  if time_after_eq (jiffies s) (timer_jiffies (tm_base s)) then
    match (s' ← wheel_tick s;
           mjoin (loop (S (length (work_list (tm_base s')))) (work_body call (timer_jiffies (tm_base s)))
             (s', trace))) with
    | None => inr None
    | Some st => inl st
    end
  else inr (Some (s, trace)).

(** The fuel bounds the ticks; the function of a timer may take time. *)
Definition __run_timers (fuel : nat) (call : timer_fn) (s : tm_state) : option (tm_state * list (Z * Z)) :=
  mjoin (loop fuel (timers_body call) (s, [])).

(** The part of run_timer_softirq that concerns the wheel. *)
Definition run_timer_softirq (fuel : nat) (call : timer_fn) (s : tm_state) : option (tm_state * list (Z * Z)) :=
  if time_after_eq (jiffies s) (timer_jiffies (tm_base s)) then __run_timers fuel call s else Some (s, []).
