(* ===== verification/TimerWheel.v ===== *)
(** The timer wheel against a queue of due ticks.

    Time is an unbounded tick [T] of which timer_jiffies holds the low 32 bits.  The abstract queue
    gives every pending timer the tick at which it is due.  A timer that is due at [D] is in some level
    [k], in the slot of [D] there; the block of ticks that the slot stands for begins at [start k D],
    which is not yet passed and less than a turn of the level ahead. *)
From stdpp Require Import base list gmap numbers option.
From Stdlib Require Import ZArith Lia.
From S2P Require Import Prelude Timer.

Local Open Scope Z_scope.

#[export] Instance level_eq_dec : EqDecision level.
Proof. solve_decision. Defined.

(** ** Slots and ticks *)

(** The ticks of a slot, and the slots, of a level. *)
Definition unit_of (k : level) : Z :=
  match k with TV1 => 1 | TV2 => 256 | TV3 => 16384 | TV4 => 1048576 | TV5 => 67108864 end.
Definition slots (k : level) : Z := match k with TV1 => 256 | _ => 64 end.

Definition start (k : level) (D : Z) : Z := D / unit_of k * unit_of k.
Definition slot (k : level) (D : Z) : nat := Z.to_nat ((D / unit_of k) mod slots k).

(** The tick at which a timer is due that is added at [T]: the one after the call if [e] has passed. *)
Definition due_at (T e : Z) : Z :=
  if u32 (e - T) <? 2 ^ 31 then T + u32 (e - T) else T.

Definition level_of (n : Z) : level :=
  if n <? 256 then TV1 else if n <? 16384 then TV2 else if n <? 1048576 then TV3
  else if n <? 67108864 then TV4 else TV5.

(** Case analysis of the first comparison of [n] in the goal. *)
Ltac case_ltb n := match goal with |- context [n <? ?c] => destruct (Z.ltb_spec n c) end.

Lemma slot_lt k D : (slot k D < Z.to_nat (slots k))%nat.
Proof. unfold slot. destruct k; simpl; div_lia. Qed.

Lemma due_at_range T e : T <= due_at T e < T + 2 ^ 31.
Proof.
  unfold due_at. pose proof (u32_range (e - T)) as H. unfold is_u32 in H.
  destruct (Z.ltb_spec (u32 (e - T)) (2 ^ 31)); lia.
Qed.

Lemma due_at_future T e : is_u32 e -> due_at T e <> T -> u32 (due_at T e) = e.
Proof.
  unfold due_at. intros He. destruct (_ <? _); [|done]. intros _.
  rewrite u32_add_r. replace (T + (e - T)) with e by lia. by apply u32_small.
Qed.

(** A tick of the future is found again from its low 32 bits. *)
Lemma due_at_u32 T D : T <= D < T + 2 ^ 31 -> due_at T (u32 D) = D.
Proof.
  intros H. unfold due_at. rewrite u32_sub_l, u32_small by width_lia.
  destruct (Z.ltb_spec (D - T) (2 ^ 31)); lia.
Qed.

Lemma level_of_cases n : 0 <= n < 2 ^ 31 ->
  n < unit_of (level_of n) * slots (level_of n) /\ (level_of n = TV1 \/ unit_of (level_of n) <= n).
Proof.
  intros H. unfold level_of. repeat case_ltb n; simpl; (split; [lia|]); first [by left|right; lia].
Qed.

Lemma land_mask n m : Z.land m (Z.shiftl 1 n - 1) = m mod 2 ^ n \/ n < 0.
Proof.
  destruct (Z.ltb_spec n 0); [by right|left]. rewrite Z.shiftl_1_l, Z.sub_1_r.
  rewrite <- Z.ones_equiv. by apply Z.land_ones.
Qed.

(** The index that the code computes from the low 32 bits of a tick. *)
Lemma index_slot k D : Z.land (Z.shiftr (u32 D) (Z.log2 (unit_of k))) (slots k - 1) = Z.of_nat (slot k D).
Proof.
  unfold slot. rewrite Z2Nat.id by (destruct k; simpl; div_lia).
  rewrite Z.shiftr_div_pow2 by apply Z.log2_nonneg.
  destruct k; cbn [unit_of slots Z.log2 Pos.size];
    [destruct (land_mask 8 (u32 D / 2 ^ 0)) as [E|E]|destruct (land_mask 6 (u32 D / 2 ^ 8)) as [E|E]
    |destruct (land_mask 6 (u32 D / 2 ^ 14)) as [E|E]|destruct (land_mask 6 (u32 D / 2 ^ 20)) as [E|E]
    |destruct (land_mask 6 (u32 D / 2 ^ 26)) as [E|E]]; try lia;
  (etransitivity; [exact E|]); unfold u32, U32_MOD; div_lia.
Qed.

(** ** The lists of the base *)

(** [c k i] is the list of the slot [i] of the level [k]. *)
Definition reps (b : tvec_base) (c : level -> nat -> list Z) : Prop :=
  forall k, length (get_tv b k) = Z.to_nat (slots k) /\
    forall i, (i < Z.to_nat (slots k))%nat -> get_tv b k !! i = Some (c k i).

Definition upd (c : level -> nat -> list Z) (k : level) (i : nat) (l : list Z) : level -> nat -> list Z :=
  fun k' i' => if decide (k' = k /\ i' = i) then l else c k' i'.

Lemma upd_eq c k i l : upd c k i l k i = l.
Proof. unfold upd. by rewrite decide_True. Qed.
Lemma upd_ne c k i l k' i' : ~ (k' = k /\ i' = i) -> upd c k i l k' i' = c k' i'.
Proof. intros H. unfold upd. by rewrite decide_False. Qed.

Lemma reps_ext b c c' : (forall k i, (i < Z.to_nat (slots k))%nat -> c k i = c' k i) -> reps b c -> reps b c'.
Proof.
  intros E H k. destruct (H k) as [L G]. split; [done|]. intros i Hi. rewrite <- E by done. by apply G.
Qed.

Lemma get_set_tv b k k' v : get_tv (set_tv b k v) k' = if decide (k' = k) then v else get_tv b k'.
Proof. by destruct k, k'. Qed.
Lemma set_tv_jiffies b k v : timer_jiffies (set_tv b k v) = timer_jiffies b.
Proof. by destruct k. Qed.
Lemma set_tv_work b k v : work_list (set_tv b k v) = work_list b.
Proof. by destruct k. Qed.

Lemma reps_get b c k i : reps b c -> (i < Z.to_nat (slots k))%nat ->
  array_get (get_tv b k) (Z.of_nat i) = Some (c k i).
Proof.
  intros H Hi. unfold array_get. rewrite bool_decide_true by lia. rewrite Nat2Z.id. by apply H.
Qed.

Lemma reps_set b c k i l : reps b c -> (i < Z.to_nat (slots k))%nat ->
  exists v, array_set (get_tv b k) (Z.of_nat i) l = Some v /\ reps (set_tv b k v) (upd c k i l).
Proof.
  intros H Hi. destruct (H k) as [L G]. unfold array_set. rewrite bool_decide_true by lia.
  eexists. split; [done|]. intros k'. rewrite get_set_tv. destruct (decide (k' = k)) as [->|Hk].
  - rewrite length_insert. split; [done|]. intros i' Hi'. rewrite Nat2Z.id.
    destruct (decide (i' = i)) as [->|Hne].
    + rewrite upd_eq. by apply list_lookup_insert_eq; rewrite L.
    + rewrite upd_ne by naive_solver. rewrite list_lookup_insert_ne by done. by apply G.
  - destruct (H k') as [L' G']. split; [done|]. intros i' Hi'. rewrite upd_ne by naive_solver. by apply G'.
Qed.

Definition same_rest (b b' : tvec_base) : Prop :=
  timer_jiffies b' = timer_jiffies b /\ work_list b' = work_list b.

Lemma add_tail_spec b c k i x : reps b c -> (i < Z.to_nat (slots k))%nat ->
  exists b', add_tail b k (Z.of_nat i) x = Some b' /\ reps b' (upd c k i (c k i ++ [x])) /\ same_rest b b'.
Proof.
  intros H Hi. unfold add_tail. rewrite (reps_get b c k i H Hi). cbn [mbind option_bind].
  destruct (reps_set b c k i (c k i ++ [x]) H Hi) as (v & -> & Hv). cbn [mbind option_bind].
  eexists. split; [done|]. split; [done|]. split; [apply set_tv_jiffies|apply set_tv_work].
Qed.

(** internal_add_timer puts a timer where its due tick belongs. *)
Lemma internal_add_spec b c T x e : reps b c -> timer_jiffies b = u32 T -> is_u32 e ->
  let D := due_at T e in let k := level_of (D - T) in let i := slot k D in
  exists b', internal_add_timer b x e = Some b' /\ reps b' (upd c k i (c k i ++ [x])) /\ same_rest b b'.
Proof.
  intros H HT He D k i. pose proof (due_at_range T e) as HD. fold D in HD.
  assert (Hi : (i < Z.to_nat (slots k))%nat) by apply slot_lt.
  destruct (add_tail_spec b c k i x H Hi) as (b' & E & Hb'). exists b'. split; [|done].
  unfold i in E. rewrite <- index_slot in E. rewrite <- E. unfold internal_add_timer. rewrite HT, u32_sub_r.
  change TVR_SIZE with 256. change TVR_MASK with 255. change TVN_MASK with 63. unfold TVR_BITS, TVN_BITS.
  change (Z.shiftl 1 (8 + 6)) with 16384. change (Z.shiftl 1 (8 + 2 * 6)) with 1048576.
  change (Z.shiftl 1 (8 + 3 * 6)) with 67108864.
  unfold k, D in *. clear E Hb' Hi b' i k D. unfold due_at in *.
  pose proof (u32_range (e - T)) as Hr. set (idx := u32 (e - T)) in *.
  destruct (Z.ltb_spec idx (2 ^ 31)) as [Hf|Hp].
  - assert (Es : u32 (T + idx) = e).
    { unfold idx. rewrite u32_add_r. replace (T + (e - T)) with e by lia. by apply u32_small. }
    replace (T + idx - T) with idx by lia. unfold level_of. rewrite Es.
    repeat (case_ltb idx; [done|]). 
    rewrite s32_small by width_lia. rewrite (proj2 (Z.ltb_ge idx 0)) by lia.
    by rewrite (proj2 (Z.ltb_ge 4294967295 idx)) by width_lia.
  - rewrite (proj2 (Z.ltb_ge idx _)) by lia.
    do 3 rewrite (proj2 (Z.ltb_ge idx _)) by lia.
    assert (Hs : s32 idx < 0).
    { clear - Hp Hr. unfold s32. replace (idx + 2 ^ 31) with (idx - 2 ^ 31 + 1 * U32_MOD) by width_lia.
      rewrite Z.mod_add by done. rewrite Z.mod_small by width_lia. width_lia. }
    rewrite (proj2 (Z.ltb_lt (s32 idx) 0)) by done. replace (T - T) with 0 by lia. done.
Qed.

Lemma list_del_reps b c x : reps b c -> reps (list_del x b) (fun k i => filter (fun y => y <> x) (c k i)).
Proof.
  intros H k. destruct (H k) as [L G].
  assert (E : get_tv (list_del x b) k = filter (fun y => y <> x) <$> get_tv b k) by (by destruct k).
  rewrite E, length_fmap. split; [done|]. intros i Hi. rewrite list_lookup_fmap, G by done. done.
Qed.

(** ** The invariant *)

Definition armed (t : timer_list) : Prop := pending t = true /\ t_function t <> 0.

Definition without (x : Z) (c : level -> nat -> list Z) : level -> nat -> list Z :=
  fun k i => filter (fun y => y <> x) (c k i).
Definition move (loc : Z -> option level) (x : Z) (p : option level) : Z -> option level :=
  fun y => if decide (y = x) then p else loc y.

(** [due] are the due ticks of the pending timers, [loc] their levels ([None] is the work list, whose
    timers were due at the last tick), [lo k] is where the passed ticks of a level end. *)
Record wheel_inv (lo : level -> Z) (T : Z) (ts : gmap Z timer_list) (due : gmap Z Z)
    (loc : Z -> option level) (c : level -> nat -> list Z) (w : list Z) : Prop := WheelInv {
  wi_nodup : forall k i, (i < Z.to_nat (slots k))%nat -> NoDup (c k i);
  wi_slot : forall k i x, (i < Z.to_nat (slots k))%nat ->
    x ∈ c k i <-> exists D, due !! x = Some D /\ loc x = Some k /\ i = slot k D;
  wi_work_nodup : NoDup w;
  wi_work : forall x, x ∈ w <-> is_Some (due !! x) /\ loc x = None;
  wi_due : forall x D, due !! x = Some D -> exists t, ts !! x = Some t /\ armed t /\
    match loc x with
    | Some k => lo k <= start k D < T + unit_of k * slots k /\ (k <> TV1 -> t_expires t = u32 D)
    | None => D = T - 1
    end;
  wi_idle : forall x t, ts !! x = Some t -> due !! x = None -> pending t = false;
  wi_expires : forall x t, ts !! x = Some t -> is_u32 (t_expires t)
}.

Section Inv.
Context (lo : level -> Z) (T : Z).

Lemma inv_ext ts due loc c c' w : (forall k i, (i < Z.to_nat (slots k))%nat -> c k i = c' k i) ->
  wheel_inv lo T ts due loc c w -> wheel_inv lo T ts due loc c' w.
Proof.
  intros E [I1 I2 I3 I4 I5 I6 I7]. split; try done.
  - intros k i Hi. rewrite <- E by done. by apply I1.
  - intros k i x Hi. rewrite <- E by done. by apply I2.
Qed.

(** A timer that is taken out; its record may change. *)
Lemma inv_remove ts due loc c w x t : wheel_inv lo T ts due loc c w ->
  pending t = false -> is_u32 (t_expires t) ->
  wheel_inv lo T (<[x := t]> ts) (delete x due) loc (without x c) (filter (fun y => y <> x) w).
Proof.
  intros [I1 I2 I3 I4 I5 I6 I7] Hp He. split.
  - intros k i Hi. unfold without. apply list.NoDup_filter. by apply I1.
  - intros k i y Hi. unfold without. rewrite list_elem_of_filter, I2 by done.
    split; [intros (Hne & D & E & ?)|intros (D & E & ?)].
    + exists D. by rewrite lookup_delete_ne.
    + apply lookup_delete_Some in E as [Hne E]. naive_solver.
  - by apply list.NoDup_filter.
  - intros y. rewrite list_elem_of_filter, I4. split.
    + intros (Hne & H & ?). by rewrite lookup_delete_ne.
    + intros ([D E] & ?). apply lookup_delete_Some in E as [Hne E]. naive_solver.
  - intros y D E. apply lookup_delete_Some in E as [Hne E]. destruct (I5 y D E) as (t' & Et & H).
    exists t'. by rewrite lookup_insert_ne.
  - intros y t'. destruct (Z.eq_dec y x) as [->|Hne]; [rewrite lookup_insert_eq; naive_solver|].
    rewrite lookup_insert_ne, lookup_delete_ne by done. apply I6.
  - intros y t'. destruct (Z.eq_dec y x) as [->|Hne]; [rewrite lookup_insert_eq; naive_solver|].
    rewrite lookup_insert_ne by done. apply I7.
Qed.

(** A timer that is put into the slot of its due tick. *)
Lemma inv_add ts due loc c w x t D k : wheel_inv lo T ts due loc c w -> due !! x = None ->
  armed t -> is_u32 (t_expires t) ->
  lo k <= start k D < T + unit_of k * slots k -> (k <> TV1 -> t_expires t = u32 D) ->
  wheel_inv lo T (<[x := t]> ts) (<[x := D]> due) (move loc x (Some k))
    (upd c k (slot k D) (c k (slot k D) ++ [x])) w.
Proof.
  intros [I1 I2 I3 I4 I5 I6 I7] Hx Ht He Hs Hk.
  assert (Hin : forall k i, (i < Z.to_nat (slots k))%nat -> x ∉ c k i).
  { intros k' i Hi H. apply I2 in H as (D' & E & _); [congruence|done]. }
  split.
  - intros k' i Hi. unfold upd. case_decide as E; [|by apply I1]. destruct E as [-> ->].
    apply list.NoDup_app. split_and!; [apply I1, slot_lt| |apply NoDup_singleton].
    intros y Hy ->%list_elem_of_singleton. by eapply Hin.
  - intros k' i y Hi. unfold move. destruct (decide (y = x)) as [->|Hne].
    + rewrite lookup_insert_eq. unfold upd. case_decide as E.
      * destruct E as [-> ->]. split; [intros _; by exists D|]. intros _. apply elem_of_app. right. by left.
      * split; [intros H; by apply Hin in H|]. intros (D' & [= <-] & [= ->] & ->). by destruct E.
    + rewrite lookup_insert_ne by done. rewrite <- I2 by done. unfold upd. case_decide as E; [|done].
      destruct E as [-> ->]. rewrite elem_of_app, list_elem_of_singleton. naive_solver.
  - done.
  - intros y. rewrite I4. unfold move. destruct (decide (y = x)) as [->|Hne].
    + rewrite Hx. split; [by intros [[? [=]] _]|by intros [_ [=]]].
    + by rewrite lookup_insert_ne.
  - intros y D'. unfold move. destruct (decide (y = x)) as [->|Hne].
    + rewrite !lookup_insert_eq. intros [= <-]. by exists t.
    + rewrite !lookup_insert_ne by done. apply I5.
  - intros y t'. destruct (Z.eq_dec y x) as [->|Hne]; [by rewrite !lookup_insert_eq|].
    rewrite !lookup_insert_ne by done. apply I6.
  - intros y t'. destruct (Z.eq_dec y x) as [->|Hne]; [rewrite lookup_insert_eq; naive_solver|].
    rewrite lookup_insert_ne by done. apply I7.
Qed.

(** An idle timer whose record changes. *)
Lemma inv_idle_record ts due loc c w x t : wheel_inv lo T ts due loc c w -> due !! x = None ->
  pending t = false -> is_u32 (t_expires t) -> wheel_inv lo T (<[x := t]> ts) due loc c w.
Proof.
  intros [I1 I2 I3 I4 I5 I6 I7] Hx Hp He. split; try done.
  - intros y D E. assert (Hne : y <> x) by congruence. destruct (I5 y D E) as (t' & Et & H). exists t'.
    by rewrite lookup_insert_ne.
  - intros y t'. destruct (Z.eq_dec y x) as [->|Hne]; [rewrite lookup_insert_eq; naive_solver|].
    rewrite lookup_insert_ne by done. apply I6.
  - intros y t'. destruct (Z.eq_dec y x) as [->|Hne]; [rewrite lookup_insert_eq; naive_solver|].
    rewrite lookup_insert_ne by done. apply I7.
Qed.
End Inv.

(** The place that internal_add_timer chooses is a place of the due tick. *)
Lemma add_place lo T e : (forall k, lo k <= T + (if decide (k = TV1) then 0 else 1)) -> is_u32 e ->
  let D := due_at T e in let k := level_of (D - T) in
  lo k <= start k D < T + unit_of k * slots k /\ (k <> TV1 -> e = u32 D).
Proof.
  intros Hlo He D k. pose proof (due_at_range T e) as HD. fold D in HD.
  destruct (level_of_cases (D - T) ltac:(lia)) as [H1 H2]. fold k in H1, H2. specialize (Hlo k).
  assert (Hs : D - unit_of k < start k D <= D) by (unfold start; destruct k; simpl; div_lia).
  split; [|intros Hk; symmetry; apply due_at_future; [done|fold D]].
  - destruct (decide (k = TV1)) as [->|Hk]; [simpl in *; lia|]. destruct H2 as [H2|H2]; [done|]. lia.
  - intros E. destruct H2 as [H2|H2]; [done|]. rewrite E in H2. destruct k; simpl in *; lia.
Qed.

(** ** The wheel between calls *)

Definition wheel (s : tm_state) (T : Z) (due : gmap Z Z) : Prop :=
  exists loc c, reps (tm_base s) c /\ timer_jiffies (tm_base s) = u32 T /\
    wheel_inv (fun _ => T) T (tms s) due loc c (work_list (tm_base s)).

(** What no call changes: the clock, and that no timer joins those of the running tick. *)
Definition calm (s s' : tm_state) : Prop :=
  jiffies s' = jiffies s /\ timer_jiffies (tm_base s') = timer_jiffies (tm_base s) /\
  (length (work_list (tm_base s')) <= length (work_list (tm_base s)))%nat.

Lemma calm_refl s : calm s s.
Proof. by split_and!. Qed.
Lemma calm_trans s1 s2 s3 : calm s1 s2 -> calm s2 s3 -> calm s1 s3.
Proof. intros (? & ? & ?) (? & ? & ?). split_and!; [congruence..|lia]. Qed.
#[local] Hint Resolve calm_refl : core.

Lemma wheel_pending s T due x t : wheel s T due -> tms s !! x = Some t ->
  pending t = bool_decide (is_Some (due !! x)).
Proof.
  intros (loc & c & _ & _ & [_ _ _ _ I5 I6 _]) E. case_bool_decide as H.
  - destruct H as [D HD]. destruct (I5 x D HD) as (t' & E' & [Hp _] & _). by simplify_eq.
  - apply (I6 x t E). by apply eq_None_not_Some.
Qed.

Lemma wheel_expires s T due x t : wheel s T due -> tms s !! x = Some t -> is_u32 (t_expires t).
Proof. intros (loc & c & _ & _ & W). by apply (wi_expires _ _ _ _ _ _ _ W). Qed.

(** internal_add_timer on an idle timer *)
Lemma arm_spec lo T ts due loc c b x t : reps b c -> timer_jiffies b = u32 T ->
  wheel_inv lo T ts due loc c (work_list b) -> due !! x = None -> armed t -> is_u32 (t_expires t) ->
  (forall k, lo k <= T + (if decide (k = TV1) then 0 else 1)) ->
  let D := due_at T (t_expires t) in let k := level_of (D - T) in let i := slot k D in
  exists b', internal_add_timer b x (t_expires t) = Some b' /\ same_rest b b' /\
    reps b' (upd c k i (c k i ++ [x])) /\
    wheel_inv lo T (<[x := t]> ts) (<[x := D]> due) (move loc x (Some k))
      (upd c k i (c k i ++ [x])) (work_list b').
Proof.
  intros Hr HT W Hx Ht He Hlo D k i. destruct (internal_add_spec b c T x (t_expires t) Hr HT He) as (b' & E & R & S).
  destruct (add_place lo T (t_expires t) Hlo He) as [P1 P2]. exists b'. split_and!; [done|done|done|].
  destruct S as [_ ->]. by apply inv_add.
Qed.

Lemma detach_spec s T due x t : wheel s T due -> tms s !! x = Some t ->
  exists s', detach_timer s x true = Some s' /\ wheel s' T (delete x due) /\
    tms s' = <[x := set_pending false t]> (tms s) /\ calm s s' /\
    work_list (tm_base s') = filter (fun y => y <> x) (work_list (tm_base s)).
Proof.
  intros H E. pose proof (wheel_expires s T due x t H E) as He. destruct H as (loc & c & R & HT & W).
  unfold detach_timer. rewrite E. cbn [mbind option_bind]. eexists. split; [done|]. split_and!; try done.
  - exists loc, (without x c). split_and!; [by apply list_del_reps|done|]. by apply inv_remove.
  - split_and!; [done|done|]. apply length_filter.
Qed.

Lemma mod_spec s T due x t e : wheel s T due -> tms s !! x = Some t -> t_function t <> 0 -> is_u32 e ->
  exists s', __mod_timer s x e = Some (if pending t then 1 else 0, s') /\
    wheel s' T (<[x := due_at T e]> due) /\ tms s' = <[x := TimerList e (t_function t) true]> (tms s) /\ calm s s'.
Proof.
  intros H E Hf He. pose proof (wheel_pending s T due x t H E) as Hp.
  pose proof (wheel_expires s T due x t H E) as Hx. destruct H as (loc & c & R & HT & W).
  unfold __mod_timer. rewrite E. cbn [mbind option_bind]. rewrite (proj2 (Z.eqb_neq _ _)) by done.
  assert (Hlo : forall k, (fun _ : level => T) k <= T + (if decide (k = TV1) then 0 else 1)).
  { intros k. simpl. case_decide; lia. }
  set (t' := TimerList e (t_function t) true). destruct (pending t).
  - unfold detach_timer. rewrite E. cbn [mbind option_bind]. simpl tm_base.
    destruct (arm_spec _ T _ _ loc (without x c) (list_del x (tm_base s)) x t'
      (list_del_reps _ _ x R) HT (inv_remove _ _ _ _ _ _ _ x (set_pending false t) W eq_refl Hx))
      as (b' & E' & [S1 S2] & R' & W'); [by rewrite lookup_delete_eq|done|done|done|].
    simpl t_expires in *. rewrite E'. cbn [mbind option_bind]. eexists. split; [done|].
    rewrite insert_insert_eq, insert_delete_eq in W'. split_and!; [|simpl; by rewrite insert_insert_eq|].
    + eexists _, _. split_and!; [exact R'|simpl; by rewrite S1|]. simpl. rewrite insert_insert_eq. exact W'.
    + split_and!; [done|done|]. simpl. rewrite S2. apply length_filter.
  - cbn [mbind option_bind]. symmetry in Hp. apply bool_decide_eq_false in Hp.
    destruct (arm_spec _ T _ _ loc c (tm_base s) x t' R HT W) as (b' & E' & [S1 S2] & R' & W');
      [by apply eq_None_not_Some|done|done|done|].
    simpl t_expires in *. rewrite E'. cbn [mbind option_bind]. eexists. split; [done|]. split_and!; [|done|].
    + eexists _, _. split_and!; [exact R'|simpl; by rewrite S1|exact W'].
    + split_and!; [done|done|]. simpl. by rewrite S2.
Qed.

(** ** The calls against the queue of due ticks *)

Inductive timer_call :=
| CSetup (x function expires : Z)
| CAdd (x : Z)
| CAddOn (x : Z)
| CMod (x expires : Z)
| CDel (x : Z).

(** setup_timer, after which the caller sets the field expires *)
Definition setup_expires (s : tm_state) (x function expires : Z) : tm_state :=
  let s := setup_timer s x function in
  Tm (<[x := TimerList expires function false]> (tms s)) (tm_base s) (jiffies s).

Definition run_tcall (s : tm_state) (c : timer_call) : option (Z * tm_state) :=
  match c with
  | CSetup x f e => Some (0, setup_expires s x f e)
  | CAdd x => s ← add_timer s x; Some (0, s)
  | CAddOn x => s ← add_timer_on s x; Some (0, s)
  | CMod x e => mod_timer s x e
  | CDel x => del_timer s x
  end.

(** A call names a timer that was set up, and a timer is not set up while it is pending. *)
Definition tcall_ok (ts : gmap Z timer_list) (c : timer_call) : Prop :=
  match c with
  | CSetup x _ e => is_u32 e /\ forall t, ts !! x = Some t -> pending t = false
  | CMod x e => is_u32 e /\ is_Some (ts !! x)
  | CAdd x | CAddOn x | CDel x => is_Some (ts !! x)
  end.

(** The state of the queue: the fields of the timers, which their owners set, and the due ticks. *)
Definition tqueue : Type := gmap Z timer_list * gmap Z Z.

(** The queue after a call at the tick [T], and the value returned; [None] is a BUG_ON that holds. *)
Definition spec_tcall (T : Z) (q : tqueue) (c : timer_call) : option (Z * tqueue) :=
  let '(ts, due) := q in
  let arm x t e := (<[x := TimerList e (t_function t) true]> ts, <[x := due_at T e]> due) in
  match c with
  | CSetup x f e => Some (0, (<[x := TimerList e f false]> ts, due))
  | CAdd x | CAddOn x =>
      t ← ts !! x;
      if bool_decide (is_Some (due !! x) \/ t_function t = 0) then None else Some (0, arm x t (t_expires t))
  | CMod x e =>
      t ← ts !! x;
      if bool_decide (t_function t = 0) then None
      else if bool_decide (is_Some (due !! x) /\ t_expires t = e) then Some (1, q)
      else Some (if bool_decide (is_Some (due !! x)) then 1 else 0, arm x t e)
  | CDel x =>
      t ← ts !! x;
      Some (if bool_decide (is_Some (due !! x)) then 1 else 0,
        if bool_decide (is_Some (due !! x)) then (<[x := set_pending false t]> ts, delete x due) else q)
  end.

Definition refines (s : tm_state) (T : Z) (q : tqueue) : Prop := tms s = q.1 /\ wheel s T q.2.

(** What a call does agrees with what it does to the queue. *)
Definition agrees (s : tm_state) (T : Z) (r : option (Z * tm_state)) (a : option (Z * tqueue)) : Prop :=
  match a with
  | None => r = None
  | Some (v, q) => exists s', r = Some (v, s') /\ refines s' T q /\ calm s s'
  end.

Lemma add_timer_on_spec s T due x t : wheel s T due -> tms s !! x = Some t -> pending t = false ->
  t_function t <> 0 -> exists s', add_timer_on s x = Some s' /\
    wheel s' T (<[x := due_at T (t_expires t)]> due) /\ tms s' = <[x := set_pending true t]> (tms s) /\ calm s s'.
Proof.
  intros H E Hp Hf. pose proof (wheel_expires s T due x t H E) as He.
  pose proof (wheel_pending s T due x t H E) as Hx. rewrite Hp in Hx. symmetry in Hx.
  apply bool_decide_eq_false in Hx. destruct H as (loc & c & R & HT & W). unfold add_timer_on. rewrite E.
  cbn [mbind option_bind]. rewrite Hp, (proj2 (Z.eqb_neq _ _)) by done. simpl orb. cbv iota.
  destruct (arm_spec (fun _ => T) T _ _ loc c (tm_base s) x (set_pending true t) R HT W)
    as (b' & E' & [S1 S2] & R' & W'); [by apply eq_None_not_Some|done|done| |].
  { intros k. case_decide; lia. }
  simpl t_expires in *. rewrite E'. cbn [mbind option_bind]. eexists. split; [done|]. split_and!; [|done|].
  - eexists _, _. split_and!; [exact R'|simpl; by rewrite S1|exact W'].
  - split_and!; [done|done|]. simpl. by rewrite S2.
Qed.

Lemma del_spec s T due x t : wheel s T due -> tms s !! x = Some t ->
  agrees s T (del_timer s x) (spec_tcall T (tms s, due) (CDel x)).
Proof.
  intros H E. simpl. rewrite E. cbn [mbind option_bind]. unfold del_timer. rewrite E. cbn [mbind option_bind].
  rewrite (wheel_pending s T due x t H E). case_bool_decide as Hx; [|by exists s].
  destruct (detach_spec s T due x t H E) as (s' & -> & W & Et & C & _). exists s'. by split_and!.
Qed.

(** The calls implement the queue. *)
Lemma tcall_spec s T q c : refines s T q -> tcall_ok (tms s) c ->
  agrees s T (run_tcall s c) (spec_tcall T q c).
Proof.
  destruct q as [ts due]. intros [Ets H] Hok. simpl in Ets, H. subst ts. destruct c as [x f e|x|x|x e|x]; simpl in Hok |- *.
  - destruct Hok as [He Hp]. eexists. split; [done|]. split; [|done].
    split; [simpl; by rewrite insert_insert_eq|]. destruct H as (loc & c & R & HT & W). exists loc, c.
    split_and!; [done|done|]. simpl. rewrite insert_insert_eq. apply inv_idle_record; try done.
    destruct (due !! x) as [D|] eqn:ED; [|done]. destruct (wi_due _ _ _ _ _ _ _ W x D ED) as (t & E & [Ht _] & _).
    rewrite (Hp t E) in Ht. done.
  - destruct Hok as [t E]. unfold add_timer. rewrite E. cbn [mbind option_bind].
    rewrite (wheel_pending s T due x t H E).
    case_bool_decide as Hb; [rewrite bool_decide_true by (by left); done|]. case_bool_decide as Hf.
    + destruct Hf as [Hf|Hf]; [done|]. unfold __mod_timer. rewrite E. cbn [mbind option_bind]. by rewrite Hf.
    + destruct (mod_spec s T due x t (t_expires t) H E) as (s' & -> & W & Et & C);
        [naive_solver|by eapply wheel_expires|]. cbn [mbind option_bind]. by exists s'.
  - destruct Hok as [t E]. rewrite E. cbn [mbind option_bind].
    case_bool_decide as Hf; pose proof (wheel_pending s T due x t H E) as Hp.
    + unfold add_timer_on. rewrite E. cbn [mbind option_bind]. rewrite Hp. destruct Hf as [Hf| ->].
      * by rewrite bool_decide_true.
      * by rewrite Z.eqb_refl, orb_true_r.
    + destruct (add_timer_on_spec s T due x t H E) as (s' & -> & W & Et & C); [|naive_solver|].
      { rewrite Hp. apply bool_decide_eq_false. naive_solver. }
      cbn [mbind option_bind]. by exists s'.
  - destruct Hok as [He [t E]]. unfold mod_timer. rewrite E. cbn [mbind option_bind].
    case_bool_decide as Hf; [by rewrite Hf|]. rewrite (proj2 (Z.eqb_neq _ _)) by done.
    rewrite (wheel_pending s T due x t H E). destruct (decide (is_Some (due !! x) /\ t_expires t = e)) as [Hx|Hx];
      [rewrite (bool_decide_true (_ /\ _)) by done|rewrite (bool_decide_false (_ /\ _)) by done].
    + destruct Hx as [Hx <-]. rewrite Z.eqb_refl, bool_decide_true by done. simpl. by exists s.
    + assert (Eb : (t_expires t =? e) && bool_decide (is_Some (due !! x)) = false).
      { destruct (Z.eqb_spec (t_expires t) e); [|done]. simpl. apply bool_decide_eq_false. naive_solver. }
      rewrite Eb. destruct (mod_spec s T due x t e H E Hf He) as (s' & E' & W & Et & C). exists s'.
      rewrite E', (wheel_pending s T due x t H E). by split_and!.
  - destruct Hok as [t E]. by apply (del_spec s T due x t).
Qed.
