(* ===== verification/TimerRun.v ===== *)
(** The ticks of the timer wheel: cascade, __run_timers and run_timer_softirq call the function of a
    timer at the tick at which it is due, whatever calls the functions make. *)
From stdpp Require Import base list gmap numbers option sorting.
From Stdlib Require Import ZArith Lia.
From S2P Require Import Prelude Timer TimerWheel.

Local Open Scope Z_scope.

(** ** Blocks of ticks *)

Lemma start_le k D : start k D <= D < start k D + unit_of k.
Proof. unfold start. destruct k; simpl; div_lia. Qed.

(** The slot of the present, at the begin of a block, stands for this block. *)
Lemma slot_now k T D : T mod unit_of k = 0 -> T <= start k D < T + unit_of k * slots k ->
  slot k D = slot k T <-> start k D = T.
Proof.
  unfold start, slot. intros Ha Hs.
  assert (E : T = T / unit_of k * unit_of k) by (destruct k; simpl in *; div_lia). split.
  - intros H. apply (f_equal Z.of_nat) in H. rewrite !Z2Nat.id in H by (destruct k; simpl; div_lia).
    destruct k; simpl in *; div_lia.
  - intros H. do 2 f_equal. destruct k; simpl in *; div_lia.
Qed.

Lemma start_late k T D : T mod unit_of k <> 0 -> T <= start k D -> T + 1 <= start k D.
Proof. unfold start. destruct k; simpl; div_lia. Qed.

(** The levels in [ks] have no timer whose block begins now. *)
Definition raised (T : Z) (ks : list level) (k : level) : Z := if decide (k ∈ ks) then T + 1 else T.

Lemma raised_bound T ks : TV1 ∉ ks -> forall k, raised T ks k <= T + (if decide (k = TV1) then 0 else 1).
Proof. intros H k. unfold raised. repeat case_decide; subst; [done|lia..]. Qed.

Lemma inv_lower lo lo' T ts due loc c w : (forall k, lo' k <= lo k) ->
  wheel_inv lo T ts due loc c w -> wheel_inv lo' T ts due loc c w.
Proof.
  intros Hlo [I1 I2 I3 I4 I5 I6 I7]. split; try done. intros x D E. destruct (I5 x D E) as (t & Et & Ht & Hl).
  exists t. split_and!; [done|done|]. destruct (loc x) as [k|]; [|done]. specialize (Hlo k). destruct Hl.
  split; [lia|done].
Qed.

Lemma inv_raise T ts due loc c w ks ks' : wheel_inv (raised T ks) T ts due loc c w ->
  (forall k, k ∈ ks' -> k ∉ ks -> forall x D, due !! x = Some D -> loc x = Some k -> T + 1 <= start k D) ->
  wheel_inv (raised T ks') T ts due loc c w.
Proof.
  intros [I1 I2 I3 I4 I5 I6 I7] H. split; try done. intros x D E. destruct (I5 x D E) as (t & Et & Ht & Hl).
  exists t. split_and!; [done|done|]. destruct (loc x) as [k|] eqn:El; [|done]. destruct Hl as [Hl He].
  split; [|done]. assert (Hle : T <= raised T ks k) by (unfold raised; case_decide; lia).
  unfold raised at 1. case_decide as Hk; [|lia]. destruct (decide (k ∈ ks)) as [Hin|Hin].
  - unfold raised in Hl. rewrite decide_True in Hl by done. lia.
  - split; [by apply (H k Hk Hin x D)|lia].
Qed.

(** ** Cascading a slot *)

Section Cascade.
Context (T : Z) (ts : gmap Z timer_list) (due : gmap Z Z) (ks : list level) (k : level).
Context (Hks : TV1 ∉ ks) (Hk1 : k <> TV1) (Hk : k ∉ ks) (Ha : T mod unit_of k = 0).

Lemma filter_head (x : Z) l : NoDup (x :: l) -> filter (fun y => y <> x) (x :: l) = l.
Proof.
  intros [Hx _]%NoDup_cons. rewrite filter_cons_False by naive_solver.
  by apply filter_absent.
Qed.

(** A timer of the slot is due in the block, and goes to a lower level. *)
Lemma cascade_place loc c w x : wheel_inv (raised T ks) T ts due loc c w -> x ∈ c k (slot k T) ->
  exists t D, ts !! x = Some t /\ due !! x = Some D /\ loc x = Some k /\ armed t /\
    due_at T (t_expires t) = D /\ level_of (D - T) <> k.
Proof.
  intros [_ I2 _ _ I5 _ _] Hx. apply I2 in Hx as (D & ED & El & Es); [|apply slot_lt].
  destruct (I5 x D ED) as (t & Et & Ht & Hl). rewrite El in Hl. destruct Hl as [Hl He].
  unfold raised in Hl. rewrite decide_False in Hl by done.
  symmetry in Es. apply slot_now in Es; [|done|done]. pose proof (start_le k D) as Hs.
  assert (Hu : 0 < unit_of k <= 67108864) by (destruct k; simpl; lia).
  exists t, D. split_and!; try done; rewrite ?He by done; [apply due_at_u32; lia|].
  destruct (level_of_cases (D - T) ltac:(lia)) as [_ [E|E]]; [congruence|]. intros E'. rewrite E' in E. lia.
Qed.

Lemma cascade_loop_spec l0 l : forall b loc c, reps b (upd c k (slot k T) l0) -> timer_jiffies b = u32 T ->
  wheel_inv (raised T ks) T ts due loc c (work_list b) -> c k (slot k T) = l ->
  exists b' loc' c', cascade_loop ts l b = Some b' /\ same_rest b b' /\
    reps b' (upd c' k (slot k T) l0) /\ c' k (slot k T) = [] /\
    wheel_inv (raised T ks) T ts due loc' c' (work_list b').
Proof.
  induction l as [|x l IH]; intros b loc c R HT W Ec; [by exists b, loc, c|].
  destruct (cascade_place loc c _ x W) as (t & D & Et & ED & El & Ht & EDue & Hlev); [rewrite Ec; by left|].
  pose proof (wi_expires _ _ _ _ _ _ _ W x t Et) as He. simpl. rewrite Et. cbn [mbind option_bind].
  destruct (internal_add_spec b _ T x (t_expires t) R HT He) as (b1 & E1 & R1 & S1). rewrite E1.
  cbn [mbind option_bind]. rewrite EDue in R1. set (k' := level_of (D - T)) in *.
  destruct (add_place (raised T ks) T (t_expires t) (raised_bound T ks Hks) He) as [P1 P2].
  rewrite EDue in P1, P2. fold k' in P1, P2.
  assert (W1 := inv_add _ _ _ _ _ _ _ x t D k'
    (inv_remove _ _ _ _ _ _ _ x (set_pending false t) W eq_refl He) (lookup_delete_eq due x) Ht He P1 P2).
  rewrite insert_insert_eq, insert_delete_eq, !insert_id in W1 by done.
  assert (Hout : forall a j, (j < Z.to_nat (slots a))%nat -> ~ (a = k /\ j = slot k T) ->
    without x c a j = c a j).
  { intros a j Hj Hne. unfold without. apply filter_absent. intros Ey. apply Hne.
    apply (wi_slot _ _ _ _ _ _ _ W) in Ey as (D1 & ED1 & El1 & ->); [|done].
    assert (Hx : x ∈ c k (slot k T)) by (rewrite Ec; by left).
    apply (wi_slot _ _ _ _ _ _ _ W) in Hx as (D2 & ? & _ & ?); [|apply slot_lt]. naive_solver. }
  set (c1 := upd (without x c) k' (slot k' D) (without x c k' (slot k' D) ++ [x])) in *.
  assert (Hkk : ~ (k' = k /\ slot k' D = slot k T)) by naive_solver.
  destruct (IH b1 (move loc x (Some k')) c1) as (b2 & loc2 & c2 & E2 & S2 & R2 & H2 & W2).
  - eapply reps_ext; [|exact R1]. intros a j Hj. unfold c1, upd.
    repeat case_decide; try done; subst; destruct_and?; subst; try done.
    + by rewrite Hout by done.
    + symmetry. by apply Hout.
  - by rewrite (proj1 S1).
  - rewrite (proj2 S1). rewrite filter_absent in W1; [done|]. rewrite (wi_work _ _ _ _ _ _ _ W), El. by intros [_ [=]].
  - unfold c1. rewrite upd_ne by naive_solver. unfold without. rewrite Ec. apply filter_head.
    rewrite <- Ec. apply (wi_nodup _ _ _ _ _ _ _ W), slot_lt.
  - exists b2, loc2, c2. split_and!; [done| |done..]. destruct S1, S2. split; congruence.
Qed.

Lemma cascade_spec b loc c : reps b c -> timer_jiffies b = u32 T ->
  wheel_inv (raised T ks) T ts due loc c (work_list b) ->
  exists b' loc' c', cascade ts b k (Z.of_nat (slot k T)) = Some (Z.of_nat (slot k T), b') /\ same_rest b b' /\
    reps b' c' /\ wheel_inv (raised T (k :: ks)) T ts due loc' c' (work_list b').
Proof.
  intros R HT W. pose proof (slot_lt k T) as Hi. unfold cascade. rewrite (reps_get b c k _ R Hi).
  cbn [mbind option_bind]. set (l := c k (slot k T)).
  destruct (cascade_loop_spec l l b loc c) as (b1 & loc1 & c1 & -> & [S1 S2] & R1 & H1 & W1); [|done..|].
  { eapply reps_ext; [|exact R]. intros a j _. unfold upd. case_decide as E; [by destruct E as [-> ->]|done]. }
  cbn [mbind option_bind]. rewrite (reps_get b1 _ k _ R1 Hi), upd_eq. cbn [mbind option_bind].
  rewrite decide_True by done. destruct (reps_set b1 _ k (slot k T) [] R1 Hi) as (v & -> & R2).
  cbn [mbind option_bind]. eexists _, loc1, c1. split; [done|]. split_and!.
  - split; [by rewrite set_tv_jiffies|by rewrite set_tv_work].
  - eapply reps_ext; [|exact R2]. intros a j _. unfold upd. repeat case_decide; destruct_and?; subst; done.
  - rewrite set_tv_work. eapply inv_raise; [exact W1|]. intros k' Hin Hout x D ED El.
    apply elem_of_cons in Hin as [->|]; [|done]. destruct (wi_due _ _ _ _ _ _ _ W1 x D ED) as (t & _ & _ & Hl).
    rewrite El in Hl. destruct Hl as [Hl _]. unfold raised in Hl. rewrite decide_False in Hl by done.
    assert (start k D <> T); [|lia]. intros E. apply slot_now in E; [|done|done].
    assert (Hx : x ∈ c1 k (slot k T)); [|rewrite H1 in Hx; by apply elem_of_nil in Hx].
    apply (wi_slot _ _ _ _ _ _ _ W1); [done|]. by exists D.
Qed.
End Cascade.

(** ** A tick *)

Definition upper : list level := [TV2; TV3; TV4; TV5].

Lemma raise_upper T ts due loc c w ks : wheel_inv (raised T ks) T ts due loc c w -> TV1 ∉ ks ->
  (forall k, k <> TV1 -> k ∉ ks -> T mod unit_of k <> 0) -> wheel_inv (raised T upper) T ts due loc c w.
Proof.
  intros W H1 H. eapply inv_raise; [exact W|]. intros k Hk Hks x D ED El.
  apply start_late; [apply H; [intros ->; set_solver|done]|].
  destruct (wi_due _ _ _ _ _ _ _ W x D ED) as (t & _ & _ & Hl). rewrite El in Hl. destruct Hl as [Hl _].
  unfold raised in Hl. rewrite decide_False in Hl by done. lia.
Qed.

Lemma INDEX_slot b T : timer_jiffies b = u32 T -> INDEX b 0 = Z.of_nat (slot TV2 T) /\
  INDEX b 1 = Z.of_nat (slot TV3 T) /\ INDEX b 2 = Z.of_nat (slot TV4 T) /\ INDEX b 3 = Z.of_nat (slot TV5 T).
Proof.
  intros E. rewrite <- !index_slot. unfold INDEX. rewrite E. by split_and!.
Qed.

(** The next level is cascaded when its block begins, too. *)
Lemma block_begins k k' T : unit_of k' = unit_of k * slots k -> T mod unit_of k = 0 ->
  slot k T = 0%nat <-> T mod unit_of k' = 0.
Proof.
  intros E H. unfold slot. rewrite <- (Nat2Z.inj_iff _ 0), Z2Nat.id by (destruct k; simpl; div_lia).
  rewrite E. destruct k; simpl in *; div_lia.
Qed.

Lemma same_rest_trans b1 b2 b3 : same_rest b1 b2 -> same_rest b2 b3 -> same_rest b1 b3.
Proof. intros [] []. split; congruence. Qed.
Lemma same_rest_time b b' T : same_rest b b' -> timer_jiffies b = u32 T -> timer_jiffies b' = u32 T.
Proof. intros [-> _]. done. Qed.

Definition cascaded (T : Z) (ts : gmap Z timer_list) (due : gmap Z Z) (b b' : tvec_base) : Prop :=
  exists loc c, same_rest b b' /\ reps b' c /\ wheel_inv (raised T upper) T ts due loc c (work_list b').

(** From the level [k] on, whose block begins now. *)
Lemma cascade_from T ts due ks k b loc c (rest : Z * tvec_base -> option tvec_base) :
  TV1 ∉ ks -> k <> TV1 -> k ∉ ks -> T mod unit_of k = 0 ->
  reps b c -> timer_jiffies b = u32 T -> wheel_inv (raised T ks) T ts due loc c (work_list b) ->
  (forall b1 loc1 c1, same_rest b b1 -> reps b1 c1 -> timer_jiffies b1 = u32 T ->
    wheel_inv (raised T (k :: ks)) T ts due loc1 c1 (work_list b1) ->
    exists b', rest (Z.of_nat (slot k T), b1) = Some b' /\ cascaded T ts due b1 b') ->
  exists b', (cascade ts b k (Z.of_nat (slot k T)) ≫= rest) = Some b' /\ cascaded T ts due b b'.
Proof.
  intros H1 H2 H3 Ha R HT W Hr.
  destruct (cascade_spec T ts due ks k H1 H2 H3 Ha b loc c R HT W) as (b1 & loc1 & c1 & -> & S1 & R1 & W1).
  cbn [mbind option_bind]. destruct (Hr b1 loc1 c1 S1 R1 (same_rest_time _ _ _ S1 HT) W1)
    as (b' & -> & loc' & c' & S' & R' & W').
  exists b'. split; [done|]. exists loc', c'. split_and!; [by eapply same_rest_trans|done|done].
Qed.

Lemma cascaded_stop T ts due ks b loc c : reps b c -> wheel_inv (raised T ks) T ts due loc c (work_list b) ->
  TV1 ∉ ks -> (forall k, k <> TV1 -> k ∉ ks -> T mod unit_of k <> 0) -> cascaded T ts due b b.
Proof. intros. exists loc, c. split_and!; [by split|done|by eapply raise_upper]. Qed.

(** A level is cascaded at the begin of its block, and then the next one, [k'], if its block begins, too. *)
Lemma cascade_step T ts due ks k k' b loc c (more : tvec_base -> option tvec_base) :
  TV1 ∉ ks -> k <> TV1 -> k ∉ ks -> T mod unit_of k = 0 -> unit_of k' = unit_of k * slots k ->
  (forall k0, k0 <> TV1 -> k0 ∉ k :: ks -> (unit_of k' | unit_of k0)) ->
  reps b c -> timer_jiffies b = u32 T -> wheel_inv (raised T ks) T ts due loc c (work_list b) ->
  (forall b1 loc1 c1, T mod unit_of k' = 0 -> reps b1 c1 -> timer_jiffies b1 = u32 T ->
    wheel_inv (raised T (k :: ks)) T ts due loc1 c1 (work_list b1) ->
    exists b', more b1 = Some b' /\ cascaded T ts due b1 b') ->
  exists b', ('(i, b1) ← cascade ts b k (Z.of_nat (slot k T)); if negb (i =? 0) then Some b1 else more b1) = Some b' /\
    cascaded T ts due b b'.
Proof.
  intros H1 H2 H3 Ha Hu Hd R HT W Hm. eapply cascade_from; try done. intros b1 loc1 c1 _ R1 HT1 W1. cbv iota beta.
  pose proof (block_begins k k' T Hu Ha) as B. destruct (Z.eqb_spec (Z.of_nat (slot k T)) 0) as [E|E]; simpl negb; cbv iota.
  - eapply Hm; [apply B; lia|done..].
  - exists b1. split; [done|]. eapply cascaded_stop; [done|exact W1|by apply not_elem_of_cons|].
    intros k0 Hk0 Hks0 E0. apply E. rewrite (proj2 B); [done|].
    apply Z.mod_divide; [destruct k'; done|]. etransitivity; [by apply Hd|].
    apply Z.mod_divide; [destruct k0; done|done].
Qed.

(** Facts about closed lists of levels. *)
Ltac levels := first
  [ repeat (apply not_elem_of_cons; split; [done|]); apply not_elem_of_nil
  | intros [] ? Hks; simpl; first [done | by (destruct Hks; repeat constructor) | by apply Z.mod_divide] ].

Lemma cascades_spec T ts due b loc c : reps b c -> timer_jiffies b = u32 T ->
  wheel_inv (raised T []) T ts due loc c (work_list b) ->
  exists b', cascades ts b (Z.of_nat (slot TV1 T)) = Some b' /\ cascaded T ts due b b'.
Proof.
  intros R HT W. unfold cascades. pose proof (block_begins TV1 TV2 T eq_refl (Z.mod_1_r T)) as B1.
  destruct (Z.eqb_spec (Z.of_nat (slot TV1 T)) 0) as [E|E]; simpl negb; cbv iota.
  2:{ exists b. split; [done|]. eapply cascaded_stop; [done|exact W|levels|].
      assert (T mod 256 <> 0) by (intros H; apply E; by rewrite (proj2 B1)).
      intros [] ? _; simpl; [done|div_lia..]. }
  assert (E1 : T mod unit_of TV2 = 0) by (apply B1; lia). clear E B1.
  destruct (INDEX_slot b T HT) as (-> & _).
  apply (cascade_step T ts due [] TV2 TV3 b loc c); [levels|done|levels|done|done|levels|done|done|done|].
  clear - b. intros b1 loc1 c1 E R HT W. destruct (INDEX_slot b1 T HT) as (_ & -> & _).
  apply (cascade_step T ts due [TV2] TV3 TV4 b1 loc1 c1); [levels|done|levels|done|done|levels|done|done|done|].
  clear - b1. intros b2 loc2 c2 E R HT W. destruct (INDEX_slot b2 T HT) as (_ & _ & -> & _).
  apply (cascade_step T ts due [TV3; TV2] TV4 TV5 b2 loc2 c2); [levels|done|levels|done|done|levels|done|done|done|].
  clear - b2. intros b3 loc3 c3 E R HT W. destruct (INDEX_slot b3 T HT) as (_ & _ & _ & ->).
  eapply cascade_from; [..|exact R|done|exact W|]; [levels|done|levels|done|].
  intros b4 loc4 c4 _ R4 HT4 W4. exists b4. split; [done|]. eapply cascaded_stop; [done|exact W4|levels|].
  intros [] ? Hks; [done|destruct Hks; repeat constructor..].
Qed.

(** The timers that are due leave the wheel for the work list. *)
Lemma inv_tick T ts due loc c : wheel_inv (raised T upper) T ts due loc c [] ->
  wheel_inv (fun _ => T + 1) (T + 1) ts due
    (fun x => if decide (loc x = Some TV1 /\ due !! x = Some T) then None else loc x)
    (upd c TV1 (slot TV1 T) []) (c TV1 (slot TV1 T)).
Proof.
  intros [I1 I2 I3 I4 I5 I6 I7].
  assert (Hloc : forall x D, due !! x = Some D -> loc x <> None).
  { intros x D E El. assert (Hx : x ∈ []) by (by apply I4). by apply elem_of_nil in Hx. }
  assert (Hnow : forall x D, due !! x = Some D -> loc x = Some TV1 -> slot TV1 D = slot TV1 T <-> D = T).
  { intros x D E El. destruct (I5 x D E) as (t & _ & _ & Hl). rewrite El in Hl. destruct Hl as [Hl _].
    rewrite (slot_now TV1 T D) by (simpl in *; first [apply Z.mod_1_r|exact Hl]).
    unfold start. simpl. rewrite Z.div_1_r. lia. }
  split; try done.
  - intros k i Hi. unfold upd. case_decide; [apply NoDup_nil_2|by apply I1].
  - intros k i x Hi. unfold upd. case_decide as Hki.
    + destruct Hki as [-> ->]. split; [by intros ?%elem_of_nil|]. intros (D & E & El & Es). exfalso.
      case_decide as Hd; [done|]. apply Hd. split; [done|]. rewrite E. f_equal. by apply (Hnow x D).
    + rewrite I2 by done. split; intros (D & E & El & ->); exists D; (split; [done|]); case_decide as Hd; try done.
      destruct Hd as [Hd1 Hd2]. simplify_eq. naive_solver.
  - by apply I1, slot_lt.
  - intros x. rewrite I2 by apply slot_lt. split.
    + intros (D & E & El & Es). split; [by exists D|]. rewrite decide_True; [done|]. split; [done|].
      rewrite E. f_equal. by apply (Hnow x D).
    + intros [[D E] Hn]. case_decide as Hd; [|by destruct (Hloc x D E)]. destruct Hd as [Hd1 Hd2].
      exists T. by split_and!.
  - intros x D E. destruct (I5 x D E) as (t & Et & Ht & Hl). exists t. split_and!; [done|done|].
    case_decide as Hd; [destruct Hd; simplify_eq; lia|]. destruct (loc x) as [k|] eqn:El; [|by destruct (Hloc x D E)].
    destruct Hl as [Hl He]. split; [|done]. assert (0 < unit_of k * slots k) by (destruct k; done).
    assert (T + 1 <= start k D); [|unfold raised in Hl; case_decide; lia]. destruct (decide (k = TV1)) as [->|Hk].
    + destruct (decide (D = T)) as [->|HD]; [by destruct Hd|]. clear - Hl HD. unfold start, raised in *. simpl in *.
      rewrite Z.div_1_r in *. lia.
    + unfold raised in Hl. rewrite decide_True in Hl; [lia|]. destruct k; [done|repeat constructor..].
Qed.

Lemma timer_tick_spec s T due : wheel s T due -> work_list (tm_base s) = [] ->
  exists s', wheel_tick s = Some s' /\ wheel s' (T + 1) due /\ tms s' = tms s /\ jiffies s' = jiffies s /\
    timer_jiffies (tm_base s') = u32 (T + 1).
Proof.
  intros (loc & c & R & HT & W) Hw. unfold wheel_tick. rewrite HT.
  assert (Ei : Z.land (u32 T) TVR_MASK = Z.of_nat (slot TV1 T)) by (rewrite <- index_slot; done). rewrite Ei.
  assert (W0 : wheel_inv (raised T []) T (tms s) due loc c (work_list (tm_base s))).
  { eapply inv_lower; [|exact W]. intros k. unfold raised. rewrite decide_False by apply not_elem_of_nil. lia. }
  destruct (cascades_spec T (tms s) due (tm_base s) loc c R HT W0) as (b1 & -> & loc1 & c1 & [S1 S2] & R1 & W1).
  cbn [mbind option_bind]. rewrite S1, HT, u32_add_l.
  set (b2 := set_jiffies b1 (u32 (T + 1))). assert (R2 : reps b2 c1) by (intros k; specialize (R1 k); by destruct k).
  change (tv1 b2) with (get_tv b2 TV1). rewrite (reps_get b2 c1 TV1 _ R2 (slot_lt _ _)). cbn [mbind option_bind].
  destruct (reps_set b2 c1 TV1 (slot TV1 T) [] R2 (slot_lt _ _)) as (v & -> & R3). cbn [mbind option_bind].
  eexists. split; [done|]. split_and!; try done. rewrite S2, Hw in W1.
  eexists _, _. split_and!; [|done|by apply inv_tick]. intros k. destruct (R3 k) as [L G]. by destruct k.
Qed.
