(* ===== verification/TimerCalls.v ===== *)
(** What kernel/timer.c promises: the calls against a queue of due ticks, and the softirq against the
    passing of time over that queue. *)
From stdpp Require Import base list gmap numbers option sorting.
From Stdlib Require Import ZArith Lia.
From S2P Require Import Prelude Timer TimerWheel TimerRun.

Local Open Scope Z_scope.

(** ** Sequences of calls *)

Fixpoint run_tcalls (s : tm_state) (cs : list timer_call) : option (list Z * tm_state) :=
  match cs with
  | [] => Some ([], s)
  | c :: cs => '(r, s) ← run_tcall s c; '(rs, s) ← run_tcalls s cs; Some (r :: rs, s)
  end.

Fixpoint spec_tcalls (T : Z) (q : tqueue) (cs : list timer_call) : option (list Z * tqueue) :=
  match cs with
  | [] => Some ([], q)
  | c :: cs => '(r, q) ← spec_tcall T q c; '(rs, q) ← spec_tcalls T q cs; Some (r :: rs, q)
  end.

Fixpoint tcalls_ok (T : Z) (q : tqueue) (cs : list timer_call) : Prop :=
  match cs with
  | [] => True
  | c :: cs => tcall_ok q.1 c /\ match spec_tcall T q c with Some (_, q) => tcalls_ok T q cs | None => True end
  end.

Lemma tcalls_spec cs : forall s T q, refines s T q -> tcalls_ok T q cs ->
  match spec_tcalls T q cs with
  | None => run_tcalls s cs = None
  | Some (rs, q') => exists s', run_tcalls s cs = Some (rs, s') /\ refines s' T q' /\ calm s s'
  end.
Proof.
  induction cs as [|c cs IH]; intros s T q H Hok; [by exists s|]. destruct Hok as [Hc Hok]. simpl.
  assert (Hc' : tcall_ok (tms s) c) by (by rewrite (proj1 H)). pose proof (tcall_spec s T q c H Hc') as A.
  destruct (spec_tcall T q c) as [[r q1]|]; simpl in A; [|by rewrite A].
  destruct A as (s1 & -> & H1 & C1). cbn [mbind option_bind]. specialize (IH s1 T q1 H1 Hok).
  destruct (spec_tcalls T q1 cs) as [[rs q2]|]; cbn [mbind option_bind]; [|by rewrite IH].
  destruct IH as (s2 & -> & H2 & C2). exists s2. split_and!; [done|done|].
  by eapply calm_trans.
Qed.

(** The wheel of init_timers_cpu is empty. *)
Lemma boot_refines now : is_u32 now -> refines (init_timers_cpu ∅ now) now (∅, ∅).
Proof.
  intros Hn. split; [done|]. exists (fun _ => None), (fun _ _ => []). split_and!.
  - intros k. assert (E : get_tv (tm_base (init_timers_cpu ∅ now)) k = replicate (Z.to_nat (slots k)) []) by (by destruct k).
    rewrite E, length_replicate. split; [done|]. intros i Hi. by apply lookup_replicate_2.
  - symmetry. by apply u32_small.
  - split; try done.
    + intros. apply NoDup_nil_2.
    + intros k i x _. split; [by intros ?%elem_of_nil|by intros (D & [=] & _)].
    + apply NoDup_nil_2.
    + intros x. split; [by intros ?%elem_of_nil|by intros [[? [=]] _]].
Qed.

(** ** Time over the queue *)

(** A timer is taken out before its function runs. *)
Definition take_out (x : Z) (q : tqueue) : tqueue := (alter (set_pending false) x q.1, delete x q.2).

(** [tq_run handler T0 q0 T q tr]: from the tick [T0] with the queue [q0] to the tick [T] with [q]; [tr] are
    the timers whose functions were called, with the ticks.  A timer fires at the tick at which it is
    due, its function makes calls that [handler] allows, and a tick ends when no timer is due any more. *)
Inductive tq_run (handler : Z -> list timer_call -> Prop) (T0 : Z) (q0 : tqueue) :
    Z -> tqueue -> list (Z * Z) -> Prop :=
| run_start : tq_run handler T0 q0 T0 q0 []
| run_fire T q tr x cs rs q' : tq_run handler T0 q0 T q tr -> q.2 !! x = Some T ->
    handler x cs -> spec_tcalls (T + 1) (take_out x q) cs = Some (rs, q') ->
    tq_run handler T0 q0 T q' (tr ++ [(T, x)])
| run_advance T q tr : tq_run handler T0 q0 T q tr -> (forall x D, q.2 !! x = Some D -> T < D) ->
    tq_run handler T0 q0 (T + 1) q tr.

(** The function of a timer that fires makes some sequence of calls that are none of them a BUG. *)
Definition callback_ok (call : timer_fn) (handler : Z -> list timer_call -> Prop) : Prop :=
  forall x s T q, refines s T q -> (exists t, q.1 !! x = Some t /\ t_function t <> 0) -> q.2 !! x = None ->
    exists cs, handler x cs /\ tcalls_ok T q cs /\ is_Some (spec_tcalls T q cs) /\
      call x s = snd <$> run_tcalls s cs.

Definition low_tick (e : Z * Z) : Z * Z := (u32 e.1, e.2).

(** Between ticks nothing pending is overdue. *)
Lemma wheel_future s T due : wheel s T due -> work_list (tm_base s) = [] ->
  forall x D, due !! x = Some D -> T <= D.
Proof.
  intros (loc & c & _ & _ & W) Hw x D E. destruct (wi_due _ _ _ _ _ _ _ W x D E) as (t & _ & _ & Hl).
  destruct (loc x) as [k|] eqn:El; [pose proof (start_le k D); lia|].
  assert (Hx : x ∈ work_list (tm_base s)); [apply (wi_work _ _ _ _ _ _ _ W); by split; [exists D|]|].
  rewrite Hw in Hx. by apply elem_of_nil in Hx.
Qed.

Section Run.
Context (call : timer_fn) (handler : Z -> list timer_call -> Prop) (Hcall : callback_ok call handler).
Context (T0 : Z) (q0 : tqueue).

(** One timer of the work list. *)
Lemma fire_spec s T q tr x w : refines s (T + 1) q -> work_list (tm_base s) = x :: w ->
  tq_run handler T0 q0 T q tr ->
  exists s1 s2 q', detach_timer s x true = Some s1 /\ call x s1 = Some s2 /\ refines s2 (T + 1) q' /\
    tq_run handler T0 q0 T q' (tr ++ [(T, x)]) /\ jiffies s2 = jiffies s /\
    (length (work_list (tm_base s2)) < length (work_list (tm_base s)))%nat.
Proof.
  intros [Ets H] Hw Hrun. assert (Hx : exists t, tms s !! x = Some t /\ t_function t <> 0 /\ q.2 !! x = Some T).
  { destruct H as (loc & c & _ & _ & W). assert (Hx : x ∈ work_list (tm_base s)) by (rewrite Hw; by left).
    apply (wi_work _ _ _ _ _ _ _ W) in Hx as [[D ED] El]. destruct (wi_due _ _ _ _ _ _ _ W x D ED) as (t & Et & [_ Hf] & Hl).
    rewrite El in Hl. exists t. split_and!; [done|done|]. rewrite ED. f_equal. lia. }
  destruct Hx as (t & Et & Hf & ED). destruct (detach_spec s (T + 1) q.2 x t H Et) as (s1 & E1 & W1 & Ets1 & C1 & Ew).
  assert (H1 : refines s1 (T + 1) (take_out x q)).
  { split; [|done]. simpl. rewrite Ets1, <- Ets. symmetry. rewrite <- (insert_id (tms s) x t) at 1 by done. by rewrite alter_insert_eq. }
  destruct (Hcall x s1 (T + 1) (take_out x q) H1) as (cs & Hh & Hok & [[rs q'] Es] & Ec).
  { simpl. rewrite <- Ets. rewrite lookup_alter_eq, Et. by eexists. }
  { apply lookup_delete_eq. }
  pose proof (tcalls_spec cs s1 (T + 1) _ H1 Hok) as A. rewrite Es in A. destruct A as (s2 & E2 & H2 & C2).
  rewrite E2 in Ec. exists s1, s2, q'. split_and!; [done|done|done| | |].
  - by eapply run_fire.
  - destruct C1 as (J1 & _), C2 as (J2 & _). congruence.
  - destruct C2 as (_ & _ & L2). rewrite Ew, Hw in L2. rewrite filter_cons_False in L2 by naive_solver.
    pose proof (length_filter (fun y => y <> x) w). rewrite Hw. simpl. lia.
Qed.

(** The functions of all timers that are due, and the end of the tick. *)
Lemma work_spec s T q tr : refines s (T + 1) q -> tq_run handler T0 q0 T q tr -> Forall (fun e => e.1 <= T) tr ->
  exists s' q' tr', loop (S (length (work_list (tm_base s)))) (work_body call (u32 T)) (s, low_tick <$> tr) =
      Some (Some (s', low_tick <$> tr')) /\ refines s' (T + 1) q' /\ work_list (tm_base s') = [] /\
    tq_run handler T0 q0 (T + 1) q' tr' /\ Forall (fun e => e.1 <= T) tr' /\ jiffies s' = jiffies s.
Proof.
  intros H Hrun Htr.
  destruct (loop_total (work_body call (u32 T))
    (fun st => exists q tr, st.2 = low_tick <$> tr /\ refines st.1 (T + 1) q /\ tq_run handler T0 q0 T q tr /\
       Forall (fun e => e.1 <= T) tr /\ jiffies st.1 = jiffies s)
    (fun r => exists s' q' tr', r = Some (s', low_tick <$> tr') /\ refines s' (T + 1) q' /\
       work_list (tm_base s') = [] /\ tq_run handler T0 q0 (T + 1) q' tr' /\ Forall (fun e => e.1 <= T) tr' /\
       jiffies s' = jiffies s)
    (fun st => length (work_list (tm_base st.1)))) with (fuel := S (length (work_list (tm_base s)))) (s := (s, low_tick <$> tr))
    as (r & E & s' & q' & tr' & -> & HQ); [|by exists q, tr|simpl; lia|by exists s', q', tr'].
  clear q tr H Hrun Htr. intros [s1 trace] (q & tr & Etr & H & Hrun & Htr & Hj). simpl in *. subst trace.
  destruct (work_list (tm_base s1)) as [|x w] eqn:Hw.
  - exists s1, q, tr. split_and!; try done. apply run_advance; [done|]. intros x D E.
    pose proof (wheel_future s1 (T + 1) q.2 (proj2 H) Hw x D E). lia.
  - destruct (fire_spec s1 T q tr x w H Hw Hrun) as (s2 & s3 & q' & E1 & E2 & H3 & Hrun3 & J3 & L3).
    rewrite E1. cbn [mbind option_bind]. rewrite E2. simpl. rewrite Hw in L3. split; [|done].
    exists q', (tr ++ [(T, x)]). split_and!; [by rewrite fmap_app|done|done| |congruence].
    apply Forall_app. split; [done|]. by apply Forall_singleton.
Qed.

Lemma ticks_ahead J T : T - 1 <= J < T + 2 ^ 31 -> s32 (u32 J - u32 T) = J - T.
Proof.
  intros H. unfold s32, u32. rewrite <- Zplus_mod_idemp_l, <- Zminus_mod, Zplus_mod_idemp_l.
  rewrite Z.mod_small; width_lia.
Qed.

Lemma run_timers_spec fuel s J : refines s T0 q0 -> work_list (tm_base s) = [] -> jiffies s = u32 J ->
  T0 - 1 <= J < T0 + 2 ^ 31 -> J - T0 + 1 < Z.of_nat fuel ->
  exists s' q' tr, __run_timers fuel call s = Some (s', low_tick <$> tr) /\ refines s' (J + 1) q' /\
    work_list (tm_base s') = [] /\ jiffies s' = jiffies s /\ tq_run handler T0 q0 (J + 1) q' tr /\
    Forall (fun e => e.1 <= J) tr.
Proof.
  intros H Hw Hj HJ Hf. unfold __run_timers.
  destruct (loop_total (timers_body call)
    (fun st => exists T q tr, T - 1 <= J < T + 2 ^ 31 /\ st.2 = low_tick <$> tr /\ refines st.1 T q /\
       work_list (tm_base st.1) = [] /\ tq_run handler T0 q0 T q tr /\
       Forall (fun e => e.1 < T) tr /\ jiffies st.1 = u32 J)
    (fun r => exists s' q' tr', r = Some (s', low_tick <$> tr') /\ refines s' (J + 1) q' /\
       work_list (tm_base s') = [] /\ jiffies s' = u32 J /\ tq_run handler T0 q0 (J + 1) q' tr' /\
       Forall (fun e => e.1 <= J) tr')
    (fun st => Z.to_nat (s32 (jiffies st.1 - timer_jiffies (tm_base st.1)) + 1)))
    with (fuel := fuel) (s := (s, @nil (Z * Z))) as (r & -> & s' & q' & tr' & -> & H' & Hw' & Hj' & Hrun' & Htr').
  - clear s H Hw Hj Hf HJ. intros [s trace] (T & q & tr & HJ & Etr & H & Hw & Hrun & Htr & Hj). simpl in *. subst trace.
    pose proof H as [Ets Hwh]. pose proof Hwh as (_ & _ & _ & HT & _).
    unfold time_after_eq. rewrite Hj, HT, ticks_ahead by done. destruct (Z.leb_spec 0 (J - T)) as [Hle|Hlt].
    + destruct (timer_tick_spec s T q.2 Hwh Hw) as (s1 & -> & W1 & Ets1 & J1 & HT1). cbn [mbind option_bind].
      destruct (work_spec s1 T q tr) as (s2 & q2 & tr2 & -> & H2 & Hw2 & Hrun2 & Htr2 & J2);
        [split; [congruence|done]|done|by apply (Forall_impl _ _ _ Htr); intros; lia|].
      simpl. split.
      { exists (T + 1), q2, tr2. split_and!; [lia..|done|done|done|done| |congruence].
        apply (Forall_impl _ _ _ Htr2). intros. lia. }
      destruct H2 as [_ (_ & _ & _ & HT2 & _)]. rewrite J2, J1, Hj, HT2, ticks_ahead by lia. lia.
    + exists s, q, tr. assert (T = J + 1) as -> by lia. split_and!; try done. apply (Forall_impl _ _ _ Htr). intros. lia.
  - exists T0, q0, []. split_and!; try done; [lia..|apply run_start].
  - simpl. destruct H as [_ (_ & _ & _ & HT & _)]. rewrite Hj, HT, ticks_ahead by done. lia.
  - exists s', q', tr'. split_and!; [done|done|done|congruence|done|done].
Qed.
End Run.

Lemma timer_softirq_spec call handler fuel s T q J : callback_ok call handler -> refines s T q ->
  work_list (tm_base s) = [] -> jiffies s = u32 J -> T - 1 <= J < T + 2 ^ 31 -> J - T + 1 < Z.of_nat fuel ->
  exists s' q' tr, run_timer_softirq fuel call s = Some (s', low_tick <$> tr) /\ refines s' (J + 1) q' /\
    work_list (tm_base s') = [] /\ jiffies s' = jiffies s /\ tq_run handler T q (J + 1) q' tr /\
    Forall (fun e => e.1 <= J) tr.
Proof.
  intros Hcall H Hw Hj HJ Hf. unfold run_timer_softirq.
  assert (Et : time_after_eq (jiffies s) (timer_jiffies (tm_base s)) = (0 <=? J - T)).
  { destruct H as [_ (_ & _ & _ & HT & _)]. unfold time_after_eq. by rewrite Hj, HT, ticks_ahead. }
  rewrite Et. clear Et.
  destruct (Z.leb_spec 0 (J - T)) as [Hle|Hlt]; [by apply run_timers_spec|].
  assert (T = J + 1) as -> by lia. exists s, q, []. split_and!; try done. apply run_start.
Qed.

(** ** Timers whose functions make no calls *)

Definition no_calls (x : Z) (cs : list timer_call) : Prop := cs = [].

Lemma no_calls_ok : callback_ok (fun _ s => Some s) no_calls.
Proof. intros x s T q _ _ _. exists []. by split_and!; [| |eexists|]. Qed.

Definition earlier (a b : Z * Z) : Prop := a.1 <= b.1.

Lemma sorted_snoc (tr : list (Z * Z)) e : StronglySorted earlier tr -> Forall (fun a => earlier a e) tr ->
  StronglySorted earlier (tr ++ [e]).
Proof.
  induction 1 as [|a tr S IH F]; intros H; [repeat constructor|].
  apply Forall_cons in H as [Ha H]. simpl. constructor; [by apply IH|].
  apply Forall_app. split; [done|]. by apply Forall_singleton.
Qed.

Lemma quiet_run T0 q0 T q tr : tq_run no_calls T0 q0 T q tr -> (forall x D, q0.2 !! x = Some D -> T0 <= D) ->
  (forall x D, q.2 !! x = Some D <-> q0.2 !! x = Some D /\ (D, x) ∉ tr) /\
  (forall x D, q.2 !! x = Some D -> T <= D) /\ (forall D x, (D, x) ∈ tr -> q0.2 !! x = Some D) /\
  NoDup tr /\ StronglySorted earlier tr /\ Forall (fun e => e.1 <= T) tr.
Proof.
  intros Hrun H0. induction Hrun as [|T q tr x cs rs q' Hrun IH Hx -> Es|T q tr Hrun IH Hlate].
  - split_and!; [|done|by intros ? ? ?%elem_of_nil|apply NoDup_nil_2|constructor|constructor].
    intros x D. split; [|naive_solver]. intros E. split; [done|apply not_elem_of_nil].
  - simpl in Es. injection Es as <- <-. destruct IH as (I1 & I2 & I3 & I4 & I5 & I6). simpl.
    pose proof (proj1 (I1 x T) Hx) as [Hx0 Hxt]. split_and!.
    + intros y D. rewrite lookup_delete_Some, I1, not_elem_of_app, list_elem_of_singleton.
      split; [naive_solver|]. intros (E & Hn & Hne). split_and!; [|done|done]. intros ->. apply Hne.
      congruence.
    + intros y D [_ E]%lookup_delete_Some. by apply I2 in E.
    + intros D y [H|H%list_elem_of_singleton]%elem_of_app; [by apply I3|]. congruence.
    + apply list.NoDup_app. split_and!; [done| |apply NoDup_singleton]. intros e He ->%list_elem_of_singleton. done.
    + by apply sorted_snoc.
    + apply Forall_app. split; [done|]. by apply Forall_singleton.
  - destruct IH as (I1 & I2 & I3 & I4 & I5 & I6). split_and!; try done.
    + intros x D E. apply Hlate in E. lia.
    + apply (Forall_impl _ _ _ I6). intros. lia.
Qed.

(** ** One timer among others *)









(** ** The theorems *)

(** C7: the calls of kernel/timer.c implement a queue of due ticks.  From the empty wheel of
    init_timers_cpu on, any sequence of setup_timer, add_timer, add_timer_on, mod_timer and del_timer
    does to the wheel what it does to the queue: a timer that is armed with a time in the 2^31 ticks
    ahead is due at this time and one that is armed with another time at the next tick, mod_timer and
    del_timer return whether the timer was pending, and a call ends in BUG exactly if the timer has no function or is
    added while it is pending.  No call changes the clock or adds to the timers of the tick that is running. *)
Theorem timer_calls_correct :
  (forall now, is_u32 now -> refines (init_timers_cpu ∅ now) now (∅, ∅)) /\
  forall s T q cs, refines s T q -> tcalls_ok T q cs ->
    match spec_tcalls T q cs with
    | None => run_tcalls s cs = None
    | Some (rs, q') => exists s', run_tcalls s cs = Some (rs, s') /\ refines s' T q' /\ calm s s'
    end.
Proof. split; [apply boot_refines|]. intros. by apply tcalls_spec. Qed.

(** C8: run_timer_softirq brings the wheel up to the present tick [J], for every counter value and less than 2^31 ticks behind.  The
    functions of the timers are called as time passes over the queue of due ticks: each timer at
    the very tick at which it is due, no tick ends before all of its timers have run, and what the functions
    re-arm or delete takes effect at once; afterwards no pending timer is overdue.  The functions may
    make any calls that are no BUG; a timer that re-arms itself for the past waits for the next tick. *)
Theorem timers_run_on_time call handler fuel s T q J :
  callback_ok call handler -> refines s T q -> work_list (tm_base s) = [] -> jiffies s = u32 J ->
  T - 1 <= J < T + 2 ^ 31 -> J - T + 1 < Z.of_nat fuel ->
  exists s' q' tr, run_timer_softirq fuel call s = Some (s', low_tick <$> tr) /\
    tq_run handler T q (J + 1) q' tr /\ Forall (fun e => e.1 <= J) tr /\
    refines s' (J + 1) q' /\ work_list (tm_base s') = [] /\ jiffies s' = jiffies s /\
    forall x D, q'.2 !! x = Some D -> J < D.
Proof.
  intros Hc H Hw Hj HJ Hf. destruct (timer_softirq_spec call handler fuel s T q J) as (s' & q' & tr & E & H' & Hw' & J' & Hr & Ht);
    [done..|]. exists s', q', tr. split_and!; try done. intros x D ED.
  pose proof (wheel_future s' (J + 1) q'.2 (proj2 H') Hw' x D ED). lia.
Qed.

(** If the functions of the timers arm and delete nothing, run_timer_softirq calls exactly the
    functions of the timers that are due by the present tick, each once, in the order of the ticks at which they
    are due, and exactly the others stay pending. *)
Theorem one_shot_timers fuel s T q J :
  refines s T q -> work_list (tm_base s) = [] -> jiffies s = u32 J ->
  T - 1 <= J < T + 2 ^ 31 -> J - T + 1 < Z.of_nat fuel ->
  exists s' tr ts', run_timer_softirq fuel (fun _ s => Some s) s = Some (s', low_tick <$> tr) /\
    (forall D x, (D, x) ∈ tr <-> q.2 !! x = Some D /\ D <= J) /\ NoDup tr /\ StronglySorted earlier tr /\
    refines s' (J + 1) (ts', filter (fun p => J < p.2) q.2).
Proof.
  intros H Hw Hj HJ Hf. destruct (timer_softirq_spec _ _ fuel s T q J no_calls_ok) as (s' & q' & tr & E & H' & Hw' & J' & Hr & Ht);
    [done..|]. destruct (quiet_run _ _ _ _ _ Hr (wheel_future s T q.2 (proj2 H) Hw)) as (Q1 & Q2 & Q3 & Q4 & Q5 & _).
  rewrite Forall_forall in Ht.
  assert (Hin : forall D x, (D, x) ∈ tr <-> q.2 !! x = Some D /\ D <= J).
  { intros D x. split; [intros Hx; split; [by apply Q3|by apply (Ht _ Hx)]|]. intros [ED HD].
    destruct (decide ((D, x) ∈ tr)) as [|Hn]; [done|]. assert (E' : q'.2 !! x = Some D) by (by apply Q1).
    apply Q2 in E'. lia. }
  exists s', tr, q'.1. split_and!; try done. assert (Eq : q'.2 = filter (fun p => J < p.2) q.2).
  { apply map_eq. intros x. apply option_eq. intros D. rewrite map_lookup_filter_Some, Q1, Hin. simpl.
    split; intros [ED HD]; (split; [done|]); [|intros [_ ?]; lia]. destruct (Z.lt_ge_cases J D); [done|by destruct HD]. }
  rewrite <- Eq. destruct H' as [H1 H2]. by split.
Qed.


(** ** Witnesses *)

(** Timers for two levels, one in the past, one that is deleted. *)
Definition sample_tcalls : list timer_call :=
  [CSetup 1 7 300; CAdd 1; CSetup 2 7 5000; CAdd 2; CSetup 3 7 90; CMod 3 80; CMod 3 80; CDel 2; CDel 2;
   CSetup 4 7 70000; CAddOn 4].
Definition sample_queue : tqueue :=
  match spec_tcalls 100 (∅, ∅) sample_tcalls with Some (_, q) => q | None => (∅, ∅) end.
Definition sample_wheel (now : Z) : tm_state :=
  match run_tcalls (init_timers_cpu ∅ 100) sample_tcalls with
  | Some (_, s) => Tm (tms s) (tm_base s) now
  | None => init_timers_cpu ∅ now
  end.

Lemma sample_tcalls_ok : tcalls_ok 100 (∅, ∅) sample_tcalls.
Proof. vm_compute. repeat split; first [by eexists | intros; discriminate]. Qed.

Lemma timer_calls_witness : exists s' q',
  run_tcalls (init_timers_cpu ∅ 100) sample_tcalls = Some ([0; 0; 0; 0; 0; 0; 1; 1; 0; 0; 0], s') /\
  refines s' 100 q' /\ q'.2 !! 1 = Some 300 /\ q'.2 !! 2 = None /\ q'.2 !! 3 = Some 100 /\ q'.2 !! 4 = Some 70000.
Proof.
  destruct timer_calls_correct as [Hb Hc].
  pose proof (Hc _ 100 _ sample_tcalls (Hb 100 ltac:(done)) sample_tcalls_ok) as H.
  assert (E : spec_tcalls 100 (∅, ∅) sample_tcalls = Some ([0; 0; 0; 0; 0; 0; 1; 1; 0; 0; 0], sample_queue))
    by (vm_compute; reflexivity).
  rewrite E in H. destruct H as (s' & E' & H' & _). exists s', sample_queue.
  split; [exact E'|]. split; [exact H'|]. split_and!; vm_compute; reflexivity.
Defined.

Lemma sample_refines now : refines (sample_wheel now) 100 sample_queue /\ work_list (tm_base (sample_wheel now)) = [].
Proof.
  pose proof (tcalls_spec sample_tcalls _ 100 _ (boot_refines 100 ltac:(done)) sample_tcalls_ok) as H.
  unfold sample_wheel, sample_queue.
  destruct (spec_tcalls 100 (∅, ∅) sample_tcalls) as [[rs q]|] eqn:E; [|by vm_compute in E].
  destruct H as (s' & -> & [H1 H2] & (_ & _ & H3)). split; [by split|]. simpl.
  destruct (work_list (tm_base s')); [done|simpl in H3; lia].
Qed.

(** A function that arms its timer again for the tick 70000. *)
Definition again (x : Z) (s : tm_state) : option tm_state := '(_, s) ← mod_timer s x 70000; Some s.
Definition calls_again (x : Z) (cs : list timer_call) : Prop := cs = [CMod x 70000].

Lemma again_ok : callback_ok again calls_again.
Proof.
  intros x s T [ts due] [Ets H] (t & Et & Hf) Hx. simpl in *. exists [CMod x 70000]. split_and!; [done| | |].
  - simpl. split; [split; [done|by exists t]|]. by repeat case_match.
  - simpl. rewrite Et. cbn [mbind option_bind]. rewrite bool_decide_false by done.
    rewrite bool_decide_false by (intros [H' _]; rewrite Hx in H'; by apply is_Some_None in H'). by eexists.
  - unfold again. simpl. destruct (mod_timer s x 70000) as [[r s']|]; done.
Qed.

Lemma timers_run_witness : exists s' q' tr,
  run_timer_softirq 400 again (sample_wheel 400) = Some (s', low_tick <$> tr) /\
  tq_run calls_again 100 sample_queue 401 q' tr /\ refines s' 401 q' /\ forall x D, q'.2 !! x = Some D -> 400 < D.
Proof.
  destruct (timers_run_on_time again calls_again 400 (sample_wheel 400) 100 sample_queue 400 again_ok
    (proj1 (sample_refines 400)) (proj2 (sample_refines 400))) as (s' & q' & tr & E & Hr & _ & H' & _ & _ & Hl);
    [vm_compute; reflexivity|lia|lia|]. exists s', q', tr.
  exact (conj E (conj Hr (conj H' Hl))).
Defined.


(** ** An order that is not the order of the calls *)

(** Timer 1 is added 300 ticks ahead, timer 2 for the same tick 250 ticks later: the cascade puts timer 1
    behind timer 2. *)
Lemma timers_not_fifo :
  let s0 := init_timers_cpu ∅ 0 in
  (  '(_, s) ← run_tcalls s0 [CSetup 1 7 300; CAdd 1];
     '(s, _) ← run_timer_softirq 300 (fun _ s => Some s) (Tm (tms s) (tm_base s) 249);
     '(_, s) ← run_tcalls s [CSetup 2 7 300; CAdd 2];
     '(_, tr) ← run_timer_softirq 300 (fun _ s => Some s) (Tm (tms s) (tm_base s) 400);
     Some tr) = Some [(300, 2); (300, 1)].
Proof. vm_compute. reflexivity. Qed.
