(* ===== verification/Jiffies.v ===== *)
(** include/linux/jiffies.h: the length of a tick and the conversions between ticks and other units of time,
    for the SH3 without a watchdog (HZ is 100).  The scaled multiplications are kept at 64 bits. *)
From stdpp Require Import base list option numbers.
From Stdlib Require Import ZArith Lia.
From S2P Require Import Prelude Div64 Ktime.

Local Open Scope Z_scope.

(** ** The constants *)

Definition MSEC_PER_SEC : Z := 1000.
Definition USEC_PER_SEC : Z := 1000000.
Definition NSEC_PER_USEC : Z := 1000.

Definition HZ : Z := 100.
Definition CLOCK_TICK_RATE : Z := HZ * 100000.
Definition SHIFT_HZ : Z := 7.
Definition LATCH : Z := (CLOCK_TICK_RATE + HZ / 2) / HZ.

Definition SH_DIV (NOM DEN LSH : Z) : Z :=
  u32 (u32 (Z.shiftl (NOM / DEN) LSH) + u32 (u32 (Z.shiftl (NOM mod DEN) LSH) + DEN / 2) / DEN).

Definition ACTHZ : Z := SH_DIV CLOCK_TICK_RATE LATCH 8.
Definition TICK_NSEC : Z := SH_DIV (1000000 * 1000) ACTHZ 8.

Definition MAX_JIFFY_OFFSET : Z := Z.shiftr (2 ^ 32 - 1) 1 - 1.

Definition SEC_JIFFIE_SC : Z :=
  if Z.land (Z.shiftl (Z.shiftl NSEC_PER_SEC 2 / TICK_NSEC) (31 - SHIFT_HZ - 2)) 0x80000000 =? 0
  then 32 - SHIFT_HZ else 31 - SHIFT_HZ.
Definition NSEC_JIFFIE_SC : Z := SEC_JIFFIE_SC + 29.
Definition USEC_JIFFIE_SC : Z := SEC_JIFFIE_SC + 19.

Definition SEC_CONVERSION : Z := u32 ((Z.shiftl NSEC_PER_SEC SEC_JIFFIE_SC + TICK_NSEC - 1) / TICK_NSEC).
Definition NSEC_CONVERSION : Z := u32 ((Z.shiftl 1 NSEC_JIFFIE_SC + TICK_NSEC - 1) / TICK_NSEC).
Definition USEC_CONVERSION : Z := u32 ((Z.shiftl NSEC_PER_USEC USEC_JIFFIE_SC + TICK_NSEC - 1) / TICK_NSEC).
Definition USEC_ROUND : Z := Z.shiftl 1 USEC_JIFFIE_SC - 1.
Definition MAX_SEC_IN_JIFFIES : Z := s32 (u64 (MAX_JIFFY_OFFSET * TICK_NSEC) / NSEC_PER_SEC).

(** ** Milliseconds and microseconds *)

Definition jiffies_to_msecs (j : Z) : Z := u32 (MSEC_PER_SEC / HZ * j).
Definition jiffies_to_usecs (j : Z) : Z := u32 (USEC_PER_SEC / HZ * j).

Definition msecs_to_jiffies (m : Z) : Z :=
  if jiffies_to_msecs MAX_JIFFY_OFFSET <? m then MAX_JIFFY_OFFSET
  else u32 (m + MSEC_PER_SEC / HZ - 1) / (MSEC_PER_SEC / HZ).

Definition usecs_to_jiffies (u : Z) : Z :=
  if jiffies_to_usecs MAX_JIFFY_OFFSET <? u then MAX_JIFFY_OFFSET
  else u32 (u + USEC_PER_SEC / HZ - 1) / (USEC_PER_SEC / HZ).

(** ** struct timespec and struct timeval *)

Definition timespec_to_jiffies (value : Z * Z) : Z :=
  let sec := u32 value.1 in
  let nsec := s32 (value.2 + TICK_NSEC - 1) in
  let '(sec, nsec) := if MAX_SEC_IN_JIFFIES <=? sec then (MAX_SEC_IN_JIFFIES, 0) else (sec, nsec) in
  u32 (Z.shiftr (u64 (u64 (sec * SEC_CONVERSION) +
    Z.shiftr (u64 (u64 nsec * NSEC_CONVERSION)) (NSEC_JIFFIE_SC - SEC_JIFFIE_SC))) SEC_JIFFIE_SC).

(** div_long_long_rem: the quotient and the remainder. *)
Definition do_div_llr (dividend divisor : Z) : option (Z * Z) :=
  '(rem, result) ← do_div (u64 dividend) divisor; Some (u32 result, s32 rem).

Definition jiffies_to_timespec (jiffies : Z) : option (Z * Z) :=
  let nsec := u64 (jiffies * TICK_NSEC) in
  '(sec, rem) ← do_div_llr nsec NSEC_PER_SEC; Some (s32 sec, rem).

Definition timeval_to_jiffies (value : Z * Z) : Z :=
  let sec := u32 value.1 in
  let '(sec, usec) := if MAX_SEC_IN_JIFFIES <=? sec then (MAX_SEC_IN_JIFFIES, 0) else (sec, value.2) in
  u32 (Z.shiftr (u64 (u64 (sec * SEC_CONVERSION) +
    Z.shiftr (u64 (u64 (u64 usec * USEC_CONVERSION) + USEC_ROUND)) (USEC_JIFFIE_SC - SEC_JIFFIE_SC))) SEC_JIFFIE_SC).

Definition jiffies_to_timeval (jiffies : Z) : option (Z * Z) :=
  let nsec := u64 (jiffies * TICK_NSEC) in
  '(sec, tv_usec) ← do_div_llr nsec NSEC_PER_SEC; Some (s32 sec, Z.quot tv_usec NSEC_PER_USEC).

(** ** The conversions are exact *)

(** A tick is 10 ms; the scales and factors that follow from it. *)
Lemma jiffies_constants : TICK_NSEC = 10000000 /\ SEC_JIFFIE_SC = 25 /\ SEC_CONVERSION = 100 * 2 ^ 25 /\
  NSEC_CONVERSION = 1801439851 /\ USEC_CONVERSION = 1759218605 /\ USEC_ROUND = 2 ^ 44 - 1 /\
  MAX_SEC_IN_JIFFIES = 21474836 /\ MAX_JIFFY_OFFSET = 2147483646.
Proof. by vm_compute. Qed.

(** A sum of scaled seconds and a scaled rest. *)
Lemma scaled_sum sec n s : 0 <= s -> Z.shiftr (sec * (100 * 2 ^ 25) + Z.shiftr n s) 25 = sec * 100 + n / 2 ^ (s + 25).
Proof.
  intros Hs. rewrite !Z.shiftr_div_pow2 by lia. rewrite Z.mul_assoc, Z.div_add_l by lia.
  rewrite Z.div_div by lia. by rewrite <- Z.pow_add_r by lia.
Qed.

Lemma nsec_scale n : 0 <= n < 1010000000 -> n * 1801439851 / 2 ^ 54 = n / 10000000.
Proof.
  intros Hn. symmetry. apply Z.div_unique with (r := n * 1801439851 - 2 ^ 54 * (n / 10000000)); [|lia].
  left. change (2 ^ 54) with 18014398509481984. div_lia.
Qed.

Lemma usec_scale u : 0 <= u < 1000000 ->
  (u * 1759218605 + (2 ^ 44 - 1)) / 2 ^ 44 = u / 10000 + (if u =? 0 then 0 else 1).
Proof.
  intros Hu. symmetry.
  apply Z.div_unique with (r := u * 1759218605 + (2 ^ 44 - 1) - 2 ^ 44 * (u / 10000 + (if u =? 0 then 0 else 1))); [|lia].
  left. change (2 ^ 44) with 17592186044416. destruct (Z.eqb_spec u 0) as [->|]; [done|]. div_lia.
Qed.

Lemma u64_below x : 0 <= x < 2 ^ 64 -> u64 x = x.
Proof. intros H. by apply u64_small. Qed.

Lemma timespec_to_jiffies_spec sec nsec : 0 <= sec < 21474836 -> 0 <= nsec < 1000000000 ->
  timespec_to_jiffies (sec, nsec) = sec * 100 + (nsec + 9999999) / 10000000.
Proof.
  intros Hs Hn. unfold timespec_to_jiffies. cbn [fst snd]. destruct jiffies_constants as (ET & ES & E1 & E2 & _ & _ & EM & _).
  rewrite ET, EM. rewrite u32_small by width_lia. rewrite (proj2 (Z.leb_gt _ _)) by lia.
  unfold NSEC_JIFFIE_SC. rewrite E1, E2, ES. replace (25 + 29 - 25) with 29 by lia.
  rewrite s32_small by width_lia. set (n := nsec + 10000000 - 1).
  assert (Hn' : 0 <= n < 1010000000) by (unfold n; lia).
  rewrite (u64_below n) by lia. rewrite (u64_below (n * _)) by lia.
  rewrite (u64_below (sec * _)) by lia. rewrite u64_below.
  2:{ rewrite Z.shiftr_div_pow2 by lia. change (2 ^ 29) with 536870912. change (2 ^ 25) with 33554432.
      change (2 ^ 64) with 18446744073709551616. div_lia. }
  rewrite scaled_sum by lia. change (29 + 25) with 54. rewrite nsec_scale by done. unfold n.
  rewrite u32_small by (width_lia; div_lia). do 2 f_equal. lia.
Qed.

Lemma timeval_to_jiffies_spec sec usec : 0 <= sec < 21474836 -> 0 <= usec < 1000000 ->
  timeval_to_jiffies (sec, usec) = sec * 100 + usec / 10000 + (if usec =? 0 then 0 else 1).
Proof.
  intros Hs Hn. unfold timeval_to_jiffies. cbn [fst snd]. destruct jiffies_constants as (ET & ES & E1 & _ & E2 & E3 & EM & _).
  rewrite EM. rewrite u32_small by width_lia. rewrite (proj2 (Z.leb_gt _ _)) by lia.
  unfold USEC_JIFFIE_SC. rewrite E1, E2, E3, ES. replace (25 + 19 - 25) with 19 by lia.
  rewrite (u64_below usec) by lia. rewrite (u64_below (usec * _)) by lia. rewrite (u64_below (usec * _ + _)) by lia.
  rewrite (u64_below (sec * _)) by lia. rewrite u64_below.
  2:{ rewrite Z.shiftr_div_pow2 by lia. change (2 ^ 19) with 524288. change (2 ^ 25) with 33554432.
      change (2 ^ 44) with 17592186044416. change (2 ^ 64) with 18446744073709551616. div_lia. }
  rewrite scaled_sum by lia. change (19 + 25) with 44. rewrite usec_scale by done.
  destruct (usec =? 0); rewrite u32_small by (width_lia; div_lia); lia.
Qed.

Lemma jiffies_to_timespec_spec j : 0 <= j <= 2147483647 ->
  jiffies_to_timespec j = Some (j / 100, j mod 100 * 10000000).
Proof.
  intros Hj. unfold jiffies_to_timespec, do_div_llr. rewrite (proj1 jiffies_constants). unfold NSEC_PER_SEC.
  rewrite !(u64_below (j * 10000000)) by lia.
  rewrite do_div_spec by (unfold is_u64; change U64_MOD with (2 ^ 64); lia). cbn [mbind option_bind].
  replace (j * 10000000 / 1000000000) with (j / 100) by div_lia.
  replace ((j * 10000000) mod 1000000000) with (j mod 100 * 10000000) by div_lia.
  rewrite u32_small by (width_lia; div_lia). rewrite !s32_small by (width_lia; div_lia). done.
Qed.

Lemma jiffies_to_timeval_spec j : 0 <= j <= 2147483647 ->
  jiffies_to_timeval j = Some (j / 100, j mod 100 * 10000).
Proof.
  intros Hj. pose proof (jiffies_to_timespec_spec j Hj) as E. unfold jiffies_to_timespec, jiffies_to_timeval in *.
  destruct (do_div_llr _ _) as [[sec rem]|]; [|done]. cbn [mbind option_bind] in *. injection E as -> ->.
  do 2 f_equal. unfold NSEC_PER_USEC. rewrite Z.quot_div_nonneg by div_lia. div_lia.
Qed.

(** The least number of ticks that are not shorter than [t], in units of which a tick has [unit]. *)
Definition ticks_for (unit t j : Z) : Prop := t <= j * unit < t + unit.

(** C10: the conversions of include/linux/jiffies.h, in spite of the rounded factors of their
    multiplications.  timespec_to_jiffies gives the least number of ticks that is not shorter than the
    time, and the greatest time it handles for longer or negative ones; jiffies_to_timespec gives a normalized time,
    from which timespec_to_jiffies gives the ticks again; msecs_to_jiffies and usecs_to_jiffies never wait too short, and
    give the least number of ticks up to the limit at which they return MAX_JIFFY_OFFSET. *)
Theorem jiffies_conversions_correct :
  (forall sec nsec, 0 <= sec < MAX_SEC_IN_JIFFIES -> 0 <= nsec < NSEC_PER_SEC ->
    ticks_for TICK_NSEC (sec * NSEC_PER_SEC + nsec) (timespec_to_jiffies (sec, nsec))) /\
  (forall sec nsec, MAX_SEC_IN_JIFFIES <= u32 sec -> timespec_to_jiffies (sec, nsec) = MAX_SEC_IN_JIFFIES * HZ) /\
  (forall j, 0 <= j < MAX_SEC_IN_JIFFIES * HZ -> exists ts, jiffies_to_timespec j = Some ts /\
    0 <= ts.2 < NSEC_PER_SEC /\ ts.1 * NSEC_PER_SEC + ts.2 = j * TICK_NSEC /\ timespec_to_jiffies ts = j) /\
  (forall m, is_u32 m -> m <= msecs_to_jiffies m * 10 /\
    (m <= jiffies_to_msecs MAX_JIFFY_OFFSET -> ticks_for 10 m (msecs_to_jiffies m))) /\
  (forall u, is_u32 u -> u <= usecs_to_jiffies u * 10000 /\
    (u <= jiffies_to_usecs MAX_JIFFY_OFFSET -> ticks_for 10000 u (usecs_to_jiffies u))).
Proof.
  destruct jiffies_constants as (ET & _ & _ & _ & _ & _ & EM & EJ). rewrite ET, EM. unfold ticks_for, NSEC_PER_SEC, HZ.
  split_and!.
  - intros sec nsec Hs Hn. rewrite timespec_to_jiffies_spec by done. div_lia.
  - intros sec nsec Hs. unfold timespec_to_jiffies. cbn [fst snd]. rewrite EM, (proj2 (Z.leb_le _ _)) by done.
    by vm_compute.
  - intros j Hj. exists (j / 100, j mod 100 * 10000000). rewrite jiffies_to_timespec_spec by lia. cbn [fst snd].
    split_and!; [done|div_lia..|]. rewrite timespec_to_jiffies_spec by div_lia. div_lia.
  - intros m Hm. assert (El : jiffies_to_msecs MAX_JIFFY_OFFSET = 4294967276) by (by vm_compute).
    unfold msecs_to_jiffies. rewrite El, EJ. change (MSEC_PER_SEC / HZ) with 10.
    destruct (Z.ltb_spec 4294967276 m); [width_lia|]. rewrite u32_small by width_lia. div_lia.
  - intros u Hu. assert (El : jiffies_to_usecs MAX_JIFFY_OFFSET = 4294947296) by (by vm_compute).
    unfold usecs_to_jiffies. rewrite El, EJ. change (USEC_PER_SEC / HZ) with 10000.
    destruct (Z.ltb_spec 4294947296 u); [width_lia|]. rewrite u32_small by width_lia. div_lia.
Qed.

Lemma jiffies_conversions_witness :
  ticks_for TICK_NSEC 7020000001 (timespec_to_jiffies (7, 20000001)) /\ timespec_to_jiffies (7, 20000001) = 703 /\
  timespec_to_jiffies (-1, 0) = 2147483600 /\ ticks_for 10 25 (msecs_to_jiffies 25).
Proof.
  destruct jiffies_conversions_correct as (H1 & H2 & _ & H4 & _).
  split; [apply (H1 7 20000001); by_eval|]. split; [vm_compute; reflexivity|].
  split; [apply (H2 (-1) 0); by_eval|]. apply (H4 25); by_eval.
Defined.

(** timeval_to_jiffies takes a tick too many for a time that is a whole number of ticks: the factor
    of the microseconds is rounded up, and then the rest is rounded up once more. *)
Lemma timeval_one_tick_more sec usec : 0 <= sec < MAX_SEC_IN_JIFFIES -> 0 < usec < 1000000 -> usec mod 10000 = 0 ->
  timeval_to_jiffies (sec, usec) = (sec * 1000000 + usec) / 10000 + 1.
Proof.
  intros Hs Hu Hm. destruct jiffies_constants as (_ & _ & _ & _ & _ & _ & EM & _). rewrite EM in Hs.
  rewrite timeval_to_jiffies_spec by lia. rewrite (proj2 (Z.eqb_neq _ _)) by lia. div_lia.
Qed.

(** The ticks that jiffies_to_timeval converts do not come back. *)
Lemma timeval_roundtrip_fails : jiffies_to_timeval 1 = Some (0, 10000) /\ timeval_to_jiffies (0, 10000) = 2.
Proof. by vm_compute. Qed.
