(* ===== verification/WordOps.v ===== *)
(** The rest of the word primitives: the updates of include/asm-generic/bitops/non-atomic.h that return the
    old bit, and the counts of lib/hweight.c for other widths. *)
From stdpp Require Import base list option numbers.
From Stdlib Require Import ZArith Lia.
From S2P Require Import Prelude Bitops.

Local Open Scope Z_scope.

(** ** Updates that return the old bit *)

Definition __test_and_set_bit (nr : Z) (addr : list Z) : option (Z * list Z) :=
  let mask := BITOP_MASK nr in
  old ← array_get addr (BITOP_WORD nr);
  addr ← array_set addr (BITOP_WORD nr) (Z.lor old mask);
  Some (Z.b2z (negb (Z.land old mask =? 0)), addr).

Definition __test_and_clear_bit (nr : Z) (addr : list Z) : option (Z * list Z) :=
  let mask := BITOP_MASK nr in
  old ← array_get addr (BITOP_WORD nr);
  addr ← array_set addr (BITOP_WORD nr) (Z.land old (not32 mask));
  Some (Z.b2z (negb (Z.land old mask =? 0)), addr).

Definition __test_and_change_bit (nr : Z) (addr : list Z) : option (Z * list Z) :=
  let mask := BITOP_MASK nr in
  old ← array_get addr (BITOP_WORD nr);
  addr ← array_set addr (BITOP_WORD nr) (Z.lxor old mask);
  Some (Z.b2z (negb (Z.land old mask =? 0)), addr).

Lemma mask_test w nr : 0 <= nr -> Z.land w (BITOP_MASK nr) =? 0 = negb (Z.testbit w (nr mod 32)).
Proof.
  intros Hn. pose proof (Z.mod_pos_bound nr 32 ltac:(lia)) as Hm. destruct (Z.testbit w (nr mod 32)) eqn:E; simpl.
  - apply Z.eqb_neq. intros E0. apply (f_equal (fun v => Z.testbit v (nr mod 32))) in E0.
    rewrite Z.land_spec, E, BITOP_MASK_testbit, Z.bits_0, Z.eqb_refl in E0 by lia. done.
  - apply Z.eqb_eq, Z.bits_inj'. intros j Hj. rewrite Z.land_spec, BITOP_MASK_testbit, Z.bits_0 by lia.
    destruct (Z.eqb_spec j (nr mod 32)) as [->|]; [by rewrite E|apply andb_false_r].
Qed.

(** An update that returns the old bit is the update, and the bit that test_bit reads. *)
Lemma test_and_update ws nr (g : Z -> Z) ws' :
  words_ok ws -> 0 <= nr < nbits ws ->
  (p ← array_get ws (BITOP_WORD nr); array_set ws (BITOP_WORD nr) (g p)) = Some ws' ->
  (old ← array_get ws (BITOP_WORD nr); addr ← array_set ws (BITOP_WORD nr) (g old);
   Some (Z.b2z (negb (Z.land old (BITOP_MASK nr) =? 0)), addr)) = Some (Z.b2z (btest ws nr), ws').
Proof.
  intros Hok Hnr. destruct (array_get_word ws (BITOP_WORD nr) Hok (word_index _ _ Hnr)) as (w & -> & Hw & _).
  cbn [mbind option_bind]. intros ->. cbn [mbind option_bind]. rewrite mask_test, negb_involutive by lia.
  do 3 f_equal. unfold btest, BITOP_WORD, BITS_PER_LONG in *. by rewrite (list_lookup_total_correct _ _ _ Hw).
Qed.

(** ** lib/hweight.c *)

Definition hweight16 (w : Z) : Z :=
  let res := u32 (w - Z.land (shr32 w 1) 0x5555) in
  let res := u32 (Z.land res 0x3333 + Z.land (shr32 res 2) 0x3333) in
  let res := Z.land (u32 (res + shr32 res 4)) 0x0F0F in
  Z.land (u32 (res + shr32 res 8)) 0x00FF.

Definition hweight8 (w : Z) : Z :=
  let res := u32 (w - Z.land (shr32 w 1) 0x55) in
  let res := u32 (Z.land res 0x33 + Z.land (shr32 res 2) 0x33) in
  Z.land (u32 (res + shr32 res 4)) 0x0F.

(** The version for longs of 32 bits. *)
Definition hweight64 (w : Z) : Z := u32 (hweight32 (u32 (Z.shiftr w 32)) + hweight32 (u32 w)).

Lemma hweight8_spec w : is_u8 w -> hweight8 w = count_bits (Z.testbit w) 8.
Proof.
  intros Hw. destruct (hw_byte w) as (C & D & N & <-); [width_lia|]. unfold hweight8.
  fold (hw_byte1 w). rewrite (u32_small (hw_byte1 w)) by width_lia. fold (hw_byte2 (hw_byte1 w)).
  set (d := hw_byte2 (hw_byte1 w)) in *. rewrite (u32_small d) by width_lia. unfold shr32.
  rewrite Z.shiftr_div_pow2 by lia. change (2 ^ 4) with 16. rewrite u32_small by (width_lia; div_lia).
  change 0x0F with (Z.ones 4). by rewrite Z.land_ones by lia.
Qed.

Lemma hweight16_spec w : is_u16 w -> hweight16 w = count_bits (Z.testbit w) 16.
Proof.
  intros Hw. assert (exists b0 b1, 0 <= b0 < 256 /\ 0 <= b1 < 256 /\ w = cat b0 (cat b1 0))
    as (b0 & b1 & B0 & B1 & ->).
  { exists (w mod 256), (w / 256). unfold cat. unfold is_u16, U16_MOD in Hw. div_lia. }
  change 16%nat with (8 + (8 + 0))%nat. rewrite !count_bits_cat by done.
  destruct (hw_byte b0 B0) as (C0 & D0 & N0 & <-), (hw_byte b1 B1) as (C1 & D1 & N1 & <-).
  unfold hweight16. change 0x5555 with (cat 0x55 (cat 0x55 0)). change 0x3333 with (cat 0x33 (cat 0x33 0)).
  change 0x0F0F with (cat 15 (cat 15 0)).
  rewrite !cat_land_shift by lia. rewrite Z.land_0_r, !cat_sub. fold (hw_byte1 b0) (hw_byte1 b1).
  set (c0 := hw_byte1 b0) in *. set (c1 := hw_byte1 b1) in *.
  rewrite Z.sub_0_r. rewrite (u32_small (cat c0 _)) by (unfold cat; width_lia).
  rewrite !cat_land_shift, !cat_land by lia. rewrite !Z.land_0_r, !cat_add. fold (hw_byte2 c0) (hw_byte2 c1).
  set (d0 := hw_byte2 c0) in *. set (d1 := hw_byte2 c1) in *.
  rewrite Z.add_0_r. rewrite (u32_small (cat d0 _)) by (unfold cat; width_lia).
  rewrite (u32_small (cat d0 _ + _)) by (unfold shr32; rewrite Z.shiftr_div_pow2 by lia;
    change (2 ^ 4) with 16; unfold cat; width_lia; div_lia).
  rewrite !hweight_nibbles by (unfold cat; div_lia). rewrite Z.land_0_r.
  set (e0 := (d0 + d0 / 16) mod 16). set (e1 := (d1 + d1 / 16) mod 16).
  assert (0 <= e0 <= 8 /\ 0 <= e1 <= 8) by (unfold e0, e1; div_lia).
  clearbody e0 e1. unfold shr32. rewrite !Z.shiftr_div_pow2 by lia. change (2 ^ 8) with 256. unfold cat.
  change 0x00FF with (Z.ones 8). rewrite Z.land_ones by lia. change (2 ^ 8) with 256.
  unfold u32, U32_MOD. change (2 ^ 32) with 4294967296. simpl count_bits. div_lia.
Qed.

Lemma hweight64_spec w : 0 <= w < 2 ^ 64 -> hweight64 w = count_bits (Z.testbit w) 64.
Proof.
  intros Hw. unfold hweight64. rewrite !hweight32_spec by apply u32_range.
  change 64%nat with (32 + 32)%nat. rewrite count_bits_app.
  assert (E1 : count_bits (Z.testbit (u32 w)) 32 = count_bits (Z.testbit w) 32).
  { apply count_bits_ext. intros i Hi. unfold u32, U32_MOD. apply Z.mod_pow2_bits_low. lia. }
  assert (E2 : count_bits (Z.testbit (u32 (Z.shiftr w 32))) 32 =
    count_bits (fun i => Z.testbit w (Z.of_nat 32 + i)) 32).
  { apply count_bits_ext. intros i Hi. unfold u32, U32_MOD. rewrite Z.mod_pow2_bits_low by lia.
    rewrite Z.shiftr_spec by lia. f_equal. lia. }
  rewrite E1, E2. pose proof (count_bits_bound (Z.testbit w) 32).
  pose proof (count_bits_bound (fun i => Z.testbit w (Z.of_nat 32 + i)) 32).
  rewrite u32_small by width_lia. lia.
Qed.

(** The updates that return a bit return the one that test_bit reads, stay in bounds and
    change what the plain updates change; every hweight counts the set bits of its width. *)
Theorem test_and_update_correct ws nr : words_ok ws -> 0 <= nr < nbits ws ->
  (exists ws', __test_and_set_bit nr ws = Some (Z.b2z (btest ws nr), ws') /\ __set_bit nr ws = Some ws' /\
    forall i, 0 <= i -> btest ws' i = (i =? nr) || btest ws i) /\
  (exists ws', __test_and_clear_bit nr ws = Some (Z.b2z (btest ws nr), ws') /\ __clear_bit nr ws = Some ws' /\
    forall i, 0 <= i -> btest ws' i = negb (i =? nr) && btest ws i) /\
  (exists ws', __test_and_change_bit nr ws = Some (Z.b2z (btest ws nr), ws') /\ __change_bit nr ws = Some ws' /\
    forall i, 0 <= i -> btest ws' i = xorb (i =? nr) (btest ws i)).
Proof.
  intros Hok Hnr. split_and!.
  - destruct (__set_bit_spec ws nr Hok Hnr) as (ws' & E & _ & _ & H). exists ws'. split_and!; [|done|done].
    by apply (test_and_update ws nr (fun p => Z.lor p (BITOP_MASK nr)) ws' Hok Hnr).
  - destruct (__clear_bit_spec ws nr Hok Hnr) as (ws' & E & _ & _ & H). exists ws'. split_and!; [|done|].
    + by apply (test_and_update ws nr (fun p => Z.land p (not32 (BITOP_MASK nr))) ws' Hok Hnr).
    + intros i Hi. by rewrite H.
  - destruct (__change_bit_spec ws nr Hok Hnr) as (ws' & E & _ & _ & H). exists ws'. split_and!; [|done|done].
    by apply (test_and_update ws nr (fun p => Z.lxor p (BITOP_MASK nr)) ws' Hok Hnr).
Qed.

Lemma test_and_update_witness : exists ws', __test_and_clear_bit 34 [0x10; 0x4] = Some (1, ws') /\
  btest ws' 34 = false.
Proof.
  destruct (proj1 (proj2 (test_and_update_correct [0x10; 0x4] 34 ltac:(words_by_eval) ltac:(by_eval))))
    as (ws' & E & _ & H). exists ws'. split; [exact E|]. rewrite H by lia. reflexivity.
Defined.
