(* ===== verification/CtypeClasses.v ===== *)
(** The classes of include/linux/ctype.h that the text conversions do not use, and what the table makes of
    all of them: ASCII below 128, Latin-1 above. *)
From stdpp Require Import base list option numbers.
From Stdlib Require Import ZArith Lia.
From S2P Require Import Prelude Ctype.

Local Open Scope Z_scope.

Definition ismask (c mask : Z) : bool := negb (Z.land (__ismask c) mask =? 0).

Definition isalnum (c : Z) : bool := ismask c (Z.lor (Z.lor _U _L) _D).
Definition isalpha (c : Z) : bool := ismask c (Z.lor _U _L).
Definition iscntrl (c : Z) : bool := ismask c _C.
Definition isgraph (c : Z) : bool := ismask c (Z.lor (Z.lor (Z.lor _P _U) _L) _D).
Definition isprint (c : Z) : bool := ismask c (Z.lor (Z.lor (Z.lor (Z.lor _P _U) _L) _D) _SP).
Definition ispunct (c : Z) : bool := ismask c _P.
Definition isupper (c : Z) : bool := ismask c _U.

Definition isascii (c : Z) : bool := u8 c <=? 0x7f.
Definition toascii (c : Z) : Z := Z.land (u8 c) 0x7f.

Definition tolower (c : Z) : Z := if isupper c then u8 (c - (65 - 97)) else c.

(** ** The classes as intervals *)

Definition between (a b c : Z) : bool := (a <=? c) && (c <=? b).

(** What the C locale says of ASCII. *)
Definition ascii_classes (c : Z) : bool :=
  eqb (isupper c) (between 65 90 c) && eqb (islower c) (between 97 122 c) && eqb (isdigit c) (between 48 57 c) &&
  eqb (iscntrl c) (between 0 31 c || (c =? 127)) && eqb (isprint c) (between 32 126 c) &&
  eqb (isgraph c) (between 33 126 c) && eqb (isspace c) (between 9 13 c || (c =? 32)) &&
  eqb (ispunct c) (isgraph c && negb (isalnum c)) &&
  (tolower c =? (if between 65 90 c then c + 32 else c)) &&
  (toupper c =? (if between 97 122 c then c - 32 else c)).

(** What holds of all characters. *)
Definition latin_classes (c : Z) : bool :=
  eqb (isalpha c) (isupper c || islower c) && eqb (isalnum c) (isalpha c || isdigit c) &&
  eqb (isgraph c) (isalnum c || ispunct c) && eqb (isprint c) (isgraph c || (c =? 32) || (c =? 160)) &&
  negb (isupper c && islower c) && negb (iscntrl c && isprint c) &&
  (negb (isupper c) || (islower (tolower c) && (toupper (tolower c) =? c))) &&
  (negb (islower c) || (c =? 223) || (c =? 255) || (isupper (toupper c) && (tolower (toupper c) =? c))) &&
  eqb (isascii c) (c <? 128) && (toascii c =? c mod 128).

(** The classes of the table are those of ASCII in the lower half; on all 256 characters the
    composed classes are what their names say, and the two case functions are inverse to each other on
    letters, except for the two letters of Latin-1 that have no capital there. *)
Theorem ctype_classes_correct c : is_u8 c ->
  latin_classes c = true /\ (c < 128 -> ascii_classes c = true).
Proof.
  intros Hc. split; [revert c Hc; apply (for_chars latin_classes); by vm_compute|]. intros Hlt.
  assert (H : (negb (c <? 128) || ascii_classes c) = true).
  { revert Hc. clear Hlt. revert c. apply (for_chars (fun c => negb (c <? 128) || ascii_classes c)). by vm_compute. }
  by rewrite (proj2 (Z.ltb_lt _ _) Hlt) in H.
Qed.

Lemma ctype_classes_witness : latin_classes 70 = true /\ ascii_classes 70 = true.
Proof.
  split; [exact (proj1 (ctype_classes_correct 70 ltac:(by_eval)))|].
  exact (proj2 (ctype_classes_correct 70 ltac:(by_eval)) ltac:(lia)).
Defined.

(** The sharp s (223) becomes an inverted question mark, and the y with two dots (255) a sharp s. *)
Lemma toupper_latin_exceptions : islower 223 = true /\ toupper 223 = 191 /\ isalpha (toupper 223) = false /\
  islower 255 = true /\ toupper 255 = 223 /\ isupper (toupper 255) = false.
Proof. by vm_compute. Qed.
